(* ===== verification/_CoqProject ===== *)
-Q . S2P
Prelude.v
Lines.v
Frame.v
Shutdown.v
Json.v
JsonLex.v
JsonParse.v
JsonGrammar.v
JsonText.v
JsonRfc.v
JsonWrite.v
Dtoa.v
Grisu.v
GrisuDigits.v
Strtod.v
FloatText.v
ModuleJson.v
Serializer.v
SerializerText.v
SerializerDump.v
RustText.v
Token.v
Zk.v
RustPolicy.v
Capability.v
Security.v
RootRuntime.v
Provider.v
Services.v
Policy.v
Daemon.v
CapTree.v
Bus.v
Kernel.v
Sandbox.v
Platform.v
Zygisk.v
Shield.v
Spoof.v
SpoofJson.v
SpoofEarly.v
DaemonJson.v
Su.v
Client.v
Native.v
