(* ===== verification/Prelude.v ===== *)
(** * AstraVeil: a verification library for the root daemon, its kernel module and the zygisk module

    AstraVeil is an Android root framework.  Its privileged part is the daemon
    [astrad] (C++, under [daemon/]), which serves requests of the application
    and of modules over a unix socket, decides about them, and reaches the
    device through root providers, a runtime of its own, a module sandbox and
    the kernel module [kernel/astra_root.c].  Beside it stand native tools
    ([native/]): an IPC client, a root tool and probes of the application; and
    a zygisk module ([module-spoof/]) that runs inside application processes,
    hides the traces of root there and spoofs system properties.  This library
    models these parts.

    ** The parts and how they interact

    A connection enters through [socket_server.cpp] (file Frame), which checks
    the peer, reads length-prefixed frames and passes each payload to the
    handler of [main.cpp] (file Daemon).  The handler dispatches on the first
    byte.  An Execute request is decoded by [json_codec.cpp] (file Json), must
    carry an approval, and runs through [command_executor.cpp] (file Services).
    Permission requests go to the security engine over the permission database
    and the audit log (file Security); capability and provider requests to the
    probes and the detectors (files Capability, Services); module requests to
    the module manager (file Security).  Root operations of the other entry
    path, [request_handler.cpp], resolve a provider in the registry (file
    Provider), whose own backend is the AstraRoot runtime (file RootRuntime);
    the execution pipeline asks the policy bridge to the Rust engine (file
    Policy).  At start-up the daemon may load policies into the kernel module
    through its bridge (file Kernel); a signal stops the server (file Shutdown,
    which also has the older server's stop).  The Rust library that is linked
    into the daemon (files Policy, RustPolicy, Token, Zk) decides about
    executions and offers capability tokens and proofs.  Modules run in forked, sandboxed processes (file
    Sandbox), hold delegated capabilities (file CapTree) and talk over the
    message bus under leases (file Bus).

    The command-line client (file Client) is the other end of the socket: its
    frames are composed with the server's loop and the daemon's handler.  The
    root tool and the privilege test (file Su) call the kernel module's ioctl
    directly.  In an application process the framework loads the zygisk module
    through the interface of its header (file Zygisk); the module's entry point
    (file Spoof; the earlier copy of the sources in SpoofEarly) reads two kinds
    of configuration file with the JSON library it includes
    (files JsonLex, JsonParse, Dtoa, Serializer, ModuleJson, SpoofJson), installs
    the property and GL hooks, and the environment shield (file Shield), which
    filters what the application reads of its own [/proc] files.

    ** Files

    - Prelude (this file): strings and bytes as the C++ code uses them, machine
      integers, the operating system, and the tactics and lemmas shared by all.
    - Lines: searching in a string and splitting it into lines.
    - Frame: [ipc/socket_server.cpp], [ipc/ipc_server.cpp] and the sender of
      [native/p4_ipc_client.c].  State: the connection's pending events and
      what was written.  Operations keep the names of the functions.
    - Shutdown: the signal handlers of [main.cpp]; [ipc/ipc_server.cpp] with
      its worker thread, as a step relation of two threads.
    - Json: [ipc/json_codec.cpp] and the hand-written escapers.
    - JsonLex, JsonParse: the lexer, the parser loop and the value builder of
      [module-spoof/jni/include/json.hpp], what [json::parse] runs.
    - JsonGrammar: the grammar of JSON on tokens as a reference for the parser
      loop; JsonText, JsonRfc: the grammar of RFC 8259 on characters.
    - JsonWrite: the serializer and the escapers against that grammar, and the
      contract of a JSON library; DaemonJson: the daemon's answers and requests
      as JSON, and what a log that is not UTF-8 does to them.
    - Dtoa: how [json.hpp] writes a floating-point number (Grisu2); Grisu,
      GrisuDigits: its arithmetic and its digits; Strtod: what is assumed of
      the C library's [strtod], and a function that satisfies it; FloatText:
      the text that is written, and that it is read back.
    - ModuleJson: the parser and the default of [dump] of [json.hpp] put together.
    - Serializer: the class [serializer] of [json.hpp] with all its options and
      its buffers; SerializerText: escaping, and the repair of text that is not
      UTF-8; SerializerDump: the layouts, and that they are read back.
    - RustText, Token, Zk, RustPolicy: [rust/src/], the encodings,
      [capability_token.rs], [zk_capability.rs]; [policy.rs], [sandbox.rs] and
      [attestation.rs].
    - Capability: [capability/capability.cpp], [capability_matrix.cpp],
      [probe_detector.cpp].
    - Security: [security/] (permissions, engine, risk, audit, signature,
      SELinux, policy loader) and [module/] (manager, checker, runtime, parser).
    - RootRuntime: [root/].
    - Provider: [provider/], [capability_detector.cpp], [request_handler.cpp].
    - Services: [executor/], [service/], [provider_detector.cpp], the router.
    - Policy: [security_bridge/], [execution/execution_pipeline.cpp] and the
      Rust decision behind the bridge ([execution_policy.rs], [ffi.rs]).
    - Daemon: [main.cpp], [runtime/], [core/].
    - CapTree: [security/capability_tree.cpp].
    - Bus: [ipc/module_bus.cpp], [security/lease_tracker.cpp].
    - Kernel: [kernel/astra_root.c], [kernel_bridge.cpp], [policy_to_kernel.cpp].
    - Sandbox: [sandbox/], [module/module_runner.cpp].
    - Platform: [logger/], [boot/], [platform/], [recovery/], [update/],
      [android/].
    - Zygisk: [module-spoof/jni/include/zygisk.hpp], its table of functions and
      the registration of a module.
    - Shield: [module-spoof/jni/src/env_shield.cpp].
    - Spoof: [module-spoof/jni/src/entry.cpp], [config_reader.cpp],
      [property_hook.cpp], [gl_spoof.cpp]; SpoofJson: the same with its parser;
      SpoofEarly: the copy of these sources beside [src/], compared with them.
    - Su: [native/astra_su.c], [native/test_root.c].
    - Client: [native/p4_ipc_client.c], the frame codec of the tests.
    - Native: [native/src/main/cpp/].

    ** How the code is modelled

    Each C++ class is a record of its fields and each method a function that
    takes and returns the record.  A function that talks to the system runs in
    the monad [Sys] below: a [World] answers each call, possibly depending on
    everything done before, and the calls are recorded in a trace, so that a
    theorem about all worlds covers every error the system may report.
    Methods that hold a mutex throughout are single steps; where a lock is
    released in between ([ModuleRunner::start] and [stop]) the later state is
    an argument.  The property hooks are run by one thread of the application;
    others that hold their mutex meanwhile only delay it.  Interleavings of
    requests are sequences of steps.  An exception that leaves a handler is
    [None], which ends the process.  [std::filesystem::exists] throws when the
    [stat] behind it fails with another error than a missing file
    ([sys_fs_exists]); its callers pass that on with [let?].  A [write] to a
    peer that does not read may block for ever: the script of a connection
    says where, and the loop's result then says so.  A [strcpy] that leaves
    its buffer has no result.  Integers are [Z] with
    the conversions of their width written out ([u8], [u32], [u64], [i32]);
    [std::string] is a sequence of bytes.  The lexer's functions take what to
    do next and what to do on an error, as the early returns of the source do.

    Code that is not part of the repository's sources is a parameter with its
    documented behaviour as a law: the policy engine's C symbols
    ([PolicyFFI]), the Rust crates ([Sha256], [TokenCrates],
    [ZkCrates]), the kernel's namespaces and credentials ([KernelApi]), the effect of a loaded seccomp filter ([seccomp_enforced]), setuid and setgid
    ([SetIds] with [SetIdsLaws]), the hooking library's answers.  The JSON
    library is the class [JsonLib] for its clients, with the laws [JsonLibLaws];
    for the zygisk module its own library is modelled and put there, with the C
    library's [strtod] (class [Strtod]) left, of which the laws [StrtodLaws] say
    that it rounds to the nearest number.  The
    interface of the root providers is the class [RootProvider] with its laws
    [RootProviderLaws]; clients are proved against the class and each backend
    discharges the laws.

    ** What the theorems show

    - Requests (Daemon, DaemonJson, Frame, Json, Client): a stream of well-formed
      frames is served in order, one answer each; bad lengths and peers are
      refused; the loop of a connection returns unless the handler throws or the
      client stops reading, which keeps the server for ever; every handler
      answers or is one of the stated crashes, among them a log line that is not
      UTF-8 and a [stat] that fails; a command runs only from an approved
      Execute request; the permission database refines the
      history of grants; every answer is a JSON text, and an Execute request
      written as JSON arrives as it is; the client and the server agree on the
      frames and a request comes back as the handler's answer.
    - JSON (Json, JsonLex, JsonParse, JsonGrammar, JsonText, JsonRfc, Dtoa to
      FloatText, ModuleJson, Serializer, SerializerText, SerializerDump): the
      serializer accepts exactly UTF-8; the parser is total, without a failing assertion, its values are well-formed, it
      accepts exactly the texts of RFC 8259; every finite floating-point number
      is written within its buffer and read back bit by bit, and the parser and
      the serializer invert each other.  In full, the serializer stays within its
      buffers on every string, escapes and repairs it as specified or names the
      first bad byte; what it writes, with any indentation up to 1024 and any
      option, is read back as the same value; its default is the plain [dump] of
      Json.
    - Rust library (Token, Zk, RustPolicy): a presenter whose signatures are all
      values that the HMAC crate gave for issued tokens cannot forge or change a
      token whose names hold no colon, nor use it after its expiry; the
      zero-knowledge check needs no secret; the policy engine decides by the
      last policy registered.
    - Ending (Shutdown): the handlers stop the server once; from a call of
      [stop] on the older server finitely many steps follow in every
      interleaving with its clients, and the states in which they end are
      those stated: [stop] has returned, or waits for a worker that waits for a
      client.
    - Decisions (Security, Policy, Provider): authorisation refines the
      history, risk scores are the stated sums within their range, the pipeline
      and the bridge decide as specified, the provider order is the stated one.
    - Kernel: with enforcement on, credentials change only by an entry that
      root loaded; every branch of GET_CAPS; the start-up sync and what it
      leaves reachable.
    - Isolation (Sandbox, RootRuntime): module code runs only after the mounts,
      the filter and the rules have been performed as they are written down
      there once more, literally; with the filter in force no landlock rule is;
      which signals stopping a module sends and when, and what it removes from
      the table if the module was restarted meanwhile; the runtime mounts only
      below its own directory and only in a new namespace.
    - Platform: the ring of log lines, the boot magic, the release detection,
      the crash counters.
    - Modules (CapTree, Bus): children hold subsets of their parents in every
      reachable tree and revocation cascades; the bus delivers only what its
      checks admit, in order; the rate limiter's true bound; sweeping leases
      never grants anything.
    - Zygisk module (Zygisk, Shield, Spoof, SpoofJson, SpoofEarly): a module
      that hooked a process is never unloaded; the earlier copy is refined by
      the current one; the filters drop exactly the lines they name; the hooked
      [openat] refines a contract written without its filters: hidden paths are
      missing, edited files are anonymous copies with the right lines, and no
      descriptor is left open; the switches fail safe; when a thread's property
      reads return, when they wait for themselves and when they overrun a
      buffer; a profile is served from the text of its file, through the
      module's entry point, to the application.
    - Native tools (Su, Native): the root tool yields root only to a uid that
      the kernel module's table grants; the probes that exist twice agree.

    Several theorems record behaviour that differs from a comment of the code;
    they are stated as the code behaves.

    ** Fuel and bounds

    [Frame.handle_client] takes fuel [client_fuel], one more than the bytes
    that can still arrive, and [handle_client_total] shows that it is enough.
    The walks of CapTree take [tree_fuel], two more than the largest depth, and
    the theorems state that their results exist.  [Services.drain] takes more
    fuel than the output has bytes, [Client.recv_frame] and the line loops of
    Shield likewise one more than the length.  The parser takes [parse_fuel],
    two more than the length of the input, since every round reads a byte, and
    [parse_total] shows that more changes nothing.  The loops of Dtoa take 64
    (shifts of a 64-bit number), 20 (digits behind the point) and 10 (steps of
    the last digit); [write_float_round_trip] shows that the writer returns a
    text for every finite number, so that this is enough.  The loop over a string
    to escape takes [escape_fuel], twice its length, since a byte is read at most
    twice; [count_digits] takes 6 and [digits_loop] 11 rounds for the twenty
    digits of a 64-bit number; the theorems of SerializerText and SerializerDump
    have no result without them.  The remaining loops
    are structural.  The bus's order theorem assumes fewer than 2^64 operations,
    the width of its sequence numbers.

    ** Not modelled

    The Kotlin application and its libraries; the SDK headers and examples; the
    vendored headers other than the JSON parser, and of [json.hpp] what
    [json::parse] and [dump] do not reach (binary formats, callbacks, comments,
    JSON pointers), values of the binary and the discarded kind, which no parser
    makes, the path for floating-point types other than IEEE, and the wording of
    the parser's exceptions; third-party crates and libraries, which are parameters; build
    files.  Logging calls inside the modelled functions are left out. *)

From Stdlib Require Import ZArith Ascii String Lia.
From stdpp Require Import base numbers list strings gmap pretty.

(** ** Notation scope *)

Declare Scope astra_scope.
Delimit Scope astra_scope with astra.
Open Scope astra_scope.

(** ** Strings and bytes

    A C++ [std::string], [const char*] or [std::vector<uint8_t>] is a byte
    sequence; it is modelled by [string], whose characters are 8-bit
    [ascii] values. *)

#[global] Arguments String.append : simpl nomatch.

(** The double quote as a one-byte string, and a quoted string. *)
Definition dq : string := String (ascii_of_nat 34) EmptyString.
Definition bslash : ascii := ascii_of_nat 92.
Definition newline : ascii := ascii_of_nat 10.
Definition nl : string := String newline EmptyString.
Definition quoted (s : string) : string := dq +:+ s +:+ dq.

Notation "'«' s '»'" := (quoted s) (at level 0, s at level 200, format "« s »") : astra_scope.

Definition byte_val (c : ascii) : Z := Z.of_N (N_of_ascii c).
Definition byte_of (z : Z) : ascii := ascii_of_N (Z.to_N (z mod 256)).
Definition str_size (s : string) : Z := Z.of_nat (String.length s).
Definition is_empty (s : string) : bool := match s with EmptyString => true | _ => false end.
Definition str_eqb (s t : string) : bool := bool_decide (s = t).

(** [std::string::find] from position [pos]; [None] is [npos]. *)
Definition str_find (needle s : string) (pos : nat) : option nat := String.index pos needle s.
Definition contains (s needle : string) : bool :=
  match str_find needle s 0 with Some _ => true | None => false end.
(** [s.substr(n)] and [s.substr(0, n)]. *)
Definition drop_str (n : nat) (s : string) : string := String.substring n (String.length s - n) s.
Definition take_str (n : nat) (s : string) : string := String.substring 0 n s.
(** [strncmp(path, prefix, strlen(prefix)) == 0]. *)
Definition starts_with (pre s : string) : bool := String.prefix pre s.

(** [std::getline] until end of file: the lines of [s] without their
    newline; a trailing newline does not produce an empty last line. *)
Fixpoint getlines (s : string) : list string :=
  match s with
  | EmptyString => []
  | String c s' =>
      if Ascii.eqb c newline then EmptyString :: getlines s'
      else match getlines s' with
           | [] => [String c EmptyString]
           | l :: ls => String c l :: ls
           end
  end.

(** The same lines with their terminating newline kept. *)
Fixpoint lines_keep (s : string) : list string :=
  match s with
  | EmptyString => []
  | String c s' =>
      if Ascii.eqb c newline then nl :: lines_keep s'
      else match lines_keep s' with
           | [] => [String c EmptyString]
           | l :: ls => String c l :: ls
           end
  end.

Definition first_getline (s : string) : string :=
  match getlines s with [] => EmptyString | l :: _ => l end.

(** What [c_str()] shows of a string to C code: the bytes before the first
    NUL. *)
Fixpoint c_str (s : string) : string :=
  match s with
  | EmptyString => EmptyString
  | String c s' => if (byte_val c =? 0)%Z then EmptyString else String c (c_str s')
  end.

Fixpoint concat_str (ls : list string) : string :=
  match ls with [] => EmptyString | l :: ls' => l +:+ concat_str ls' end.

(** [trim] of the daemon: [find_first_not_of] / [find_last_not_of] over
    space, tab, carriage return and newline. *)
Definition is_blank (c : ascii) : bool :=
  let n := nat_of_ascii c in
  (n =? 32)%nat || (n =? 9)%nat || (n =? 13)%nat || (n =? 10)%nat.
Fixpoint drop_blank (l : list ascii) : list ascii :=
  match l with
  | c :: l' => if is_blank c then drop_blank l' else l
  | [] => []
  end.
Definition trim (s : string) : string :=
  String.string_of_list_ascii
    (rev (drop_blank (rev (drop_blank (String.list_ascii_of_string s))))).

(** [std::filesystem::path::parent_path] of a path without a trailing slash. *)
Definition is_slash (c : ascii) : bool := Ascii.eqb c (ascii_of_nat 47).
Fixpoint drop_until_slash (l : list ascii) : list ascii :=
  match l with c :: l' => if is_slash c then l else drop_until_slash l' | [] => [] end.
Fixpoint drop_slashes (l : list ascii) : list ascii :=
  match l with c :: l' => if is_slash c then drop_slashes l' else l | [] => [] end.
Definition parent_path (s : string) : string :=
  match drop_until_slash (rev (String.list_ascii_of_string s)) with
  | [] => EmptyString
  | dir => match drop_slashes dir with
           | [] => "/"
           | dir' => String.string_of_list_ascii (rev dir')
           end
  end.

(** Decimal rendering, [std::to_string] and [operator<<] on integers. *)
Definition show_nat (n : nat) : string := pretty.pretty n.
Definition show_Z (z : Z) : string := pretty.pretty z.

(** Reading a decimal integer: leading white space, an optional sign, then
    as many digits as there are; 0 when there is none. *)
Definition is_space (c : ascii) : bool :=
  let n := nat_of_ascii c in (n =? 32)%nat || ((9 <=? n)%nat && (n <=? 13)%nat).
Definition digit_val (c : ascii) : option Z :=
  let n := byte_val c in
  if ((48 <=? n) && (n <=? 57))%Z then Some (n - 48)%Z else None.
Fixpoint scan_digits (acc : Z) (s : string) : Z :=
  match s with
  | String c s' => match digit_val c with
                   | Some d => scan_digits (10 * acc + d) s'
                   | None => acc
                   end
  | EmptyString => acc
  end%Z.
Definition scan_signed (s : string) : Z :=
  match s with
  | String c s' =>
      if Ascii.eqb c (ascii_of_nat 45) then (- scan_digits 0 s')%Z
      else if Ascii.eqb c (ascii_of_nat 43) then scan_digits 0 s'
      else scan_digits 0 s
  | EmptyString => 0%Z
  end.
Fixpoint scan_int (s : string) : Z :=
  match s with
  | String c s' => if is_space c then scan_int s' else scan_signed s
  | EmptyString => 0%Z
  end.

(** [stream >> token], one after the other: the words between white space. *)
Fixpoint words_from (cur : string) (s : string) : list string :=
  match s with
  | EmptyString => if is_empty cur then [] else [cur]
  | String c s' =>
      if is_space c then
        (if is_empty cur then [] else [cur]) ++ words_from EmptyString s'
      else words_from (cur +:+ String c EmptyString) s'
  end.
Definition words (s : string) : list string := words_from EmptyString s.

(** The status of [wait] and [pclose]. *)
Definition WIFEXITED (status : Z) : bool := (Z.land status 127 =? 0)%Z.
Definition WEXITSTATUS (status : Z) : Z := Z.land (Z.shiftr status 8) 255.
Definition WTERMSIG (status : Z) : Z := Z.land status 127.
(** [((signed char) ((status & 0x7f) + 1) >> 1) > 0]. *)
Definition WIFSIGNALED (status : Z) : bool :=
  let t := WTERMSIG status in ((1 <=? t) && (t <=? 126))%Z.

(** A [std::map] keyed by strings: its entries in ascending key order.
    [smap_set] is [m[key] = v]. *)
Fixpoint smap_set {A} (key : string) (v : A) (m : list (string * A)) : list (string * A) :=
  match m with
  | [] => [(key, v)]
  | (k, u) :: m' =>
      match String.compare key k with
      | Lt => (key, v) :: m
      | Eq => (key, v) :: m'
      | Gt => (k, u) :: smap_set key v m'
      end
  end.
Fixpoint smap_find {A} (key : string) (m : list (string * A)) : option A :=
  match m with
  | [] => None
  | (k, v) :: m' => if str_eqb key k then Some v else smap_find key m'
  end.

(** ** Machine integers: a w-bit integer is a [Z], conversions are explicit. *)

Definition u8 (z : Z) : Z := z mod 2 ^ 8.
Definition u32 (z : Z) : Z := z mod 2 ^ 32.
Definition u64 (z : Z) : Z := z mod 2 ^ 64.
Definition i32 (z : Z) : Z := (z + 2 ^ 31) mod 2 ^ 32 - 2 ^ 31.

(** ** The operating system

    Every call the code makes into the kernel, libc, libdl or libseccomp is
    an operation of [sysop]; what the call answers is given by a [World],
    an oracle that may depend on every operation performed before.  Code
    that talks to the system is written in the monad [Sys], which passes
    the world and the trace of operations performed so far. *)

Inductive sysop :=
| OpExists (path : string)                 (* stat / access(F_OK) *)
| OpRead (path : string)                   (* open for reading and read to the end *)
| OpWrite (path data : string)             (* open with truncation and write *)
| OpAppend (path data : string)            (* open in append mode and write *)
| OpMkdirs (path : string)                 (* filesystem::create_directories *)
| OpRemove (path : string)
| OpPopen (cmd : string)                   (* popen(cmd, r), read, pclose *)
| OpNow                                    (* system_clock::now *)
| OpUnshare (flags : Z)
| OpMount (source target fstype : string) (flags : Z) (data : string)
| OpUmount (target : string) (flags : Z)
| OpKill (pid sig : Z)
| OpWaitpid (pid : Z) (nohang : bool)
| OpExit (code : Z)                        (* _exit *)
| OpDlopen (path : string)
| OpDlsym (symbol : string)
| OpCallEntry                              (* the call through the resolved symbol *)
| OpIoctl (fd cmd : Z)
| OpSeccompAllow (sys : string)            (* seccomp_rule_add(SCMP_ACT_ALLOW) *)
| OpSeccompLoad
| OpLandlock (name path : string) (arg : Z)  (* the landlock_* system calls *)
| OpCall (name : string) (sargs : list string) (zargs : list Z).  (* any other call *)

#[global] Instance sysop_eq_dec : EqDecision sysop.
Proof. solve_decision. Defined.

Abbreviation trace := (list sysop).

Record World := {
  w_exists : trace -> string -> bool;
  w_read   : trace -> string -> option string;
  w_popen  : trace -> string -> option (string * Z);
  w_now    : trace -> string;
  w_int    : trace -> sysop -> Z;
}.

Definition Sys (A : Type) : Type := World -> trace -> A * trace.

Definition ret {A} (a : A) : Sys A := fun _ h => (a, h).
Definition bind {A B} (c : Sys A) (k : A -> Sys B) : Sys B :=
  fun w h => let '(a, h') := c w h in k a w h'.

Notation "'let!' x := c 'in' k" := (bind c (fun x => k))
  (at level 10, x binder, c at level 100, k at level 200) : astra_scope.
Notation "c ;;; k" := (bind c (fun _ => k))
  (at level 100, k at level 200, right associativity) : astra_scope.

(** The primitive calls. *)
Definition sys_exists (p : string) : Sys bool :=
  fun w h => (w_exists w h p, h ++ [OpExists p]).
Definition sys_read (p : string) : Sys (option string) :=
  fun w h => (w_read w h p, h ++ [OpRead p]).
Definition sys_popen (cmd : string) : Sys (option (string * Z)) :=
  fun w h => (w_popen w h cmd, h ++ [OpPopen cmd]).
Definition sys_now : Sys string :=
  fun w h => (w_now w h, h ++ [OpNow]).
Definition sys_int (o : sysop) : Sys Z :=
  fun w h => (w_int w h o, h ++ [o]).
Definition sys_ok (o : sysop) : Sys bool :=
  let! r := sys_int o in ret (r =? 0)%Z.
Definition sys_do (o : sysop) : Sys unit :=
  fun w h => (tt, h ++ [o]).

(** [std::filesystem::exists(p)] without an error code: a [stat] that fails
    with another error than that there is no such file ([EACCES], [ELOOP],
    [EIO], ...) throws.  [w_int] answers the call with the number of such an
    error when it is positive.  [None] is the exception. *)
Definition stat_error (w : World) (h : trace) (p : string) : bool :=
  (0 <? w_int w h (OpExists p))%Z.
Definition sys_fs_exists (p : string) : Sys (option bool) :=
  fun w h => (if stat_error w h p then None else Some (w_exists w h p), h ++ [OpExists p]).

(** An exception of [c] leaves the rest of the function. *)
Definition try_bind {A B} (c : Sys (option A)) (k : A -> Sys (option B)) : Sys (option B) :=
  bind c (fun r => match r with Some a => k a | None => ret None end).
Notation "'let?' x := c 'in' k" := (try_bind c (fun x => k))
  (at level 10, x binder, c at level 100, k at level 200) : astra_scope.

(** ** Reasoning about traces

    [emits P c]: whatever the world answers, running [c] only appends
    operations that satisfy [P] to the trace. *)
Definition emits {A} (P : sysop -> Prop) (c : Sys A) : Prop :=
  forall w h, exists t, snd (c w h) = h ++ t /\ Forall P t.

Create HintDb sys.

Section emits.
Context {A B : Type} (P : sysop -> Prop).

Lemma emits_ret (a : A) : emits P (ret a).
Proof. intros w h. exists []. simpl. by rewrite app_nil_r. Qed.

Lemma emits_bind (c : Sys A) (k : A -> Sys B) :
  emits P c -> (forall a, emits P (k a)) -> emits P (bind c k).
Proof.
  intros Hc Hk w h. destruct (Hc w h) as (t & Ht & HP).
  unfold bind. destruct (c w h) as [a h'] eqn:E; simpl in *. subst h'.
  destruct (Hk a w (h ++ t)) as (t' & Ht' & HP').
  exists (t ++ t'). rewrite Ht', (assoc_L (++)). split; [done|]. by apply Forall_app.
Qed.

Lemma emits_if (b : bool) (c d : Sys A) :
  emits P c -> emits P d -> emits P (if b then c else d).
Proof. by destruct b. Qed.
End emits.

Lemma emits_try_bind {A B} P (c : Sys (option A)) (k : A -> Sys (option B)) :
  emits P c -> (forall a, emits P (k a)) -> emits P (try_bind c k).
Proof. intros Hc Hk. apply emits_bind; [done|]. intros [a|]; [done|apply emits_ret]. Qed.

Section emits_prim.
Context (P : sysop -> Prop).

Lemma emits_one {A} (f : World -> trace -> A) (o : sysop) :
  P o -> emits P (fun w h => (f w h, h ++ [o])).
Proof. intros HP w h. exists [o]. simpl. eauto. Qed.

Lemma emits_exists p : P (OpExists p) -> emits P (sys_exists p).
Proof. apply emits_one. Qed.
Lemma emits_fs_exists p : P (OpExists p) -> emits P (sys_fs_exists p).
Proof. apply emits_one. Qed.
Lemma emits_read p : P (OpRead p) -> emits P (sys_read p).
Proof. apply emits_one. Qed.
Lemma emits_popen c : P (OpPopen c) -> emits P (sys_popen c).
Proof. apply emits_one. Qed.
Lemma emits_now : P OpNow -> emits P sys_now.
Proof. apply emits_one. Qed.
Lemma emits_int o : P o -> emits P (sys_int o).
Proof. apply emits_one. Qed.
Lemma emits_do o : P o -> emits P (sys_do o).
Proof. apply emits_one. Qed.
Lemma emits_ok o : P o -> emits P (sys_ok o).
Proof. intros. apply emits_bind; [by apply emits_int|]. intros; apply emits_ret. Qed.
End emits_prim.

#[export] Hint Resolve emits_ret emits_bind emits_try_bind emits_if emits_exists
  emits_fs_exists emits_read
  emits_popen emits_now emits_int emits_do emits_ok : sys.

(** Walk through a [Sys] program, splitting every branch. *)
Ltac emits_step :=
  match goal with
  | |- emits _ (ret _) => apply emits_ret
  | |- emits _ (bind _ _) => apply emits_bind; [|intros ?]
  | |- emits _ (try_bind _ _) => apply emits_try_bind; [|intros ?]
  | |- emits _ (sys_exists _) => apply emits_exists
  | |- emits _ (sys_fs_exists _) => apply emits_fs_exists
  | |- emits _ (sys_read _) => apply emits_read
  | |- emits _ (sys_popen _) => apply emits_popen
  | |- emits _ sys_now => apply emits_now
  | |- emits _ (sys_int _) => apply emits_int
  | |- emits _ (sys_do _) => apply emits_do
  | |- emits _ (sys_ok _) => apply emits_ok
  | |- emits _ (let '(_, _) := ?x in _) => destruct x
  | |- emits _ (if ?b then _ else _) => destruct b
  | |- emits _ (match ?x with _ => _ end) => destruct x
  end.
Ltac emits_tac := repeat emits_step; try done; eauto with sys.

Lemma emits_weaken {A} (P Q : sysop -> Prop) (c : Sys A) :
  (forall o, P o -> Q o) -> emits P c -> emits Q c.
Proof.
  intros HPQ Hc w h. destruct (Hc w h) as (t & E & Ht). exists t. split; [done|].
  by eapply Forall_impl.
Qed.

(** [gives V c]: whatever the world answers, the result satisfies [V]. *)
Definition gives {A} (V : A -> Prop) (c : Sys A) : Prop := forall w h, V (fst (c w h)).

Lemma gives_ret {A} (V : A -> Prop) a : V a -> gives V (ret a).
Proof. by intros HV w h. Qed.
Lemma gives_bind_val {A B} (U : A -> Prop) (V : B -> Prop) (c : Sys A) k :
  gives U c -> (forall a, U a -> gives V (k a)) -> gives V (bind c k).
Proof. intros Hc Hk w h. unfold bind. specialize (Hc w h). destruct (c w h). by apply Hk. Qed.
Lemma gives_bind {A B} (V : B -> Prop) (c : Sys A) k :
  (forall a, gives V (k a)) -> gives V (bind c k).
Proof. intros Hk. by apply (gives_bind_val (fun _ => True)); [intros ? ?|intros ? _]. Qed.

Lemma gives_try_bind {A B} (V : option B -> Prop) (c : Sys (option A)) k :
  V None -> (forall a, gives V (k a)) -> gives V (try_bind c k).
Proof. intros Hn Hk. apply gives_bind. intros [a|]; [apply Hk|by apply gives_ret]. Qed.

Ltac gives_tac :=
  repeat lazymatch goal with
  | |- gives _ (try_bind _ _) => apply gives_try_bind; [|intros]
  | |- gives _ (bind _ _) => apply gives_bind; intros
  | |- gives _ (ret _) => apply gives_ret
  | |- gives _ (if ?b then _ else _) => destruct b
  | |- gives _ (let '(_, _) := ?x in _) => destruct x eqn:?
  | |- gives _ (let _ := _ in _) => cbv zeta
  | |- gives _ (match ?x with _ => _ end) => destruct x eqn:?
  end.

(** ** Reasoning about results

    [wp c Q w h]: running [c] in world [w] after the trace [h] ends in a
    result and a trace that satisfy [Q]. *)
Definition wp {A} (c : Sys A) (Q : A -> trace -> Prop) (w : World) (h : trace) : Prop :=
  Q (fst (c w h)) (snd (c w h)).

Lemma wp_ret {A} (a : A) Q w h : Q a h -> wp (ret a) Q w h.
Proof. done. Qed.
Lemma wp_bind {A B} (c : Sys A) (k : A -> Sys B) Q w h :
  wp c (fun a h' => wp (k a) Q w h') w h -> wp (bind c k) Q w h.
Proof. unfold wp, bind. by destruct (c w h). Qed.
Lemma wp_try_bind {A B} (c : Sys (option A)) (k : A -> Sys (option B)) Q w h :
  wp c (fun r h' => match r with Some a => wp (k a) Q w h' | None => Q None h' end) w h ->
  wp (try_bind c k) Q w h.
Proof. intros Hc. apply wp_bind. revert Hc. unfold wp. by destruct (c w h).1. Qed.
Lemma wp_mono {A} (c : Sys A) (Q R : A -> trace -> Prop) w h :
  wp c Q w h -> (forall a h', Q a h' -> R a h') -> wp c R w h.
Proof. unfold wp. eauto. Qed.
Lemma wp_exists p Q w h : Q (w_exists w h p) (h ++ [OpExists p]) -> wp (sys_exists p) Q w h.
Proof. done. Qed.
Lemma wp_fs_exists p Q w h :
  Q (if stat_error w h p then None else Some (w_exists w h p)) (h ++ [OpExists p]) ->
  wp (sys_fs_exists p) Q w h.
Proof. done. Qed.
Lemma wp_read p Q w h : Q (w_read w h p) (h ++ [OpRead p]) -> wp (sys_read p) Q w h.
Proof. done. Qed.
Lemma wp_popen c Q w h : Q (w_popen w h c) (h ++ [OpPopen c]) -> wp (sys_popen c) Q w h.
Proof. done. Qed.
Lemma wp_now Q w h : Q (w_now w h) (h ++ [OpNow]) -> wp sys_now Q w h.
Proof. done. Qed.
Lemma wp_int o Q w h : Q (w_int w h o) (h ++ [o]) -> wp (sys_int o) Q w h.
Proof. done. Qed.
Lemma wp_ok o Q w h : Q (w_int w h o =? 0)%Z (h ++ [o]) -> wp (sys_ok o) Q w h.
Proof. done. Qed.
Lemma wp_do o Q w h : Q tt (h ++ [o]) -> wp (sys_do o) Q w h.
Proof. done. Qed.

(** A call of which only the kind of operations it performs matters. *)
Lemma wp_emits {A} P (c : Sys A) (Q : A -> trace -> Prop) w h :
  emits P c -> (forall a t, Forall P t -> Q a (h ++ t)) -> wp c Q w h.
Proof. intros Hc HQ. destruct (Hc w h) as (t & E & HP). unfold wp. rewrite E. by apply HQ. Qed.
Lemma wp_run {A} (c : Sys A) Q w h : wp c Q w h -> Q (c w h).1 (c w h).2.
Proof. done. Qed.

(** ** Exceptions

    [throws_iff c]: [c] only appends to the trace, and it ends in an
    exception exactly when one of the calls it appended is a [stat] that
    failed. *)
Definition stat_failed (w : World) (h t : trace) : Prop :=
  exists t1 p t2, t = t1 ++ OpExists p :: t2 /\ stat_error w (h ++ t1) p = true.
Definition throws_iff {A} (c : Sys (option A)) : Prop :=
  forall w h, exists t, (c w h).2 = h ++ t /\ ((c w h).1 = None <-> stat_failed w h t).

Lemma stat_failed_nil w h : ~ stat_failed w h [].
Proof. intros (t1 & p & t2 & E & _). by destruct t1. Qed.

Lemma stat_failed_app w h t t' :
  stat_failed w h (t ++ t') <-> stat_failed w h t \/ stat_failed w (h ++ t) t'.
Proof.
  split.
  - intros (t1 & p & t2 & E & Hs). apply app_eq_inv in E as [(k & -> & E)|(k & -> & ->)].
    + destruct k as [|o k]; cbn in E.
      * right. exists [], p, t2. rewrite !app_nil_r in *. done.
      * injection E as <- ->. left. by exists t1, p, k.
    + right. exists k, p, t2. by rewrite <-(assoc_L (++)).
  - intros [(t1 & p & t2 & -> & Hs)|(t1 & p & t2 & -> & Hs)].
    + exists t1, p, (t2 ++ t'). by rewrite <-(assoc_L (++)).
    + exists (t ++ t1), p, t2. by rewrite !(assoc_L (++)) in *.
Qed.

Lemma throws_ret {A} (a : A) : throws_iff (ret (Some a)).
Proof.
  intros w h. exists []. rewrite app_nil_r. split; [done|]. split; [done|].
  by intros ?%stat_failed_nil.
Qed.
Lemma throws_fs_exists p : throws_iff (sys_fs_exists p).
Proof.
  intros w h. exists [OpExists p]. split; [done|]. cbn. split.
  - destruct (stat_error w h p) eqn:E; [|done]. intros _. exists [], p, [].
    by rewrite app_nil_r.
  - intros (t1 & q & t2 & E & Hs). destruct t1 as [|o t1]; injection E as E1 E2; [|by destruct t1].
    subst q. rewrite app_nil_r in Hs. by rewrite Hs.
Qed.
Lemma throws_try_bind {A B} (c : Sys (option A)) (k : A -> Sys (option B)) :
  throws_iff c -> (forall a, throws_iff (k a)) -> throws_iff (try_bind c k).
Proof.
  intros Hc Hk w h. destruct (Hc w h) as (t & Et & Hi). unfold try_bind, bind.
  destruct (c w h) as [[a|] h']; cbn in *; subst h'.
  - destruct (Hk a w (h ++ t)) as (t' & Et' & Hi'). exists (t ++ t').
    rewrite (assoc_L (++)). split; [done|]. rewrite stat_failed_app, Hi'.
    destruct Hi as [_ Hi]. split; [by right|]. intros [Hs|Hs]; [by apply Hi in Hs|done].
  - exists t. split; [done|]. split; [|done]. intros _. by apply Hi.
Qed.
#[export] Hint Resolve throws_ret throws_fs_exists throws_try_bind : sys.

(** Turn a goal about the outcome of [c w h] into a [wp]. *)
Ltac by_wp c w h :=
  pattern (fst (c w h)), (snd (c w h));
  match goal with |- ?Q _ _ => change (wp c Q w h) end; cbv beta.

(** Execute a [Sys] program symbolically, splitting on every branch. *)
Ltac wp_step :=
  lazymatch goal with
  | |- wp (bind _ _) _ _ _ => apply wp_bind
  | |- wp (try_bind _ _) _ _ _ => apply wp_try_bind
  | |- wp (ret _) _ _ _ => apply wp_ret
  | |- wp (sys_exists _) _ _ _ => apply wp_exists
  | |- wp (sys_fs_exists _) _ _ _ => apply wp_fs_exists
  | |- wp (sys_read _) _ _ _ => apply wp_read
  | |- wp (sys_popen _) _ _ _ => apply wp_popen
  | |- wp sys_now _ _ _ => apply wp_now
  | |- wp (sys_int _) _ _ _ => apply wp_int
  | |- wp (sys_ok _) _ _ _ => apply wp_ok
  | |- wp (sys_do _) _ _ _ => apply wp_do
  | |- wp (if negb ?b then _ else _) _ _ _ => destruct b eqn:?; cbn [negb]
  | |- wp (if ?b then _ else _) _ _ _ => destruct b eqn:?
  | |- wp (let '(_, _) := ?x in _) _ _ _ => destruct x eqn:?
  | |- wp (let _ := _ in _) _ _ _ => cbv zeta
  | |- wp (match ?x with _ => _ end) _ _ _ => destruct x eqn:?
  | |- match Some _ with _ => _ end => cbv beta iota
  | |- match None with _ => _ end => cbv beta iota
  | |- match (if ?b then None else Some _) with _ => _ end => destruct b eqn:?; cbv beta iota
  end.
Ltac wp_tac := repeat wp_step.

(** ** String lemmas *)

Lemma app_str_assoc (a b c : string) : (a +:+ b) +:+ c = a +:+ b +:+ c.
Proof. induction a as [|x a IH]; [done|]. cbn. by f_equal. Qed.
Lemma app_str_nil_r (a : string) : a +:+ EmptyString = a.
Proof. induction a as [|x a IH]; [done|]. cbn. by f_equal. Qed.
Lemma length_app_str (a b : string) :
  String.length (a +:+ b) = (String.length a + String.length b)%nat.
Proof. induction a as [|x a IH]; [done|]. cbn. by f_equal. Qed.
Lemma app_str_cons c (a b : string) : String c a +:+ b = String c (a +:+ b).
Proof. done. Qed.

Lemma substring_all (s : string) : String.substring 0 (String.length s) s = s.
Proof. induction s as [|c s IH]; [done|]. cbn. by f_equal. Qed.

Lemma take_str_app (a b : string) : take_str (String.length a) (a +:+ b) = a.
Proof.
  unfold take_str. induction a as [|x a IH]; cbn; [by destruct b|]. by f_equal.
Qed.

Lemma drop_str_app (a b : string) : drop_str (String.length a) (a +:+ b) = b.
Proof.
  unfold drop_str. rewrite length_app_str, Nat.add_sub' by lia.
  induction a as [|x a IH]; cbn; [apply substring_all|apply IH].
Qed.

Lemma take_drop_str n (s : string) :
  (n <= String.length s)%nat -> take_str n s +:+ drop_str n s = s.
Proof.
  unfold take_str, drop_str. revert n. induction s as [|c s IH]; intros [|n] Hn; cbn in *; try lia; try done.
  - f_equal. apply substring_all.
  - f_equal. apply IH. lia.
Qed.

Lemma length_take_str n (s : string) :
  (n <= String.length s)%nat -> String.length (take_str n s) = n.
Proof.
  unfold take_str. revert n. induction s as [|c s IH]; intros [|n] Hn; cbn in *; try lia; try done.
  f_equal. apply IH. lia.
Qed.

Lemma length_drop_str n (s : string) :
  (n <= String.length s)%nat -> String.length (drop_str n s) = (String.length s - n)%nat.
Proof.
  intros Hn. pose proof (take_drop_str n s Hn) as E. apply (f_equal String.length) in E.
  rewrite length_app_str, length_take_str in E by done. lia.
Qed.

Lemma str_eqb_true (s t : string) : str_eqb s t = true <-> s = t.
Proof. unfold str_eqb. by rewrite bool_decide_eq_true. Qed.
Lemma str_eqb_false (s t : string) : str_eqb s t = false <-> s <> t.
Proof. unfold str_eqb. by rewrite bool_decide_eq_false. Qed.
Lemma is_empty_true (s : string) : is_empty s = true <-> s = EmptyString.
Proof. by destruct s. Qed.
Lemma is_empty_false (s : string) : is_empty s = false <-> s <> EmptyString.
Proof. by destruct s. Qed.

(** Searching for one character. *)
Fixpoint no_char (c : ascii) (s : string) : Prop :=
  match s with EmptyString => True | String d s' => d <> c /\ no_char c s' end.

Lemma no_char_app c a b : no_char c (a +:+ b) <-> no_char c a /\ no_char c b.
Proof. induction a as [|d a IH]; cbn; [tauto|]. rewrite IH. tauto. Qed.

Lemma str_find_char c (a b : string) :
  no_char c a ->
  str_find (String c EmptyString) (a +:+ String c b) 0 = Some (String.length a).
Proof.
  unfold str_find. induction a as [|d a IH]; intros Hn; cbn.
  - destruct (ascii_dec c c); [|done]. by destruct b.
  - destruct Hn as [Hd Hn]. destruct (ascii_dec c d) as [->|_]; [done|].
    cbn in IH. by rewrite IH.
Qed.

Lemma str_find_char_none c (a : string) :
  no_char c a -> str_find (String c EmptyString) a 0 = None.
Proof.
  unfold str_find. induction a as [|d a IH]; intros Hn; cbn; [done|].
  destruct Hn as [Hd Hn]. destruct (ascii_dec c d) as [->|_]; [done|]. by rewrite IH.
Qed.

Lemma str_find_char_inv c (s : string) n :
  str_find (String c EmptyString) s 0 = Some n ->
  s = take_str n s +:+ String c (drop_str (S n) s) /\ no_char c (take_str n s)
  /\ (n < String.length s)%nat.
Proof.
  unfold str_find. revert n. induction s as [|d s IH]; intros n; cbn; [done|].
  destruct (ascii_dec c d) as [<-|Hd].
  - intros E. assert (n = 0%nat) as -> by (destruct s; simpl in E; congruence).
    unfold take_str, drop_str. cbn. rewrite Nat.sub_0_r, substring_all.
    split; [done|]. split; [done|lia].
  - destruct (String.index 0 (String c EmptyString) s) as [m|] eqn:E; [|done].
    intros [= <-]. destruct (IH m eq_refl) as (E1 & E2 & E3).
    unfold take_str, drop_str in *. cbn.
    split; [by f_equal|]. split; [by split|lia].
Qed.

(** ** Bytes *)

Lemma byte_val_bound c : (0 <= byte_val c < 256)%Z.
Proof. unfold byte_val. pose proof (N_ascii_bounded c). lia. Qed.

Lemma byte_val_of z : byte_val (byte_of z) = (z mod 256)%Z.
Proof.
  unfold byte_val, byte_of. pose proof (Z.mod_pos_bound z 256 ltac:(lia)).
  rewrite N_ascii_embedding; lia.
Qed.

Lemma byte_of_val c : byte_of (byte_val c) = c.
Proof.
  unfold byte_val, byte_of. pose proof (N_ascii_bounded c).
  rewrite Z.mod_small, N2Z.id by lia. apply ascii_N_embedding.
Qed.

Lemma byte_val_inj c d : byte_val c = byte_val d -> c = d.
Proof. intros E. rewrite <-(byte_of_val c), E. apply byte_of_val. Qed.

Lemma app_str_inj_length (a b c d : string) :
  String.length a = String.length c -> a +:+ b = c +:+ d -> a = c /\ b = d.
Proof.
  revert c. induction a as [|x a IH]; intros [|y c] Hl E; cbn in *; try done.
  injection Hl as Hl. injection E as -> E. destruct (IH c Hl E) as [-> ->]. done.
Qed.

Lemma app_str_inj_r (a b c : string) : a +:+ c = b +:+ c -> a = b.
Proof.
  intros E. pose proof (f_equal String.length E) as El. rewrite !length_app_str in El.
  by apply app_str_inj_length in E as [-> _]; [|lia].
Qed.

(** Two decompositions of one string: the shorter head is a prefix of the longer. *)
Lemma app_str_split (s r a b : string) :
  s +:+ r = a +:+ b -> (String.length s <= String.length a)%nat ->
  exists a', a = s +:+ a' /\ r = a' +:+ b.
Proof.
  intros E Hl. exists (drop_str (String.length s) a).
  rewrite <-(take_drop_str (String.length s) a Hl), app_str_assoc in E at 1.
  apply app_str_inj_length in E; [|by rewrite length_take_str].
  destruct E as [E1 E2]. split; [|done]. rewrite E1 at 1. by rewrite take_drop_str.
Qed.

(** ** Maps keyed by strings *)

Lemma str_eqb_refl (s : string) : str_eqb s s = true.
Proof. by apply str_eqb_true. Qed.

Lemma smap_find_set {A} k k' (v : A) m :
  smap_find k' (smap_set k v m) = if str_eqb k' k then Some v else smap_find k' m.
Proof.
  induction m as [|[k0 u] m IH]; cbn; [by destruct (str_eqb k' k)|].
  destruct (String.compare k k0) eqn:E; cbn.
  - apply String.compare_eq_iff in E as ->. by destruct (str_eqb k' k0).
  - done.
  - rewrite IH. destruct (str_eqb k' k0) eqn:E0, (str_eqb k' k) eqn:E1; try done.
    apply str_eqb_true in E0 as ->. apply str_eqb_true in E1 as ->.
    pose proof (String.compare_antisym k k) as E2. by rewrite E in E2.
Qed.
