(* ===== verification/Lines.v ===== *)
(** * Lines: occurrences of a text and the lines of a file

    Lemmas about [find], [substr] and the loops that take a file apart line
    by line, shared by the components that filter or scan text. *)

From Stdlib Require Import ZArith Ascii String Lia.
From stdpp Require Import base numbers list strings pretty.
From S2P Require Import Prelude.

(** ** Occurrences and lines *)

Lemma contains_cons c s n :
  contains (String c s) n = starts_with n (String c s) || contains s n.
Proof.
  unfold contains, str_find, starts_with. cbn [String.index].
  destruct (String.prefix n (String c s)); [done|]. by destruct (String.index 0 n s).
Qed.
Lemma contains_nil n : contains EmptyString n = is_empty n.
Proof. by destruct n. Qed.

Lemma starts_with_app_newline n a b :
  no_char newline n -> starts_with n (a +:+ String newline b) = starts_with n a.
Proof.
  unfold starts_with. revert a. induction n as [|c n IH]; intros [|d a] Hn; cbn; try done.
  - destruct Hn as [Hc _]. by destruct (ascii_dec c newline).
  - destruct (ascii_dec c d); [|done]. apply IH. by destruct Hn.
Qed.

(** A text without newline occurs in one of the lines or not at all. *)
Lemma contains_app_newline a b n :
  no_char newline n -> n <> EmptyString ->
  contains (a +:+ String newline b) n = contains a n || contains b n.
Proof.
  intros Hn Hne. induction a as [|c a IH].
  - cbn [String.append]. rewrite contains_cons, contains_nil.
    change (String newline b) with (EmptyString +:+ String newline b) at 1.
    rewrite starts_with_app_newline by done. by destruct n.
  - rewrite app_str_cons, !contains_cons, IH, <-app_str_cons.
    rewrite starts_with_app_newline by done. by rewrite orb_assoc.
Qed.

Lemma starts_with_spec pre s : starts_with pre s = true <-> exists r, s = pre +:+ r.
Proof.
  unfold starts_with. revert s. induction pre as [|c p IH]; intros s; cbn; [split; [by exists s|by destruct s]|].
  destruct s as [|d s]; [split; [done|by intros [r [=]]]|]. cbn. destruct (ascii_dec c d) as [->|Hd].
  - rewrite IH. split; intros [r E]; exists r; [by f_equal|by injection E].
  - split; [done|]. by intros [r [=]].
Qed.

Lemma contains_spec s n : contains s n = true <-> exists a b, s = a +:+ n +:+ b.
Proof.
  induction s as [|c s IH].
  - rewrite contains_nil, is_empty_true. split; [intros ->; by exists EmptyString, EmptyString|].
    intros ([|] & b & E); [|done]. by destruct n.
  - rewrite contains_cons, orb_true_iff, starts_with_spec, IH. split.
    + intros [[r E]|(a & b & ->)]; [by exists EmptyString, r|]. by exists (String c a), b.
    + intros ([|d a] & b & E); [left; by exists b|right]. injection E as -> ->. by exists a, b.
Qed.

(** The pieces a text falls into: every one ends in a newline, except
    perhaps the last. *)
Inductive line_seq : list string -> Prop :=
| ls_nil : line_seq []
| ls_last a : no_char newline a -> a <> EmptyString -> line_seq [a]
| ls_cons a ls : no_char newline a -> line_seq ls -> line_seq ((a +:+ nl) :: ls).

Lemma lines_keep_line a b :
  no_char newline a -> lines_keep (a +:+ String newline b) = (a +:+ nl) :: lines_keep b.
Proof.
  induction a as [|c a IH]; intros Ha; cbn; [done|]. destruct Ha as [Hc Ha].
  rewrite (proj2 (Ascii.eqb_neq c newline) Hc). cbn in IH. by rewrite IH.
Qed.
Lemma lines_keep_last a : no_char newline a -> a <> EmptyString -> lines_keep a = [a].
Proof.
  induction a as [|c a IH]; intros Ha Hne; [done|]. cbn. destruct Ha as [Hc Ha].
  rewrite (proj2 (Ascii.eqb_neq c newline) Hc). destruct a as [|d a]; [done|]. by rewrite IH.
Qed.

Lemma line_split s :
  no_char newline s \/ exists a b, no_char newline a /\ s = a +:+ String newline b.
Proof.
  induction s as [|c s IH]; [by left|]. destruct (ascii_dec c newline) as [->|Hc].
  - right. by exists EmptyString, s.
  - destruct IH as [H|(a & b & Ha & ->)]; [by left|right]. by exists (String c a), b.
Qed.

Lemma app_nl a b : (a +:+ nl) +:+ b = a +:+ String newline b.
Proof. by rewrite app_str_assoc. Qed.

(** Induction on a text by its lines. *)
Lemma line_ind (P : string -> Prop) :
  P EmptyString ->
  (forall a, no_char newline a -> a <> EmptyString -> P a) ->
  (forall a b, no_char newline a -> P b -> P (a +:+ String newline b)) ->
  forall s, P s.
Proof.
  intros H0 H1 H2 s. remember (String.length s) as n eqn:E. revert s E.
  induction (lt_wf n) as [n _ IH]. intros s ->.
  destruct (line_split s) as [H|(a & b & Ha & ->)].
  - destruct (decide (s = EmptyString)) as [->|]; [done|]. by apply H1.
  - apply H2; [done|]. eapply IH; [|done]. rewrite length_app_str. cbn. lia.
Qed.

Lemma lines_keep_seq s : line_seq (lines_keep s).
Proof.
  induction s as [|a Ha Hne|a b Ha IH] using line_ind; [constructor| |].
  - rewrite lines_keep_last by done. by constructor.
  - rewrite lines_keep_line by done. by constructor.
Qed.
Lemma concat_lines s : concat_str (lines_keep s) = s.
Proof.
  induction s as [|a Ha Hne|a b Ha IH] using line_ind; [done| |].
  - rewrite lines_keep_last by done. cbn. apply app_str_nil_r.
  - rewrite lines_keep_line by done. cbn. by rewrite IH, app_nl.
Qed.
Lemma line_seq_lines ls : line_seq ls -> lines_keep (concat_str ls) = ls.
Proof.
  induction 1 as [|a Ha Hne|a ls Ha Hls IH]; [done| |]; cbn.
  - rewrite app_str_nil_r. by apply lines_keep_last.
  - rewrite app_nl, lines_keep_line by done. by f_equal.
Qed.
Lemma contains_lines ls n :
  line_seq ls -> no_char newline n -> n <> EmptyString ->
  contains (concat_str ls) n = existsb (fun l => contains l n) ls.
Proof.
  intros Hls Hn Hne. assert (He : contains EmptyString n = false)
    by (rewrite contains_nil; by apply is_empty_false).
  induction Hls as [|a Ha Ha'|a ls Ha Hls IH]; cbn; [done| |].
  - by rewrite app_str_nil_r, orb_false_r.
  - rewrite app_nl, contains_app_newline, IH by done.
    unfold nl. by rewrite contains_app_newline, He, orb_false_r by done.
Qed.

(** [find] and [substr] at a position, as the same from the start of the rest. *)
Lemma str_find_at pre s n :
  str_find n (pre +:+ s) (String.length pre) =
  option_map (fun k => String.length pre + k)%nat (str_find n s 0).
Proof.
  unfold str_find. induction pre as [|c p IH]; cbn; [by destruct (String.index 0 n s)|].
  cbn in IH. rewrite IH. by destruct (String.index 0 n s).
Qed.
Lemma substring_at pre s k :
  String.substring (String.length pre) k (pre +:+ s) = String.substring 0 k s.
Proof. induction pre as [|c p IH]; [done|]. exact IH. Qed.
Lemma substring_over s k : (String.length s <= k)%nat -> String.substring 0 k s = s.
Proof.
  revert k. induction s as [|c s IH]; intros [|k] Hk; cbn in *; try done; [lia|].
  f_equal. apply IH. lia.
Qed.
