(* ===== verification/Frame.v ===== *)
(** * Frame: the socket server's wire protocol

    [daemon/src/ipc/socket_server.cpp]: peer authentication, the
    length-prefixed framing, the per-connection loop and the accept loop;
    [native/p4_ipc_client.c]: the client's side of the framing;
    [daemon/src/ipc/ipc_server.cpp]: the second, unused server.

    A connection is a script of what its calls of [poll], [read] and [write]
    meet, a [write] that the peer lets block for ever included; there is one
    thread, so that such a client keeps the server. *)

From Stdlib Require Import ZArith Ascii String Lia.
From stdpp Require Import base numbers list strings.
From S2P Require Import Prelude.

Open Scope Z_scope.

(** ** Network byte order *)

(** [htonl] followed by a 4-byte copy: the big-endian bytes of a 32-bit value. *)
Definition be32 (n : Z) : string :=
  String (byte_of (Z.shiftr n 24)) (String (byte_of (Z.shiftr n 16))
    (String (byte_of (Z.shiftr n 8)) (String (byte_of n) EmptyString))).

(** A 4-byte copy followed by [ntohl]. *)
Definition be32_val (s : string) : Z :=
  match s with
  | String a (String b (String c (String d _))) =>
      byte_val a * 2 ^ 24 + byte_val b * 2 ^ 16 + byte_val c * 2 ^ 8 + byte_val d
  | _ => 0
  end.

(** A 4-byte copy read as a native [uint32_t] on the little-endian targets
    (arm, arm64, x86) the daemon is built for. *)
Definition le32_val (s : string) : Z :=
  match s with
  | String a (String b (String c (String d _))) =>
      byte_val a + byte_val b * 2 ^ 8 + byte_val c * 2 ^ 16 + byte_val d * 2 ^ 24
  | _ => 0
  end.

Definition frame (payload : string) : string := be32 (u32 (str_size payload)) +:+ payload.

(** ** Peer authentication *)

Definition UID_ROOT : Z := 0.
Definition UID_SYSTEM : Z := 1000.
Definition UID_SHELL : Z := 2000.
Definition AID_APP_START : Z := 10000.
Definition AID_APP_END : Z := 19999.

Definition isAllowedUid (uid : Z) : bool :=
  (uid =? UID_ROOT) || (uid =? UID_SYSTEM) || (uid =? UID_SHELL)
  || ((AID_APP_START <=? uid) && (uid <=? AID_APP_END)).

(** [cred] is what [getsockopt(SO_PEERCRED)] answers: [None] when it fails. *)
Definition authenticatePeer (cred : option Z) : bool :=
  match cred with
  | None => false
  | Some uid => if negb (isAllowedUid uid) then false else true
  end.

(** ** The connection

    One element of [rd] is what one round of [poll] and [read] on the
    client descriptor meets; an exhausted list is a peer that stays silent,
    so that [poll] times out.  One element of [wr] is what one [write]
    does; [WriteBlocks] is a [write] that never returns, because the socket's
    buffer is full and the peer does not read: unlike the reads, the writes
    are not preceded by [poll] and have no time limit.  Once [wr] is exhausted
    the kernel takes the rest of the buffer in one write.  [out] is what the
    peer has been sent. *)
Inductive rd_ev :=
| PollTimeout
| PollEintr
| PollError
| ReadEof
| ReadEintr
| ReadError
| ReadBytes (bs : string).

Inductive wr_ev :=
| WriteEintr
| WriteError
| WriteBlocks
| Wrote (k : nat).

Record conn := Conn { rd : list rd_ev; wr : list wr_ev; out : string }.

(** [readExactWithTimeout]: [acc] holds the [got] bytes read so far. *)
Fixpoint readExactWithTimeout (evs : list rd_ev) (n : nat) (acc : string)
    : option string * list rd_ev :=
  if (String.length acc <? n)%nat then
    match evs with
    | [] => (None, [])
    | PollTimeout :: evs' => (None, evs')
    | PollEintr :: evs' => readExactWithTimeout evs' n acc
    | PollError :: evs' => (None, evs')
    | ReadEof :: evs' => (None, evs')
    | ReadEintr :: evs' => readExactWithTimeout evs' n acc
    | ReadError :: evs' => (None, evs')
    | ReadBytes bs :: evs' =>
        if is_empty bs then (None, evs')     (* read returned 0 *)
        else
          let want := (n - String.length acc)%nat in
          if (String.length bs <=? want)%nat then readExactWithTimeout evs' n (acc +:+ bs)
          else (Some (acc +:+ take_str want bs), ReadBytes (drop_str want bs) :: evs')
    end
  else (Some acc, evs).

Definition read_exact (c : conn) (n : nat) : option string * conn :=
  let '(r, evs) := readExactWithTimeout (rd c) n EmptyString in
  (r, Conn evs (wr c) (out c)).

(** [write_exact] returns [true] or [false], or never. *)
Inductive write_end := WriteOk | WriteFailed | WriteStuck.

(** [data] is what is left to send. *)
Fixpoint write_loop (evs : list wr_ev) (data sent : string) : write_end * list wr_ev * string :=
  if is_empty data then (WriteOk, evs, sent)
  else
    match evs with
    | [] => (WriteOk, [], sent +:+ data)
    | WriteEintr :: evs' => write_loop evs' data sent
    | WriteError :: evs' => (WriteFailed, evs', sent)
    | WriteBlocks :: evs' => (WriteStuck, evs', sent)
    | Wrote k :: evs' =>
        let k := Nat.min k (String.length data) in
        write_loop evs' (drop_str k data) (sent +:+ take_str k data)
    end.

Definition write_exact (c : conn) (data : string) : write_end * conn :=
  let '(ok, evs, o) := write_loop (wr c) data (out c) in (ok, Conn (rd c) evs o).

Definition MAX_FRAME : Z := 8 * 1024 * 1024.

(** ** The per-connection loop and the accept loop *)

(** The number of request bytes the script of a connection still holds. *)
Fixpoint input_bytes (evs : list rd_ev) : nat :=
  match evs with
  | [] => 0
  | ReadBytes bs :: evs' => String.length bs + input_bytes evs'
  | _ :: evs' => input_bytes evs'
  end%nat.

Inductive client_end (St : Type) :=
| Ended (st : St) (c : conn)       (* handle_client returned *)
| Terminated (c : conn)            (* an exception left the handler: std::terminate *)
| Blocked (st : St) (c : conn)     (* inside a write that does not return *)
| OutOfFuel.
Arguments Ended {St} st c.
Arguments Terminated {St} c.
Arguments Blocked {St} st c.
Arguments OutOfFuel {St}.

(** What the accept loop meets: a failing [accept], a client with the
    credentials the kernel reports for it, or a signal whose trampoline
    runs [stop].  [live i] is what the [i]-th [running_.load()] of the
    connection's loop reads. *)
Inductive acc_ev :=
| AcceptEintr
| AcceptFail
| AcceptConn (cred : option Z) (live : nat -> bool) (c : conn)
| SignalStop.

Inductive run_end (St : Type) :=
| Stopped (st : St) (served : list conn)    (* run returned *)
| Waiting (st : St) (served : list conn)    (* blocked in accept *)
| Died (served : list conn)                 (* the process terminated *)
| Hung (st : St) (served : list conn).      (* blocked in a write to the last client *)
Arguments Stopped {St} st served.
Arguments Waiting {St} st served.
Arguments Died {St} served.
Arguments Hung {St} st served.

Section server.
(** The installed handler; [None] as a whole is an empty [std::function],
    a [None] answer is an exception escaping the handler. *)
Context {St : Type} (handler : option (St -> string -> option (St * string))).

Definition call_handler (st : St) (payload : string) : option (St * string) :=
  match handler with
  | Some h => h st payload
  | None => Some (st, EmptyString)
  end.

Fixpoint handle_client (fuel : nat) (live : nat -> bool) (i : nat) (st : St) (c : conn)
    : client_end St :=
  match fuel with
  | O => OutOfFuel
  | S fuel' =>
    if live i then
      let '(hdr, c1) := read_exact c 4 in
      match hdr with
      | None => Ended st c1
      | Some net_len =>
        let len := be32_val net_len in
        if (len =? 0) || (MAX_FRAME <? len) then Ended st c1
        else
          let '(body, c2) := read_exact c1 (Z.to_nat len) in
          match body with
          | None => Ended st c2
          | Some payload =>
            match call_handler st payload with
            | None => Terminated c2
            | Some (st', response) =>
              if is_empty response then
                let '(r, c3) := write_exact c2 (be32 0) in
                match r with
                | WriteStuck => Blocked st' c3
                | _ => Ended st' c3
                end
              else
                let '(r1, c3) := write_exact c2 (be32 (u32 (str_size response))) in
                match r1 with
                | WriteStuck => Blocked st' c3
                | WriteFailed => Ended st' c3
                | WriteOk =>
                  let '(r2, c4) := write_exact c3 response in
                  match r2 with
                  | WriteStuck => Blocked st' c4
                  | WriteFailed => Ended st' c4
                  | WriteOk => handle_client fuel' live (S i) st' c4
                  end
                end
            end
          end
      end
    else Ended st c
  end.

(** Every iteration that goes round again consumes at least five bytes of
    the request stream, so one more than their number is enough fuel
    (lemma [handle_client_total]). *)
Definition client_fuel (c : conn) : nat := S (input_bytes (rd c)).

(** The loop of [SocketServer::run]. *)
Fixpoint run (evs : list acc_ev) (running : bool) (st : St) (served : list conn)
    : run_end St :=
  if running then
    match evs with
    | [] => Waiting st served
    | SignalStop :: evs' => run evs' false st served
    | AcceptEintr :: evs' => run evs' running st served
    | AcceptFail :: evs' => if negb running then Stopped st served
                            else run evs' running st served
    | AcceptConn cred live c :: evs' =>
        if negb (authenticatePeer cred) then run evs' running st served
        else match handle_client (client_fuel c) live 0 st c with
             | Ended st' c' => run evs' running st' (served ++ [c'])
             | Terminated c' => Died (served ++ [c'])
             | Blocked st' c' => Hung st' (served ++ [c'])
             | OutOfFuel => Died served
             end
    end
  else Stopped st served.
End server.

(** ** Server start and stop *)

Record server := Server { socket_path : string; listen_fd : Z; running : bool }.

Definition SUN_PATH_SIZE : nat := 108.

Definition close_fd (sv : server) : Sys (bool * server) :=
  sys_do (OpCall "close" [] [listen_fd sv]) ;;;
  ret (false, Server (socket_path sv) (-1) (running sv)).

(** The [try] block of [SocketServer::start]; [None] is an exception that its
    [catch] turns into the result [false]. *)
Definition setup_dir (parent : string) : Sys (option bool) :=
  let? parent_there := (if is_empty parent then ret (Some true) else sys_fs_exists parent) in
  if parent_there then ret (Some true)
  else
    let! ok := sys_ok (OpMkdirs parent) in
    if ok then sys_do (OpCall "chmod" [parent] [493]) ;;; ret (Some true)
    else ret (Some false).

(** [SocketServer::start]; [parent] is [fs::path(socket_path_).parent_path()]. *)
Definition start_socket (parent : string) (sv : server) : Sys (bool * server) :=
  let! dir_ok := setup_dir parent in
  if negb (default false dir_ok) then ret (false, sv)
  else
    sys_do (OpCall "unlink" [socket_path sv] []) ;;;
    let! fd := sys_int (OpCall "socket" [] []) in
    let sv := Server (socket_path sv) fd (running sv) in
    if fd <? 0 then ret (false, sv)
    else if (SUN_PATH_SIZE <=? String.length (socket_path sv))%nat then close_fd sv
    else
      let! b := sys_int (OpCall "bind" [socket_path sv] [fd]) in
      if b <? 0 then close_fd sv
      else
        sys_do (OpCall "chmod" [socket_path sv] [432]) ;;;
        let! l := sys_int (OpCall "listen" [] [fd; 5]) in
        if l <? 0 then close_fd sv
        else ret (true, Server (socket_path sv) fd true).

Definition stop_socket (sv : server) : Sys server :=
  if negb (running sv) then ret (Server (socket_path sv) (listen_fd sv) false)
  else
    let! fd := (if 0 <=? listen_fd sv then
            sys_do (OpCall "shutdown" [] [listen_fd sv]) ;;;
            sys_do (OpCall "close" [] [listen_fd sv]) ;;;
            ret (-1)
          else ret (listen_fd sv)) in
    sys_do (OpCall "unlink" [socket_path sv] []) ;;;
    ret (Server (socket_path sv) fd false).

(** [SocketServer::run]. *)
Definition server_run {St} (handler : option (St -> string -> option (St * string)))
    (evs : list acc_ev) (sv : server) (st : St) (served : list conn) : run_end St :=
  if listen_fd sv <? 0 then Stopped st served
  else run handler evs (running sv) st served.

(** ** Codec lemmas *)

Lemma length_be32 n : String.length (be32 n) = 4%nat.
Proof. done. Qed.

Lemma be32_val_be32 n s : 0 <= n < 2 ^ 32 -> be32_val (be32 n +:+ s) = n.
Proof.
  intros Hn. unfold be32, be32_val. cbn [String.append]. rewrite !byte_val_of.
  rewrite !Z.shiftr_div_pow2 by lia.
  change (2 ^ 24) with 16777216; change (2 ^ 16) with 65536; change (2 ^ 8) with 256.
  change (2 ^ 32) with 4294967296 in Hn.
  Z.to_euclidean_division_equations. lia.
Qed.

Lemma le32_val_be32_small n : 0 < n < 256 -> 2 ^ 20 < le32_val (be32 n).
Proof.
  intros Hn. unfold be32, le32_val. rewrite !byte_val_of.
  rewrite !Z.shiftr_div_pow2 by lia.
  rewrite !(Z.div_small n) by lia. rewrite (Z.mod_small n) by lia.
  change (0 mod 256) with 0. lia.
Qed.

(** ** Reading *)

(** A script that only delivers data (in chunks of any size, with any
    number of interrupted calls in between) and never fails. *)
Fixpoint benign (evs : list rd_ev) : Prop :=
  match evs with
  | [] => True
  | ReadBytes bs :: evs' => bs <> EmptyString /\ benign evs'
  | (PollEintr | ReadEintr) :: evs' => benign evs'
  | _ => False
  end.

Fixpoint data_of (evs : list rd_ev) : string :=
  match evs with
  | ReadBytes bs :: evs' => bs +:+ data_of evs'
  | _ :: evs' => data_of evs'
  | [] => EmptyString
  end.

Definition delivers (evs : list rd_ev) (s : string) : Prop := benign evs /\ data_of evs = s.

Lemma readExact_delivers evs n (acc a b : string) :
  delivers evs (a +:+ b) -> (String.length acc + String.length a = n)%nat ->
  exists evs', readExactWithTimeout evs n acc = (Some (acc +:+ a), evs') /\ delivers evs' b.
Proof.
  revert acc a b. induction evs as [|e evs IH]; intros acc a b [Hb Hd] Hn;
    cbn [readExactWithTimeout]; destruct (Nat.ltb_spec (String.length acc) n) as [Hlt|Hge].
  1: { cbn in Hd. by destruct a; cbn in Hn; [lia|]. }
  1, 3: destruct a; cbn in Hn; [|lia]; rewrite app_str_nil_r; eexists; by repeat split.
  destruct e as [| | | | | |bs]; cbn in Hb, Hd; try done; [by apply IH..|].
  destruct Hb as [Hne Hb]. rewrite (proj2 (is_empty_false bs) Hne).
  destruct (Nat.leb_spec (String.length bs) (n - String.length acc)) as [Hle|Hgt].
  - destruct (app_str_split bs (data_of evs) a b) as (a' & -> & Ed); [done|lia|].
    rewrite length_app_str in Hn.
    destruct (IH (acc +:+ bs) a' b) as (evs' & E' & D'); [done|rewrite length_app_str; lia|].
    exists evs'. by rewrite E', app_str_assoc.
  - destruct (app_str_split a b bs (data_of evs)) as (s' & -> & Ed); [done|lia|].
    replace (n - String.length acc)%nat with (String.length a) by lia.
    rewrite take_str_app, drop_str_app. eexists. split; [done|].
    split; [|done]. cbn. split; [|done]. intros ->. rewrite app_str_nil_r in Hgt. lia.
Qed.

(** A successful read returns exactly [n] bytes and takes them off the script. *)
Lemma readExact_consumes evs n acc s evs' :
  readExactWithTimeout evs n acc = (Some s, evs') -> (String.length acc <= n)%nat ->
  String.length s = n /\ (input_bytes evs' + n = input_bytes evs + String.length acc)%nat.
Proof.
  revert acc. induction evs as [|e evs IH]; intros acc; cbn [readExactWithTimeout];
    destruct (Nat.ltb_spec (String.length acc) n) as [Hlt|Hge]; try done.
  1, 3: intros [= <- <-] Hle; split; lia.
  destruct e as [| | | | | |bs]; try done; cbn [input_bytes]; try apply IH.
  destruct (is_empty bs) eqn:Eb; [done|].
  destruct (Nat.leb_spec (String.length bs) (n - String.length acc)) as [Hle|Hgt].
  - intros E _. apply IH in E; rewrite length_app_str in *; [|lia]. lia.
  - intros [= <- <-] _. cbn [input_bytes].
    rewrite length_app_str, length_take_str, length_drop_str by lia. lia.
Qed.

Lemma readExact_empty evs n acc :
  delivers evs EmptyString -> (String.length acc < n)%nat ->
  exists evs', readExactWithTimeout evs n acc = (None, evs').
Proof.
  revert acc. induction evs as [|e evs IH]; intros acc [Hb Hd] Hn; cbn [readExactWithTimeout];
    rewrite (proj2 (Nat.ltb_lt _ _) Hn); [by eexists|].
  destruct e as [| | | | | |bs]; cbn in Hb, Hd; try done; [by apply IH..|].
  destruct Hb as [Hne _]. by destruct bs.
Qed.

Lemma delivers_input_bytes evs s : delivers evs s -> input_bytes evs = String.length s.
Proof.
  intros [_ <-]. induction evs as [|[]]; cbn [input_bytes data_of]; try done.
  rewrite length_app_str. lia.
Qed.

(** ** Writing *)

Definition wr_benign (evs : list wr_ev) : Prop :=
  Forall (fun e => e <> WriteError /\ e <> WriteBlocks) evs.

Lemma write_loop_benign evs data sent :
  wr_benign evs ->
  exists evs', write_loop evs data sent = (WriteOk, evs', sent +:+ data) /\ wr_benign evs'.
Proof.
  intros Hb. revert data sent. induction Hb as [|e evs He Hb IH]; intros data sent;
    cbn [write_loop]; destruct (is_empty data) eqn:Ed.
  1, 3: apply is_empty_true in Ed as ->; rewrite app_str_nil_r; eexists; split; [done|by constructor].
  - eexists. split; [done|by constructor].
  - destruct e as [| | |k]; [by apply IH|by destruct He..|].
    destruct (IH (drop_str (k `min` String.length data) data)
      (sent +:+ take_str (k `min` String.length data) data)) as (evs' & E & Hb').
    exists evs'. rewrite E, app_str_assoc, take_drop_str by lia. done.
Qed.

Lemma write_exact_benign c data :
  wr_benign (wr c) ->
  exists ws, write_exact c data = (WriteOk, Conn (rd c) ws (out c +:+ data)) /\ wr_benign ws.
Proof.
  intros Hb. unfold write_exact. destruct (write_loop_benign (wr c) data (out c) Hb) as (ws & E & H).
  exists ws. by rewrite E.
Qed.

Lemma read_exact_rd c n r c' :
  read_exact c n = (r, c') -> wr c' = wr c /\ out c' = out c /\
  readExactWithTimeout (rd c) n EmptyString = (r, rd c').
Proof. unfold read_exact. destruct readExactWithTimeout. by intros [= <- <-]. Qed.

Lemma write_exact_rd c data ok c' : write_exact c data = (ok, c') -> rd c' = rd c.
Proof. unfold write_exact. destruct write_loop as [[] ?]. by intros [= <- <-]. Qed.

(** What [write_exact] leaves of the script, and when it does not return. *)
Lemma write_loop_stuck evs data sent r evs' o :
  write_loop evs data sent = (r, evs', o) ->
  incl evs' evs /\ (r = WriteStuck -> In WriteBlocks evs).
Proof.
  revert data sent. induction evs as [|e evs IH]; intros data sent; cbn [write_loop];
    (destruct (is_empty data); [intros [= <- <- _]; split; [apply incl_refl|done]|]);
    [intros [= <- <- _]; split; [apply incl_refl|done]|].
  destruct e as [| | |k].
  1, 4: intros [Hi Hs]%IH; split; [by apply incl_tl|intros ?; right; auto].
  - intros [= <- <- _]. split; [apply incl_tl, incl_refl|done].
  - intros [= <- <- _]. split; [apply incl_tl, incl_refl|by left].
Qed.
Lemma write_exact_stuck c data r c' :
  write_exact c data = (r, c') -> incl (wr c') (wr c) /\ (r = WriteStuck -> In WriteBlocks (wr c)).
Proof.
  unfold write_exact. destruct write_loop as [[r' evs'] o] eqn:E. intros [= <- <-].
  by apply write_loop_stuck in E.
Qed.

Definition request_ok (p : string) : Prop := 1 <= str_size p <= MAX_FRAME.

(** One well-formed request is read in two steps, however it is chunked. *)
Lemma read_request c p rest :
  request_ok p -> delivers (rd c) (frame p +:+ rest) ->
  exists hdr c1 c2,
    read_exact c 4 = (Some hdr, c1) /\ be32_val hdr = str_size p /\
    read_exact c1 (Z.to_nat (str_size p)) = (Some p, c2) /\
    delivers (rd c2) rest /\ wr c2 = wr c /\ out c2 = out c /\
    (input_bytes (rd c2) < input_bytes (rd c))%nat.
Proof.
  intros [Hp1 Hp2] Hd. unfold MAX_FRAME in Hp2. unfold frame in Hd. rewrite app_str_assoc in Hd.
  assert (Hu : u32 (str_size p) = str_size p) by (apply Z.mod_small; lia). rewrite Hu in Hd.
  destruct (readExact_delivers _ 4 EmptyString _ _ Hd) as (r1 & E1 & D1); [reflexivity|].
  destruct (readExact_delivers _ (Z.to_nat (str_size p)) EmptyString _ _ D1) as (r2 & E2 & D2);
    [unfold str_size; cbn; lia|].
  exists (be32 (str_size p)), (Conn r1 (wr c) (out c)), (Conn r2 (wr c) (out c)).
  unfold read_exact. cbn [rd wr out]. rewrite E1, E2.
  rewrite (delivers_input_bytes _ _ Hd), (delivers_input_bytes _ _ D2), !length_app_str, length_be32.
  assert (be32_val (be32 (str_size p)) = str_size p)
    by (rewrite <-(app_str_nil_r (be32 _)); apply be32_val_be32; lia).
  repeat split; try done; try apply D2. unfold str_size in Hp1. lia.
Qed.

Section server_proofs.
Context {St : Type} (handler : option (St -> string -> option (St * string))).

(** What the server promises: the requests of a stream are answered in
    order, one framed response each, up to the first empty response. *)
Fixpoint serve (st : St) (ps : list string) : option (St * string) :=
  match ps with
  | [] => Some (st, EmptyString)
  | p :: ps' =>
      match call_handler handler st p with
      | None => None
      | Some (st', r) =>
          if is_empty r then Some (st', be32 0)
          else match serve st' ps' with
               | None => None
               | Some (st'', o) => Some (st'', frame r +:+ o)
               end
      end
  end.

Lemma handle_client_serves ps : forall fuel live i st c,
  Forall request_ok ps ->
  delivers (rd c) (concat_str (frame <$> ps)) -> wr_benign (wr c) ->
  (forall j, live j = true) -> (input_bytes (rd c) < fuel)%nat ->
  match serve st ps with
  | Some (st', o) => exists c', handle_client handler fuel live i st c = Ended st' c'
                                /\ out c' = out c +:+ o
  | None => exists c', handle_client handler fuel live i st c = Terminated c'
  end.
Proof.
  induction ps as [|p ps IH]; intros [|fuel] live i st c Hps Hd Hw Hlive Hf; try lia;
    cbn [handle_client serve]; rewrite Hlive.
  - destruct (readExact_empty (rd c) 4 EmptyString Hd) as (evs' & E); [cbn; lia|].
    unfold read_exact. rewrite E. eexists. split; [done|]. cbn. by rewrite app_str_nil_r.
  - apply Forall_cons in Hps as [Hp Hps].
    destruct (read_request c p _ Hp Hd) as (hdr & c1 & c2 & E1 & E2 & E3 & D2 & Ew & Eo & Hlt).
    rewrite E1, E2. destruct Hp as [Hp1 Hp2].
    rewrite (proj2 (Z.eqb_neq _ _)), (proj2 (Z.ltb_ge _ _)) by lia. cbn [orb]. rewrite E3.
    destruct (call_handler handler st p) as [[st' resp]|]; [|by eexists].
    rewrite <-Ew in Hw.
    destruct (is_empty resp) eqn:Er.
    { destruct (write_exact_benign c2 (be32 0) Hw) as (ws & -> & _). eexists. split; [done|]. cbn. by rewrite Eo. }
    destruct (write_exact_benign c2 (be32 (u32 (str_size resp))) Hw) as (ws & -> & Hw1).
    destruct (write_exact_benign (Conn (rd c2) ws (out c2 +:+ be32 (u32 (str_size resp)))) resp Hw1)
      as (ws' & -> & Hw2).
    specialize (IH fuel live (S i) st'
      (Conn (rd c2) ws' ((out c2 +:+ be32 (u32 (str_size resp))) +:+ resp)) Hps D2 Hw2 Hlive).
    cbn [rd out] in *.
    destruct (serve st' ps) as [[st'' o']|]; destruct IH as (c' & IHe); try lia.
    + destruct IHe as [IHe IHo]. exists c'. rewrite IHe, IHo, Eo. unfold frame.
      by rewrite !app_str_assoc.
    + by exists c'.
Qed.

(** How the loop can end, whatever the scripts say. *)
Definition client_end_ok (c : conn) (r : client_end St) : Prop :=
  match r with
  | Ended _ _ => True
  | Terminated _ => exists st' p, call_handler handler st' p = None
  | Blocked _ _ => In WriteBlocks (wr c)
  | OutOfFuel => False
  end.

Lemma client_end_ok_wr c c' r :
  incl (wr c') (wr c) -> client_end_ok c' r -> client_end_ok c r.
Proof. intros Hi. destruct r; cbn; auto. Qed.

Lemma handle_client_ends fuel : forall live i st c,
  (input_bytes (rd c) < fuel)%nat -> client_end_ok c (handle_client handler fuel live i st c).
Proof.
  induction fuel as [|fuel IH]; intros live i st c Hf; [lia|]. cbn [handle_client].
  destruct (live i); [|done].
  destruct (read_exact c 4) as [[hdr|] c1] eqn:E1; [|done].
  destruct (_ || _) eqn:Eb; [done|].
  destruct (read_exact c1 _) as [[pl|] c2] eqn:E2; [|done].
  destruct call_handler as [[st' resp]|] eqn:Eh; [|cbn; eauto].
  apply read_exact_rd in E1 as (W1 & _ & E1). apply read_exact_rd in E2 as (W2 & _ & E2).
  rewrite W1 in W2.
  destruct (is_empty resp).
  { destruct (write_exact c2 _) as [r c3] eqn:E3. apply write_exact_stuck in E3 as [_ Hs].
    rewrite W2 in Hs. destruct r; cbn; auto. }
  destruct (write_exact c2 _) as [ok1 c3] eqn:E3.
  pose proof (write_exact_stuck _ _ _ _ E3) as [Hi Hs]. rewrite W2 in *.
  destruct ok1; cbn; auto.
  destruct (write_exact c3 _) as [ok2 c4] eqn:E4.
  pose proof (write_exact_stuck _ _ _ _ E4) as [Hi' Hs'].
  destruct ok2; cbn; auto. apply (client_end_ok_wr c c4); [by intros e He; apply Hi, Hi'|].
  apply IH. rewrite (write_exact_rd _ _ _ _ E4), (write_exact_rd _ _ _ _ E3).
  apply readExact_consumes in E1; [|cbn; lia]. apply readExact_consumes in E2; [|cbn; lia].
  apply orb_false_iff in Eb as [Eb _]. apply Z.eqb_neq in Eb. cbn in E1, E2. lia.
Qed.

(** A client that sends a request and does not read the answer. *)
Lemma handle_client_blocks fuel live i st c p rest st' r ws :
  request_ok p -> delivers (rd c) (frame p +:+ rest) -> live i = true ->
  call_handler handler st p = Some (st', r) -> wr c = WriteBlocks :: ws ->
  exists c', handle_client handler (S fuel) live i st c = Blocked st' c' /\ out c' = out c.
Proof.
  intros Hp Hd Hl Hh Hw. cbn [handle_client]. rewrite Hl.
  destruct (read_request c p rest Hp Hd) as (hdr & c1 & c2 & E1 & E2 & E3 & _ & Ew & Eo & _).
  rewrite E1, E2. destruct Hp as [Hp1 Hp2].
  rewrite (proj2 (Z.eqb_neq _ _)), (proj2 (Z.ltb_ge _ _)) by lia. cbn [orb]. rewrite E3, Hh.
  unfold write_exact. rewrite Ew, Hw, <-Eo. destruct (is_empty r); by eexists.
Qed.
End server_proofs.

(** ** The client side and the second server *)

(** [send_frame] of the protocol test client: the bytes written to the
    socket for a request type and a body. *)
Definition send_frame (type : ascii) (body : string) : string :=
  let payload_len := 1 + str_size body in
  be32 (u32 payload_len) +:+ String type EmptyString
  +:+ (if 0 <? str_size body then body else EmptyString).

Lemma send_frame_is_frame type body : send_frame type body = frame (String type body).
Proof.
  unfold send_frame, frame. replace (1 + str_size body) with (str_size (String type body))
    by (unfold str_size; cbn; lia).
  f_equal. cbn. by destruct body.
Qed.

(** One iteration of [IpcServer::loop] on an accepted client: [hdr] is what
    the first [read] returned, [chunks] what the following reads return
    ([None] or an empty chunk is a failing or final read).  The answer is
    the length of the frame that is reported as received, if any. *)
Fixpoint ipc_read_loop (chunks : list (option string)) (length got : Z) : Z :=
  if got <? length then
    match chunks with
    | Some bs :: chunks' =>
        if is_empty bs then got
        else ipc_read_loop chunks' length (got + Z.min (str_size bs) (length - got))
    | _ => got
    end
  else got.

Definition ipc_loop_client (hdr : option string) (chunks : list (option string)) : option Z :=
  match hdr with
  | None => None
  | Some h =>
      if negb (str_size h =? 4) then None
      else
        let length := le32_val h in
        if (length =? 0) || (2 ^ 20 <? length) then None
        else if ipc_read_loop chunks length 0 =? length then Some length else None
  end.

(** ** Properties *)

(** C7: However the bytes of a client's requests are fragmented by the
    socket and whatever calls are interrupted, [handle_client] hands the
    payloads to the handler one by one, in order, and sends one framed
    response for each, until the handler answers with an empty response or
    throws: the byte-level loop implements the message-level specification
    [serve]. *)
Theorem frame_stream_served {St} (handler : option (St -> string -> option (St * string)))
    (ps : list string) (live : nat -> bool) (st : St) (c : conn) :
  Forall request_ok ps ->
  delivers (rd c) (concat_str (frame <$> ps)) -> wr_benign (wr c) ->
  (forall j, live j = true) ->
  match serve handler st ps with
  | Some (st', o) => exists c', handle_client handler (client_fuel c) live 0 st c = Ended st' c'
                                /\ out c' = out c +:+ o
  | None => exists c', handle_client handler (client_fuel c) live 0 st c = Terminated c'
  end.
Proof. intros. apply handle_client_serves; auto. Qed.

Definition echo_handler : option (nat -> string -> option (nat * string)) :=
  Some (fun n p => Some (S n, p)).
Definition byte_chunks (s : string) : list rd_ev :=
  concat ((fun c => [ReadEintr; ReadBytes (String c EmptyString)]) <$> String.list_ascii_of_string s).

Lemma frame_stream_served_witness :
  exists c', handle_client echo_handler 13 (fun _ => true) 0 0%nat
    (Conn (byte_chunks (frame "ab" +:+ frame "xyz")) [Wrote 1; WriteEintr] EmptyString)
    = Ended 2%nat c' /\ out c' = frame "ab" +:+ frame "xyz".
Proof.
  apply (frame_stream_served echo_handler ["ab"; "xyz"] (fun _ => true) 0%nat
    (Conn (byte_chunks (frame "ab" +:+ frame "xyz")) [Wrote 1; WriteEintr] EmptyString)).
  - repeat constructor; by vm_compute.
  - split; [vm_compute; repeat split; done|by vm_compute].
  - by repeat constructor.
  - done.
Defined.

(** C8: How the per-connection loop ends, for every script of socket events,
    valid or hostile, and every handler that returns or throws: with the fuel
    [client_fuel] it always reaches one of three ends.  It returns; or the
    process dies, and then the handler threw; or it is stuck in a [write] that
    the peer lets block.  So no input keeps the loop going round, but a client
    that sends one request and never reads its answer keeps the server for
    ever: the request is handled, no byte of the answer is sent, and the loop
    does not return. *)
Theorem handle_client_total {St} (handler : option (St -> string -> option (St * string)))
    (live : nat -> bool) (st : St) (c : conn) :
  match handle_client handler (client_fuel c) live 0 st c with
  | Ended _ _ => True
  | Terminated _ => exists st' p, call_handler handler st' p = None
  | Blocked _ _ => In WriteBlocks (wr c)
  | OutOfFuel => False
  end /\
  (forall p rest st' r ws,
     request_ok p -> delivers (rd c) (frame p +:+ rest) -> live 0%nat = true ->
     call_handler handler st p = Some (st', r) -> wr c = WriteBlocks :: ws ->
     exists c', handle_client handler (client_fuel c) live 0 st c = Blocked st' c' /\ out c' = out c).
Proof.
  split.
  - apply (handle_client_ends handler (client_fuel c) live 0 st c). unfold client_fuel. lia.
  - intros p rest st' r ws. apply handle_client_blocks.
Qed.

Lemma handle_client_total_witness :
  exists c', handle_client echo_handler 7 (fun _ => true) 0 0%nat
    (Conn [ReadBytes (frame "ab")] [WriteBlocks] EmptyString) = Blocked 1%nat c' /\ out c' = EmptyString.
Proof.
  apply (proj2 (handle_client_total echo_handler (fun _ => true) 0%nat
    (Conn [ReadBytes (frame "ab")] [WriteBlocks] EmptyString)) "ab" EmptyString 1%nat "ab" []).
  - split; by vm_compute.
  - by split.
  - done.
  - done.
  - done.
Defined.

(** One such client, and nobody else is served: the accept loop hangs. *)
Lemma blocked_client_hangs_server {St} (handler : option (St -> string -> option (St * string)))
    cred live c evs st served st' c' :
  authenticatePeer cred = true ->
  handle_client handler (client_fuel c) live 0 st c = Blocked st' c' ->
  run handler (AcceptConn cred live c :: evs) true st served = Hung st' (served ++ [c']).
Proof. intros Ha Hb. cbn [run]. by rewrite Ha, Hb. Qed.

(** A frame header that announces zero bytes or more than 8 MiB closes
    the connection: the handler is not called and nothing is sent. *)
Theorem bad_length_rejected {St} (handler : option (St -> string -> option (St * string)))
    (live : nat -> bool) (st : St) (c : conn) (n : Z) (rest : string) :
  0 <= n < 2 ^ 32 -> n = 0 \/ MAX_FRAME < n ->
  delivers (rd c) (be32 n +:+ rest) ->
  exists c', handle_client handler (client_fuel c) live 0 st c = Ended st c' /\ out c' = out c.
Proof.
  intros Hn Hbad Hd. unfold client_fuel. cbn [handle_client]. destruct (live 0%nat); [|by eexists].
  destruct (readExact_delivers _ 4 EmptyString _ _ Hd) as (r1 & E1 & _); [reflexivity|].
  unfold read_exact. rewrite E1. cbn [String.append].
  rewrite <-(app_str_nil_r (be32 n)), be32_val_be32 by done.
  replace ((n =? 0) || (MAX_FRAME <? n)) with true by lia. by eexists.
Qed.

Lemma bad_length_rejected_witness :
  exists c', handle_client echo_handler 6 (fun _ => true) 0 0%nat
    (Conn [ReadBytes (be32 (2 ^ 31) +:+ "x")] [] EmptyString) = Ended 0%nat c' /\ out c' = EmptyString.
Proof.
  apply (bad_length_rejected echo_handler (fun _ => true) 0%nat
    (Conn [ReadBytes (be32 (2 ^ 31) +:+ "x")] [] EmptyString) (2 ^ 31) "x").
  - lia.
  - right. by vm_compute.
  - by split.
Defined.

(** The peers the daemon is meant to serve: root, system, shell and the
    application uid range. *)
Definition listed_peer (e : acc_ev) : bool :=
  match e with
  | AcceptConn (Some uid) _ _ =>
      bool_decide (uid = 0 \/ uid = 1000 \/ uid = 2000 \/ 10000 <= uid <= 19999)
  | AcceptConn None _ _ => false
  | _ => true
  end.

Lemma authenticatePeer_listed cred live c :
  authenticatePeer cred = listed_peer (AcceptConn cred live c).
Proof.
  destruct cred as [uid|]; [|done]. cbn. unfold isAllowedUid, UID_ROOT, UID_SYSTEM, UID_SHELL,
    AID_APP_START, AID_APP_END. case_bool_decide; destruct (_ || _) eqn:E; cbn; try done; lia.
Qed.

(** C9: A connection whose kernel-reported credentials are unavailable or
    outside the whitelist has no effect at all: the accept loop behaves
    exactly as if that client had never connected. *)
Theorem unlisted_peers_ignored {St} (handler : option (St -> string -> option (St * string)))
    (evs : list acc_ev) (running : bool) (st : St) (served : list conn) :
  run handler evs running st served = run handler (List.filter listed_peer evs) running st served.
Proof.
  revert running st served. induction evs as [|e evs IH]; intros [] st served;
    cbn [List.filter]; try done.
  - destruct (listed_peer e) eqn:El; destruct e as [| |cred live c|]; try done;
      cbn [run negb]; try by rewrite IH.
    + rewrite (authenticatePeer_listed cred live c), El. cbn [negb].
      destruct handle_client; try done; by rewrite IH.
    + rewrite (authenticatePeer_listed cred live c), El. cbn [negb]. by rewrite IH.
  - by destruct (listed_peer e), (List.filter listed_peer evs).
Qed.

Definition socket_op : sysop := OpCall "socket" [] [].
(** The socket that was asked for, if one was obtained, is closed at the end. *)
Definition closes_socket (w : World) (h h' : trace) : Prop :=
  (exists t, h' = h ++ t /\ Forall (fun o => o <> socket_op) t) \/
  exists h1 h2, h' = h1 ++ socket_op :: h2 /\ (exists t, h1 = h ++ t) /\
    let fd := w_int w h1 socket_op in
    fd < 0 \/ exists h3, h2 = h3 ++ [OpCall "close" [] [fd]].

Lemma snoc_all {A} (l : list A) : forall k, fold_left (fun h o => h ++ [o]) l k = k ++ l.
Proof. induction l as [|x l IH]; intros k; cbn; [by rewrite app_nil_r|by rewrite IH, <- app_assoc]. Qed.

(** a failing [start] leaks nothing: it leaves no listening descriptor in
    the server, closes the one it had obtained as its last act, and does not
    change the running flag. *)
Theorem start_failure_closes_fd (parent : string) (sv : server) (w : World) (h : trace) :
  running sv = false -> listen_fd sv = -1 ->
  let r := start_socket parent sv w h in
  r.1.1 = false -> listen_fd r.1.2 < 0 /\ running r.1.2 = false /\ closes_socket w h r.2.
Proof.
  intros Hr Hl r. unfold r.
  apply (wp_run _ (fun r h' => r.1 = false -> listen_fd r.2 < 0 /\ running r.2 = false /\ closes_socket w h h')).
  unfold start_socket. apply wp_bind, (wp_emits (fun o => o <> socket_op)).
  { unfold setup_dir. emits_tac; discriminate. }
  intros dir_ok t1 H1. destruct (default false dir_ok); cbn [negb]; [|apply wp_ret; intros _; cbn].
  2: { split_and!; [lia|done|left]. by exists t1. }
  apply wp_bind, wp_do, wp_bind, wp_int. fold socket_op. set (h1 := (h ++ t1) ++ _).
  assert (exists t, h1 = h ++ t) as Hh by (unfold h1; rewrite <- !app_assoc; eauto).
  set (fd := w_int w h1 socket_op). cbv zeta.
  assert (forall t3, closes_socket w h (fold_left (fun h o => h ++ [o]) t3 (h1 ++ [socket_op]) ++ [OpCall "close" [] [fd]])) as Hc.
  { intros t3. right. exists h1, (t3 ++ [OpCall "close" [] [fd]]). split_and!; [|done|right; eauto].
    rewrite snoc_all. by rewrite <- !app_assoc. }
  unfold close_fd. destruct (Z.ltb_spec fd 0).
  { apply wp_ret. intros _. cbn. split_and!; [done|done|right]. exists h1, []. split_and!; [done|done|by left]. }
  wp_tac; cbn; intros Hf; try discriminate Hf; (split_and!; [lia|done|]).
  - exact (Hc []).
  - exact (Hc [_]).
  - exact (Hc [_; _; _]).
Qed.

Lemma start_failure_closes_fd_witness :
  let w := {| w_exists := fun _ _ => true; w_read := fun _ _ => None; w_popen := fun _ _ => None;
              w_now := fun _ => EmptyString;
              w_int := fun _ o => match o with OpCall "bind" _ _ => -1 | OpExists _ => 0 | _ => 7 end |} in
  let r := start_socket "/dev/astra" (Server "/dev/astra/astrad.sock" (-1) false) w [] in
  listen_fd r.1.2 < 0 /\ closes_socket w [] r.2.
Proof.
  intros w r.
  destruct (start_failure_closes_fd "/dev/astra" (Server "/dev/astra/astrad.sock" (-1) false) w []
    eq_refl eq_refl) as (H1 & _ & H2); [vm_compute; reflexivity|].
  exact (conj H1 H2).
Defined.

(** The second server, [IpcServer], never receives a short frame sent
    with the documented big-endian length: it reads the length in host byte
    order, so the length of every payload of 1 to 255 bytes exceeds its
    1 MiB limit and the client is dropped. *)
Theorem ipc_server_drops_short_frames (payload : string) (chunks : list (option string)) :
  1 <= str_size payload <= 255 ->
  ipc_loop_client (Some (take_str 4 (frame payload))) chunks = None.
Proof.
  intros Hp. unfold frame. change 4%nat with (String.length (be32 (u32 (str_size payload)))).
  rewrite take_str_app. cbn [ipc_loop_client]. replace (u32 (str_size payload)) with (str_size payload)
    by (symmetry; apply Z.mod_small; lia).
  change (str_size (be32 (str_size payload)) =? 4) with true. cbn [negb].
  pose proof (le32_val_be32_small (str_size payload) ltac:(lia)).
  replace (_ || _) with true by lia. done.
Qed.

Lemma ipc_server_drops_short_frames_witness :
  ipc_loop_client (Some (take_str 4 (frame "ping"))) [Some "ping"] = None.
Proof. apply (ipc_server_drops_short_frames "ping"); by vm_compute. Defined.
