(* ===== verification/Shutdown.v ===== *)
(** * Shutdown: how the two servers stop

    The daemon's socket server is stopped by a signal: [Signals] models the
    handlers of [daemon/src/ipc/socket_server.cpp], the server they lead to
    (file Frame) and the process's dispositions.

    [daemon/src/ipc/ipc_server.cpp] is stopped by its owner, while a thread of
    its own accepts clients: [IpcServer] models both threads as small steps
    over the fields and the kernel objects they share, so that every
    interleaving of [stop] with [loop] is an execution. *)

From Stdlib Require Import ZArith String Lia.
From stdpp Require Import base list strings relations.
From S2P Require Import Prelude Frame.

Open Scope Z_scope.

(** ** Signals *)

Module Signals.

Inductive signal := SIGTERM | SIGINT | SIGPIPE.
#[global] Instance signal_eq_dec : EqDecision signal.
Proof. solve_decision. Defined.

(** What the process does on a signal: the default action of all three ends
    it. *)
Inductive disposition := SIG_DFL | SIG_IGN | trampoline.

Record process := {
  disp : signal -> disposition;
  g_server_for_signal : bool;       (* whether it points to the server *)
  sv : server;
}.

Definition set_disp (s : signal) (d : disposition) (p : process) : process :=
  {| disp := fun s' => if bool_decide (s' = s) then d else disp p s';
     g_server_for_signal := g_server_for_signal p; sv := sv p |}.
Definition set_server (sv' : server) (p : process) : process :=
  {| disp := disp p; g_server_for_signal := g_server_for_signal p; sv := sv' |}.
Definition set_global (b : bool) (p : process) : process :=
  {| disp := disp p; g_server_for_signal := b; sv := sv p |}.

Definition install_signal_handlers (p : process) : process :=
  set_disp SIGPIPE SIG_IGN (set_disp SIGINT trampoline (set_disp SIGTERM trampoline
    (set_global true p))).

Definition signal_trampoline (signum : signal) (p : process) : Sys process :=
  let! p := (if g_server_for_signal p
             then let! sv' := stop_socket (sv p) in ret (set_server sv' p)
             else ret p) in
  ret (set_disp signum SIG_DFL p).

(** The arrival of a signal; [None] is the end of the process. *)
Definition deliver (signum : signal) (p : process) : Sys (option process) :=
  match disp p signum with
  | SIG_DFL => ret None
  | SIG_IGN => ret (Some p)
  | trampoline => let! p := signal_trampoline signum p in ret (Some p)
  end.
Fixpoint deliver_all (signums : list signal) (p : process) : Sys (option process) :=
  match signums with
  | [] => ret (Some p)
  | s :: rest =>
      let! r := deliver s p in
      match r with Some p => deliver_all rest p | None => ret None end
  end.

(** [SocketServer::start] up to its return, in a process. *)
Definition start (parent : string) (p : process) : Sys (bool * process) :=
  let! '(ok, sv') := start_socket parent (sv p) in
  let p := set_server sv' p in
  ret (if ok then (true, install_signal_handlers p) else (false, p)).

(** [SocketServer::~SocketServer]. *)
Definition destroy (p : process) : Sys process :=
  let! sv' := stop_socket (sv p) in
  ret (set_global false (set_server sv' p)).

(** The calls of a [stop] that finds the server running. *)
Definition stop_ops (sv : server) : trace :=
  (if 0 <=? listen_fd sv
   then [OpCall "shutdown" [] [listen_fd sv]; OpCall "close" [] [listen_fd sv]] else [])
  ++ [OpCall "unlink" [socket_path sv] []].

Lemma stop_socket_eq s w h :
  exists s', stop_socket s w h = (s', h ++ if running s then stop_ops s else [])
             /\ running s' = false /\ (running s = true -> listen_fd s' < 0).
Proof.
  unfold stop_socket, stop_ops, bind, sys_do, ret. destruct (running s); cbn.
  - destruct (Z.leb_spec 0 (listen_fd s)); cbn; eexists;
      (split; [rewrite <-?app_assoc; reflexivity|]); by (split; [|intros _; cbn; lia]).
  - eexists. rewrite app_nil_r. by split.
Qed.

(** The dispositions once the handlers are installed and the signals [used]
    have arrived. *)
Definition armed (used : list signal) (p : process) : Prop :=
  g_server_for_signal p = true /\ disp p SIGPIPE = SIG_IGN
  /\ forall s, s <> SIGPIPE -> disp p s = if bool_decide (s ∈ used) then SIG_DFL else trampoline.

Definition stops (signums : list signal) : list signal := filter (.≠ SIGPIPE) signums.

Lemma stops_cons s rest : stops (s :: rest) = if decide (s <> SIGPIPE) then s :: stops rest else stops rest.
Proof. done. Qed.

Lemma armed_used s used p sv' :
  s <> SIGPIPE -> armed used p -> armed (s :: used) (set_disp s SIG_DFL (set_server sv' p)).
Proof.
  intros Hs (Hg & Hp & Hd). split; [done|]. split; [cbn; by rewrite bool_decide_eq_false_2|].
  intros s0 Hs0. cbn. destruct (decide (s0 = s)) as [->|Hne].
  - rewrite !bool_decide_eq_true_2; [done|apply list_elem_of_here|done].
  - rewrite bool_decide_eq_false_2, Hd by done.
    by rewrite (bool_decide_ext (s0 ∈ s :: used) (s0 ∈ used)) by (rewrite elem_of_cons; tauto).
Qed.

(** Signals over a server that has handled [used] of them already. *)
Lemma deliver_all_spec signums : forall used p w h,
  armed used p -> NoDup used -> (running (sv p) = true -> used = []) ->
  let '(r, h') := deliver_all signums p w h in
  h' = h ++ (if running (sv p) && negb (bool_decide (stops signums = []))
             then stop_ops (sv p) else [])
  /\ match r with
     | Some p' => NoDup (stops signums ++ used)
                  /\ if bool_decide (stops signums = []) then p' = p else running (sv p') = false
     | None => ~ NoDup (stops signums ++ used)
     end.
Proof.
  induction signums as [|s rest IH]; intros used p w h Ha Hu Hr; cbn [deliver_all].
  - cbn. by rewrite andb_false_r, app_nil_r.
  - rewrite stops_cons. destruct Ha as (Hg & Hp & Hd) eqn:E. clear E.
    unfold bind at 1, deliver. destruct (decide (s <> SIGPIPE)) as [Hs|Hs%dec_stable].
    2: { rewrite Hs, Hp. by apply IH. }
    rewrite (bool_decide_eq_false_2 (s :: stops rest = [])), andb_true_r by done.
    rewrite (Hd s Hs). destruct (decide (s ∈ used)) as [Hin|Hni].
    { rewrite bool_decide_eq_true_2 by done. cbn. split.
      - destruct (running (sv p)); [by rewrite Hr in Hin by done; apply not_elem_of_nil in Hin|].
        by rewrite app_nil_r.
      - intros [Hn _]%NoDup_cons. apply Hn, elem_of_app. by right. }
    rewrite bool_decide_eq_false_2 by done. unfold signal_trampoline, bind. rewrite Hg.
    destruct (stop_socket_eq (sv p) w h) as (s' & -> & Hr' & _). cbn.
    set (p1 := set_disp s SIG_DFL (set_server s' p)).
    specialize (IH (s :: used) p1 w (h ++ if running (sv p) then stop_ops (sv p) else [])).
    destruct (deliver_all rest p1 w _) as [r h']. change (running (sv p1)) with (running s') in IH.
    rewrite Hr' in IH. cbn [andb] in IH. destruct IH as [-> IH];
      [by apply armed_used|by apply NoDup_cons|done|]. split; [by rewrite app_nil_r|].
    assert (Hperm : NoDup (stops rest ++ s :: used) <-> NoDup (s :: stops rest ++ used))
      by (apply NoDup_Permutation_proper; symmetry; apply Permutation_middle).
    destruct r as [p'|]; rewrite <-Hperm; [|done]. split; [by apply IH|].
    destruct IH as [_ IH]. by case_bool_decide; [subst|].
Qed.

Lemma start_socket_running parent s w h s1 h1 :
  start_socket parent s w h = ((true, s1), h1) -> running s1 = true.
Proof.
  intros E. assert (Hw : wp (start_socket parent s) (fun r _ => r.1 = true -> running r.2 = true) w h).
  { unfold start_socket, setup_dir, close_fd. wp_tac; cbn; done. }
  unfold wp in Hw. rewrite E in Hw. by apply Hw.
Qed.

(** The daemon's server is shut down once and by its own handlers: from a
    successful start on, whatever signals arrive and in whatever order, the
    first SIGTERM or SIGINT shuts the listening socket down, closes it and
    removes its file, no later one does any of this again, nor does the
    destructor; the process survives exactly as long as neither of the two
    has come twice, and SIGPIPE never matters. *)
Theorem signals_stop_once parent signums p w h :
  let '((ok, p1), h1) := start parent p w h in
  if negb ok then True
  else
    let '(r, h2) := deliver_all signums p1 w h1 in
    let stopped := if bool_decide (stops signums = []) then [] else stop_ops (sv p1) in
    h2 = h1 ++ stopped
    /\ match r with
       | None => ~ NoDup (stops signums)
       | Some p2 => NoDup (stops signums)
                    /\ (destroy p2 w h2).2 = h1 ++ stop_ops (sv p1)
       end.
Proof.
  unfold start, bind. destruct (start_socket parent (sv p) w h) as [[[] s1] h1] eqn:Es; [|done].
  cbn [negb ret]. set (p1 := install_signal_handlers (set_server s1 p)).
  assert (Hrun : running s1 = true) by (by eapply start_socket_running).
  assert (Ha : armed [] p1).
  { split; [done|]. split; [done|]. intros s Hs. by destruct s. }
  pose proof (deliver_all_spec signums [] p1 w h1 Ha (NoDup_nil_2) (fun _ => eq_refl)) as Hd.
  destruct (deliver_all signums p1 w h1) as [r h2]. change (sv p1) with s1 in *.
  rewrite Hrun in Hd. cbn [andb] in Hd. rewrite app_nil_r in Hd. destruct Hd as [-> Hd].
  split; [by destruct (bool_decide _)|]. destruct r as [p2|]; [|done]. destruct Hd as [Hn Hr2].
  split; [done|]. unfold destroy, bind.
  destruct (stop_socket_eq (sv p2) w (h1 ++ if negb (bool_decide (stops signums = []))
                                            then stop_ops s1 else [])) as (s' & -> & _).
  cbn. rewrite <-app_assoc. f_equal. case_bool_decide; cbn; [subst p2|rewrite Hr2; by rewrite app_nil_r].
  change (sv p1) with s1. by rewrite Hrun.
Qed.
End Signals.

(** ** The legacy server: two threads *)

Module IpcServer.

Definition kSocketPath : string := "/data/local/tmp/astrad.sock".

(** A client: what the first [read] and the reads after it return (file
    Frame), or one that sends nothing and keeps the connection open. *)
Definition client : Type := option (option string * list (option string)).

(** Where [stop] is in the owner's thread. *)
Inductive main_pc :=
| Idle          (* not in stop *)
| Stopping      (* running_ is false *)
| Closed        (* close has returned *)
| Unset         (* socketFd_ is -1 *)
| Joining       (* the file is removed; waits for the worker *)
| Returned.     (* stop has returned *)

(** Where [loop] is in the worker's thread. *)
Inductive worker_pc :=
| NoThread
| Test                       (* about to read running_ *)
| Calling (fd : Z)           (* about to call accept with the descriptor read *)
| Accepting                  (* blocked in accept, on the open socket *)
| Failed                     (* accept has returned -1 *)
| Serving (c : client)
| Finished.

Record state := {
  socketFd_ : Z;
  running_ : bool;
  main : main_pc;
  worker : worker_pc;
  fd_open : option Z;                (* the descriptor of the listening socket *)
  path_bound : bool;                 (* its file is there *)
  pending : list client;             (* connected, not accepted *)
  received : list (option Z);        (* what the loop made of each client *)
}.

Definition initial : state := {|
  socketFd_ := -1; running_ := false; main := Idle; worker := NoThread; fd_open := None;
  path_bound := false; pending := []; received := [] |}.

Definition set_worker (pc : worker_pc) (s : state) : state :=
  {| socketFd_ := socketFd_ s; running_ := running_ s; main := main s; worker := pc;
     fd_open := fd_open s; path_bound := path_bound s; pending := pending s;
     received := received s |}.

(** [IpcServer::start], up to the state the worker starts in. *)
Definition ipc_start : Sys (bool * state) :=
  let! fd := sys_int (OpCall "socket" [] []) in
  if fd <? 0 then
    ret (false, {| socketFd_ := fd; running_ := false; main := Idle; worker := NoThread;
                   fd_open := None; path_bound := false; pending := []; received := [] |})
  else
    sys_do (OpCall "unlink" [kSocketPath] []) ;;;
    let! b := sys_int (OpCall "bind" [kSocketPath] [fd]) in
    if b <? 0 then sys_do (OpCall "close" [] [fd]) ;;; ret (false, initial)
    else
      let! l := sys_int (OpCall "listen" [] [fd; 8]) in
      if l <? 0 then sys_do (OpCall "close" [] [fd]) ;;; ret (false, initial)
      else
        ret (true, {| socketFd_ := fd; running_ := true; main := Idle; worker := Test;
                      fd_open := Some fd; path_bound := true; pending := []; received := [] |}).

(** The owner calls [stop]: [running_ = false]. *)
Definition stop_called (s : state) : option state :=
  match main s with
  | Idle => Some {| socketFd_ := socketFd_ s; running_ := false; main := Stopping;
                    worker := worker s; fd_open := fd_open s; path_bound := path_bound s;
                    pending := pending s; received := received s |}
  | _ => None
  end.

(** The next step of [stop]. *)
Definition stop_step (s : state) : option state :=
  let goto m fd o p :=
    Some {| socketFd_ := fd; running_ := running_ s; main := m; worker := worker s;
            fd_open := o; path_bound := p; pending := pending s; received := received s |} in
  match main s with
  | Idle | Returned => None
  | Stopping =>
      if 0 <=? socketFd_ s then goto Closed (socketFd_ s) None (path_bound s)
      else goto Unset (socketFd_ s) (fd_open s) (path_bound s)
  | Closed => goto Unset (-1) (fd_open s) (path_bound s)
  | Unset => goto Joining (socketFd_ s) (fd_open s) false
  | Joining =>
      match worker s with
      | NoThread | Finished => goto Returned (socketFd_ s) (fd_open s) (path_bound s)
      | _ => None
      end
  end.

Section loop.
(** Whether closing a listening descriptor makes a call of [accept] that is
    blocked on it return; on Linux it does not. *)
Variable close_wakes : bool.

(** The next step of [loop]. *)
Definition loop_step (s : state) : option state :=
  match worker s with
  | NoThread | Finished => None
  | Test => Some (set_worker (if running_ s then Calling (socketFd_ s) else Finished) s)
  | Calling fd =>
      Some (set_worker (if bool_decide (fd_open s = Some fd) then Accepting else Failed) s)
  | Accepting =>
      match pending s with
      | c :: rest =>
          Some {| socketFd_ := socketFd_ s; running_ := running_ s; main := main s;
                  worker := Serving c; fd_open := fd_open s; path_bound := path_bound s;
                  pending := rest; received := received s |}
      | [] => if close_wakes && bool_decide (fd_open s = None)
              then Some (set_worker Failed s) else None
      end
  | Failed => Some (set_worker Test s)
  | Serving None => None
  | Serving (Some (hdr, chunks)) =>
      Some {| socketFd_ := socketFd_ s; running_ := running_ s; main := main s; worker := Test;
              fd_open := fd_open s; path_bound := path_bound s; pending := pending s;
              received := received s ++ [ipc_loop_client hdr chunks] |}
  end.

(** What the world does: a client connects (through the file, while the
    socket is alive and its backlog of 8 is not exceeded), [accept] fails for
    another reason, a silent client goes away. *)
Inductive outside : state -> state -> Prop :=
| client_connects s c :
    path_bound s = true -> (fd_open s <> None \/ worker s = Accepting) ->
    (length (pending s) <= 8)%nat ->
    outside s {| socketFd_ := socketFd_ s; running_ := running_ s; main := main s;
                 worker := worker s; fd_open := fd_open s; path_bound := path_bound s;
                 pending := pending s ++ [c]; received := received s |}
| accept_fails s : worker s = Accepting -> outside s (set_worker Failed s)
| client_leaves s : worker s = Serving None ->
    outside s (set_worker (Serving (Some (None, []))) s).

(** The threads' own steps, and all steps. *)
Definition inside (s s' : state) : Prop := stop_step s = Some s' \/ loop_step s = Some s'.
Definition step (s s' : state) : Prop :=
  inside s s' \/ stop_called s = Some s' \/ outside s s'.

Definition reachable (s : state) : Prop :=
  exists w h s0 h', ipc_start w h = ((true, s0), h') /\ rtc step s0 s.

(** What the fields and the kernel agree on at every point of both threads. *)
Definition shutdown_inv (s : state) : Prop :=
  worker s <> NoThread
  /\ match main s with
     | Idle => running_ s = true /\ fd_open s = Some (socketFd_ s) /\ 0 <= socketFd_ s
               /\ path_bound s = true
     | Stopping => running_ s = false /\ fd_open s = Some (socketFd_ s) /\ 0 <= socketFd_ s
     | Closed | Unset => running_ s = false /\ fd_open s = None
     | Joining => running_ s = false /\ fd_open s = None /\ path_bound s = false
     | Returned => running_ s = false /\ fd_open s = None /\ path_bound s = false
                   /\ worker s = Finished
     end.

Lemma shutdown_inv_start w h s0 h' : ipc_start w h = ((true, s0), h') -> shutdown_inv s0.
Proof.
  unfold ipc_start, bind, sys_int, sys_do, ret. destruct (Z.ltb_spec (w_int w h (OpCall "socket" [] [])) 0); [done|].
  destruct (_ <? 0); [done|]. destruct (_ <? 0); [done|]. intros [= <- _]. cbn. done.
Qed.

Lemma stop_step_inv s s' : shutdown_inv s -> stop_step s = Some s' -> shutdown_inv s'.
Proof.
  unfold shutdown_inv, stop_step. intros [Hw Hm] Hs. destruct (main s) eqn:Em; try done.
  - destruct Hm as (Hr & Hf & Hp). rewrite (proj2 (Z.leb_le _ _) Hp) in Hs.
    injection Hs as <-. cbn. by rewrite Hr.
  - injection Hs as <-. cbn. tauto.
  - injection Hs as <-. cbn. tauto.
  - destruct (worker s) eqn:Ew; try done; injection Hs as <-; cbn; rewrite ?Ew; tauto.
Qed.

(** A step that changes the worker and the queue only. *)
Lemma worker_step_inv s s' :
  shutdown_inv s -> main s <> Returned -> worker s' <> NoThread ->
  main s' = main s -> running_ s' = running_ s -> fd_open s' = fd_open s ->
  socketFd_ s' = socketFd_ s -> path_bound s' = path_bound s -> shutdown_inv s'.
Proof.
  unfold shutdown_inv. intros [_ Hm] Hr Hw -> -> -> -> ->. split; [done|]. by destruct (main s).
Qed.

Lemma returned_finished s : shutdown_inv s -> main s = Returned -> worker s = Finished.
Proof. intros [_ Hm] E. rewrite E in Hm. tauto. Qed.

Lemma loop_step_inv s s' : shutdown_inv s -> loop_step s = Some s' -> shutdown_inv s'.
Proof.
  intros Hi Hs. assert (Hr : main s <> Returned).
  { intros Hr. unfold loop_step in Hs. by rewrite (returned_finished s Hi Hr) in Hs. }
  unfold loop_step in Hs. destruct (worker s) as [| |fd| | |[[hdr ch]|]|] eqn:Ew; try done.
  - injection Hs as <-. apply (worker_step_inv s); try done. cbn. by destruct (running_ s).
  - injection Hs as <-. apply (worker_step_inv s); try done. cbn. by destruct (bool_decide _).
  - destruct (pending s); [destruct (close_wakes && _); [|done]|];
      injection Hs as <-; by apply (worker_step_inv s).
  - injection Hs as <-. by apply (worker_step_inv s).
  - injection Hs as <-. by apply (worker_step_inv s).
Qed.

Lemma step_inv s s' : shutdown_inv s -> step s s' -> shutdown_inv s'.
Proof.
  intros Hi [[Hs|Hs]|[Hs|Hs]]; [by eapply stop_step_inv|by eapply loop_step_inv| |].
  - unfold stop_called in Hs. destruct (main s) eqn:Em; try done. injection Hs as <-.
    destruct Hi as [Hw Hm]. rewrite Em in Hm. split; [done|]. cbn. tauto.
  - assert (Hf : worker s = Accepting \/ worker s = Serving None -> main s <> Returned).
    { intros Hw Hr. rewrite (returned_finished s Hi Hr) in Hw. by destruct Hw. }
    destruct Hs as [s c Hp Ho Hl|s Hw|s Hw].
    + destruct Hi as [Hw Hm]. split; [done|]. by destruct (main s).
    + apply (worker_step_inv s); auto.
    + apply (worker_step_inv s); auto.
Qed.

Lemma reachable_inv s : reachable s -> shutdown_inv s.
Proof.
  intros (w & h & s0 & h' & Hs%shutdown_inv_start & Hr).
  induction Hr; [done|]. eauto using step_inv.
Qed.

(** What is left to do once [running_] is false: the steps of the threads, and
    the clients that the backlog still takes. *)
Definition main_left (m : main_pc) : nat :=
  match m with Idle => 5 | Stopping => 4 | Closed => 3 | Unset => 2 | Joining => 1 | Returned => 0 end.
Definition worker_left (pc : worker_pc) : nat :=
  match pc with
  | NoThread | Finished => 0 | Test => 1 | Failed | Serving (Some _) => 2 | Serving None => 3
  | Accepting => 4 | Calling _ => 5
  end.
Definition steps_left (s : state) : nat :=
  10 * (main_left (main s) + worker_left (worker s)) + (9 - length (pending s)).

Lemma steps_left_lt s s' :
  (main_left (main s') + worker_left (worker s') < main_left (main s) + worker_left (worker s))%nat ->
  (steps_left s' < steps_left s)%nat.
Proof. unfold steps_left. lia. Qed.

Lemma stop_progress s s' :
  running_ s = false -> stop_step s = Some s' ->
  running_ s' = false /\ (steps_left s' < steps_left s)%nat.
Proof.
  intros Hr Hs. unfold stop_step in Hs. destruct (main s) eqn:Em; try done.
  - destruct (0 <=? socketFd_ s); injection Hs as <-; (split; [done|]); apply steps_left_lt;
      cbn; rewrite Em; cbn; lia.
  - injection Hs as <-; (split; [done|]); apply steps_left_lt; cbn; rewrite Em; cbn; lia.
  - injection Hs as <-; (split; [done|]); apply steps_left_lt; cbn; rewrite Em; cbn; lia.
  - destruct (worker s) eqn:Ew; try done; injection Hs as <-; (split; [done|]);
      apply steps_left_lt; cbn; rewrite Em, Ew; cbn; lia.
Qed.

Lemma loop_progress s s' :
  running_ s = false -> loop_step s = Some s' ->
  running_ s' = false /\ (steps_left s' < steps_left s)%nat.
Proof.
  intros Hr Hs. unfold loop_step in Hs. destruct (worker s) as [| |fd| | |[[hdr ch]|]|] eqn:Ew;
    try done; [..|destruct (pending s); [destruct (close_wakes && _); [|done]|]| |];
    injection Hs as <-; (split; [done|]); apply steps_left_lt; cbn; rewrite ?Ew, ?Hr; cbn; try lia.
  - destruct (bool_decide _); cbn; lia.
  - destruct c; cbn; lia.
Qed.

Lemma step_progress s s' :
  running_ s = false -> step s s' -> running_ s' = false /\ (steps_left s' < steps_left s)%nat.
Proof.
  intros Hr [[Hs|Hs]|[Hs|Hs]]; [by apply stop_progress|by apply loop_progress| |].
  - unfold stop_called in Hs. destruct (main s) eqn:Em; try done. injection Hs as <-.
    split; [done|]. apply steps_left_lt. cbn. rewrite Em. cbn. lia.
  - destruct Hs as [s c _ _ Hl|s Hw|s Hw]; (split; [done|]).
    + unfold steps_left. cbn. rewrite length_app. cbn. lia.
    + apply steps_left_lt. cbn. rewrite Hw. cbn. lia.
    + apply steps_left_lt. cbn. rewrite Hw. cbn. lia.
Qed.

Lemma step_ends s : running_ s = false -> Acc (flip step) s.
Proof.
  remember (steps_left s) as n eqn:En.
  revert s En. induction (lt_wf n) as [n _ IH]. intros s -> Hr. constructor. intros s' Hs.
  destruct (step_progress s s' Hr Hs) as [Hr' Hlt]. by eapply IH.
Qed.

Lemma step_not_idle s s' : main s <> Idle -> step s s' -> main s' <> Idle.
Proof.
  intros Hm [[Hs|Hs]|[Hs|Hs]].
  - unfold stop_step in Hs. destruct (main s); try done;
      [destruct (0 <=? _)| | |destruct (worker s)]; try done; by injection Hs as <-.
  - unfold loop_step in Hs. destruct (worker s) as [| |fd| | |[[hdr ch]|]|]; try done;
      [| |destruct (pending s); [destruct (close_wakes && _); [|done]|]| |];
      by injection Hs as <-.
  - unfold stop_called in Hs. by destruct (main s).
  - by destruct Hs.
Qed.

(** Every execution from a call of [stop] on keeps the invariant. *)
Lemma steps_inv s s' : rtc step s s' ->
  shutdown_inv s -> running_ s = false -> main s <> Idle ->
  shutdown_inv s' /\ running_ s' = false /\ main s' <> Idle.
Proof.
  induction 1 as [|s s1 s' Hs _ IH]; [done|]. intros Hi Hr Hm. apply IH.
  - by eapply step_inv.
  - by destruct (step_progress s s1 Hr Hs).
  - by eapply step_not_idle.
Qed.

(** Where no thread can go on. *)
Lemma stuck_states s :
  shutdown_inv s -> running_ s = false -> main s <> Idle -> (forall t, ~ inside s t) ->
  main s = Returned /\ worker s = Finished
  \/ main s = Joining /\ path_bound s = false
     /\ (worker s = Serving None
         \/ worker s = Accepting /\ pending s = [] /\ close_wakes = false
            /\ forall t, step s t -> t = set_worker Failed s).
Proof.
  intros Hi Hr Hm Hst.
  destruct (stop_step s) as [t|] eqn:Es; [by destruct (Hst t); left|].
  destruct (loop_step s) as [t|] eqn:El; [by destruct (Hst t); right|].
  destruct Hi as [Hw Hi]. unfold stop_step, loop_step in *.
  destruct (main s) eqn:Em; try done; [by destruct (0 <=? socketFd_ s)| |left; tauto].
  right. destruct Hi as (_ & Hf & Hb). split; [done|]. split; [done|].
  destruct (worker s) as [| |fd| | |[[hdr ch]|]|] eqn:Ew; try done; [|by left].
  right. destruct (pending s); [|done]. rewrite Hf, bool_decide_eq_true_2, andb_true_r in El by done.
  split_and!; try done; [by destruct close_wakes|]. intros t [Ht|[Ht|Ht]]; [by destruct (Hst t)| |].
  - unfold stop_called in Ht. by rewrite Em in Ht.
  - destruct Ht; [congruence|done|congruence].
Qed.
End loop.

Lemma inside_idle s s' :
  worker s = Accepting -> pending s = [] -> inside false s s' ->
  worker s' = Accepting /\ pending s' = [].
Proof.
  intros Hw Hp [Hs|Hs].
  - unfold stop_step in Hs. rewrite Hw in Hs.
    destruct (main s); try done; [destruct (0 <=? socketFd_ s)|..]; by injection Hs as <-.
  - unfold loop_step in Hs. by rewrite Hw, Hp in Hs.
Qed.

Lemma insides_idle s s' :
  rtc (inside false) s s' -> worker s = Accepting -> pending s = [] -> main s <> Returned ->
  main s' <> Returned.
Proof.
  induction 1 as [|s s1 s' Hs _ IH]; [done|]. intros Hw Hp Hm.
  destruct (inside_idle s s1 Hw Hp Hs) as [Hw1 Hp1]. apply IH; try done.
  destruct Hs as [Hs|Hs].
  - unfold stop_step in Hs. rewrite Hw in Hs.
    destruct (main s); try done; [destruct (0 <=? socketFd_ s)|..]; by injection Hs as <-.
  - unfold loop_step in Hs. by rewrite Hw, Hp in Hs.
Qed.

(** A client that connects before the file is removed and goes away. *)
Lemma client_lets_stop_return cw s s0 :
  shutdown_inv s -> stop_called s = Some s0 -> worker s = Accepting -> pending s = [] ->
  exists s1, rtc (step cw) s0 s1 /\ main s1 = Returned.
Proof.
  intros [_ Hi] Hc Hw Hp. destruct s as [fd r m wk o pb pe rc]. cbn in *. subst.
  destruct m; try done. destruct Hi as (-> & -> & Hfd & ->). injection Hc as <-.
  set (st m fd o p pe wk rc := {| socketFd_ := fd; running_ := false; main := m; worker := wk;
    fd_open := o; path_bound := p; pending := pe; received := rc |}).
  set (c := Some (None, []) : client). eexists (st Returned (-1) None false [] Finished (rc ++ [None])).
  split; [|done].
  apply rtc_l with (st Stopping fd (Some fd) true [c] Accepting rc).
  { right; right. apply (client_connects (st Stopping fd (Some fd) true [] Accepting rc)); cbn; auto with lia. }
  apply rtc_l with (st Stopping fd (Some fd) true [] (Serving c) rc); [by left; right|].
  apply rtc_l with (st Stopping fd (Some fd) true [] Test (rc ++ [None])); [by left; right|].
  apply rtc_l with (st Stopping fd (Some fd) true [] Finished (rc ++ [None])); [by left; right|].
  apply rtc_l with (st Closed fd None true [] Finished (rc ++ [None])).
  { left; left. unfold stop_step. cbn. by rewrite (proj2 (Z.leb_le _ _) Hfd). }
  apply rtc_l with (st Unset (-1) None true [] Finished (rc ++ [None])); [by left; left|].
  apply rtc_l with (st Joining (-1) None false [] Finished (rc ++ [None])); [by left; left|].
  apply rtc_once. by left; left.
Qed.

(** C17: Stopping the legacy server.  Once the owner has called [stop], only
    finitely many steps follow in every interleaving of the two threads with
    the clients (that connect, leave, or are refused).  When neither thread can
    go on, either [stop] has returned and the worker is gone, or [stop] waits
    in [join], the socket's file is gone, and the worker waits for a silent
    client, or (when closing a descriptor does not wake [accept]) for a client
    that cannot come any more: then nothing but an error of [accept] happens.
    And when closing does not wake [accept], the worker waits for a client and
    none has connected yet, then the two threads alone never make [stop]
    return, while a client that still connects before the file is removed can
    make it return. *)
Theorem stop_outcomes close_wakes s s0 :
  reachable close_wakes s -> stop_called s = Some s0 ->
  Acc (flip (step close_wakes)) s0
  /\ (forall s', rtc (step close_wakes) s0 s' -> (forall t, ~ inside close_wakes s' t) ->
       main s' = Returned /\ worker s' = Finished
       \/ main s' = Joining /\ path_bound s' = false
          /\ (worker s' = Serving None
              \/ worker s' = Accepting /\ pending s' = [] /\ close_wakes = false
                 /\ forall t, step close_wakes s' t -> t = set_worker Failed s'))
  /\ (close_wakes = false -> worker s = Accepting -> pending s = [] ->
       (forall s', rtc (inside false) s0 s' -> main s' <> Returned)
       /\ exists s', rtc (step false) s0 s' /\ main s' = Returned).
Proof.
  intros Hi%reachable_inv Hc.
  assert (Hi0 : shutdown_inv s0) by (eapply (step_inv close_wakes); [done|]; right; by left).
  assert (Hs0 : running_ s0 = false /\ main s0 = Stopping /\ worker s0 = worker s
                /\ pending s0 = pending s).
  { unfold stop_called in Hc. destruct (main s); try done. by injection Hc as <-. }
  destruct Hs0 as (Hr0 & Hm0 & Hw0 & Hp0). split_and!; [by apply step_ends|..].
  - intros s' Hs Hst. apply steps_inv in Hs as (Hi' & Hr' & Hm'); try done; [|by rewrite Hm0].
    by apply stuck_states.
  - intros -> Hw Hp. rewrite <-Hw0 in Hw. rewrite <-Hp0 in Hp. split.
    + intros s' Hs. eapply insides_idle; [exact Hs|done|done|by rewrite Hm0].
    + eapply client_lets_stop_return; [exact Hi|done|congruence|congruence].
Qed.

(** ** A server nobody connects to *)

Definition quiet_world : World := {|
  w_exists := fun _ _ => true; w_read := fun _ _ => None; w_popen := fun _ _ => None;
  w_now := fun _ => EmptyString;
  w_int := fun _ o => match o with OpCall "socket" _ _ => 7 | _ => 0 end |}.
Definition quiet (m : main_pc) (pc : worker_pc) (o : option Z) (run p : bool) (fd : Z) : state :=
  {| socketFd_ := fd; running_ := run; main := m; worker := pc; fd_open := o; path_bound := p;
     pending := []; received := [] |}.

Lemma stop_outcomes_witness :
  (forall s', rtc (inside false) (quiet Stopping Accepting (Some 7) false true 7) s' ->
     main s' <> Returned)
  /\ exists s', rtc (step false) (quiet Stopping Accepting (Some 7) false true 7) s'
       /\ main s' = Returned.
Proof.
  assert (Hr : reachable false (quiet Idle Accepting (Some 7) true true 7)).
  { exists quiet_world, [], (quiet Idle Test (Some 7) true true 7). eexists.
    split; [reflexivity|]. apply rtc_l with (quiet Idle (Calling 7) (Some 7) true true 7).
    - left; right; reflexivity.
    - apply rtc_once. left; right; reflexivity. }
  destruct (stop_outcomes false _ (quiet Stopping Accepting (Some 7) false true 7) Hr eq_refl)
    as (_ & _ & Ho).
  exact (Ho eq_refl eq_refl eq_refl).
Defined.
End IpcServer.
