(* ===== verification/Json.v ===== *)
(** * Json: the JSON codec of the IPC layer

    [daemon/src/ipc/json_codec.cpp] builds responses with the vendored
    nlohmann library and parses the structured execute request;
    [main.cpp], [capability_service.cpp] and [provider_service.cpp] escape
    strings by hand.  Of the library, the parts whose behaviour decides
    what is sent are modelled from [third_party/nlohmann/json.hpp]: the
    ordered object, the typed accessors and the compact serializer with its
    UTF-8 automaton.  The parser, the rendering of floating-point numbers
    and their conversion to [int] are the parameters of the class
    [JsonLib]. *)

From Stdlib Require Import ZArith Ascii String Lia.
From stdpp Require Import base numbers list strings pretty.
From S2P Require Import Prelude.

Open Scope Z_scope.

(** ** Values *)

(** Objects are [std::map]s: association lists in ascending byte order of
    the keys.  A floating-point number is its 64-bit pattern. *)
Inductive json :=
| JNull
| JBool (b : bool)
| JInt (z : Z)
| JFloat (bits : Z)
| JString (s : string)
| JArray (l : list json)
| JObject (kvs : list (string * json)).

Class JsonLib := {
  json_parse : string -> option json;    (* None: a parse error is thrown *)
  dump_float : Z -> string;
  float_to_i32 : Z -> Z;
}.

(** [j[key] = v] and [find] on an object. *)
Abbreviation obj_set := (@smap_set json).
Abbreviation obj_find := (@smap_find json).

Definition obj (kvs : list (string * json)) : json :=
  JObject (fold_left (fun o kv => obj_set kv.1 kv.2 o) kvs []).

(** [get<T>()]; [None] is a thrown type error. *)
Definition get_string (j : json) : option string :=
  match j with JString s => Some s | _ => None end.
Definition get_bool (j : json) : option bool :=
  match j with JBool b => Some b | _ => None end.
Definition get_int `{JsonLib} (j : json) : option Z :=
  match j with
  | JInt z => Some (i32 z)
  | JFloat f => Some (float_to_i32 f)
  | JBool b => Some (if b then 1 else 0)
  | _ => None
  end.

(** [j.value(key, default)]. *)
Definition json_value {A} (get : json -> option A) (j : json) (key : string) (default : A)
    : option A :=
  match j with
  | JObject kvs => match obj_find key kvs with
                   | Some v => get v
                   | None => Some default
                   end
  | _ => None
  end.

(** ** The serializer *)

Definition UTF8_ACCEPT : Z := 0.
Definition UTF8_REJECT : Z := 1.

(** The class of every byte, then one row of sixteen entries per state. *)
Definition utf8d : list Z :=
  replicate 128 0 ++ replicate 16 1 ++ replicate 16 9 ++ replicate 32 7
  ++ [8; 8] ++ replicate 30 2
  ++ [10; 3; 3; 3; 3; 3; 3; 3; 3; 3; 3; 3; 3; 4; 3; 3]
  ++ [11; 6; 6; 6; 5; 8; 8; 8; 8; 8; 8; 8; 8; 8; 8; 8]
  ++ [0; 1; 2; 3; 5; 8; 7; 1; 1; 1; 4; 6; 1; 1; 1; 1]
  ++ [1; 1; 1; 1; 1; 1; 1; 1; 1; 1; 1; 1; 1; 1; 1; 1;
      1; 0; 1; 1; 1; 1; 1; 0; 1; 0; 1; 1; 1; 1; 1; 1]
  ++ [1; 2; 1; 1; 1; 1; 1; 2; 1; 2; 1; 1; 1; 1; 1; 1;
      1; 1; 1; 1; 1; 1; 1; 2; 1; 1; 1; 1; 1; 1; 1; 1]
  ++ [1; 2; 1; 1; 1; 1; 1; 1; 1; 2; 1; 1; 1; 1; 1; 1;
      1; 1; 1; 1; 1; 1; 1; 3; 1; 3; 1; 1; 1; 1; 1; 1]
  ++ [1; 3; 1; 1; 1; 1; 1; 3; 1; 3; 1; 1; 1; 1; 1; 1;
      1; 3; 1; 1; 1; 1; 1; 1; 1; 1; 1; 1; 1; 1; 1; 1].

Definition utf8d_at (i : Z) : Z := nth (Z.to_nat i) utf8d 0.

Definition decode (state codep byte : Z) : Z * Z :=
  let type := utf8d_at byte in
  let codep' := if negb (state =? UTF8_ACCEPT)
                then Z.lor (Z.land byte 63) (u32 (Z.shiftl codep 6))
                else Z.land (Z.shiftr 255 type) byte in
  (utf8d_at (256 + state * 16 + type), codep').

(** [snprintf] with [%04x] of a 16-bit value, and the escape sequences. *)
Definition hex_digit (n : Z) : ascii :=
  byte_of (if n <? 10 then 48 + n else 87 + n).
Definition hex4 (n : Z) : string :=
  String (hex_digit (n / 4096 mod 16)) (String (hex_digit (n / 256 mod 16))
    (String (hex_digit (n / 16 mod 16)) (String (hex_digit (n mod 16)) EmptyString))).
Definition esc (s : string) : string := String bslash s.
Definition esc_u (n : Z) : string := esc ("u" +:+ hex4 n).

(** The code point switch of [dump_escaped] with [ensure_ascii] off; [c] is
    the byte that completed the code point. *)
Definition dump_codepoint (codepoint : Z) (c : ascii) : string :=
  if codepoint =? 8 then esc "b"
  else if codepoint =? 9 then esc "t"
  else if codepoint =? 10 then esc "n"
  else if codepoint =? 12 then esc "f"
  else if codepoint =? 13 then esc "r"
  else if codepoint =? 34 then esc dq
  else if codepoint =? 92 then esc (String bslash EmptyString)
  else if codepoint <=? 31 then esc_u codepoint
  else String c EmptyString.

(** [dump_escaped] with the strict error handler, the default of [dump()];
    [None] is the type error 316 it throws. *)
Fixpoint dump_escaped_from (state codep : Z) (s : string) : option string :=
  match s with
  | EmptyString => if state =? UTF8_ACCEPT then Some EmptyString else None
  | String c s' =>
      let '(state', codep') := decode state codep (byte_val c) in
      if state' =? UTF8_ACCEPT then
        match dump_escaped_from state' codep' s' with
        | Some r => Some (dump_codepoint codep' c +:+ r)
        | None => None
        end
      else if state' =? UTF8_REJECT then None
      else
        match dump_escaped_from state' codep' s' with
        | Some r => Some (String c r)
        | None => None
        end
  end.

Definition dump_escaped (s : string) : option string := dump_escaped_from UTF8_ACCEPT 0 s.

Definition dump_string (s : string) : option string :=
  match dump_escaped s with Some e => Some (quoted e) | None => None end.

Fixpoint join (sep : string) (ls : list string) : string :=
  match ls with
  | [] => EmptyString
  | [l] => l
  | l :: ls' => l +:+ sep +:+ join sep ls'
  end.

(** [basic_json::dump()] with no indentation. *)
Fixpoint dump `{JsonLib} (j : json) : option string :=
  match j with
  | JNull => Some "null"
  | JBool b => Some (if b then "true" else "false")
  | JInt z => Some (show_Z z)
  | JFloat f => Some (dump_float f)
  | JString s => dump_string s
  | JArray l =>
      match (fix go l := match l with
                         | [] => Some []
                         | v :: l' => match dump v, go l' with
                                      | Some d, Some ds => Some (d :: ds)
                                      | _, _ => None
                                      end
                         end) l with
      | Some ds => Some ("[" +:+ join "," ds +:+ "]")
      | None => None
      end
  | JObject kvs =>
      match (fix go kvs := match kvs with
                           | [] => Some []
                           | (k, v) :: kvs' =>
                               match dump_string k, dump v, go kvs' with
                               | Some dk, Some d, Some ds => Some ((dk +:+ ":" +:+ d) :: ds)
                               | _, _, _ => None
                               end
                           end) kvs with
      | Some ds => Some ("{" +:+ join "," ds +:+ "}")
      | None => None
      end
  end.

(** ** json_codec.h, json_codec.cpp *)

Record ExecReq := {
  er_module_id : string;
  er_capability : string;
  er_risk_level : Z;
  er_approved : bool;
  er_caller : string;
  er_command : string;
}.

Record ProviderInfo := {
  pi_id : string;
  pi_name : string;
  pi_detected : bool;
  pi_available : bool;
  pi_version : string;
  pi_source : string;
}.

Record CapabilityInfo := { ci_available : bool; ci_source : string }.

Section codec.
Context `{JsonLib}.

(** [None] is the return value [false], reached by a guard or by the
    catch of any exception of the library. *)
Definition parse_execute_request (body : string) : option ExecReq :=
  j ← json_parse body;
  match j with
  | JObject _ =>
      module_id ← json_value get_string j "moduleId" EmptyString;
      capability ← json_value get_string j "capability" EmptyString;
      caller ← json_value get_string j "caller" EmptyString;
      command ← json_value get_string j "command" EmptyString;
      risk ← json_value get_int j "riskLevel" 100;
      let risk_level := if risk <? 0 then 100 else if 100 <? risk then 100 else risk in
      approved ← json_value get_bool j "approved" false;
      if is_empty command then None
      else if is_empty module_id then None
      else if is_empty capability then None
      else if is_empty caller then None
      else Some {| er_module_id := module_id; er_capability := capability;
                   er_risk_level := risk_level; er_approved := approved;
                   er_caller := caller; er_command := command |}
  | _ => None
  end.

(** The response builders; [None] is an exception that leaves the builder. *)
Definition make_exec_response (success : bool) (exit_code : Z) (stdout_s stderr_s : string)
    : option string :=
  dump (obj [("success", JBool success); ("exit_code", JInt exit_code);
             ("stdout", JString stdout_s); ("stderr", JString stderr_s)]).

Definition make_error_response (error reason : string) : option string :=
  dump (obj [("error", JString error); ("reason", JString reason)]).

Definition audit_entry (line : string) : json :=
  match json_parse line with Some j => j | None => JString line end.
Definition make_audit_array (raw_lines : string) : option string :=
  dump (JArray (audit_entry <$> List.filter (fun l => negb (is_empty l)) (getlines raw_lines))).

Definition make_ping_response (version : string) (uptime_ms : Z) : option string :=
  dump (obj [("status", JString "ok"); ("version", JString version);
             ("uptime_ms", JInt uptime_ms)]).

(** A [std::map] argument is its list of entries. *)
Definition make_capability_response (caps : list (string * bool)) : option string :=
  dump (obj [("capabilities", obj ((fun kv => (kv.1, JBool kv.2)) <$> caps));
             ("count", JInt (Z.of_nat (List.length caps)))]).

Definition capability_entry (info : CapabilityInfo) : json :=
  obj [("available", JBool (ci_available info)); ("source", JString (ci_source info))].
Definition make_capability_response_with_source (caps : list (string * CapabilityInfo))
    : option string :=
  dump (obj [("capabilities", obj ((fun kv => (kv.1, capability_entry kv.2)) <$> caps));
             ("count", JInt (Z.of_nat (List.length caps)))]).

Definition provider_entry (p : ProviderInfo) : json :=
  obj [("id", JString (pi_id p)); ("name", JString (pi_name p));
       ("detected", JBool (pi_detected p)); ("available", JBool (pi_available p));
       ("version", JString (pi_version p)); ("source", JString (pi_source p))].
Definition make_providers_response (providers : list ProviderInfo) : option string :=
  dump (obj [("providers", JArray (provider_entry <$> providers));
             ("count", JInt (Z.of_nat (List.length providers)))]).

(** With no entry [j] is still null. *)
Definition make_kv_response (kv : list (string * string)) : option string :=
  dump (match kv with
        | [] => JNull
        | _ => obj ((fun e => (e.1, JString e.2)) <$> kv)
        end).
End codec.

(** ** The hand-written escapers *)

(** [json_escape] of [main.cpp] and of [capability_service.cpp]. *)
Definition escape_char (c : ascii) : string :=
  let n := byte_val c in
  if n =? 34 then esc dq
  else if n =? 92 then esc (String bslash EmptyString)
  else if n =? 10 then esc "n"
  else if n =? 13 then esc "r"
  else if n =? 9 then esc "t"
  else if n <? 32 then esc_u n
  else String c EmptyString.
Fixpoint json_escape (s : string) : string :=
  match s with
  | EmptyString => EmptyString
  | String c s' => escape_char c +:+ json_escape s'
  end.

(** [json_escape] of [provider_service.cpp], without the control characters. *)
Definition provider_escape_char (c : ascii) : string :=
  let n := byte_val c in
  if n =? 34 then esc dq
  else if n =? 92 then esc (String bslash EmptyString)
  else if n =? 10 then esc "n"
  else if n =? 13 then esc "r"
  else if n =? 9 then esc "t"
  else String c EmptyString.
Fixpoint provider_json_escape (s : string) : string :=
  match s with
  | EmptyString => EmptyString
  | String c s' => provider_escape_char c +:+ provider_json_escape s'
  end.

(** ** Reference: reading a JSON string body back (RFC 8259)

    Raw control characters and raw quotes are errors; a [\u] escape stands
    for one byte here because the writers only escape code points below 128. *)
Definition hex_val (c : ascii) : option Z :=
  let n := byte_val c in
  if (48 <=? n) && (n <=? 57) then Some (n - 48)
  else if (97 <=? n) && (n <=? 102) then Some (n - 87)
  else if (65 <=? n) && (n <=? 70) then Some (n - 55)
  else None.

Definition simple_escape (c : ascii) : option Z :=
  let n := byte_val c in
  if n =? 34 then Some 34 else if n =? 92 then Some 92 else if n =? 47 then Some 47
  else if n =? 98 then Some 8 else if n =? 102 then Some 12 else if n =? 110 then Some 10
  else if n =? 114 then Some 13 else if n =? 116 then Some 9 else None.

Fixpoint json_unescape (s : string) : option string :=
  match s with
  | EmptyString => Some EmptyString
  | String c s1 =>
      if byte_val c =? 92 then
        match s1 with
        | EmptyString => None
        | String d s2 =>
            if byte_val d =? 117 then
              match s2 with
              | String a (String b (String e (String f s3))) =>
                  va ← hex_val a; vb ← hex_val b; ve ← hex_val e; vf ← hex_val f;
                  let n := 4096 * va + 256 * vb + 16 * ve + vf in
                  if n <? 128 then String (byte_of n) <$> json_unescape s3 else None
              | _ => None
              end
            else v ← simple_escape d; String (byte_of v) <$> json_unescape s2
        end
      else if (byte_val c =? 34) || (byte_val c <? 32) then None
      else String c <$> json_unescape s1
  end.

(** The well-formed UTF-8 byte sequences (RFC 3629, section 4). *)
Definition in_range (lo hi : Z) (c : ascii) : Prop := lo <= byte_val c <= hi.
Inductive utf8 : string -> Prop :=
| utf8_nil : utf8 EmptyString
| utf8_1 a s : in_range 0 127 a -> utf8 s -> utf8 (String a s)
| utf8_2 a b s : in_range 194 223 a -> in_range 128 191 b -> utf8 s ->
    utf8 (String a (String b s))
| utf8_3 a b c s :
    (in_range 224 224 a /\ in_range 160 191 b \/ in_range 225 236 a /\ in_range 128 191 b
     \/ in_range 237 237 a /\ in_range 128 159 b \/ in_range 238 239 a /\ in_range 128 191 b) ->
    in_range 128 191 c -> utf8 s -> utf8 (String a (String b (String c s)))
| utf8_4 a b c d s :
    (in_range 240 240 a /\ in_range 144 191 b \/ in_range 241 243 a /\ in_range 128 191 b
     \/ in_range 244 244 a /\ in_range 128 143 b) ->
    in_range 128 191 c -> in_range 128 191 d -> utf8 s ->
    utf8 (String a (String b (String c (String d s)))).

(** ** The UTF-8 automaton

    [utf8_next] is the automaton of the table as byte ranges. *)
Definition between (lo hi b : Z) : bool := (lo <=? b) && (b <=? hi).
Definition utf8_next (st b : Z) : Z :=
  if st =? 0 then
    if between 0 127 b then 0 else if between 194 223 b then 2
    else if b =? 224 then 4 else if b =? 237 then 5 else if between 225 239 b then 3
    else if b =? 240 then 6 else if between 241 243 b then 7 else if b =? 244 then 8 else 1
  else if st =? 2 then if between 128 191 b then 0 else 1
  else if st =? 3 then if between 128 191 b then 2 else 1
  else if st =? 4 then if between 160 191 b then 2 else 1
  else if st =? 5 then if between 128 159 b then 2 else 1
  else if st =? 6 then if between 144 191 b then 3 else 1
  else if st =? 7 then if between 128 191 b then 3 else 1
  else if between 128 143 b then 3 else 1.

Definition live_states : list Z := [0; 2; 3; 4; 5; 6; 7; 8].
Definition all_bytes : list Z := Z.of_nat <$> seq 0 256.

Lemma all_bytes_spec b : 0 <= b < 256 -> In b all_bytes.
Proof.
  intros Hb. unfold all_bytes. change (In b (List.map Z.of_nat (seq 0 256))).
  apply List.in_map_iff. exists (Z.to_nat b). rewrite List.in_seq. lia.
Qed.

(** A property of all bytes is decided by evaluating it on the 256 of them. *)
Lemma byte_forall (P : Z -> bool) :
  List.forallb P all_bytes = true -> forall b, 0 <= b < 256 -> P b = true.
Proof. intros HP b Hb. eapply List.forallb_forall in HP; [done|by apply all_bytes_spec]. Qed.

Lemma utf8d_next st b :
  In st live_states -> 0 <= b < 256 ->
  utf8d_at (256 + st * 16 + utf8d_at b) = utf8_next st b.
Proof.
  intros Hst Hb. apply Z.eqb_eq.
  assert (List.forallb (fun st => List.forallb
    (fun b => utf8d_at (256 + st * 16 + utf8d_at b) =? utf8_next st b) all_bytes)
    live_states = true) as E by (vm_compute; reflexivity).
  eapply List.forallb_forall in E; [|exact Hst].
  exact (byte_forall _ E b Hb).
Qed.

Lemma lead_codepoint b :
  0 <= b < 256 -> utf8_next 0 b <> 1 ->
  Z.land (Z.shiftr 255 (utf8d_at b)) b
  = if b <? 128 then b else if b <? 224 then b - 192 else if b <? 240 then b - 224 else b - 240.
Proof.
  intros Hb Hn.
  assert (forall b, 0 <= b < 256 -> (utf8_next 0 b =? 1) ||
    (Z.land (Z.shiftr 255 (utf8d_at b)) b =? if b <? 128 then b
      else if b <? 224 then b - 192 else if b <? 240 then b - 224 else b - 240) = true) as E.
  { apply byte_forall. vm_compute. reflexivity. }
  specialize (E b Hb). apply orb_prop in E as [E|E]; apply Z.eqb_eq in E; done.
Qed.

Lemma next_codepoint b cp :
  0 <= b < 256 -> 0 <= cp < 2 ^ 20 -> Z.lor (Z.land b 63) (u32 (Z.shiftl cp 6)) = cp * 64 + b mod 64.
Proof.
  intros Hb Hcp. unfold u32.
  rewrite (Z.mod_small (Z.shiftl cp 6)) by (rewrite Z.shiftl_mul_pow2 by lia; lia).
  change 63 with (Z.ones 6). rewrite Z.land_ones by lia.
  assert (Z.land (b mod 2 ^ 6) (Z.shiftl cp 6) = 0) as E.
  { apply Z.bits_inj'. intros n Hn. rewrite Z.land_spec, Z.bits_0.
    destruct (Z.lt_ge_cases n 6).
    - rewrite (Z.shiftl_spec_low cp) by lia. apply andb_false_r.
    - rewrite <-Z.land_ones, Z.land_spec, (Z.ones_spec_high 6 n) by lia.
      by rewrite andb_false_r. }
  pose proof (Z.add_lor_land (b mod 2 ^ 6) (Z.shiftl cp 6)) as E'.
  rewrite Z.shiftl_mul_pow2 in * by lia. change (2 ^ 6) with 64 in *. lia.
Qed.

(** What the accumulated code point can be in every state. *)
Definition cp_range (st : Z) : Z * Z :=
  if st =? 2 then (2, 17407) else if st =? 3 then (1, 271) else if st =? 4 then (0, 0)
  else if st =? 5 then (13, 13) else if st =? 6 then (0, 0) else if st =? 7 then (1, 3)
  else (4, 4).
Definition cp_ok (st cp : Z) : Prop := st = 0 \/ (cp_range st).1 <= cp <= (cp_range st).2.

Ltac byte_cases :=
  repeat (match goal with
          | H : context [if ?c then _ else _] |- _ => destruct c eqn:?
          | |- context [if ?c then _ else _] => destruct c eqn:?
          end; try lia).

(** One step of [decode] from a live state, by the byte ranges. *)
Lemma decode_step st cp c st' cp' :
  In st live_states -> cp_ok st cp -> decode st cp (byte_val c) = (st', cp') ->
  st' = utf8_next st (byte_val c) /\
  (st' <> 1 -> In st' live_states /\ cp_ok st' cp' /\
     (st = 0 -> st' = 0 -> cp' = byte_val c) /\
     (st <> 0 -> st' = 0 -> 128 <= cp') /\
     (st <> 0 \/ st' <> 0 -> 128 <= byte_val c)).
Proof.
  intros Hst Hcp E. pose proof (byte_val_bound c) as Hb.
  unfold decode in E. rewrite utf8d_next in E by done. injection E as <- E.
  split; [done|]. intros Hlive.
  assert (st = 0 -> cp' = if byte_val c <? 128 then byte_val c else if byte_val c <? 224
    then byte_val c - 192 else if byte_val c <? 240 then byte_val c - 224
    else byte_val c - 240) as Hlead.
  { intros ->. rewrite <-E. by apply lead_codepoint. }
  assert (st <> 0 -> cp' = cp * 64 + byte_val c mod 64) as Hnext.
  { intros Hst0. rewrite <-E. unfold UTF8_ACCEPT. destruct (st =? 0) eqn:?; [lia|]. simpl.
    apply next_codepoint; [done|]. destruct Hcp as [?|Hcp]; [lia|]. unfold cp_range in Hcp.
    byte_cases; simpl in Hcp; lia. }
  clear E. generalize dependent (byte_val c). intros b Hb Hlive Hlead Hnext.
  assert (b mod 64 = b - 64 * (b / 64)) as Hm by (rewrite Z.mod_eq; lia).
  assert (b / 64 = 0 /\ b < 64 \/ b / 64 = 1 /\ 64 <= b < 128 \/ b / 64 = 2 /\ 128 <= b < 192
     \/ b / 64 = 3 /\ 192 <= b) as Hd.
  { pose proof (Z.div_mod b 64 ltac:(lia)). pose proof (Z.mod_pos_bound b 64 ltac:(lia)). lia. }
  unfold cp_ok, live_states in *. simpl in Hst.
  destruct Hst as [<-|[<-|[<-|[<-|[<-|[<-|[<-|[<-|[]]]]]]]]];
    cbn [utf8_next cp_range Z.eqb Pos.eqb] in *; unfold between in *;
    repeat match goal with
    | |- context [if ?c then _ else _] => destruct c eqn:?
    end;
    cbn [cp_range fst snd Z.eqb Pos.eqb In] in *; try done;
    (try specialize (Hnext ltac:(lia))); (try specialize (Hlead eq_refl)); try lia; byte_cases.
Qed.

(** ** Unescaping *)

Lemma json_unescape_raw c r :
  128 <= byte_val c -> json_unescape (String c r) = String c <$> json_unescape r.
Proof.
  intros Hc. cbn. destruct (byte_val c =? 92) eqn:?; [lia|].
  destruct (byte_val c =? 34) eqn:?; [lia|]. by destruct (byte_val c <? 32) eqn:?; [lia|].
Qed.

(** An escaper of single bytes is read back byte by byte. *)
Definition unescapes (e : ascii -> string) (c : ascii) : Prop :=
  forall r, json_unescape (e c +:+ r) = String c <$> json_unescape r.

Lemma dump_codepoint_unescapes c r :
  byte_val c < 128 ->
  json_unescape (dump_codepoint (byte_val c) c +:+ r) = String c <$> json_unescape r.
Proof.
  intros Hc. destruct c as [[] [] [] [] [] [] [] []]; try (exfalso; compute in Hc; lia); reflexivity.
Qed.

Lemma escape_char_unescapes c : unescapes escape_char c.
Proof.
  intros r. destruct c as [[] [] [] [] [] [] [] []]; reflexivity.
Qed.

Lemma dump_escaped_from_unescape s : forall st cp e,
  In st live_states -> cp_ok st cp -> dump_escaped_from st cp s = Some e ->
  json_unescape e = Some s.
Proof.
  induction s as [|c s IH]; intros st cp e Hst Hcp; cbn [dump_escaped_from].
  { destruct (st =? UTF8_ACCEPT); [|done]. by intros [= <-]. }
  destruct (decode st cp (byte_val c)) as [st' cp'] eqn:E.
  destruct (decode_step _ _ _ _ _ Hst Hcp E) as [_ Hstep]. unfold UTF8_ACCEPT, UTF8_REJECT.
  destruct (st' =? 0) eqn:E0; [apply Z.eqb_eq in E0 as ->|destruct (st' =? 1) eqn:E1; [done|]];
    destruct Hstep as (Hst' & Hcp' & Hasc & Hmulti & Hraw); try lia;
    destruct (dump_escaped_from _ cp' s) as [r|] eqn:Er; try done; intros [= <-];
    specialize (IH _ _ _ Hst' Hcp' Er).
  - destruct (Z.eq_dec st 0) as [->|Hn].
    + rewrite Hasc by done. destruct (Z.lt_ge_cases (byte_val c) 128) as [Hlt|Hge].
      * rewrite dump_codepoint_unescapes by done. by rewrite IH.
      * unfold dump_codepoint. byte_cases. change (String c EmptyString +:+ r) with (String c r).
        rewrite json_unescape_raw by done. by rewrite IH.
    + unfold dump_codepoint. specialize (Hmulti Hn eq_refl). byte_cases.
      change (String c EmptyString +:+ r) with (String c r).
      rewrite json_unescape_raw by (apply Hraw; lia). by rewrite IH.
  - rewrite json_unescape_raw by (apply Hraw; lia). by rewrite IH.
Qed.

(** The run of the automaton alone. *)
Fixpoint accepts (st : Z) (s : string) : bool :=
  match s with
  | EmptyString => st =? 0
  | String c s' => let st' := utf8_next st (byte_val c) in
                   if st' =? 1 then false else accepts st' s'
  end.

Lemma dump_escaped_from_accepts s : forall st cp,
  In st live_states -> cp_ok st cp ->
  is_Some (dump_escaped_from st cp s) <-> accepts st s = true.
Proof.
  induction s as [|c s IH]; intros st cp Hst Hcp; cbn [dump_escaped_from accepts].
  { unfold UTF8_ACCEPT. destruct (st =? 0); split; (done || by intros [? ?]). }
  destruct (decode st cp (byte_val c)) as [st' cp'] eqn:E.
  destruct (decode_step _ _ _ _ _ Hst Hcp E) as [-> Hstep]. unfold UTF8_ACCEPT, UTF8_REJECT.
  set (st' := utf8_next st (byte_val c)) in *.
  destruct (st' =? 1) eqn:E1.
  { destruct (st' =? 0) eqn:E0; [lia|]. split; [by intros [? ?]|done]. }
  destruct Hstep as (Hst' & Hcp' & _); [lia|]. rewrite <-(IH st' cp') by done.
  destruct (st' =? 0); destruct (dump_escaped_from st' cp' s);
    split; intros [? ?]; done.
Qed.

(** From an inner state exactly one range of bytes leads on. *)
Lemma accepts_cont st lo hi nxt s :
  st <> 0 -> nxt <> 1 -> (forall b, utf8_next st b = if between lo hi b then nxt else 1) ->
  accepts st s = true <->
  exists b s', s = String b s' /\ in_range lo hi b /\ accepts nxt s' = true.
Proof.
  intros Hst Hnxt Hnext. unfold in_range. destruct s as [|b s]; cbn [accepts].
  { split; [lia|]. by intros (? & ? & ? & _). }
  rewrite Hnext. unfold between. split.
  - intros Ha. exists b, s. destruct (lo <=? byte_val b) eqn:?, (byte_val b <=? hi) eqn:?;
      cbn [andb] in Ha; try done. destruct (nxt =? 1) eqn:?; [lia|]. split; [done|]. split; [lia|done].
  - intros (b' & s' & [= <- <-] & Hr & Ha).
    destruct (lo <=? byte_val b) eqn:?, (byte_val b <=? hi) eqn:?; try lia. cbn [andb].
    by destruct (nxt =? 1) eqn:?; [lia|].
Qed.

Lemma accepts_2 s : accepts 2 s = true <->
  exists b s', s = String b s' /\ in_range 128 191 b /\ accepts 0 s' = true.
Proof. by apply accepts_cont. Qed.
Lemma accepts_3 s : accepts 3 s = true <->
  exists b s', s = String b s' /\ in_range 128 191 b /\ accepts 2 s' = true.
Proof. by apply accepts_cont. Qed.
Lemma accepts_4 s : accepts 4 s = true <->
  exists b s', s = String b s' /\ in_range 160 191 b /\ accepts 2 s' = true.
Proof. by apply accepts_cont. Qed.
Lemma accepts_5 s : accepts 5 s = true <->
  exists b s', s = String b s' /\ in_range 128 159 b /\ accepts 2 s' = true.
Proof. by apply accepts_cont. Qed.
Lemma accepts_6 s : accepts 6 s = true <->
  exists b s', s = String b s' /\ in_range 144 191 b /\ accepts 3 s' = true.
Proof. by apply accepts_cont. Qed.
Lemma accepts_7 s : accepts 7 s = true <->
  exists b s', s = String b s' /\ in_range 128 191 b /\ accepts 3 s' = true.
Proof. by apply accepts_cont. Qed.
Lemma accepts_8 s : accepts 8 s = true <->
  exists b s', s = String b s' /\ in_range 128 143 b /\ accepts 3 s' = true.
Proof. by apply accepts_cont. Qed.

Lemma accepts_0_cons a s : accepts 0 (String a s) = true <->
  in_range 0 127 a /\ accepts 0 s = true
  \/ in_range 194 223 a /\ accepts 2 s = true
  \/ in_range 224 224 a /\ accepts 4 s = true
  \/ in_range 237 237 a /\ accepts 5 s = true
  \/ (in_range 225 236 a \/ in_range 238 239 a) /\ accepts 3 s = true
  \/ in_range 240 240 a /\ accepts 6 s = true
  \/ in_range 241 243 a /\ accepts 7 s = true
  \/ in_range 244 244 a /\ accepts 8 s = true.
Proof.
  unfold in_range. pose proof (byte_val_bound a).
  cbn [accepts]. unfold utf8_next, between. cbn [Z.eqb].
  repeat match goal with |- context [if ?c then _ else _] =>
    lazymatch c with context [if _ then _ else _] => fail | _ => destruct c eqn:? end end;
  cbn [Z.eqb Pos.eqb] in *; try lia; intuition (lia || done).
Qed.

Ltac accepts_inv :=
  repeat match goal with
  | H : accepts 2 _ = true |- _ => apply accepts_2 in H as (? & ? & -> & ? & ?)
  | H : accepts 3 _ = true |- _ => apply accepts_3 in H as (? & ? & -> & ? & ?)
  | H : accepts 4 _ = true |- _ => apply accepts_4 in H as (? & ? & -> & ? & ?)
  | H : accepts 5 _ = true |- _ => apply accepts_5 in H as (? & ? & -> & ? & ?)
  | H : accepts 6 _ = true |- _ => apply accepts_6 in H as (? & ? & -> & ? & ?)
  | H : accepts 7 _ = true |- _ => apply accepts_7 in H as (? & ? & -> & ? & ?)
  | H : accepts 8 _ = true |- _ => apply accepts_8 in H as (? & ? & -> & ? & ?)
  end.

Lemma accepts_utf8 n : forall s,
  (String.length s < n)%nat -> accepts 0 s = true -> utf8 s.
Proof.
  induction n as [|n IH]; intros s Hn Ha; [lia|].
  destruct s as [|a s]; [constructor|]. apply accepts_0_cons in Ha.
  destruct_or! Ha; destruct Ha as [Hr Ha]; accepts_inv; cbn [String.length] in Hn.
  - apply utf8_1; [done|]. apply IH; [lia|done].
  - apply utf8_2; [done..|]. apply IH; [lia|done].
  - apply utf8_3; [tauto|done|]. apply IH; [lia|done].
  - apply utf8_3; [tauto|done|]. apply IH; [lia|done].
  - apply utf8_3; [tauto|done|]. apply IH; [lia|done].
  - apply utf8_4; [tauto|done..|]. apply IH; [lia|done].
  - apply utf8_4; [tauto|done..|]. apply IH; [lia|done].
  - apply utf8_4; [tauto|done..|]. apply IH; [lia|done].
Qed.

Lemma utf8_accepts s : utf8 s -> accepts 0 s = true.
Proof.
  induction 1 as [|a s Ha _ IH|a b s Ha Hb _ IH|a b c s Hab Hc _ IH|a b c d s Hab Hc Hd _ IH];
    [done|..]; apply accepts_0_cons.
  - left. done.
  - right; left. split; [done|]. apply accepts_2. eauto.
  - assert (accepts 2 (String c s) = true) by (apply accepts_2; eauto).
    destruct_or! Hab; destruct Hab as [? ?].
    + do 2 right; left. split; [done|]. apply accepts_4. eauto.
    + do 4 right; left. split; [tauto|]. apply accepts_3. eauto.
    + do 3 right; left. split; [done|]. apply accepts_5. eauto.
    + do 4 right; left. split; [tauto|]. apply accepts_3. eauto.
  - assert (accepts 3 (String c (String d s)) = true)
      by (apply accepts_3; do 2 eexists; do 2 (split; [done|]); apply accepts_2; eauto).
    destruct_or! Hab; destruct Hab as [? ?].
    + do 5 right; left. split; [done|]. apply accepts_6. eauto.
    + do 6 right; left. split; [done|]. apply accepts_7. eauto.
    + do 7 right. split; [done|]. apply accepts_8. eauto.
Qed.

Lemma dump_escaped_utf8 s : is_Some (dump_escaped s) <-> utf8 s.
Proof.
  unfold dump_escaped.
  rewrite dump_escaped_from_accepts by (left; done).
  split; [apply (accepts_utf8 (S (String.length s))); lia|apply utf8_accepts].
Qed.

Lemma json_escape_unescape s : json_unescape (json_escape s) = Some s.
Proof.
  induction s as [|c s IH]; [done|]. cbn [json_escape].
  by rewrite escape_char_unescapes, IH.
Qed.

(** The serializer of the JSON responses ([dump_escaped] of the vendored
    nlohmann library, with its table-driven UTF-8 automaton) accepts exactly
    the byte sequences that are well-formed UTF-8 by RFC 3629; on those its
    output is the body of a JSON string literal (no raw quote and no raw
    control character) that decodes to the input again, and on every other
    input it throws. *)
Theorem dump_escaped_correct s :
  match dump_escaped s with
  | Some e => utf8 s /\ json_unescape e = Some s
  | None => ~ utf8 s
  end.
Proof.
  pose proof (dump_escaped_utf8 s) as Hu. destruct (dump_escaped s) as [e|] eqn:E.
  - split; [by apply Hu|]. eapply dump_escaped_from_unescape; [..|exact E]; left; done.
  - intros Hs. by apply Hu in Hs as [? ?].
Qed.

Definition printable (c : ascii) : bool :=
  let n := byte_val c in (32 <=? n) || (n =? 9) || (n =? 10) || (n =? 13).

Lemma printable_spec c : 32 <= byte_val c \/ In (byte_val c) [9; 10; 13] <-> printable c = true.
Proof. unfold printable. cbn [In]. lia. Qed.

Lemma provider_escape_char_unescapes c r :
  json_unescape (provider_escape_char c +:+ r)
  = if printable c then String c <$> json_unescape r else None.
Proof. destruct c as [[] [] [] [] [] [] [] []]; reflexivity. Qed.

(** the hand-written [json_escape] of main.cpp and capability_service.cpp
    turns every byte string, control characters included, into the body of a
    JSON string literal that decodes to the input; the copy in
    provider_service.cpp does so exactly for the strings without a control
    character other than tab, newline and carriage return. *)
Theorem json_escape_round_trip s :
  json_unescape (json_escape s) = Some s /\
  (json_unescape (provider_json_escape s) = Some s <->
   Forall (fun c => 32 <= byte_val c \/ In (byte_val c) [9; 10; 13]) (String.list_ascii_of_string s)).
Proof.
  split; [apply json_escape_unescape|].
  induction s as [|c s IH]; cbn [provider_json_escape String.list_ascii_of_string].
  { split; [constructor|done]. }
  rewrite Forall_cons, <-IH, provider_escape_char_unescapes, printable_spec.
  clear IH. destruct (printable c), (json_unescape (provider_json_escape s)); cbn;
    intuition congruence.
Qed.

(** ** The execute request *)

Section execute_request.
Context `{JsonLib}.

Lemma json_value_some {A} (get : json -> option A) kvs key d v :
  json_value get (JObject kvs) key d = Some v ->
  obj_find key kvs = None /\ v = d \/ exists j, obj_find key kvs = Some j /\ get j = Some v.
Proof. cbn. destruct (obj_find key kvs); naive_solver. Qed.

(** A string field with the empty default that is not empty was present. *)
Lemma string_field kvs key v :
  json_value get_string (JObject kvs) key EmptyString = Some v -> is_empty v = false ->
  obj_find key kvs = Some (JString v).
Proof.
  intros Hv Hne. apply json_value_some in Hv as [[_ ->]|(j & -> & Hj)]; [done|].
  destruct j; simplify_eq/=. done.
Qed.

Definition clamp_risk (risk : Z) : Z :=
  if risk <? 0 then 100 else if 100 <? risk then 100 else risk.

(** The meaning of an accepted request, field by field. *)
Lemma parse_execute_request_inv body r :
  parse_execute_request body = Some r ->
  exists kvs risk, json_parse body = Some (JObject kvs) /\
    obj_find "moduleId" kvs = Some (JString (er_module_id r)) /\
    obj_find "capability" kvs = Some (JString (er_capability r)) /\
    obj_find "caller" kvs = Some (JString (er_caller r)) /\
    obj_find "command" kvs = Some (JString (er_command r)) /\
    er_module_id r <> EmptyString /\ er_capability r <> EmptyString /\
    er_caller r <> EmptyString /\ er_command r <> EmptyString /\
    json_value get_int (JObject kvs) "riskLevel" 100 = Some risk /\
    er_risk_level r = clamp_risk risk /\
    json_value get_bool (JObject kvs) "approved" false = Some (er_approved r).
Proof.
  unfold parse_execute_request. destruct (json_parse body) as [[]|] eqn:Hp; try done.
  cbn [mbind option_bind]. intros Hr.
  repeat match type of Hr with
  | (_ ← ?x; _) = _ => destruct x eqn:?; cbn [mbind option_bind] in Hr; [|done]
  | (if ?b then _ else _) = _ => destruct b eqn:?; [done|]
  end.
  injection Hr as <-. exists kvs. eexists. cbn [er_module_id er_capability er_caller er_command
    er_risk_level er_approved].
  split_and!; try (by eapply string_field); try (by apply is_empty_false); eauto.
Qed.
End execute_request.

(** C16: a request that [parse_execute_request] accepts is a JSON object whose
    moduleId, capability, caller and command are non-empty strings; its risk
    level lies in [0,100] and is 100 when the field is absent, and it counts
    as approved only when the body says [true] literally.  Every other body is
    refused. *)
Theorem execute_request_fail_safe `{JsonLib} body r :
  parse_execute_request body = Some r ->
  exists kvs, json_parse body = Some (JObject kvs) /\
    obj_find "moduleId" kvs = Some (JString (er_module_id r)) /\ er_module_id r <> EmptyString /\
    obj_find "capability" kvs = Some (JString (er_capability r)) /\ er_capability r <> EmptyString /\
    obj_find "caller" kvs = Some (JString (er_caller r)) /\ er_caller r <> EmptyString /\
    obj_find "command" kvs = Some (JString (er_command r)) /\ er_command r <> EmptyString /\
    0 <= er_risk_level r <= 100 /\
    (obj_find "riskLevel" kvs = None -> er_risk_level r = 100) /\
    (er_approved r = true <-> obj_find "approved" kvs = Some (JBool true)).
Proof.
  intros (kvs & risk & Hp & Hm & Hc & Ha & Hd & Nm & Nc & Na & Nd & Hrisk & Elev & Happ)%parse_execute_request_inv.
  exists kvs. split_and!; try done.
  - rewrite Elev. unfold clamp_risk. byte_cases.
  - rewrite Elev. unfold clamp_risk. byte_cases.
  - intros Hn. cbn in Hrisk. rewrite Hn in Hrisk. injection Hrisk as <-. by rewrite Elev.
  - cbn in Happ. split; intros Ht; [rewrite Ht in Happ|rewrite Ht in Happ; by injection Happ].
    destruct (obj_find "approved" kvs) as [[]|]; cbn in Happ; congruence.
Qed.

(** A library whose parser knows two request bodies. *)
Definition sample_fields (risk : Z) : json :=
  obj [("moduleId", JString "m1"); ("capability", JString "SHELL"); ("caller", JString "app");
       ("command", JString "id"); ("riskLevel", JInt risk); ("approved", JBool true)].
Definition sample_lib : JsonLib := {|
  json_parse s := if str_eqb s "low" then Some (sample_fields 10)
                  else if str_eqb s "big" then Some (sample_fields (2 ^ 32)) else None;
  dump_float _ := "0.0";
  float_to_i32 _ := 0 |}.

Lemma execute_request_fail_safe_witness :
  exists r, @parse_execute_request sample_lib "low" = Some r /\ er_command r = "id" /\
  exists kvs, @json_parse sample_lib "low" = Some (JObject kvs) /\ er_risk_level r <= 100 /\
    (er_approved r = true <-> obj_find "approved" kvs = Some (JBool true)).
Proof.
  eexists. split; [vm_compute; reflexivity|]. split; [reflexivity|].
  destruct (@execute_request_fail_safe sample_lib "low" _ eq_refl) as (kvs & Hk & Hrest).
  exists kvs. destruct_and! Hrest. split_and!; [done|done|done].
Defined.

(** the risk level is read into a C++ [int] before it is clamped: an
    integer of that width is clamped to [0,100] (negative values to 100), but
    a wider one is first reduced modulo 2^32, so that a multiple of 2^32 is
    accepted as risk 0. *)
Theorem risk_level_int_width `{JsonLib} body r kvs z :
  parse_execute_request body = Some r -> json_parse body = Some (JObject kvs) ->
  obj_find "riskLevel" kvs = Some (JInt z) ->
  (- 2 ^ 31 <= z < 2 ^ 31 -> er_risk_level r = if (0 <=? z) && (z <=? 100) then z else 100) /\
  (z mod 2 ^ 32 = 0 -> er_risk_level r = 0).
Proof.
  intros (kvs' & risk & Hp' & Hm & Hc & Ha & Hd & Nm & Nc & Na & Nd & Hrisk & Elev & Happ)%parse_execute_request_inv
    Hp Hz.
  rewrite Hp in Hp'. injection Hp' as <-. cbn in Hrisk. rewrite Hz in Hrisk. cbn in Hrisk.
  injection Hrisk as <-. rewrite Elev. unfold clamp_risk, i32. split; intros Hb.
  - rewrite Z.mod_small by lia. byte_cases.
  - rewrite <-Zplus_mod_idemp_l, Hb. by vm_compute.
Qed.

Lemma risk_level_int_width_witness :
  exists r, @parse_execute_request sample_lib "big" = Some r /\ er_risk_level r = 0.
Proof.
  eexists. split; [vm_compute; reflexivity|].
  refine (proj2 (@risk_level_int_width sample_lib "big" _ _ (2 ^ 32) eq_refl eq_refl eq_refl) eq_refl).
Defined.

(** ** When the serializer succeeds *)

(** Strings of 7-bit bytes are well-formed. *)
Definition ascii7 (s : string) : Prop :=
  Forall (fun c => byte_val c < 128) (String.list_ascii_of_string s).

Lemma ascii7_utf8 s : ascii7 s -> utf8 s.
Proof.
  unfold ascii7. induction s as [|c s IH]; cbn; [constructor|].
  intros [Hc Hs]%Forall_cons. apply utf8_1; [|by apply IH].
  unfold in_range. pose proof (byte_val_bound c). lia.
Qed.

Lemma ascii7_app a b : ascii7 (a +:+ b) <-> ascii7 a /\ ascii7 b.
Proof.
  unfold ascii7. induction a as [|c a IH]; cbn; [rewrite Forall_nil; tauto|].
  rewrite !Forall_cons, IH. tauto.
Qed.

Lemma ascii7_pretty_N_go x s : ascii7 s -> ascii7 (pretty_N_go x s).
Proof.
  revert s. induction (N.lt_wf_0 x) as [x _ IH]. intros s Hs.
  destruct (decide (0 < x)%N) as [Hx|Hx].
  - rewrite pretty_N_go_step by done. apply IH; [by apply N.div_lt|].
    unfold ascii7 in *. cbn. constructor; [|done].
    unfold pretty_N_char. repeat case_match; vm_compute; done.
  - replace x with 0%N by lia. by rewrite pretty_N_go_0.
Qed.

Lemma ascii7_show_Z z : ascii7 (show_Z z).
Proof.
  unfold show_Z, pretty, pretty_Z. destruct z as [|p|p].
  - unfold ascii7. repeat constructor.
  - apply (ascii7_pretty_N_go (N.pos p) EmptyString). constructor.
  - unfold ascii7. cbn. constructor; [done|].
    apply (ascii7_pretty_N_go (N.pos p) EmptyString). constructor.
Qed.

Lemma dump_string_utf8 s : is_Some (dump_string s) <-> utf8 s.
Proof.
  rewrite <-dump_escaped_utf8. unfold dump_string.
  destruct (dump_escaped s); split; intros [? ?]; eauto; done.
Qed.

Section dump_some.
Context `{JsonLib}.

Lemma dump_object_some kvs :
  is_Some (dump (JObject kvs)) <-> Forall (fun kv => utf8 kv.1 /\ is_Some (dump kv.2)) kvs.
Proof.
  cbn [dump]. match goal with |- context [match ?go kvs with _ => _ end] => set (f := go) end.
  transitivity (is_Some (f kvs)).
  { destruct (f kvs); split; intros [? ?]; eauto; done. }
  induction kvs as [|[k v] kvs IH]; [by split; eauto|].
  rewrite Forall_cons, <-IH, <-dump_string_utf8. cbn [f fst snd]. fold f.
  destruct (dump_string k), (dump v), (f kvs); rewrite <-?not_eq_None_Some; intuition congruence.
Qed.

Lemma dump_array_some l : is_Some (dump (JArray l)) <-> Forall (fun v => is_Some (dump v)) l.
Proof.
  cbn [dump]. match goal with |- context [match ?go l with _ => _ end] => set (f := go) end.
  transitivity (is_Some (f l)).
  { destruct (f l); split; intros [? ?]; eauto; done. }
  induction l as [|v l IH]; [by split; eauto|].
  rewrite Forall_cons, <-IH. cbn [f]. fold f.
  destruct (dump v), (f l); rewrite <-?not_eq_None_Some; intuition congruence.
Qed.

Lemma smap_set_Forall {A} (P : string * A -> Prop) k v m :
  P (k, v) -> Forall P m -> Forall P (smap_set k v m).
Proof.
  intros Hk. induction 1 as [|[k' u] m Hu Hm IH]; cbn; [by repeat constructor|].
  destruct (String.compare k k'); repeat constructor; done.
Qed.

Lemma dump_obj_some kvs :
  Forall (fun kv => utf8 kv.1 /\ is_Some (dump kv.2)) kvs -> is_Some (dump (obj kvs)).
Proof.
  intros Hk. apply dump_object_some.
  assert (forall m, Forall (fun kv => utf8 kv.1 /\ is_Some (dump kv.2)) m ->
    Forall (fun kv => utf8 kv.1 /\ is_Some (dump kv.2)) (fold_left (fun o kv => obj_set kv.1 kv.2 o) kvs m))
    as Hf; [|by apply Hf].
  induction Hk as [|[k v] kvs Hkv Hk IH]; intros m Hm; cbn; [done|].
  apply IH. by apply smap_set_Forall.
Qed.

Lemma dump_string_some s : utf8 s -> is_Some (dump (JString s)).
Proof. apply dump_string_utf8. Qed.
Lemma dump_bool_some b : is_Some (dump (JBool b)).
Proof. eauto. Qed.
Lemma dump_int_some z : is_Some (dump (JInt z)).
Proof. eauto. Qed.

Lemma make_exec_response_some b n out err :
  is_Some (make_exec_response b n out err) <-> utf8 out /\ utf8 err.
Proof.
  unfold make_exec_response.
  change (obj _) with (JObject [("exit_code", JInt n); ("stderr", JString err);
                                ("stdout", JString out); ("success", JBool b)]).
  rewrite dump_object_some, !Forall_cons, Forall_nil. cbn [fst snd].
  rewrite (dump_string_utf8 out : is_Some (dump (JString out)) <-> _).
  rewrite (dump_string_utf8 err : is_Some (dump (JString err)) <-> _).
  split; [tauto|]. intros [Ho He].
  split_and!; try done; try (apply ascii7_utf8; unfold ascii7; cbn; repeat constructor); eauto.
Qed.

Lemma make_audit_array_some raw :
  is_Some (make_audit_array raw) <->
  Forall (fun l => l <> EmptyString -> is_Some (dump (audit_entry l))) (getlines raw).
Proof.
  unfold make_audit_array. rewrite dump_array_some, Forall_fmap.
  induction (getlines raw) as [|l ls IH]; cbn; [by split|].
  rewrite Forall_cons, <-IH. destruct l; cbn [is_empty negb]; [intuition done|].
  rewrite Forall_cons. unfold compose. intuition done.
Qed.
End dump_some.
