(* ===== verification/JsonLex.v ===== *)
(** * JsonLex: the lexer of the JSON library of the zygisk module

    [module-spoof/jni/include/json.hpp] (nlohmann 3.12.0), class
    [detail::lexer], as [json::parse] uses it on the configuration files:
    comments are not ignored.  The input is the string of bytes not yet
    read; [current] is a parameter where a function is entered after a
    [get].  The scanners are written with the source's early returns: each
    takes what to do on its error ([err], given the unread input) and what
    to do next ([k]).  The positions and the token text, which only the
    wording of an exception uses, are left out.  [strtod] is a parameter;
    the decimal point is that of the C locale. *)

From Stdlib Require Import ZArith Ascii String Lia.
From stdpp Require Import base numbers list strings pretty.
From S2P Require Import Prelude Json.

Open Scope Z_scope.

(** ** Tokens *)

(** [token_type] with the value the lexer holds for it.  A floating-point
    value is [None] when [std::isfinite] is false of it; a parse error has
    the lexer's [error_message]. *)
Inductive token :=
| uninitialized
| literal_true
| literal_false
| literal_null
| value_string (get_string : string)
| value_unsigned (get_number_unsigned : Z)
| value_integer (get_number_integer : Z)
| value_float (get_number_float : option Z)
| begin_array
| begin_object
| end_array
| end_object
| name_separator
| value_separator
| parse_error (error_message : string)
| end_of_input
| literal_or_value.

#[export] Instance token_eq_dec : EqDecision token.
Proof. solve_decision. Defined.

(** The C library's [strtod] on a number in JSON syntax: the bits of a
    finite result. *)
Class Strtod := strtod : string -> option Z.

(** ** Input *)

(** [get()]: the end of the input, or the next character. *)
Definition get {R} (s : string) (eof : string -> R) (k : Z -> string -> R) : R :=
  match s with
  | EmptyString => eof EmptyString
  | String c s' => k (byte_val c) s'
  end.

(** [add(c)] on the token buffer. *)
Definition add (buf : string) (c : Z) : string := buf +:+ String (byte_of c) EmptyString.

(** ** Strings *)

Definition hex_char (current : Z) : option Z :=
  if (48 <=? current) && (current <=? 57) then Some (current - 48)
  else if (65 <=? current) && (current <=? 70) then Some (current - 55)
  else if (97 <=? current) && (current <=? 102) then Some (current - 87)
  else None.

(** One round of the loop over the factors, which are shifts. *)
Definition codepoint_digit {R} (factor codepoint : Z) (s : string)
    (err : string -> R) (k : Z -> string -> R) : R :=
  get s err (fun current s =>
    match hex_char current with
    | Some d => k (codepoint + Z.shiftl d factor) s
    | None => err s
    end).
Definition get_codepoint {R} (s : string) (err : string -> R) (k : Z -> string -> R) : R :=
  codepoint_digit 12 0 s err (fun codepoint s =>
  codepoint_digit 8 codepoint s err (fun codepoint s =>
  codepoint_digit 4 codepoint s err (fun codepoint s =>
  codepoint_digit 0 codepoint s err k))).

(** Each byte must lie in its range; the current one is kept as it is. *)
Fixpoint bytes_in_range {R} (ranges : list (Z * Z)) (buf s : string)
    (err : string -> R) (k : string -> string -> R) : R :=
  match ranges with
  | [] => k buf s
  | (lo, hi) :: ranges' =>
      get s err (fun current s =>
        if (lo <=? current) && (current <=? hi)
        then bytes_in_range ranges' (add buf current) s err k
        else err s)
  end.
Definition next_byte_in_range {R} (ranges : list (Z * Z)) (current : Z) (buf s : string)
    (err : string -> R) (k : string -> string -> R) : R :=
  bytes_in_range ranges (add buf current) s err k.

Definition is_high (cp : Z) : bool := (55296 <=? cp) && (cp <=? 56319).
Definition is_low (cp : Z) : bool := (56320 <=? cp) && (cp <=? 57343).

Definition hex_error : string := "invalid string: '\u' must be followed by 4 hex digits".
Definition high_error : string :=
  "invalid string: surrogate U+D800..U+DBFF must be followed by U+DC00..U+DFFF".
Definition low_error : string :=
  "invalid string: surrogate U+DC00..U+DFFF must follow U+D800..U+DBFF".
Definition utf8_error : string := "invalid string: ill-formed UTF-8 byte".
Definition quote_error : string := "invalid string: missing closing quote".
Definition escape_error : string := "invalid string: forbidden character after backslash".

(** [case 'u'] up to the proper code point; [err] takes the message. *)
Definition unicode_escape {R} (s : string) (err : string -> string -> R) (k : Z -> string -> R) : R :=
  get_codepoint s (err hex_error) (fun codepoint1 s =>
    if is_high codepoint1 then
      get s (err high_error) (fun c s =>
        if negb (c =? 92) then err high_error s else
        get s (err high_error) (fun c s =>
          if negb (c =? 117) then err high_error s else
          get_codepoint s (err hex_error) (fun codepoint2 s =>
            if is_low codepoint2
            then k (u32 (u32 (Z.shiftl codepoint1 10) + codepoint2 - 56613888)) s
            else err high_error s)))
    else if is_low codepoint1 then err low_error s
    else k codepoint1 s).

(** Translate the code point into bytes. *)
Definition utf8_encode (codepoint : Z) : list Z :=
  if codepoint <? 128 then [codepoint]
  else if codepoint <=? 2047 then
    [Z.lor 192 (Z.shiftr codepoint 6); Z.lor 128 (Z.land codepoint 63)]
  else if codepoint <=? 65535 then
    [Z.lor 224 (Z.shiftr codepoint 12); Z.lor 128 (Z.land (Z.shiftr codepoint 6) 63);
     Z.lor 128 (Z.land codepoint 63)]
  else
    [Z.lor 240 (Z.shiftr codepoint 18); Z.lor 128 (Z.land (Z.shiftr codepoint 12) 63);
     Z.lor 128 (Z.land (Z.shiftr codepoint 6) 63); Z.lor 128 (Z.land codepoint 63)].

(** The escapes of one character. *)
Definition escaped_char (c : Z) : option Z :=
  if c =? 34 then Some 34          (* quotation mark *)
  else if c =? 92 then Some 92     (* reverse solidus *)
  else if c =? 47 then Some 47     (* solidus *)
  else if c =? 98 then Some 8      (* backspace *)
  else if c =? 102 then Some 12    (* form feed *)
  else if c =? 110 then Some 10    (* line feed *)
  else if c =? 114 then Some 13    (* carriage return *)
  else if c =? 116 then Some 9     (* tab *)
  else None.

(** The nested switch after a backslash. *)
Definition scan_escape {R} (buf s : string) (err : string -> string -> R)
    (k : string -> string -> R) : R :=
  get s (err escape_error) (fun c s =>
    match escaped_char c with
    | Some b => k (add buf b) s
    | None =>
        if c =? 117 then
          unicode_escape s err (fun codepoint s => k (fold_left add (utf8_encode codepoint) buf) s)
        else err escape_error s
    end).

(** The control characters: name, and the short escape if there is one. *)
Definition controls_low : list (string * string) :=
  [ ("0000 (NUL", "0000"); ("0001 (SOH", "0001"); ("0002 (STX", "0002"); ("0003 (ETX", "0003");
    ("0004 (EOT", "0004"); ("0005 (ENQ", "0005"); ("0006 (ACK", "0006"); ("0007 (BEL", "0007");
    ("0008 (BS", "0008 or \b"); ("0009 (HT", "0009 or \t"); ("000A (LF", "000A or \n");
    ("000B (VT", "000B"); ("000C (FF", "000C or \f"); ("000D (CR", "000D or \r");
    ("000E (SO", "000E"); ("000F (SI", "000F") ].
Definition controls_high : list (string * string) :=
  [ ("0010 (DLE", "0010"); ("0011 (DC1", "0011"); ("0012 (DC2", "0012"); ("0013 (DC3", "0013");
    ("0014 (DC4", "0014"); ("0015 (NAK", "0015"); ("0016 (SYN", "0016"); ("0017 (ETB", "0017");
    ("0018 (CAN", "0018"); ("0019 (EM", "0019"); ("001A (SUB", "001A"); ("001B (ESC", "001B");
    ("001C (FS", "001C"); ("001D (GS", "001D"); ("001E (RS", "001E"); ("001F (US", "001F") ].
Definition control_error (c : Z) : string :=
  let '(name, escape) := nth (Z.to_nat c) (controls_low ++ controls_high) (EmptyString, EmptyString) in
  "invalid string: control character U+" +:+ name +:+ ") must be escaped to \u" +:+ escape.

(** The characters kept as they are; the quote and the backslash have their
    own cases before. *)
Definition is_plain (c : Z) : bool := (32 <=? c) && (c <=? 127).

(** The lead bytes of the multi-byte sequences, with the ranges of the bytes
    that must follow; the remaining bytes are ill-formed. *)
Definition multi_byte {R} (c : Z) (ill_formed : R) (k : list (Z * Z) -> R) : R :=
  if (194 <=? c) && (c <=? 223) then k [(128, 191)]
  else if c =? 224 then k [(160, 191); (128, 191)]
  else if (225 <=? c) && (c <=? 236) || (238 <=? c) && (c <=? 239)
  then k [(128, 191); (128, 191)]
  else if c =? 237 then k [(128, 159); (128, 191)]
  else if c =? 240 then k [(144, 191); (128, 191); (128, 191)]
  else if (241 <=? c) && (c <=? 243) then k [(128, 191); (128, 191); (128, 191)]
  else if c =? 244 then k [(128, 143); (128, 191); (128, 191)]
  else ill_formed.

(** [scan_string] after the opening quote. *)
Fixpoint scan_string_from (buf s : string) {struct s} : token * string :=
  let err message rest := (parse_error message, rest) in
  get s (err quote_error) (fun c s =>
    if c =? 34 then (value_string buf, s)
    else if c =? 92 then scan_escape buf s err (fun buf s => scan_string_from buf s)
    else if c <=? 31 then err (control_error c) s
    else if is_plain c then scan_string_from (add buf c) s
    else multi_byte c (err utf8_error s) (fun ranges =>
      next_byte_in_range ranges c buf s (err utf8_error) (fun buf s => scan_string_from buf s))).
Definition scan_string (s : string) : token * string := scan_string_from EmptyString s.

(** ** Numbers

    The labels of the state machine.  A label's function gives the label a
    character leads to; [number_stop] is its default case. *)
Inductive number_state := minus | zero | any1 | decimal1 | decimal2 | exponent | sign | any2.
Inductive number_kind := kind_unsigned | kind_integer | kind_float.

Definition is_digit (c : Z) : bool := (48 <=? c) && (c <=? 57).
Definition is_digit19 (c : Z) : bool := (49 <=? c) && (c <=? 57).
Definition is_exp (c : Z) : bool := (c =? 101) || (c =? 69).
Definition is_sign (c : Z) : bool := (c =? 43) || (c =? 45).

Definition scan_number_init (c : Z) : option number_state :=
  if c =? 45 then Some minus else if c =? 48 then Some zero
  else if is_digit19 c then Some any1 else None.
Definition scan_number_minus (c : Z) : option number_state :=
  if c =? 48 then Some zero else if is_digit19 c then Some any1 else None.
Definition scan_number_zero (c : Z) : option number_state :=
  if c =? 46 then Some decimal1 else if is_exp c then Some exponent else None.
Definition scan_number_any1 (c : Z) : option number_state :=
  if is_digit c then Some any1 else if c =? 46 then Some decimal1
  else if is_exp c then Some exponent else None.
Definition scan_number_decimal1 (c : Z) : option number_state :=
  if is_digit c then Some decimal2 else None.
Definition scan_number_decimal2 (c : Z) : option number_state :=
  if is_digit c then Some decimal2 else if is_exp c then Some exponent else None.
Definition scan_number_exponent (c : Z) : option number_state :=
  if is_sign c then Some sign else if is_digit c then Some any2 else None.
Definition scan_number_sign (c : Z) : option number_state :=
  if is_digit c then Some any2 else None.
Definition scan_number_any2 (c : Z) : option number_state :=
  if is_digit c then Some any2 else None.

Definition number_goto (st : number_state) : Z -> option number_state :=
  match st with
  | minus => scan_number_minus | zero => scan_number_zero | any1 => scan_number_any1
  | decimal1 => scan_number_decimal1 | decimal2 => scan_number_decimal2
  | exponent => scan_number_exponent | sign => scan_number_sign | any2 => scan_number_any2
  end.

(** [None] is [goto scan_number_done]. *)
Definition number_stop (st : number_state) : option string :=
  match st with
  | minus => Some "invalid number; expected digit after '-'"
  | decimal1 => Some "invalid number; expected digit after '.'"
  | exponent => Some "invalid number; expected '+', '-', or digit after exponent"
  | sign => Some "invalid number; expected digit after exponent sign"
  | zero | any1 | decimal2 | any2 => None
  end.

(** [number_type], which some labels set. *)
Definition number_type (st : number_state) (ty : number_kind) : number_kind :=
  match st with
  | minus => kind_integer
  | decimal1 | exponent => kind_float
  | _ => ty
  end.

Section lexer.
Context `{Strtod}.

(** [scan_number_done]: integers first; what does not fit (ERANGE) and
    everything else is a floating-point number. *)
Definition scan_number_done (ty : number_kind) (buf : string) : token :=
  let x := scan_int buf in
  match ty with
  | kind_unsigned => if x <? 2 ^ 64 then value_unsigned x else value_float (strtod buf)
  | kind_integer => if - 2 ^ 63 <=? x then value_integer x else value_float (strtod buf)
  | kind_float => value_float (strtod buf)
  end.

(** [unget] leaves the character after the number unread. *)
Fixpoint scan_number_from (st : number_state) (ty : number_kind) (buf s : string)
    : token * string :=
  let stop := match number_stop st with
              | Some message => (parse_error message, s)
              | None => (scan_number_done ty buf, s)
              end in
  match s with
  | EmptyString => stop
  | String c s' =>
      match number_goto st (byte_val c) with
      | Some st' => scan_number_from st' (number_type st' ty) (add buf (byte_val c)) s'
      | None => stop
      end
  end.

(** The default case of the first switch is an assertion: [scan] calls with
    a sign or a digit only. *)
Definition scan_number (current : Z) (s : string) : token * string :=
  match scan_number_init current with
  | Some st => scan_number_from st (number_type st kind_unsigned) (add EmptyString current) s
  | None => (parse_error EmptyString, s)
  end.

(** ** The scanner *)

(** [scan_literal], from the second character on. *)
Fixpoint scan_literal (literal_text : string) (s : string) (return_type : token)
    : token * string :=
  match literal_text with
  | EmptyString => (return_type, s)
  | String l ls =>
      get s (fun s => (parse_error "invalid literal", s)) (fun c s =>
        if c =? byte_val l then scan_literal ls s return_type
        else (parse_error "invalid literal", s))
  end.

(** [skip_bom]: [None] is [false]. *)
Definition skip_bom (s : string) : option string :=
  get s (fun _ => Some EmptyString) (fun c s1 =>
    if c =? 239 then
      get s1 (fun _ => None) (fun c s2 =>
        if negb (c =? 187) then None
        else get s2 (fun _ => None) (fun c s3 => if c =? 191 then Some s3 else None))
    else Some s).

Definition is_whitespace (c : Z) : bool :=
  (c =? 32) || (c =? 9) || (c =? 10) || (c =? 13).

(** The character after the white space, if there is one, and what follows. *)
Fixpoint skip_whitespace {R} (s : string) (eof : string -> R) (k : Z -> string -> R) : R :=
  match s with
  | EmptyString => eof EmptyString
  | String c s' => if is_whitespace (byte_val c) then skip_whitespace s' eof k
                   else k (byte_val c) s'
  end.

(** The switch of [scan] on the current character. *)
Definition scan_current (c : Z) (s : string) : token * string :=
  if c =? 91 then (begin_array, s)
  else if c =? 93 then (end_array, s)
  else if c =? 123 then (begin_object, s)
  else if c =? 125 then (end_object, s)
  else if c =? 58 then (name_separator, s)
  else if c =? 44 then (value_separator, s)
  else if c =? 116 then scan_literal "rue" s literal_true
  else if c =? 102 then scan_literal "alse" s literal_false
  else if c =? 110 then scan_literal "ull" s literal_null
  else if c =? 34 then scan_string s
  else if (c =? 45) || is_digit c then scan_number c s
  else if c =? 0 then (end_of_input, s)
  else (parse_error "invalid literal", s).

(** [scan()] of every token but the first. *)
Definition scan (s : string) : token * string :=
  skip_whitespace s (fun s => (end_of_input, s)) scan_current.

(** The first [scan()] skips the byte order mark. *)
Definition scan_first (s : string) : token * string :=
  match skip_bom s with
  | Some s' => scan s'
  | None => (parse_error "invalid BOM; must be 0xEF 0xBB 0xBF if given", EmptyString)
  end.
End lexer.

(** ** Rules of the scanners

    What holds of every result of the continuations holds of the result. *)
Section rules.
Context {R : Type} (P : R -> Prop).

Lemma get_rule s eof k :
  P (eof EmptyString) -> (forall c s', s = String c s' -> P (k (byte_val c) s')) -> P (get s eof k).
Proof. intros He Hk. destruct s as [|c s]; [done|by apply Hk]. Qed.

Lemma codepoint_digit_rule factor codepoint s err k :
  0 <= factor ->
  (forall r, (String.length r <= String.length s)%nat -> P (err r)) ->
  (forall cp r, codepoint <= cp <= codepoint + 15 * 2 ^ factor ->
     (String.length r <= String.length s)%nat -> P (k cp r)) ->
  P (codepoint_digit factor codepoint s err k).
Proof.
  intros Hf Herr Hk. unfold codepoint_digit.
  apply get_rule; [apply Herr; cbn; lia|]. intros c s' ->. cbn [String.length] in *.
  destruct (hex_char (byte_val c)) as [d|] eqn:Hd; [|by apply Herr; lia].
  assert (0 <= d <= 15) as Hd15.
  { unfold hex_char in Hd. repeat case_match; simplify_eq; lia. }
  rewrite Z.shiftl_mul_pow2 by done. apply Hk; [|lia].
  assert (0 < 2 ^ factor) by (by apply Z.pow_pos_nonneg). nia.
Qed.

Lemma get_codepoint_rule s err k :
  (forall r, (String.length r <= String.length s)%nat -> P (err r)) ->
  (forall cp r, 0 <= cp <= 65535 -> (String.length r <= String.length s)%nat -> P (k cp r)) ->
  P (get_codepoint s err k).
Proof.
  intros Herr Hk. unfold get_codepoint.
  do 4 (apply codepoint_digit_rule; [lia|intros; apply Herr; lia|intros ? ? ? ?]).
  apply Hk; lia.
Qed.

(** The code points UTF-8 can encode. *)
Definition scalar (cp : Z) : Prop := 0 <= cp <= 1114111 /\ ~ 55296 <= cp <= 57343.

Lemma unicode_escape_rule s err k :
  (forall m r, (String.length r <= String.length s)%nat -> P (err m r)) ->
  (forall cp r, scalar cp -> (String.length r <= String.length s)%nat -> P (k cp r)) ->
  P (unicode_escape s err k).
Proof.
  intros Herr Hk. unfold unicode_escape. apply get_codepoint_rule; [auto|].
  intros cp1 r1 Hcp1 Hr1. unfold is_high.
  destruct ((55296 <=? cp1) && (cp1 <=? 56319)) eqn:E1.
  - apply get_rule; [apply Herr; cbn; lia|]. intros c r2 ->. cbn [String.length] in *.
    destruct (negb _); [apply Herr; lia|].
    apply get_rule; [apply Herr; cbn; lia|]. intros c' r3 ->. cbn [String.length] in *.
    destruct (negb _); [apply Herr; lia|].
    apply get_codepoint_rule; [intros; apply Herr; lia|]. intros cp2 r4 Hcp2 Hr4.
    destruct (is_low cp2) eqn:E2; [|apply Herr; lia]. apply Hk; [|lia].
    unfold is_low in E2. apply andb_true_iff in E1, E2.
    rewrite Z.shiftl_mul_pow2 by lia. unfold scalar, u32.
    rewrite (Z.mod_small (cp1 * _)) by lia. rewrite Z.mod_small by lia. lia.
  - destruct (is_low cp1) eqn:E2; [apply Herr; lia|]. apply Hk; [|lia].
    unfold is_low in E2. unfold scalar.
    apply andb_false_iff in E1, E2. rewrite !Z.leb_gt in E1, E2. lia.
Qed.

Definition byte_in (range : Z * Z) (c : ascii) : Prop := in_range range.1 range.2 c.

Lemma add_byte buf c : add buf (byte_val c) = buf +:+ String c EmptyString.
Proof. unfold add. by rewrite byte_of_val. Qed.

Lemma bytes_in_range_rule ranges : forall buf s err k,
  (forall r, (String.length r <= String.length s)%nat -> P (err r)) ->
  (forall l r, Forall2 byte_in ranges l -> s = String.string_of_list_ascii l +:+ r ->
     P (k (buf +:+ String.string_of_list_ascii l) r)) ->
  P (bytes_in_range ranges buf s err k).
Proof.
  induction ranges as [|[lo hi] ranges IH]; intros buf s err k Herr Hk; cbn [bytes_in_range].
  { specialize (Hk [] s). cbn in Hk. rewrite app_str_nil_r in Hk. by apply Hk. }
  apply get_rule; [apply Herr; cbn; lia|]. intros c s' ->. cbn [String.length] in *.
  destruct ((lo <=? byte_val c) && (byte_val c <=? hi)) eqn:E; [|apply Herr; lia].
  apply andb_true_iff in E. apply IH; [intros; apply Herr; lia|]. intros l r Hl ->.
  rewrite add_byte, app_str_assoc. apply (Hk (c :: l) r); [|done].
  constructor; [|done]. unfold byte_in, in_range. cbn. lia.
Qed.
End rules.

(** ** What [scan_string] yields *)

Lemma utf8_app a b : utf8 a -> utf8 b -> utf8 (a +:+ b).
Proof.
  intros Ha Hb. induction Ha; [done|..]; rewrite !app_str_cons; by constructor.
Qed.

Lemma fold_add l : forall buf, fold_left add l buf = buf +:+ fold_left add l EmptyString.
Proof.
  induction l as [|c l IH]; intros buf; cbn [fold_left]; [by rewrite app_str_nil_r|].
  rewrite IH, (IH (add EmptyString c)). unfold add. by rewrite app_str_assoc.
Qed.

Lemma lor_prefix p m :
  In (p, m) [(192, 32); (224, 16); (240, 8); (128, 64)] -> forall x, 0 <= x < m -> Z.lor p x = p + x.
Proof.
  intros Hp x Hx.
  assert (0 <= x < 256 /\ 0 < m) as [Hx' Hm].
  { cbn in Hp. destruct_or! Hp; simplify_eq; lia. }
  enough ((m <=? x) || (Z.lor p x =? p + x) = true) as E.
  { apply orb_true_iff in E as [E|E]; lia. }
  revert x Hx' Hx. intros x Hx' _. revert x Hx'. apply byte_forall.
  cbn in Hp. destruct_or! Hp; simplify_eq; by vm_compute.
Qed.

Lemma utf8_encode_ok cp : scalar cp -> utf8 (fold_left add (utf8_encode cp) EmptyString).
Proof.
  intros [Hcp Hs]. unfold utf8_encode. change 63 with (Z.ones 6).
  rewrite !Z.land_ones, !Z.shiftr_div_pow2 by lia.
  change (2 ^ 6) with 64. change (2 ^ 12) with 4096. change (2 ^ 18) with 262144.
  assert (cp / 64 / 64 = cp / 4096) as E1 by (rewrite Z.div_div by lia; done).
  assert (cp / 4096 / 64 = cp / 262144) as E2 by (rewrite Z.div_div by lia; done).
  pose proof (Z.mod_pos_bound cp 64 ltac:(lia)). pose proof (Z.mod_pos_bound (cp / 64) 64 ltac:(lia)).
  pose proof (Z.mod_pos_bound (cp / 4096) 64 ltac:(lia)).
  pose proof (Z.div_mod cp 64 ltac:(lia)). pose proof (Z.div_mod (cp / 64) 64 ltac:(lia)).
  pose proof (Z.div_mod (cp / 4096) 64 ltac:(lia)).
  assert (forall p m x, In (p, m) [(192, 32); (224, 16); (240, 8); (128, 64)] -> 0 <= x < m ->
            byte_val (byte_of (Z.lor p x)) = p + x) as Hb.
  { intros p m x Hp Hx. rewrite byte_val_of, (lor_prefix p m Hp x Hx), Z.mod_small; [done|].
    cbn in Hp. destruct_or! Hp; simplify_eq; lia. }
  assert (forall x, 0 <= x < 64 -> in_range (128 + x) (128 + x) (byte_of (Z.lor 128 x))) as H128.
  { intros x Hx. unfold in_range. rewrite (Hb 128 64); [lia|cbn; tauto|done]. }
  assert (forall p m x, In (p, m) [(192, 32); (224, 16); (240, 8); (128, 64)] -> 0 <= x < m ->
            in_range (p + x) (p + x) (byte_of (Z.lor p x))) as Hlead.
  { intros p m x Hp Hx. unfold in_range. by rewrite (Hb p m). }
  unfold in_range in H128, Hlead.
  destruct (cp <? 128) eqn:C1; [|destruct (cp <=? 2047) eqn:C2; [|destruct (cp <=? 65535) eqn:C3]];
    cbn [fold_left]; unfold add; cbn [String.append].
  - apply utf8_1; [|constructor]. unfold in_range. rewrite byte_val_of, Z.mod_small; lia.
  - specialize (Hlead 192 32 (cp / 64) ltac:(cbn; tauto) ltac:(lia)).
    specialize (H128 (cp mod 64) ltac:(lia)).
    apply utf8_2; [..|constructor]; unfold in_range; lia.
  - specialize (Hlead 224 16 (cp / 4096) ltac:(cbn; tauto) ltac:(lia)).
    pose proof (H128 (cp mod 64) ltac:(lia)). pose proof (H128 ((cp / 64) mod 64) ltac:(lia)).
    apply utf8_3; [..|constructor]; unfold in_range; lia.
  - specialize (Hlead 240 8 (cp / 262144) ltac:(cbn; tauto) ltac:(lia)).
    pose proof (H128 (cp mod 64) ltac:(lia)). pose proof (H128 ((cp / 64) mod 64) ltac:(lia)).
    pose proof (H128 ((cp / 4096) mod 64) ltac:(lia)).
    apply utf8_4; [..|constructor]; unfold in_range; lia.
Qed.

(** The result [p] of scanning [n] bytes behind the buffer [buf]. *)
Definition scanned (n : nat) (buf : string) (p : token * string) : Prop :=
  (exists b, p.1 = value_string (buf +:+ b) /\ utf8 b /\ (String.length p.2 < n)%nat)
  \/ (exists m, p.1 = parse_error m /\ (String.length p.2 <= n)%nat).

Lemma scanned_error n buf m r :
  (String.length r <= n)%nat -> scanned n buf (parse_error m, r).
Proof. right. eauto. Qed.

Lemma scanned_more n n' buf x p :
  utf8 x -> (n' <= n)%nat -> scanned n' (buf +:+ x) p -> scanned n buf p.
Proof.
  unfold scanned. intros Hx Hn [(b & -> & Hb & Hr)|(m & -> & Hr)].
  - left. exists (x +:+ b). rewrite app_str_assoc. split; [done|]. split; [by apply utf8_app|lia].
  - right. eauto with lia.
Qed.

Lemma scanned_byte n buf x p :
  0 <= x <= 127 -> scanned n (add buf x) p -> scanned n buf p.
Proof.
  intros Hx. apply scanned_more; [|lia]. apply utf8_1; [|constructor].
  unfold in_range. rewrite byte_val_of, Z.mod_small; lia.
Qed.

Lemma escaped_char_ascii c b : escaped_char c = Some b -> 0 <= b <= 127.
Proof. unfold escaped_char. intros. repeat case_match; simplify_eq; lia. Qed.

Lemma scan_escape_scanned buf s err k n :
  (forall m r, (String.length r <= String.length s)%nat -> scanned n buf (err m r)) ->
  (forall buf' r, (String.length r < String.length s)%nat -> scanned n buf' (k buf' r)) ->
  scanned n buf (scan_escape buf s err k).
Proof.
  intros Herr Hk. unfold scan_escape. apply get_rule; [apply Herr; cbn; lia|].
  intros c s' ->. cbn [String.length] in *.
  destruct (escaped_char _) as [b|] eqn:Eb.
  { eapply scanned_byte; [by eapply escaped_char_ascii|]. apply Hk. lia. }
  destruct (byte_val c =? 117); [|apply Herr; lia].
  apply unicode_escape_rule; [intros; apply Herr; lia|]. intros cp r Hcp Hr.
  eapply scanned_more; [by apply utf8_encode_ok|reflexivity|]. rewrite <-fold_add. apply Hk. lia.
Qed.

Lemma multi_byte_rule {R} (P : R -> Prop) c bad k :
  P bad ->
  (forall ranges, (forall l, Forall2 byte_in ranges l -> utf8 (String c (String.string_of_list_ascii l))) ->
     P (k ranges)) ->
  P (multi_byte (byte_val c) bad k).
Proof.
  intros Hbad Hk. unfold multi_byte.
  repeat match goal with |- P (if ?b then _ else _) => destruct b eqn:? end;
    try done; apply Hk; intros l Hl;
    repeat match goal with H : Forall2 _ (_ :: _) _ |- _ =>
      apply Forall2_cons_inv_l in H as (? & ? & ? & H & ->) end;
    apply Forall2_nil_inv_l in Hl as ->; cbn [String.string_of_list_ascii];
    unfold byte_in, in_range in *; cbn [fst snd] in *;
    first [apply utf8_4|apply utf8_3|apply utf8_2]; unfold in_range; try apply utf8_nil; lia.
Qed.

Lemma scan_string_from_eq buf s :
  scan_string_from buf s
  = let err message rest := (parse_error message, rest) in
    get s (err quote_error) (fun c s =>
      if c =? 34 then (value_string buf, s)
      else if c =? 92 then scan_escape buf s err scan_string_from
      else if c <=? 31 then err (control_error c) s
      else if is_plain c then scan_string_from (add buf c) s
      else multi_byte c (err utf8_error s) (fun ranges =>
        next_byte_in_range ranges c buf s (err utf8_error) scan_string_from)).
Proof. by destruct s. Qed.

Lemma scan_string_from_scanned n : forall buf s,
  (String.length s < n)%nat -> scanned (String.length s) buf (scan_string_from buf s).
Proof.
  induction n as [|n IH]; intros buf s Hn; [lia|]. rewrite scan_string_from_eq. cbv zeta.
  apply get_rule; [apply scanned_error; cbn; lia|]. intros c s' ->. cbn [String.length] in *.
  assert (forall buf' r, (String.length r < S (String.length s'))%nat ->
            scanned (S (String.length s')) buf' (scan_string_from buf' r)) as Hrec.
  { intros buf' r Hr. eapply (scanned_more _ (String.length r) _ EmptyString); [constructor|lia|].
    rewrite app_str_nil_r. apply IH. lia. }
  destruct (_ =? 34).
  { left. exists EmptyString. rewrite app_str_nil_r. cbn. split_and!; [done|constructor|lia]. }
  destruct (_ =? 92).
  { apply scan_escape_scanned; [intros; apply scanned_error; lia|]. intros. apply Hrec. lia. }
  destruct (_ <=? 31) eqn:?; [apply scanned_error; lia|].
  destruct (is_plain _) eqn:Hp.
  { unfold is_plain in Hp. eapply scanned_byte; [|apply Hrec; lia]. lia. }
  apply multi_byte_rule; [apply scanned_error; lia|]. intros ranges Hu.
  unfold next_byte_in_range. apply bytes_in_range_rule; [intros; apply scanned_error; lia|].
  intros l r Hl ->. rewrite length_app_str in *. rewrite add_byte, app_str_assoc.
  eapply scanned_more; [by apply Hu|reflexivity|]. cbn [String.append]. apply Hrec. lia.
Qed.

(** ** What [scan] yields *)

Definition token_ok (t : token) : Prop :=
  match t with
  | value_string s => utf8 s
  | value_unsigned x => 0 <= x < 2 ^ 64
  | value_integer x => - 2 ^ 63 <= x <= 0
  | _ => True
  end.

(** The tokens after which the parser stops. *)
Definition last_of_input (t : token) : bool :=
  match t with parse_error _ | end_of_input => true | _ => false end.

Definition scans (n : nat) (p : token * string) : Prop :=
  token_ok p.1 /\ (String.length p.2 <= n)%nat
  /\ (last_of_input p.1 = false -> (String.length p.2 < n)%nat).

Lemma scans_weaken n m p : (n <= m)%nat -> scans n p -> scans m p.
Proof. unfold scans. intros ? (? & ? & ?). split_and!; [done|lia|intros; lia || intuition lia]. Qed.

Lemma scans_stop n m s : (String.length s <= n)%nat -> scans n (parse_error m, s).
Proof. intros. by split_and!. Qed.

Lemma scans_token t s : token_ok t -> scans (S (String.length s)) (t, s).
Proof. intros. split_and!; cbn; [done|lia|lia]. Qed.

Lemma scan_digits_nonneg s : forall acc, 0 <= acc -> 0 <= scan_digits acc s.
Proof.
  induction s as [|c s IH]; intros acc Hacc; cbn [scan_digits]; [done|].
  unfold digit_val. case_match; simplify_eq; [|done]. case_match; simplify_eq. apply IH. lia.
Qed.

(** The buffer begins with the sign that the kind stands for. *)
Definition kind_ok (ty : number_kind) (buf : string) : Prop :=
  match ty with
  | kind_unsigned => exists c s, buf = String c s /\ is_digit (byte_val c) = true
  | kind_integer => exists s, buf = String (ascii_of_nat 45) s
  | kind_float => True
  end.

Lemma kind_ok_add ty buf c : kind_ok ty buf -> kind_ok ty (add buf c).
Proof. destruct ty; cbn; [intros (? & ? & -> & ?)|intros (? & ->)|done]; unfold add; eauto. Qed.

Lemma kind_ok_number_type st ty buf :
  st <> minus -> kind_ok ty buf -> kind_ok (number_type st ty) buf.
Proof. by destruct st. Qed.

Lemma scan_int_digit c s : is_digit (byte_val c) = true ->
  scan_int (String c s) = scan_digits 0 (String c s).
Proof.
  intros Hc. unfold is_digit in Hc.
  assert (exists n, (n < 10)%nat /\ c = ascii_of_nat (48 + n)) as (n & Hn & ->).
  { exists (Z.to_nat (byte_val c - 48)). split; [lia|]. rewrite <-(byte_of_val c) at 1.
    unfold byte_of, ascii_of_nat. rewrite Z.mod_small by lia. f_equal. lia. }
  clear Hc.
  do 10 (destruct n as [|n]; [done|]). lia.
Qed.

Section scan_ok.
Context `{Strtod}.

Lemma scan_number_done_ok ty buf : kind_ok ty buf -> token_ok (scan_number_done ty buf).
Proof.
  unfold scan_number_done. destruct ty; cbn [kind_ok]; [intros (c & s & -> & Hc)|intros (s & ->)|done].
  - rewrite scan_int_digit by done. pose proof (scan_digits_nonneg (String c s) 0 ltac:(lia)).
    destruct (_ <? _) eqn:?; [|done]. cbn [token_ok]. lia.
  - change (scan_int _) with (- scan_digits 0 s). pose proof (scan_digits_nonneg s 0 ltac:(lia)).
    destruct (_ <=? _) eqn:?; [|done]. cbn [token_ok]. lia.
Qed.

Lemma number_goto_not_minus st c st' : number_goto st c = Some st' -> st' <> minus.
Proof.
  destruct st; cbn; unfold scan_number_minus, scan_number_zero, scan_number_any1,
    scan_number_decimal1, scan_number_decimal2, scan_number_exponent, scan_number_sign,
    scan_number_any2; intros; repeat case_match; by simplify_eq.
Qed.

Lemma scan_number_from_scans s : forall st ty buf,
  kind_ok ty buf -> scans (S (String.length s)) (scan_number_from st ty buf s).
Proof.
  induction s as [|c s IH]; intros st ty buf Hk; cbn [scan_number_from];
    [|destruct (number_goto st (byte_val c)) as [st'|] eqn:Hst].
  2: { eapply scans_weaken; [|apply IH]; [cbn; lia|].
       eapply kind_ok_number_type, kind_ok_add; [by eapply number_goto_not_minus|done]. }
  all: destruct (number_stop st); [apply scans_stop; cbn; lia|];
    apply scans_token; by apply scan_number_done_ok.
Qed.

Lemma scan_number_scans c s : scans (S (String.length s)) (scan_number c s).
Proof.
  unfold scan_number. destruct (scan_number_init c) as [st|] eqn:E; [|apply scans_stop; lia].
  apply scan_number_from_scans. unfold scan_number_init, is_digit19 in E.
  unfold add. cbn [String.append]. repeat case_match; simplify_eq; cbn.
  - exists EmptyString. f_equal. by replace c with 45 by lia.
  - exists (byte_of c), EmptyString. split; [done|]. by replace c with 48 by lia.
  - exists (byte_of c), EmptyString. split; [done|]. unfold is_digit.
    rewrite byte_val_of, Z.mod_small; lia.
Qed.

Lemma scan_literal_scans t ls : forall s, token_ok t ->
  scans (S (String.length s)) (scan_literal ls s t).
Proof.
  induction ls as [|l ls IH]; intros s Ht; cbn [scan_literal]; [by apply scans_token|].
  apply get_rule; [apply scans_stop; cbn; lia|]. intros c s' ->. cbn [String.length].
  destruct (_ =? _); [|apply scans_stop; lia]. eapply scans_weaken; [|by apply IH]. lia.
Qed.

Lemma scan_current_scans c s : scans (S (String.length s)) (scan_current c s).
Proof.
  unfold scan_current.
  repeat match goal with |- scans _ (if ?b then _ else _) => destruct b end;
    try (by apply scans_token); try (by apply scan_literal_scans);
    [|apply scan_number_scans].
  destruct (scan_string_from_scanned (S (String.length s)) EmptyString s ltac:(lia))
    as [(b & Hb & Hu & Hr)|(m & Hm & Hr)]; unfold scans, scan_string.
  - rewrite Hb. cbn. split_and!; [done|lia|lia].
  - rewrite Hm. cbn. split_and!; [done|lia|done].
Qed.

Lemma scan_scans s : scans (String.length s) (scan s).
Proof.
  unfold scan. induction s as [|c s IH]; cbn [skip_whitespace]; [by split_and!|].
  destruct (is_whitespace _); [|apply scan_current_scans].
  eapply scans_weaken; [|apply IH]. cbn. lia.
Qed.

Lemma scan_first_scans s : scans (String.length s) (scan_first s).
Proof.
  unfold scan_first. destruct (skip_bom s) as [s'|] eqn:E; [|apply scans_stop; cbn; lia].
  eapply scans_weaken; [|apply scan_scans]. revert E. unfold skip_bom.
  repeat (apply (get_rule (fun x => x = Some s' -> _)); [intros; simplify_eq; cbn; lia|];
          intros ? ? -> ; try destruct (_ =? 239); try destruct (negb _); try done;
          try (intros [= <-]; cbn; lia)).
  destruct (_ =? 191); [|done]. intros [= <-]. cbn. lia.
Qed.
End scan_ok.

(** ** The lexer reads what the serializer writes

    The serializer is the one of Json, the same algorithm in both copies of
    the library. *)

Lemma dump_escaped_codep cp s : dump_escaped_from 0 cp s = dump_escaped_from 0 0 s.
Proof. by destruct s. Qed.

(** A byte of a multi-byte sequence is written as it is. *)
Lemma dump_multi st cp c s e st' :
  In st live_states -> cp_ok st cp -> utf8_next st (byte_val c) = st' -> st' <> 1 ->
  st <> 0 \/ st' <> 0 -> dump_escaped_from st cp (String c s) = Some e ->
  exists cp' e', In st' live_states /\ cp_ok st' cp'
    /\ dump_escaped_from st' cp' s = Some e' /\ e = String c e'.
Proof.
  intros Hst Hcp Hn Hlive Hm. cbn [dump_escaped_from].
  destruct (decode st cp (byte_val c)) as [st2 cp'] eqn:E.
  destruct (decode_step _ _ _ _ _ Hst Hcp E) as [-> Hstep]. rewrite Hn in *.
  destruct (Hstep Hlive) as (Hst' & Hcp' & _ & Hmulti & Hraw). specialize (Hraw Hm).
  unfold UTF8_ACCEPT, UTF8_REJECT.
  destruct (st' =? 0) eqn:E0; [apply Z.eqb_eq in E0 as ->|destruct (st' =? 1) eqn:E1; [lia|]];
    destruct (dump_escaped_from _ cp' s) as [r|] eqn:Er; try done; intros [= <-];
    exists cp', r; split_and!; try done.
  assert (128 <= cp') by (apply Hmulti; [lia|done]).
  unfold dump_codepoint. byte_cases. done.
Qed.

Lemma dump_ascii c s e : in_range 0 127 c -> dump_escaped_from 0 0 (String c s) = Some e ->
  exists e', dump_escaped_from 0 0 s = Some e' /\ e = dump_codepoint (byte_val c) c +:+ e'.
Proof.
  unfold in_range. intros Hc. cbn [dump_escaped_from].
  destruct (decode 0 0 (byte_val c)) as [st' cp'] eqn:E.
  destruct (decode_step 0 0 c st' cp' ltac:(by left) ltac:(by left) E) as [-> Hstep].
  assert (utf8_next 0 (byte_val c) = 0) as Hn.
  { unfold utf8_next, between. cbn [Z.eqb]. byte_cases. }
  rewrite Hn in *. destruct Hstep as (_ & _ & Hcp & _); [done|]. rewrite Hcp by done.
  change (0 =? UTF8_ACCEPT) with true. cbv iota. rewrite dump_escaped_codep.
  destruct (dump_escaped_from 0 0 s) as [r|]; [|done]. intros [= <-]. eauto.
Qed.

Lemma scan_ascii buf c r : in_range 0 127 c ->
  scan_string_from buf (dump_codepoint (byte_val c) c +:+ r)
  = scan_string_from (buf +:+ String c EmptyString) r.
Proof.
  intros [_ Hc]. apply Z.lt_succ_r in Hc.
  destruct c as [[] [] [] [] [] [] [] []]; try (exfalso; vm_compute in Hc; discriminate Hc); reflexivity.
Qed.

(** A byte that its range admits. *)
Lemma bytes_in_range_cons {R} lo hi ranges buf c s (err : string -> R) k :
  in_range lo hi c ->
  bytes_in_range ((lo, hi) :: ranges) buf (String c s) err k
  = bytes_in_range ranges (buf +:+ String c EmptyString) s err k.
Proof.
  intros [? ?]. cbn [bytes_in_range get]. rewrite add_byte.
  destruct (lo <=? byte_val c) eqn:?; [|lia]. by destruct (byte_val c <=? hi) eqn:?; [|lia].
Qed.

Lemma scan_lead buf c ranges s :
  194 <= byte_val c ->
  (forall R (bad : R) k, multi_byte (byte_val c) bad k = k ranges) ->
  scan_string_from buf (String c s)
  = bytes_in_range ranges (buf +:+ String c EmptyString) s
      (fun r => (parse_error utf8_error, r)) scan_string_from.
Proof.
  intros Hc Hm. rewrite scan_string_from_eq. cbn [get]. rewrite Hm.
  destruct (_ =? 34) eqn:?; [lia|]. destruct (_ =? 92) eqn:?; [lia|].
  destruct (_ <=? 31) eqn:?; [lia|]. destruct (is_plain _) eqn:Hp; [unfold is_plain in Hp; lia|].
  unfold next_byte_in_range. by rewrite add_byte.
Qed.

(** Reading a multi-byte sequence: the ranges that its lead byte asks for. *)
Ltac lead_case :=
  intros; unfold multi_byte, in_range in *;
  repeat match goal with |- (if ?b then _ else _) = _ => destruct b eqn:? end;
  try reflexivity; exfalso; lia.
Ltac read_multi ranges :=
  rewrite (scan_lead _ _ ranges) by first [lead_case|unfold in_range in *; lia];
  repeat rewrite bytes_in_range_cons by done; cbn [bytes_in_range];
  rewrite !app_str_assoc; cbn [String.append].

Ltac next_state := unfold utf8_next, between, in_range in *; cbn [Z.eqb Pos.eqb]; byte_cases.

Ltac dump_byte H n :=
  eapply (dump_multi _ _ _ _ _ n) in H as (? & ? & ? & ? & H & ->);
  [|(by left) || done|(by left) || done|next_state|lia|lia].


Ltac read_back He IH ranges :=
  rewrite dump_escaped_codep in He; rewrite !app_str_cons; read_multi ranges;
  rewrite (IH _ _ _ He); by rewrite !app_str_assoc.

(** The body of a string literal is read back as the string. *)
Lemma scan_string_dump s : utf8 s -> forall buf e r,
  dump_escaped_from 0 0 s = Some e ->
  scan_string_from buf (e +:+ dq +:+ r) = (value_string (buf +:+ s), r).
Proof.
  induction 1 as [|a s Ha _ IH|a b s Ha Hb _ IH|a b c s Hab Hc _ IH|a b c d s Hab Hc Hd _ IH];
    intros buf e r He.
  - injection He as <-. cbn. by rewrite app_str_nil_r.
  - apply dump_ascii in He as (e' & He & ->); [|done].
    rewrite app_str_assoc, scan_ascii, (IH _ _ _ He), app_str_assoc by done. done.
  - dump_byte He 2. dump_byte He 0.
    read_back He IH [(128, 191)].
  - destruct Hab as [[? ?]|[[? ?]|[[? ?]|[? ?]]]].
    + dump_byte He 4. dump_byte He 2. dump_byte He 0. read_back He IH [(160, 191); (128, 191)].
    + dump_byte He 3. dump_byte He 2. dump_byte He 0. read_back He IH [(128, 191); (128, 191)].
    + dump_byte He 5. dump_byte He 2. dump_byte He 0. read_back He IH [(128, 159); (128, 191)].
    + dump_byte He 3. dump_byte He 2. dump_byte He 0. read_back He IH [(128, 191); (128, 191)].
  - destruct Hab as [[? ?]|[[? ?]|[? ?]]].
    + dump_byte He 6. dump_byte He 3. dump_byte He 2. dump_byte He 0.
      read_back He IH [(144, 191); (128, 191); (128, 191)].
    + dump_byte He 7. dump_byte He 3. dump_byte He 2. dump_byte He 0.
      read_back He IH [(128, 191); (128, 191); (128, 191)].
    + dump_byte He 8. dump_byte He 3. dump_byte He 2. dump_byte He 0.
      read_back He IH [(128, 143); (128, 191); (128, 191)].
Qed.

(** *** Integers *)

Definition all_digits (s : string) : Prop :=
  Forall (fun c => is_digit (byte_val c) = true) (String.list_ascii_of_string s).

Lemma all_digits_app a b : all_digits (a +:+ b) <-> all_digits a /\ all_digits b.
Proof.
  unfold all_digits. induction a as [|c a IH]; cbn; [rewrite Forall_nil; tauto|].
  rewrite !Forall_cons, IH. tauto.
Qed.

Lemma pretty_N_char_digit n : (n < 10)%N ->
  byte_val (pretty_N_char n) = 48 + Z.of_N n.
Proof.
  intros Hn. destruct n as [|p]; [done|].
  do 4 (try (destruct p as [p|p|]; try reflexivity; try lia)).
Qed.

Lemma pretty_N_char_is_digit n : (n < 10)%N -> is_digit (byte_val (pretty_N_char n)) = true.
Proof. intros Hn. unfold is_digit. rewrite pretty_N_char_digit by done. lia. Qed.

Lemma pretty_N_go_value x : forall s, scan_digits 0 (pretty_N_go x s) = scan_digits (Z.of_N x) s.
Proof.
  induction (N.lt_wf_0 x) as [x _ IH]. intros s.
  destruct (decide (0 < x)%N) as [Hx|Hx];
    [|replace x with 0%N by lia; by rewrite pretty_N_go_0].
  rewrite pretty_N_go_step by done. rewrite IH by (apply N.div_lt; lia).
  pose proof (N.mod_upper_bound x 10 ltac:(lia)). pose proof (N.div_mod x 10 ltac:(lia)).
  cbn [scan_digits]. unfold digit_val. rewrite pretty_N_char_digit by done. clear IH.
  generalize dependent (x `mod` 10)%N. generalize dependent (x `div` 10)%N. intros q m Hm ->.
  destruct (_ && _) eqn:?; [|lia]. f_equal. lia.
Qed.

Lemma pretty_N_go_shape x : (0 < x)%N -> forall s, exists d ds,
  pretty_N_go x s = String d (ds +:+ s) /\ is_digit19 (byte_val d) = true /\ all_digits ds.
Proof.
  induction (N.lt_wf_0 x) as [x _ IH]. intros Hx s. rewrite pretty_N_go_step by done.
  pose proof (N.mod_upper_bound x 10 ltac:(lia)). pose proof (N.div_mod x 10 ltac:(lia)).
  destruct (decide (0 < x / 10)%N) as [Hq|Hq].
  - destruct (IH (x / 10)%N ltac:(apply N.div_lt; lia) Hq (String (pretty_N_char (x mod 10)) s))
      as (d & ds & -> & Hd & Hds).
    exists d, (ds +:+ String (pretty_N_char (x mod 10)) EmptyString).
    rewrite app_str_assoc. split_and!; [done..|]. apply all_digits_app. split; [done|].
    apply Forall_cons_2; [|apply Forall_nil_2].
    by apply pretty_N_char_is_digit.
  - replace (x / 10)%N with 0%N by lia. rewrite pretty_N_go_0.
    exists (pretty_N_char (x mod 10)), EmptyString. split_and!; [done| |constructor].
    unfold is_digit19. rewrite pretty_N_char_digit by done. clear IH.
    generalize dependent (x `mod` 10)%N. generalize dependent (x `div` 10)%N. lia.
Qed.

(** The number ends here: no digit, point or exponent follows. *)
Definition number_end (s : string) : Prop :=
  match s with
  | EmptyString => True
  | String c _ => is_digit (byte_val c) = false /\ byte_val c <> 46 /\ is_exp (byte_val c) = false
  end.

(** What a written integer is read as. *)
Definition int_token (z : Z) : token := if z <? 0 then value_integer z else value_unsigned z.

Section read.
Context `{Strtod}.

Lemma scan_number_stop st ty buf r :
  st = zero \/ st = any1 -> number_end r ->
  scan_number_from st ty buf r = (scan_number_done ty buf, r).
Proof.
  intros [-> | ->] Hr; (destruct r as [|c r]; [done|]); destruct Hr as (Hd & Hp & He);
    cbn [scan_number_from number_goto number_stop];
    unfold scan_number_zero, scan_number_any1; rewrite ?Hd, He;
    destruct (byte_val c =? 46) eqn:?; (lia || done).
Qed.

Lemma scan_number_digits ds : forall ty buf r, all_digits ds -> number_end r ->
  scan_number_from any1 ty buf (ds +:+ r) = (scan_number_done ty (buf +:+ ds), r).
Proof.
  induction ds as [|d ds IH]; intros ty buf r Hds Hr.
  { rewrite app_str_nil_r. apply scan_number_stop; [by right|done]. }
  apply Forall_cons in Hds as [Hd Hds]. rewrite app_str_cons. cbn [scan_number_from number_goto].
  unfold scan_number_any1 at 1. rewrite Hd. cbn [number_type].
  rewrite IH by done. by rewrite add_byte, app_str_assoc.
Qed.

Lemma scan_visible c s : is_whitespace (byte_val c) = false ->
  scan (String c s) = scan_current (byte_val c) s.
Proof. intros Hc. unfold scan. cbn [skip_whitespace]. by rewrite Hc. Qed.

Lemma scan_current_number c s : (c =? 45) || is_digit c = true -> scan_current c s = scan_number c s.
Proof.
  unfold is_digit. intros Hc. unfold scan_current, is_digit.
  repeat match goal with |- (if ?b then _ else _) = _ => destruct b eqn:?; try lia end. done.
Qed.

(** The digits of a positive number, and their value. *)
Lemma written_digits p : exists d ds,
  show_Z (Z.pos p) = String d ds /\ is_digit19 (byte_val d) = true /\ all_digits ds
  /\ scan_digits 0 (String d ds) = Z.pos p.
Proof.
  destruct (pretty_N_go_shape (N.pos p) ltac:(lia) EmptyString) as (d & ds & E & Hd & Hds).
  pose proof (pretty_N_go_value (N.pos p) EmptyString) as Hv.
  rewrite app_str_nil_r in E. rewrite E in Hv. by exists d, ds.
Qed.

Lemma scan_show_pos p r : Z.pos p < 2 ^ 64 -> number_end r ->
  scan (show_Z (Z.pos p) +:+ r) = (value_unsigned (Z.pos p), r).
Proof.
  intros Hp Hr. destruct (written_digits p) as (d & ds & -> & Hd & Hds & Hv).
  assert (is_digit (byte_val d) = true) as Hd' by (unfold is_digit, is_digit19 in *; lia).
  rewrite app_str_cons, scan_visible by (unfold is_whitespace, is_digit in *; lia).
  rewrite scan_current_number by (rewrite Hd'; apply orb_true_r).
  unfold scan_number, scan_number_init. rewrite Hd.
  unfold is_digit19 in Hd. destruct (_ =? 45) eqn:?; [lia|]. destruct (_ =? 48) eqn:?; [lia|].
  rewrite scan_number_digits by done. unfold scan_number_done, add. cbn [number_type String.append].
  rewrite byte_of_val, scan_int_digit, Hv by done.
  assert ((Z.pos p <? 2 ^ 64) = true) as -> by lia. done.
Qed.

Lemma scan_show_neg p r : - 2 ^ 63 <= Z.neg p -> number_end r ->
  scan (show_Z (Z.neg p) +:+ r) = (value_integer (Z.neg p), r).
Proof.
  intros Hp Hr. destruct (written_digits p) as (d & ds & E & Hd & Hds & Hv).
  change (show_Z (Z.neg p)) with (String (ascii_of_nat 45) (show_Z (Z.pos p))).
  rewrite E, app_str_cons, scan_visible by done.
  rewrite scan_current_number by done. unfold scan_number.
  change (scan_number_init _) with (Some minus). cbv iota.
  rewrite app_str_cons. cbn [scan_number_from number_goto]. unfold scan_number_minus.
  rewrite Hd. unfold is_digit19 in Hd. destruct (_ =? 48) eqn:?; [lia|]. cbn [number_type].
  rewrite scan_number_digits by done. rewrite add_byte. unfold scan_number_done.
  change (_ +:+ ds) with (String (ascii_of_nat 45) (String d ds)).
  change (scan_int _) with (- scan_digits 0 (String d ds)). rewrite Hv.
  assert ((- 2 ^ 63 <=? - Z.pos p) = true) as -> by lia. done.
Qed.

Lemma scan_show_Z z r : - 2 ^ 63 <= z < 2 ^ 64 -> number_end r ->
  scan (show_Z z +:+ r) = (int_token z, r).
Proof.
  intros [? ?] Hr. destruct z as [|p|p]; [|by apply scan_show_pos|by apply scan_show_neg].
  change (show_Z 0 +:+ r) with (String (ascii_of_nat 48) r).
  rewrite scan_visible, scan_current_number by done. unfold scan_number.
  change (scan_number_init _) with (Some zero). cbv iota.
  rewrite scan_number_stop; [done|by left|done].
Qed.
End read.

(** The parser's proofs use the lemmas about [scan], never its definition. *)
#[global] Arguments scan : simpl never.
