(* ===== verification/JsonParse.v ===== *)
(** * JsonParse: the JSON parser of the zygisk module

    [module-spoof/jni/include/json.hpp] (nlohmann 3.12.0): the loop
    [parser::sax_parse_internal], the value builder [json_sax_dom_parser]
    and [parser::parse], as [json::parse(stream)] runs them (no callback,
    exceptions on, no comments, no trailing commas).  The builder's stack of
    references into the value is a stack of the values being built: an
    element of it is put into its parent when it is complete.  An assertion
    that would fail is [None].  The parser terminates without a failing
    assertion and what it returns is well-formed; JsonGrammar relates it to
    the grammar of JSON and to the serializer. *)

From Stdlib Require Import ZArith Ascii String Lia.
From stdpp Require Import base numbers list strings pretty sorting relations.
From S2P Require Import Prelude Json JsonLex.

Open Scope Z_scope.

(** ** The value builder, [json_sax_dom_parser] *)

Module Sax.

(** An element of [ref_stack], with [object_element] for an object. *)
Inductive frame :=
| FArray (array : list json)
| FObject (object : list (string * json)) (object_element : option string).

Record dom := { root : json; ref_stack : list frame }.
Definition dom_init : dom := {| root := JNull; ref_stack := [] |}.

Definition handle_value (v : json) (d : dom) : option dom :=
  match ref_stack d with
  | [] => Some {| root := v; ref_stack := [] |}
  | FArray l :: st => Some {| root := root d; ref_stack := FArray (l ++ [v]) :: st |}
  | FObject kvs (Some k) :: st =>
      Some {| root := root d; ref_stack := FObject (smap_set k v kvs) (Some k) :: st |}
  | FObject _ None :: _ => None
  end.

(** [handle_value] of an empty container, whose reference is pushed. *)
Definition start_container (f : frame) (d : dom) : option dom :=
  match ref_stack d with
  | FObject _ None :: _ => None
  | st => Some {| root := root d; ref_stack := f :: st |}
  end.
Definition start_object (d : dom) : option dom := start_container (FObject [] None) d.
Definition start_array (d : dom) : option dom := start_container (FArray []) d.

(** [operator[]] puts a null at the key; [handle_value] follows before the
    object is used. *)
Definition key (val : string) (d : dom) : option dom :=
  match ref_stack d with
  | FObject kvs _ :: st =>
      Some {| root := root d; ref_stack := FObject kvs (Some val) :: st |}
  | _ => None
  end.

Definition end_object (d : dom) : option dom :=
  match ref_stack d with
  | FObject kvs _ :: st => handle_value (JObject kvs) {| root := root d; ref_stack := st |}
  | _ => None
  end.
Definition end_array (d : dom) : option dom :=
  match ref_stack d with
  | FArray l :: st => handle_value (JArray l) {| root := root d; ref_stack := st |}
  | _ => None
  end.

End Sax.

(** ** The parser *)

(** The exceptions: a syntax error (101) by what [exception_message] is given
    (the last token, the expected one and the context), and a number out of
    range (406).  The other wording for an empty input is left out. *)
Inductive exception :=
| syntax_error (last_token expected : token) (context : string)
| number_overflow.

Record parser := {
  m_lexer : string;              (* the input not yet read *)
  last_token : token;
  states : list bool;            (* true: array *)
  sax : Sax.dom;
  skip_to_state_evaluation : bool;
}.

(** How one round of the loop ends. *)
Inductive round :=
| Continue (p : parser)
| Done (p : parser)              (* [return true] *)
| Throw (e : exception)
| Assertion.

Section parser.
Context `{Strtod}.

Definition get_token (p : parser) : parser :=
  let '(t, s) := scan (m_lexer p) in
  {| m_lexer := s; last_token := t; states := states p; sax := sax p;
     skip_to_state_evaluation := skip_to_state_evaluation p |}.

Definition with_sax (o : option Sax.dom) (p : parser) (k : parser -> round) : round :=
  match o with
  | Some d => k {| m_lexer := m_lexer p; last_token := last_token p; states := states p;
                   sax := d; skip_to_state_evaluation := skip_to_state_evaluation p |}
  | None => Assertion
  end.
Definition set_states (st : list bool) (p : parser) : parser :=
  {| m_lexer := m_lexer p; last_token := last_token p; states := st; sax := sax p;
     skip_to_state_evaluation := skip_to_state_evaluation p |}.
Definition set_skip (b : bool) (p : parser) : parser :=
  {| m_lexer := m_lexer p; last_token := last_token p; states := states p; sax := sax p;
     skip_to_state_evaluation := b |}.

Definition unexpected (p : parser) (expected : token) (context : string) : round :=
  Throw (syntax_error (last_token p) expected context).

(** Parse key, parse separator, read the value's first token. *)
Definition parse_key (p : parser) (k : parser -> round) : round :=
  match last_token p with
  | value_string s =>
      with_sax (Sax.key s (sax p)) p (fun p =>
        let p := get_token p in
        match last_token p with
        | name_separator => k p
        | _ => unexpected p name_separator "object separator"
        end)
  | _ => unexpected p (value_string EmptyString) "object key"
  end.

(** [break] of the switch goes on with the state evaluation, [k]. *)
Definition parse_value (p : parser) (k : parser -> round) : round :=
  let value v := with_sax (Sax.handle_value v (sax p)) p k in
  match last_token p with
  | begin_object =>
      with_sax (Sax.start_object (sax p)) p (fun p =>
        let p := get_token p in
        match last_token p with
        | end_object => with_sax (Sax.end_object (sax p)) p k
        | _ => parse_key p (fun p => Continue (get_token (set_states (false :: states p) p)))
        end)
  | begin_array =>
      with_sax (Sax.start_array (sax p)) p (fun p =>
        let p := get_token p in
        match last_token p with
        | end_array => with_sax (Sax.end_array (sax p)) p k
        | _ => Continue (set_states (true :: states p) p)
        end)
  | value_float res =>
      match res with
      | Some f => value (JFloat f)
      | None => Throw number_overflow
      end
  | literal_false => value (JBool false)
  | literal_null => value JNull
  | literal_true => value (JBool true)
  | value_integer z => value (JInt z)
  | value_string s => value (JString s)
  | value_unsigned z => value (JInt z)
  | parse_error _ => unexpected p uninitialized "value"
  | _ => unexpected p literal_or_value "value"
  end.

(** After a value: return, a comma and the next value, or the closing
    bracket, after which the state is evaluated again. *)
Definition evaluate_state (p : parser) : round :=
  match states p with
  | [] => Done p
  | true :: outer =>
      let p := get_token p in
      match last_token p with
      | value_separator => Continue (get_token p)
      | end_array =>
          with_sax (Sax.end_array (sax p)) p (fun p =>
            Continue (set_skip true (set_states outer p)))
      | _ => unexpected p end_array "array"
      end
  | false :: outer =>
      let p := get_token p in
      match last_token p with
      | value_separator => parse_key (get_token p) (fun p => Continue (get_token p))
      | end_object =>
          with_sax (Sax.end_object (sax p)) p (fun p =>
            Continue (set_skip true (set_states outer p)))
      | _ => unexpected p end_object "object"
      end
  end.

(** One round of [while (true)]. *)
Definition sax_round (p : parser) : round :=
  if skip_to_state_evaluation p
  then evaluate_state (set_skip false p)
  else parse_value p evaluate_state.

(** [sax_parse_internal]; [None] is out of fuel. *)
Fixpoint sax_parse_internal (fuel : nat) (p : parser) : option round :=
  match fuel with
  | O => None
  | S fuel' => match sax_round p with
               | Continue p' => sax_parse_internal fuel' p'
               | r => Some r
               end
  end.

(** The constructor reads the first token. *)
Definition parser_init (input : string) : parser :=
  let '(t, s) := scan_first input in
  {| m_lexer := s; last_token := t; states := []; sax := Sax.dom_init;
     skip_to_state_evaluation := false |}.

(** What [json::parse] does: a value, an exception, or a failing assertion. *)
Inductive outcome :=
| Parsed (result : json)
| Thrown (e : exception)
| Aborted.

(** Every round but the last reads at least one byte. *)
Definition parse_fuel (input : string) : nat := String.length input + 2.

(** [parse(true, result)]: the input must be completely read. *)
Definition parse (input : string) : option outcome :=
  r ← sax_parse_internal (parse_fuel input) (parser_init input);
  Some (match r with
        | Done p =>
            let p := get_token p in
            match last_token p with
            | end_of_input => Parsed (Sax.root (sax p))
            | _ => Thrown (syntax_error (last_token p) end_of_input "value")
            end
        | Throw e => Thrown e
        | Assertion | Continue _ => Aborted
        end).
End parser.

(** ** Objects with sorted keys *)

Definition key_lt {A} (a b : string * A) : Prop := String.compare a.1 b.1 = Lt.
Definition sorted_keys {A} (m : list (string * A)) : Prop := StronglySorted key_lt m.

Lemma compare_trans a : forall b c,
  String.compare a b = Lt -> String.compare b c = Lt -> String.compare a c = Lt.
Proof.
  induction a as [|x a IH]; intros [|y b] [|z c]; cbn; try done.
  unfold Ascii.compare.
  destruct (N.compare_spec (N_of_ascii x) (N_of_ascii y)) as [E1|E1|E1]; try done;
    destruct (N.compare_spec (N_of_ascii y) (N_of_ascii z)) as [E2|E2|E2]; try done;
    destruct (N.compare_spec (N_of_ascii x) (N_of_ascii z)) as [E3|E3|E3]; try done;
    try lia; apply IH.
Qed.

Lemma smap_set_keys {A} (P : string -> Prop) k (v : A) m :
  P k -> Forall (fun e => P e.1) m -> Forall (fun e => P e.1) (smap_set k v m).
Proof. intros. by apply (smap_set_Forall (fun e => P e.1)). Qed.

Lemma smap_set_sorted {A} k (v : A) m : sorted_keys m -> sorted_keys (smap_set k v m).
Proof.
  unfold sorted_keys.
  induction 1 as [|[k' u] m Hm IH Hk]; cbn [smap_set]; [by repeat constructor|].
  destruct (String.compare k k') eqn:E.
  - apply String.compare_eq_iff in E as ->. by constructor.
  - constructor; [by constructor|]. constructor; [done|].
    eapply Forall_impl; [exact Hk|]. intros [k2 u2]. unfold key_lt; cbn. by apply compare_trans.
  - constructor; [done|]. rewrite String.compare_antisym in E. unfold key_lt in *. cbn in *.
    apply (smap_set_keys (fun k2 => String.compare k' k2 = Lt)); [|done].
    by destruct (String.compare k' k).
Qed.

(** A key behind all others is put at the end. *)
Lemma smap_set_last {A} k (v : A) m :
  Forall (fun e => String.compare e.1 k = Lt) m -> smap_set k v m = m ++ [(k, v)].
Proof.
  induction 1 as [|[k' u] m Hk Hm IH]; cbn [smap_set app]; [done|]. cbn in Hk.
  rewrite String.compare_antisym, Hk, IH. done.
Qed.

Lemma sorted_keys_NoDup {A} (m : list (string * A)) : sorted_keys m -> NoDup m.*1.
Proof.
  unfold sorted_keys. induction 1 as [|[k u] m Hm IH Hk]; cbn; constructor; [|done].
  intros ([k2 u2] & -> & Hin)%list_elem_of_fmap. rewrite Forall_forall in Hk.
  specialize (Hk _ Hin). unfold key_lt in Hk. cbn in Hk.
  assert (String.compare k2 k2 = Eq) as E; [|congruence].
  pose proof (String.compare_antisym k2 k2) as Ha. by destruct (String.compare k2 k2).
Qed.

(** ** Well-formed values

    Integers fit the library's types, strings are UTF-8, the keys of an
    object ascend; [fl] says which floating-point numbers are admitted. *)
Section wf.
Variable fl : Z -> Prop.

Inductive wf_json : json -> Prop :=
| wf_null : wf_json JNull
| wf_bool b : wf_json (JBool b)
| wf_int z : - 2 ^ 63 <= z < 2 ^ 64 -> wf_json (JInt z)
| wf_float f : fl f -> wf_json (JFloat f)
| wf_string s : utf8 s -> wf_json (JString s)
| wf_array l : Forall wf_json l -> wf_json (JArray l)
| wf_object kvs : sorted_keys kvs -> Forall (fun e => utf8 e.1 /\ wf_json e.2) kvs ->
    wf_json (JObject kvs).

(** Induction with hypotheses for the elements. *)
Lemma wf_json_rec (P : json -> Prop) :
  P JNull -> (forall b, P (JBool b)) -> (forall z, - 2 ^ 63 <= z < 2 ^ 64 -> P (JInt z)) ->
  (forall f, fl f -> P (JFloat f)) -> (forall s, utf8 s -> P (JString s)) ->
  (forall l, Forall wf_json l -> Forall P l -> P (JArray l)) ->
  (forall kvs, sorted_keys kvs -> Forall (fun e => utf8 e.1 /\ P e.2) kvs -> P (JObject kvs)) ->
  forall j, wf_json j -> P j.
Proof.
  intros Hn Hb Hi Hf Hs Ha Ho. fix IH 2. intros j [|b|z ?|f ?|s ?|l Hl|kvs Hk Hl]; [by auto..| |].
  - apply Ha; [done|]. clear -IH Hl. induction Hl; constructor; auto.
  - apply Ho; [done|]. clear -IH Hl. induction Hl as [|[k v] kvs [? ?] _ ?]; constructor; auto.
Qed.
End wf.

Lemma wf_dump_some `{JsonLib} fl j : wf_json fl j -> is_Some (dump j).
Proof.
  induction 1 as [|b|z _|f _|s Hs|l _ IH|kvs _ IH] using wf_json_rec; [by eauto..| | |].
  - by apply dump_string_some.
  - by apply dump_array_some.
  - by apply dump_object_some.
Qed.

(** ** The loop's invariant *)

Abbreviation wf_value := (wf_json (fun _ => True)).

(** The builder's stack follows the parser's; a value of an object has a key. *)
Definition frame_ok (f : Sax.frame) (array : bool) : Prop :=
  match f, array with
  | Sax.FArray l, true => Forall wf_value l
  | Sax.FObject kvs (Some k), false =>
      utf8 k /\ sorted_keys kvs /\ Forall (fun e => utf8 e.1 /\ wf_value e.2) kvs
  | _, _ => False
  end.

(** Before a value, and behind one. *)
Definition builds (d : Sax.dom) (st : list bool) : Prop := Forall2 frame_ok (Sax.ref_stack d) st.
Definition built (d : Sax.dom) (st : list bool) : Prop :=
  builds d st /\ (st = [] -> wf_value (Sax.root d)).

Lemma handle_value_built v d st : builds d st -> wf_value v ->
  exists d', Sax.handle_value v d = Some d' /\ built d' st.
Proof.
  unfold built, builds, Sax.handle_value. intros Hd Hv.
  destruct Hd as [|[l|kvs [k|]] [] fs st Hf Hfs]; try done; eexists; (split; [reflexivity|]); cbn.
  - split; [constructor|done].
  - split; [|done]. constructor; [|done]. apply Forall_app. by repeat constructor.
  - split; [|done]. constructor; [|done]. destruct Hf as (Hk & Hs & Hkvs). split_and!; [done| |].
    + by apply smap_set_sorted.
    + by apply smap_set_Forall.
Qed.

(** A container that was started can be ended at once, or filled. *)
Lemma start_array_built d st : builds d st ->
  exists d1, Sax.start_array d = Some d1 /\ builds d1 (true :: st)
    /\ exists d2, Sax.end_array d1 = Some d2 /\ built d2 st.
Proof.
  intros Hd. exists {| Sax.root := Sax.root d; Sax.ref_stack := Sax.FArray [] :: Sax.ref_stack d |}.
  split; [|split].
  - unfold Sax.start_array, Sax.start_container, builds in *. by destruct Hd as [|[|? []] []].
  - constructor; [apply Forall_nil_2|done].
  - unfold Sax.end_array. apply handle_value_built; [done|]. by constructor.
Qed.

Lemma start_object_built d st : builds d st ->
  exists d1, Sax.start_object d = Some d1
    /\ (forall k, utf8 k -> exists d2, Sax.key k d1 = Some d2 /\ builds d2 (false :: st))
    /\ exists d2, Sax.end_object d1 = Some d2 /\ built d2 st.
Proof.
  intros Hd.
  exists {| Sax.root := Sax.root d; Sax.ref_stack := Sax.FObject [] None :: Sax.ref_stack d |}.
  split; [|split].
  - unfold Sax.start_object, Sax.start_container, builds in *. by destruct Hd as [|[|? []] []].
  - intros k Hk. eexists. split; [reflexivity|]. constructor; [|done].
    split_and!; [done|constructor|apply Forall_nil_2].
  - unfold Sax.end_object. apply handle_value_built; [done|]. by repeat constructor.
Qed.

Lemma end_array_built d st : builds d (true :: st) ->
  exists d', Sax.end_array d = Some d' /\ built d' st.
Proof.
  unfold builds, Sax.end_array. intros (f & fs & Hf & Hfs & ->)%Forall2_cons_inv_r.
  destruct f as [l|? [|]]; try done. apply handle_value_built; [done|]. by constructor.
Qed.

Lemma end_object_built d st : builds d (false :: st) ->
  exists d', Sax.end_object d = Some d' /\ built d' st.
Proof.
  unfold builds, Sax.end_object. intros (f & fs & Hf & Hfs & ->)%Forall2_cons_inv_r.
  destruct f as [|kvs [k|]]; try done. destruct Hf as (_ & ? & ?).
  apply handle_value_built; [done|]. by constructor.
Qed.

Lemma key_built k d st : builds d (false :: st) -> utf8 k ->
  exists d', Sax.key k d = Some d' /\ builds d' (false :: st).
Proof.
  unfold builds, Sax.key. intros (f & fs & Hf & Hfs & ->)%Forall2_cons_inv_r Hk.
  destruct f as [|kvs [k'|]]; try done. destruct Hf as (_ & ? & ?).
  eexists. split; [reflexivity|]. by repeat constructor.
Qed.

#[global] Arguments Sax.handle_value : simpl never.
#[global] Arguments Sax.start_array : simpl never.
#[global] Arguments Sax.start_object : simpl never.
#[global] Arguments Sax.key : simpl never.
#[global] Arguments Sax.end_array : simpl never.
#[global] Arguments Sax.end_object : simpl never.

Section total.
Context `{Strtod}.

Lemma get_token_eq s t st d b t' s' : scan s = (t', s') ->
  get_token {| m_lexer := s; last_token := t; states := st; sax := d;
               skip_to_state_evaluation := b |}
  = {| m_lexer := s'; last_token := t'; states := st; sax := d; skip_to_state_evaluation := b |}.
Proof. unfold get_token. cbn. by intros ->. Qed.

(** How much of the input is left to work on, the last token included. *)
Definition to_read (p : parser) : nat :=
  if negb (skip_to_state_evaluation p) && last_of_input (last_token p) then 0
  else S (String.length (m_lexer p)).

Definition parser_ok (p : parser) : Prop :=
  token_ok (last_token p) /\
  if skip_to_state_evaluation p then built (sax p) (states p) else builds (sax p) (states p).

Definition round_ok (n : nat) (r : round) : Prop :=
  match r with
  | Continue p => parser_ok p /\ (to_read p < n)%nat
  | Done p => wf_value (Sax.root (sax p))
  | Throw _ => True
  | Assertion => False
  end.

(** [get_token] before a value. *)
Lemma next_value_ok n s t st d : builds d st -> (String.length s < n)%nat ->
  round_ok n (Continue (get_token {| m_lexer := s; last_token := t; states := st; sax := d;
                                     skip_to_state_evaluation := false |})).
Proof.
  intros Hd Hn. unfold get_token, round_ok, parser_ok, to_read. cbn.
  pose proof (scan_scans s) as (Hok & Hle & Hlt). destruct (scan s) as [t' s']. cbn in *.
  split; [done|]. destruct (last_of_input t'); cbn; [lia|]. specialize (Hlt eq_refl). lia.
Qed.

Lemma parse_key_ok n s t st d k st0 :
  token_ok t ->
  (forall key, utf8 key -> exists d', Sax.key key d = Some d' /\ builds d' (false :: st0)) ->
  (forall s' d', builds d' (false :: st0) -> (String.length s' < String.length s)%nat ->
     round_ok n (k {| m_lexer := s'; last_token := name_separator; states := st; sax := d';
                      skip_to_state_evaluation := false |})) ->
  round_ok n (parse_key {| m_lexer := s; last_token := t; states := st; sax := d;
                           skip_to_state_evaluation := false |} k).
Proof.
  intros Ht Hd Hk. unfold parse_key. cbn. destruct t; try done. cbn in *.
  destruct (Hd _ Ht) as (d' & -> & Hd'). unfold with_sax, get_token. cbn.
  pose proof (scan_scans s) as (_ & _ & Hlt). destruct (scan s) as [t s']. cbn in *.
  destruct t; try done. apply Hk; [done|]. by apply Hlt.
Qed.

Lemma evaluate_state_ok n s t st d : built d st -> (String.length s < n)%nat ->
  round_ok n (evaluate_state {| m_lexer := s; last_token := t; states := st; sax := d;
                                skip_to_state_evaluation := false |}).
Proof.
  intros [Hd Hr] Hn. unfold evaluate_state. cbn. destruct st as [|[] st]; [by apply Hr|..];
    pose proof (scan_scans s) as (Hok & Hle & Hlt);
    destruct (scan s) as [t' s'] eqn:E; rewrite (get_token_eq _ _ _ _ _ _ _ E); cbn in *; destruct t'; try done; specialize (Hlt eq_refl).
  - destruct (end_array_built _ _ Hd) as (d' & -> & Hd'). cbn. unfold to_read. cbn.
    split; [by split|lia].
  - apply next_value_ok; [done|lia].
  - destruct (end_object_built _ _ Hd) as (d' & -> & Hd'). cbn. unfold to_read. cbn.
    split; [by split|lia].
  - pose proof (scan_scans s') as (Hok2 & Hle2 & _).
    destruct (scan s') as [t2 s2] eqn:E2. rewrite (get_token_eq _ _ _ _ _ _ _ E2). cbn in *. eapply parse_key_ok; [done|intros; by apply key_built|].
    intros s3 d3 Hd3 Hs3. apply next_value_ok; [done|lia].
Qed.

Lemma not_end_object {A} t (a b : A) : t <> end_object ->
  match t with end_object => a | _ => b end = b.
Proof. by destruct t. Qed.

Lemma not_end_array {A} t (a b : A) : t <> end_array ->
  match t with end_array => a | _ => b end = b.
Proof. by destruct t. Qed.

Lemma parse_value_ok s t st d : token_ok t -> builds d st ->
  let p := {| m_lexer := s; last_token := t; states := st; sax := d;
              skip_to_state_evaluation := false |} in
  round_ok (to_read p) (parse_value p evaluate_state).
Proof.
  intros Ht Hd p. destruct (last_of_input t) eqn:Hl; [by destruct t|].
  unfold to_read, p. cbn [skip_to_state_evaluation last_token m_lexer negb andb]. rewrite Hl.
  assert (forall v, wf_value v -> round_ok (S (String.length s))
            (with_sax (Sax.handle_value v d) p evaluate_state)) as Hv.
  { intros v Hv. destruct (handle_value_built v d st Hd Hv) as (d' & -> & Hd').
    unfold p. cbn. apply evaluate_state_ok; [done|lia]. }
  unfold parse_value. cbn. destruct t; try done; try (apply Hv; constructor; cbn in Ht; done || lia).
  - by destruct get_number_float; [apply Hv; constructor|].
  - destruct (start_array_built _ _ Hd) as (d1 & -> & Hd1 & d2 & E2 & Hd2). cbn.
    pose proof (scan_scans s) as (Hok & Hle & Hlt).
    destruct (scan s) as [t' s'] eqn:E. rewrite (get_token_eq _ _ _ _ _ _ _ E). cbn in *.
    destruct t'; try (specialize (Hlt eq_refl)); unfold to_read; cbn; try (by split; [by split|lia]).
    rewrite E2. cbn. apply evaluate_state_ok; [done|lia].
  - destruct (start_object_built _ _ Hd) as (d1 & -> & Hd1 & d2 & E2 & Hd2). cbn.
    pose proof (scan_scans s) as (Hok & Hle & Hlt).
    destruct (scan s) as [t' s'] eqn:E. rewrite (get_token_eq _ _ _ _ _ _ _ E). cbn in *.
    destruct (decide (t' = end_object)) as [->|Hne].
    { cbn. rewrite E2. cbn. specialize (Hlt eq_refl). apply evaluate_state_ok; [done|lia]. }
    rewrite not_end_object by done.
    eapply parse_key_ok; [done|exact Hd1|]. intros s2 d3 Hd3 Hs2. unfold set_states. cbn. apply next_value_ok; [done|lia].
Qed.

Lemma sax_round_ok p : parser_ok p -> round_ok (to_read p) (sax_round p).
Proof.
  destruct p as [s t st d []]; intros [Ht Hd]; unfold sax_round; cbn in *.
  - unfold to_read, set_skip. cbn. apply evaluate_state_ok; [done|lia].
  - by apply parse_value_ok.
Qed.

Lemma sax_parse_internal_ok fuel : forall p, parser_ok p -> (to_read p < fuel)%nat ->
  exists r, sax_parse_internal fuel p = Some r /\ round_ok 0 r.
Proof.
  induction fuel as [|fuel IH]; intros p Hp Hf; [lia|]. cbn [sax_parse_internal].
  pose proof (sax_round_ok p Hp) as Hr. destruct (sax_round p) as [p'|p'|e|]; cbn in Hr; eauto.
  destruct Hr as [Hp' Hlt]. apply IH; [done|lia].
Qed.

Lemma parser_init_ok input :
  parser_ok (parser_init input) /\ (to_read (parser_init input) < parse_fuel input)%nat.
Proof.
  unfold parser_init, parser_ok, to_read, parse_fuel.
  pose proof (scan_first_scans input) as (Hok & Hle & _).
  destruct (scan_first input) as [t s]. cbn in *. split; [by repeat constructor|].
  destruct (last_of_input t); lia.
Qed.

(** The parser always ends: with a well-formed value or with an exception. *)
Lemma parse_result input : exists o, parse input = Some o /\
  match o with Parsed j => wf_value j | Thrown _ => True | Aborted => False end.
Proof.
  unfold parse. destruct (parser_init_ok input) as [Hp Hf].
  destruct (sax_parse_internal_ok _ _ Hp Hf) as (r & -> & Hr). cbn.
  eexists. split; [reflexivity|].
  destruct r as [p|p|e|]; cbn in Hr; [lia| |done|done].
  unfold get_token. destruct (scan (m_lexer p)) as [t s]. by destruct t.
Qed.

(** More fuel than [parse_fuel] changes nothing. *)
Lemma sax_parse_internal_more fuel : forall p r n,
  sax_parse_internal fuel p = Some r -> (fuel <= n)%nat -> sax_parse_internal n p = Some r.
Proof.
  induction fuel as [|fuel IH]; intros p r n; [done|]. cbn [sax_parse_internal]. intros Hr Hn.
  destruct n as [|n]; [lia|]. cbn [sax_parse_internal].
  destruct (sax_round p); try done. apply IH; [done|lia].
Qed.
End total.

(** ** Runs of the loop *)
Section runs.
Context `{Strtod}.

(** The parser with an unread input, before and after its next token. *)
Definition at_input (t : token) (st : list bool) (d : Sax.dom) (s : string) : parser :=
  {| m_lexer := s; last_token := t; states := st; sax := d; skip_to_state_evaluation := false |}.
Definition next (p p' : parser) : Prop := sax_round p = Continue p'.
Definition start (st : list bool) (d : Sax.dom) (s : string) : parser :=
  get_token (at_input uninitialized st d s).

(** From [p] the loop arrives behind a value, with [s] unread. *)
Definition reads (p : parser) (st : list bool) (d : Sax.dom) (s : string) : Prop :=
  exists p1 t, rtc next p p1 /\ sax_round p1 = evaluate_state (at_input t st d s).

Lemma reads_next p p' st d s : next p p' -> reads p' st d s -> reads p st d s.
Proof. intros Hn (p1 & t & Hr & Hp1). exists p1, t. split; [by eapply rtc_l|done]. Qed.
Lemma reads_rtc p p' st d s : rtc next p p' -> reads p' st d s -> reads p st d s.
Proof. induction 1; eauto using reads_next. Qed.

Lemma get_token_at t st d s : get_token (at_input t st d s) = start st d s.
Proof. unfold start, get_token. cbn. by destruct (scan s). Qed.
Lemma get_token_raw s t st d :
  get_token {| m_lexer := s; last_token := t; states := st; sax := d;
               skip_to_state_evaluation := false |} = start st d s.
Proof. apply get_token_at. Qed.
Lemma start_scan st d s t s' : scan s = (t, s') -> start st d s = at_input t st d s'.
Proof. apply get_token_eq. Qed.

Lemma loop_reads fuel p p1 q r : rtc next p p1 -> sax_round p1 = Done q ->
  sax_parse_internal fuel p = Some r -> r = Done q.
Proof.
  intros Hr Hq. revert fuel. induction Hr as [p|p p' p1 Hn Hr IH]; intros [|fuel];
    cbn [sax_parse_internal]; try done.
  - rewrite Hq. by intros [= <-].
  - rewrite Hn. by apply IH.
Qed.

(** The end of a run satisfies what every round preserves. *)
Lemma loop_invariant (I : parser -> Prop) :
  (forall p p', I p -> sax_round p = Continue p' -> I p') ->
  forall fuel p r, I p -> sax_parse_internal fuel p = Some r ->
  exists q, I q /\ sax_round q = r.
Proof.
  intros HI. induction fuel as [|fuel IH]; intros p r Hp; cbn [sax_parse_internal]; [done|].
  destruct (sax_round p) as [p'| | |] eqn:E; try (intros [= <-]; by exists p).
  intros Hr. eapply IH; [|exact Hr]. by eapply HI.
Qed.
End runs.

(** ** The property *)

(** C15: The parser is total and its results are well-formed: on every input,
    of any bytes and any nesting, [parse] ends (more fuel changes nothing) with
    a value or an exception, and no assertion of the value builder fails.  A
    value it returns has only integers of the library's two 64-bit types,
    only well-formed UTF-8 in its strings and keys, and objects with each
    key once, in ascending order; serializing it never throws. *)
Theorem parse_total `{JsonLib} `{Strtod} input extra :
  sax_parse_internal (parse_fuel input + extra) (parser_init input)
  = sax_parse_internal (parse_fuel input) (parser_init input)
  /\ match parse input with
     | Some (Parsed j) => wf_json (fun _ => True) j /\ is_Some (dump j)
     | Some (Thrown _) => True
     | Some Aborted | None => False
     end.
Proof.
  split.
  - destruct (parser_init_ok input) as [Hp Hf].
    destruct (sax_parse_internal_ok _ _ Hp Hf) as (r & Hr & _).
    rewrite Hr. eapply sax_parse_internal_more; [exact Hr|lia].
  - destruct (parse_result input) as ([j|e|] & -> & Ho); [|done|done].
    split; [done|]. by eapply wf_dump_some.
Qed.

