(* ===== verification/JsonGrammar.v ===== *)
(** * JsonGrammar: the parser against the grammar of JSON

    The grammar of RFC 8259, sections 2 to 7, over the lexer's tokens, as a
    reference for the parser's loop of JsonParse, which keeps an explicit
    stack.  The loop accepts exactly the texts whose tokens the grammar
    derives, with the value it derives; and the texts that the serializer of
    Json writes are such texts, so parsing inverts serializing. *)

From Stdlib Require Import ZArith Ascii String Lia.
From stdpp Require Import base numbers list strings pretty sorting relations.
From S2P Require Import Prelude Json JsonLex JsonParse.

Open Scope Z_scope.

(** ** The grammar *)

(** Token sequences with a comma between two of them. *)
Definition comma_each (tss : list (list token)) : list token :=
  concat ((fun ts => value_separator :: ts) <$> tss).
Definition sep_tokens (tss : list (list token)) : list token :=
  match tss with
  | [] => []
  | ts :: tss' => ts ++ comma_each tss'
  end.

(** The tokens of a value.  Of the members with one key the last stands. *)
Inductive value : json -> list token -> Prop :=
| value_null : value JNull [literal_null]
| value_true : value (JBool true) [literal_true]
| value_false : value (JBool false) [literal_false]
| value_int z : value (JInt z) [value_integer z]
| value_uint z : value (JInt z) [value_unsigned z]
| value_finite f : value (JFloat f) [value_float (Some f)]
| value_text s : value (JString s) [value_string s]
| value_array l tss : Forall2 value l tss ->
    value (JArray l) (begin_array :: sep_tokens tss ++ [end_array])
| value_object kvs tss :
    Forall2 (fun kv ts => exists tv, ts = value_string kv.1 :: name_separator :: tv /\ value kv.2 tv)
      kvs tss ->
    value (obj kvs) (begin_object :: sep_tokens tss ++ [end_object]).

Definition member_tokens (P : json -> list token -> Prop) (kv : string * json) (ts : list token)
    : Prop :=
  exists tv, ts = value_string kv.1 :: name_separator :: tv /\ P kv.2 tv.

Section lexes.
Context `{Strtod}.

(** The lexer yields the tokens [ts], then [s'] is unread. *)
Inductive lexes : string -> list token -> string -> Prop :=
| lexes_nil s : lexes s [] s
| lexes_cons s t s1 ts s2 : scan s = (t, s1) -> lexes s1 ts s2 -> lexes s (t :: ts) s2.

(** A text of the tokens [ts]: they are all, up to the end of the input. *)
Definition text_of (input : string) (ts : list token) : Prop :=
  exists s s1 s2, skip_bom input = Some s /\ lexes s ts s1 /\ scan s1 = (end_of_input, s2).

Lemma lexes_app s a s1 b s2 : lexes s a s1 -> lexes s1 b s2 -> lexes s (a ++ b) s2.
Proof. induction 1; cbn; [done|]. intros. econstructor; [done|auto]. Qed.

Lemma lexes_app_inv a : forall s b s2, lexes s (a ++ b) s2 ->
  exists s1, lexes s a s1 /\ lexes s1 b s2.
Proof.
  induction a as [|t a IH]; intros s b s2 Hl; [eauto using lexes_nil|].
  inversion Hl as [|? ? s1 ? ? Hs Hl']; subst. destruct (IH _ _ _ Hl') as (s3 & ? & ?).
  exists s3. split; [by econstructor|done].
Qed.

Lemma lexes_cons_inv s t ts s2 : lexes s (t :: ts) s2 -> exists s1, scan s = (t, s1) /\ lexes s1 ts s2.
Proof. intros Hl. inversion Hl; subst. eauto. Qed.
Lemma lexes_nil_inv s s2 : lexes s [] s2 -> s = s2.
Proof. intros Hl. by inversion Hl. Qed.
End lexes.

(** Induction with hypotheses for the elements and members. *)
Lemma value_rec (P : json -> list token -> Prop) :
  P JNull [literal_null] -> P (JBool true) [literal_true] -> P (JBool false) [literal_false] ->
  (forall z, P (JInt z) [value_integer z]) -> (forall z, P (JInt z) [value_unsigned z]) ->
  (forall f, P (JFloat f) [value_float (Some f)]) ->
  (forall s, P (JString s) [value_string s]) ->
  (forall l tss, Forall2 value l tss -> Forall2 P l tss ->
     P (JArray l) (begin_array :: sep_tokens tss ++ [end_array])) ->
  (forall kvs tss, Forall2 (member_tokens P) kvs tss ->
     P (obj kvs) (begin_object :: sep_tokens tss ++ [end_object])) ->
  forall j ts, value j ts -> P j ts.
Proof.
  intros Hn Ht Hf Hi Hu Hfl Hs Ha Ho. fix IH 3.
  intros j ts [| | |z|z|f|s|l tss Hl|kvs tss Hl]; [done..| |].
  - apply Ha; [done|]. clear -IH Hl. induction Hl; constructor; auto.
  - apply Ho. clear -IH Hl.
    induction Hl as [|kv ts kvs tss (tv & -> & Hv) _ IHl]; constructor; [|done].
    exists tv. split; [done|]. by apply IH.
Qed.

(** A value does not begin with a closing bracket. *)
Lemma value_first j ts : value j ts ->
  exists t ts', ts = t :: ts' /\ t <> end_array /\ t <> end_object.
Proof. destruct 1; eexists _, _; (split; [reflexivity|done]). Qed.

(** ** The loop reads every derivable text *)

Lemma start_container_ok v d d' f : Sax.handle_value v d = Some d' ->
  Sax.start_container f d
  = Some {| Sax.root := Sax.root d; Sax.ref_stack := f :: Sax.ref_stack d |}.
Proof.
  unfold Sax.handle_value, Sax.start_container. by destruct (Sax.ref_stack d) as [|[|? []] ?].
Qed.

(** Whether a value fits does not depend on the value. *)
Lemma handle_value_any v v' d d' : Sax.handle_value v d = Some d' ->
  is_Some (Sax.handle_value v' d).
Proof. unfold Sax.handle_value. destruct (Sax.ref_stack d) as [|[|? []] ?]; eauto; done. Qed.

Lemma end_array_top l d : Sax.end_array {| Sax.root := Sax.root d;
    Sax.ref_stack := Sax.FArray l :: Sax.ref_stack d |} = Sax.handle_value (JArray l) d.
Proof. by destruct d. Qed.
Lemma end_object_top kvs k d : Sax.end_object {| Sax.root := Sax.root d;
    Sax.ref_stack := Sax.FObject kvs k :: Sax.ref_stack d |} = Sax.handle_value (JObject kvs) d.
Proof. by destruct d. Qed.

Abbreviation in_array acc d :=
  {| Sax.root := Sax.root d; Sax.ref_stack := Sax.FArray acc :: Sax.ref_stack d |}.
Abbreviation in_object acc k d :=
  {| Sax.root := Sax.root d; Sax.ref_stack := Sax.FObject acc k :: Sax.ref_stack d |}.

Section complete.
Context `{Strtod}.

(** Reading the tokens [ts] puts [j] into the builder. *)
Definition read_as (j : json) (ts : list token) : Prop := forall s s' st d d',
  lexes s ts s' -> Sax.handle_value j d = Some d' -> reads (start st d s) st d' s'.

(** The closing bracket behind the last value. *)
Lemma close_array t st d d' acc s s' p :
  sax_round p = evaluate_state (at_input t (true :: st) (in_array acc d) s) ->
  scan s = (end_array, s') ->
  Sax.handle_value (JArray acc) d = Some d' -> reads p st d' s'.
Proof.
  intros Hp E Hd. revert Hp. unfold evaluate_state. cbn [states at_input].
  rewrite get_token_at, (start_scan _ _ _ _ _ E). cbn [last_token at_input sax].
  rewrite end_array_top, Hd. cbn. intros Hp. eapply reads_next; [exact Hp|].
  eexists _, _. by split; [apply rtc_refl|].
Qed.
Lemma close_object t st d d' acc k s s' p :
  sax_round p = evaluate_state (at_input t (false :: st) (in_object acc k d) s) ->
  scan s = (end_object, s') ->
  Sax.handle_value (JObject acc) d = Some d' -> reads p st d' s'.
Proof.
  intros Hp E Hd. revert Hp. unfold evaluate_state. cbn [states at_input].
  rewrite get_token_at, (start_scan _ _ _ _ _ E). cbn [last_token at_input sax].
  rewrite end_object_top, Hd. cbn. intros Hp. eapply reads_next; [exact Hp|].
  eexists _, _. by split; [apply rtc_refl|].
Qed.

(** The elements behind the first, and the closing bracket. *)
Lemma read_elements st d d' l tss : Forall2 read_as l tss -> forall acc t s s' p,
  lexes s (comma_each tss ++ [end_array]) s' ->
  Sax.handle_value (JArray (acc ++ l)) d = Some d' ->
  sax_round p = evaluate_state (at_input t (true :: st) (in_array acc d) s) ->
  reads p st d' s'.
Proof.
  induction 1 as [|v ts l tss Hv Hl IH]; intros acc t s s' p Hs Hd Hp; cbn in Hs.
  - rewrite app_nil_r in Hd. apply lexes_cons_inv in Hs as (s1 & E & ->%lexes_nil_inv).
    by eapply close_array.
  - apply lexes_cons_inv in Hs as (s1 & E & Hs). rewrite <-app_assoc in Hs.
    apply lexes_app_inv in Hs as (s2 & Hs1 & Hs2).
    revert Hp. unfold evaluate_state. cbn [states at_input].
    rewrite get_token_at, (start_scan _ _ _ _ _ E). cbn [last_token at_input].
    rewrite get_token_at. intros Hp. eapply reads_next; [exact Hp|].
    destruct (Hv s1 s2 (true :: st) (in_array acc d) (in_array (acc ++ [v]) d) Hs1 eq_refl)
      as (p1 & t1 & Hr & Hp1).
    eapply reads_rtc; [exact Hr|]. eapply IH; [exact Hs2| |exact Hp1]. by rewrite <-app_assoc.
Qed.

Lemma read_array l tss : Forall2 value l tss -> Forall2 read_as l tss ->
  read_as (JArray l) (begin_array :: sep_tokens tss ++ [end_array]).
Proof.
  intros Hval Hl s s' st d d' (s1 & E & Hs)%lexes_cons_inv Hd. rewrite (start_scan _ _ _ _ _ E).
  pose proof (start_container_ok _ _ _ (Sax.FArray []) Hd) as Es.
  assert (forall k : parser -> round,
    parse_value (at_input begin_array st d s1) k
    = let p := start st (in_array [] d) s1 in
      match last_token p with
      | end_array => with_sax (Sax.end_array (sax p)) p k
      | _ => Continue (set_states (true :: states p) p)
      end) as Hpv.
  { intros k. unfold parse_value. cbn [at_input last_token sax]. unfold Sax.start_array.
    rewrite Es. cbn [with_sax at_input m_lexer last_token states]. by rewrite get_token_raw. }
  destruct Hl as [|v ts l tss Hv Hl].
  - apply lexes_cons_inv in Hs as (s2 & E2 & ->%lexes_nil_inv).
    eexists _, _. split; [apply rtc_refl|]. unfold sax_round. cbn [at_input skip_to_state_evaluation].
    rewrite Hpv, (start_scan _ _ _ _ _ E2). cbn [at_input last_token sax].
    rewrite end_array_top, Hd. done.
  - cbn in Hs. rewrite <-app_assoc in Hs. apply lexes_app_inv in Hs as (s2 & Hs1 & Hs2).
    inversion_clear Hval as [|? ? ? ? Hvv _].
    destruct (value_first _ _ Hvv) as (t & ts' & -> & Hne & _).
    destruct (lexes_cons_inv _ _ _ _ Hs1) as (s3 & E3 & _).
    eapply (reads_next _ (start (true :: st) (in_array [] d) s1)).
    + unfold next, sax_round. cbn [at_input skip_to_state_evaluation].
      rewrite Hpv, !(start_scan _ _ _ _ _ E3). cbn [at_input last_token].
      by rewrite not_end_array.
    + destruct (Hv s1 s2 (true :: st) (in_array [] d) (in_array [v] d) Hs1 eq_refl)
        as (p1 & t1 & Hrtc & Hp1).
      eapply reads_rtc; [exact Hrtc|]. by eapply (read_elements st d d' l tss Hl [v]).
Qed.

(** The members of an object one after the other. *)
Definition set_members (kvs acc : list (string * json)) : list (string * json) :=
  fold_left (fun o kv => smap_set kv.1 kv.2 o) kvs acc.

(** A key and its colon, read by [parse_key]. *)
Lemma parse_key_tokens st d acc k0 k s s1 s2 K :
  scan s = (value_string k, s1) -> scan s1 = (name_separator, s2) ->
  parse_key (start st (in_object acc k0 d) s) K
  = K (at_input name_separator st (in_object acc (Some k) d) s2).
Proof.
  intros E1 E2. rewrite (start_scan _ _ _ _ _ E1).
  unfold parse_key. cbn [at_input last_token sax]. unfold Sax.key. cbn [Sax.ref_stack Sax.root with_sax].
  by rewrite get_token_raw, (start_scan _ _ _ _ _ E2).
Qed.

(** The members behind the first, and the closing brace. *)
Lemma read_members st d d' kvs tss :
  Forall2 (member_tokens read_as) kvs tss -> forall acc k0 t s s' p,
  lexes s (comma_each tss ++ [end_object]) s' ->
  Sax.handle_value (JObject (set_members kvs acc)) d = Some d' ->
  sax_round p = evaluate_state (at_input t (false :: st) (in_object acc k0 d) s) ->
  reads p st d' s'.
Proof.
  induction 1 as [|[k v] ts kvs tss (tv & -> & Hv) Hl IH]; intros acc k0 t s s' p Hs Hd Hp; cbn in Hs.
  - apply lexes_cons_inv in Hs as (s1 & E & ->%lexes_nil_inv). by eapply close_object.
  - apply lexes_cons_inv in Hs as (s1 & E & Hs). apply lexes_cons_inv in Hs as (s2 & Ek & Hs).
    apply lexes_cons_inv in Hs as (s3 & Ec & Hs). rewrite <-app_assoc in Hs.
    apply lexes_app_inv in Hs as (s4 & Hs1 & Hs2). cbn [fst snd] in *.
    revert Hp. unfold evaluate_state. cbn [states at_input].
    rewrite get_token_at, (start_scan _ _ _ _ _ E). cbn [last_token at_input].
    rewrite get_token_at, (parse_key_tokens _ _ _ _ k _ _ _ _ Ek Ec), get_token_at. intros Hp.
    eapply reads_next; [exact Hp|].
    destruct (Hv s3 s4 (false :: st) (in_object acc (Some k) d)
                (in_object (smap_set k v acc) (Some k) d) Hs1 eq_refl) as (p1 & t1 & Hr & Hp1).
    eapply reads_rtc; [exact Hr|]. by eapply IH.
Qed.

Lemma read_object kvs tss : Forall2 (member_tokens read_as) kvs tss ->
  read_as (obj kvs) (begin_object :: sep_tokens tss ++ [end_object]).
Proof.
  intros Hl s s' st d d' (s1 & E & Hs)%lexes_cons_inv Hd. rewrite (start_scan _ _ _ _ _ E).
  pose proof (start_container_ok _ _ _ (Sax.FObject [] None) Hd) as Es.
  set (K := fun p => Continue (get_token (set_states (false :: states p) p))).
  assert (forall k : parser -> round,
    parse_value (at_input begin_object st d s1) k
    = let p := start st (in_object [] None d) s1 in
      match last_token p with
      | end_object => with_sax (Sax.end_object (sax p)) p k
      | _ => parse_key p K
      end) as Hpv.
  { intros k. unfold parse_value. cbn [at_input last_token sax]. unfold Sax.start_object.
    rewrite Es. cbn [with_sax at_input m_lexer last_token states]. by rewrite get_token_raw. }
  destruct Hl as [|[k v] ts kvs tss (tv & -> & Hv) Hl].
  - apply lexes_cons_inv in Hs as (s2 & E2 & ->%lexes_nil_inv).
    eexists _, _. split; [apply rtc_refl|]. unfold sax_round. cbn [at_input skip_to_state_evaluation].
    rewrite Hpv, (start_scan _ _ _ _ _ E2). cbn [at_input last_token sax].
    rewrite end_object_top. change (JObject []) with (obj []). by rewrite Hd.
  - cbn in Hs. apply lexes_cons_inv in Hs as (s2 & Ek & Hs).
    apply lexes_cons_inv in Hs as (s3 & Ec & Hs). rewrite <-app_assoc in Hs.
    apply lexes_app_inv in Hs as (s4 & Hs1 & Hs2). cbn [fst snd] in *.
    eapply (reads_next _ (start (false :: st) (in_object [] (Some k) d) s3)).
    + unfold next, sax_round. cbn [at_input skip_to_state_evaluation]. rewrite Hpv. cbv zeta.
      rewrite not_end_object by (by rewrite (start_scan _ _ _ _ _ Ek)).
      rewrite (parse_key_tokens _ _ _ _ k _ _ _ _ Ek Ec). unfold K.
      change (set_states _ _)
        with (at_input name_separator (false :: st) (in_object [] (Some k) d) s3).
      by rewrite get_token_at.
    + destruct (Hv s3 s4 (false :: st) (in_object [] (Some k) d)
                  (in_object [(k, v)] (Some k) d) Hs1 eq_refl) as (p1 & t1 & Hrtc & Hp1).
      eapply reads_rtc; [exact Hrtc|]. by eapply (read_members st d d' kvs tss Hl [(k, v)]).
Qed.

Lemma read_value j ts : value j ts -> read_as j ts.
Proof.
  induction 1 as [| | |z|z|f|x|l tss Hval Hl|kvs tss Hl] using value_rec;
    try (intros s s' st d d' (s1 & E & ->%lexes_nil_inv)%lexes_cons_inv Hd;
         rewrite (start_scan _ _ _ _ _ E);
         match type of E with _ = (?t, _) => exists (at_input t st d s'), t end;
         split; [apply rtc_refl|]; unfold sax_round, parse_value;
         cbn [at_input skip_to_state_evaluation last_token sax]; rewrite Hd; reflexivity).
  - by apply read_array.
  - by apply read_object.
Qed.

Lemma parse_complete input j ts : text_of input ts -> value j ts ->
  parse input = Some (Parsed j).
Proof.
  intros (s & s1 & s2 & Hb & Hl & He) Hv.
  destruct (read_value j ts Hv s s1 [] Sax.dom_init _ Hl eq_refl) as (p1 & t & Hr & Hp1).
  unfold evaluate_state in Hp1. cbn [at_input states] in Hp1.
  assert (parser_init input = start [] Sax.dom_init s) as Hinit.
  { unfold parser_init, scan_first, start, get_token. by rewrite Hb. }
  destruct (parser_init_ok input) as [Hp Hf].
  destruct (sax_parse_internal_ok _ _ Hp Hf) as (r & E & _).
  unfold parse. rewrite E. rewrite Hinit in E. rewrite (loop_reads _ _ _ _ _ Hr Hp1 E).
  cbn [mbind option_bind]. by rewrite get_token_at, (start_scan _ _ _ _ _ He).
Qed.
End complete.

(** ** The loop reads derivable texts only *)

(** Token sequences each with a comma behind it. *)
Definition open_tokens (tss : list (list token)) : list token :=
  concat ((fun ts => ts ++ [value_separator]) <$> tss).

Lemma open_tokens_shift tss : forall ts,
  open_tokens (ts :: tss) = ts ++ comma_each tss ++ [value_separator].
Proof.
  induction tss as [|ts' tss IH]; intros ts; [cbn; by rewrite app_nil_r|].
  change (open_tokens (ts :: ts' :: tss)) with ((ts ++ [value_separator]) ++ open_tokens (ts' :: tss)).
  rewrite IH. unfold comma_each. cbn. by rewrite <-!app_assoc.
Qed.
Lemma sep_tokens_comma tss : tss <> [] -> sep_tokens tss ++ [value_separator] = open_tokens tss.
Proof.
  destruct tss as [|ts tss]; [done|]. intros _. rewrite open_tokens_shift. cbn. by rewrite <-app_assoc.
Qed.
Lemma sep_tokens_snoc tss ts : sep_tokens (tss ++ [ts]) = open_tokens tss ++ ts.
Proof.
  destruct tss as [|ts' tss]; [cbn; apply app_nil_r|].
  rewrite open_tokens_shift. cbn. unfold comma_each. rewrite fmap_app, concat_app. cbn.
  by rewrite app_nil_r, <-!app_assoc.
Qed.

Abbreviation members := (Forall2 (member_tokens value)).

(** What the tokens before a value derive, by the builder's stack. *)
Inductive opened : list Sax.frame -> list bool -> list token -> Prop :=
| opened_root : opened [] [] []
| opened_array fs st ts l tss : opened fs st ts -> Forall2 value l tss ->
    opened (Sax.FArray l :: fs) (true :: st) (ts ++ begin_array :: open_tokens tss)
| opened_object fs st ts kvs k tss : opened fs st ts -> members kvs tss ->
    opened (Sax.FObject (set_members kvs []) (Some k) :: fs) (false :: st)
      (ts ++ begin_object :: open_tokens tss ++ [value_string k; name_separator]).

(** And behind one. *)
Inductive closed : Sax.dom -> list bool -> list token -> Prop :=
| closed_root j ts : value j ts -> closed {| Sax.root := j; Sax.ref_stack := [] |} [] ts
| closed_array r fs st ts l tss : opened fs st ts -> Forall2 value l tss -> tss <> [] ->
    closed {| Sax.root := r; Sax.ref_stack := Sax.FArray l :: fs |} (true :: st)
      (ts ++ begin_array :: sep_tokens tss)
| closed_object r fs st ts kvs k tss : opened fs st ts -> members kvs tss -> tss <> [] ->
    closed {| Sax.root := r; Sax.ref_stack := Sax.FObject (set_members kvs []) k :: fs |}
      (false :: st) (ts ++ begin_object :: sep_tokens tss).

Lemma handle_value_closed v tv d d' st ts :
  opened (Sax.ref_stack d) st ts -> value v tv -> Sax.handle_value v d = Some d' ->
  closed d' st (ts ++ tv).
Proof.
  intros Ho Hv. unfold Sax.handle_value.
  remember (Sax.ref_stack d) as fs eqn:Efs. destruct Ho as [|fs st ts l tss Ho Hl|fs st ts kvs k tss Ho Hl];
    intros [= <-].
  - by constructor.
  - rewrite <-app_assoc. cbn. rewrite <-sep_tokens_snoc.
    apply closed_array; [done| |by destruct tss]. apply Forall2_app; [done|]. by constructor.
  - rewrite <-app_assoc. cbn. rewrite <-app_assoc. cbn.
    rewrite <-(sep_tokens_snoc tss (value_string k :: name_separator :: tv)).
    change (smap_set k v (set_members kvs [])) with (set_members [(k, v)] (set_members kvs [])).
    unfold set_members. rewrite <-fold_left_app. apply closed_object; [done| |by destruct tss].
    apply Forall2_app; [done|]. constructor; [|done]. by exists tv.
Qed.

Section sound.
Context `{Strtod}.
Variable input : string.

Lemma lexes_snoc ts s t s1 : lexes input ts s -> scan s = (t, s1) -> lexes input (ts ++ [t]) s1.
Proof. intros Hl E. eapply lexes_app; [exact Hl|]. econstructor; [exact E|constructor]. Qed.

Definition sound (p : parser) : Prop := exists ts,
  if skip_to_state_evaluation p
  then closed (sax p) (states p) ts /\ lexes input ts (m_lexer p)
  else opened (Sax.ref_stack (sax p)) (states p) ts
       /\ lexes input (ts ++ [last_token p]) (m_lexer p).

Definition round_sound (r : round) : Prop :=
  match r with
  | Continue p => sound p
  | Done p => exists ts, value (Sax.root (sax p)) ts /\ lexes input ts (m_lexer p)
  | Throw _ | Assertion => True
  end.

(** The first token of a value is read. *)
Lemma start_sound st d ts s : opened (Sax.ref_stack d) st ts -> lexes input ts s ->
  sound (start st d s).
Proof.
  intros Ho Hl. destruct (scan s) as [t s1] eqn:E. rewrite (start_scan _ _ _ _ _ E).
  exists ts. split; [done|]. by eapply lexes_snoc.
Qed.

Lemma parse_key_sound st r kvs ko fs ts s K : lexes input ts s ->
  (forall k s', lexes input (ts ++ [value_string k; name_separator]) s' ->
     round_sound (K (at_input name_separator st
       {| Sax.root := r; Sax.ref_stack := Sax.FObject kvs (Some k) :: fs |} s'))) ->
  round_sound (parse_key (start st
       {| Sax.root := r; Sax.ref_stack := Sax.FObject kvs ko :: fs |} s) K).
Proof.
  intros Hl HK. destruct (scan s) as [t s1] eqn:E1. rewrite (start_scan _ _ _ _ _ E1).
  unfold parse_key. cbn [at_input last_token sax]. destruct t as [| | | |k| | | | | | | | | | | |]; try done.
  unfold Sax.key. cbn [Sax.ref_stack Sax.root with_sax at_input m_lexer last_token states skip_to_state_evaluation].
  rewrite get_token_raw. destruct (scan s1) as [t s2] eqn:E2. rewrite (start_scan _ _ _ _ _ E2).
  cbn [at_input last_token]. destruct t; try done. apply HK.
  change [value_string k; name_separator] with ([value_string k] ++ [name_separator]).
  rewrite app_assoc. eapply lexes_snoc; [|exact E2]. by eapply lexes_snoc.
Qed.

Lemma evaluate_state_sound t st d ts s : closed d st ts -> lexes input ts s ->
  round_sound (evaluate_state (at_input t st d s)).
Proof.
  intros Hc Hl. destruct (scan s) as [t1 s1] eqn:E.
  pose proof (lexes_snoc _ _ _ _ Hl E) as Hl1. unfold evaluate_state.
  destruct Hc as [j ts Hv|r fs st ts l tss Ho Hv Hne|r fs st ts kvs k tss Ho Hv Hne];
    cbn [at_input states].
  - by exists ts.
  - rewrite get_token_at, (start_scan _ _ _ _ _ E). cbn [last_token at_input].
    rewrite <-app_assoc in Hl1. cbn in Hl1. destruct t1; try done.
    + change (Sax.end_array (sax _)) with (Sax.handle_value (JArray l) {| Sax.root := r; Sax.ref_stack := fs |}).
      destruct (Sax.handle_value _ _) as [d'|] eqn:Ed; [|done]. cbn.
      exists (ts ++ begin_array :: sep_tokens tss ++ [end_array]). split; [|done].
      eapply handle_value_closed; [|by apply value_array|exact Ed]. done.
    + rewrite get_token_at. rewrite sep_tokens_comma in Hl1 by done.
      eapply start_sound; [|exact Hl1]. by constructor.
  - rewrite get_token_at, (start_scan _ _ _ _ _ E). cbn [last_token at_input].
    rewrite <-app_assoc in Hl1. cbn in Hl1. destruct t1; try done.
    + change (Sax.end_object (sax _))
        with (Sax.handle_value (obj kvs) {| Sax.root := r; Sax.ref_stack := fs |}).
      destruct (Sax.handle_value _ _) as [d'|] eqn:Ed; [|done]. cbn.
      exists (ts ++ begin_object :: sep_tokens tss ++ [end_object]). split; [|done].
      eapply handle_value_closed; [|by apply value_object|exact Ed]. done.
    + rewrite get_token_at. rewrite sep_tokens_comma in Hl1 by done.
      apply (parse_key_sound _ _ _ _ _ _ _ _ Hl1). intros k1 s2 Hl2. rewrite get_token_at.
      eapply start_sound; [|exact Hl2]. rewrite <-app_assoc. by constructor.
Qed.
Lemma start_container_eq f d d1 : Sax.start_container f d = Some d1 ->
  d1 = {| Sax.root := Sax.root d; Sax.ref_stack := f :: Sax.ref_stack d |}.
Proof.
  unfold Sax.start_container. destruct (Sax.ref_stack d) as [|[|? []] ?]; by intros [= <-].
Qed.

Lemma begin_array_sound st d ts s : opened (Sax.ref_stack d) st ts ->
  lexes input (ts ++ [begin_array]) s ->
  round_sound (parse_value (at_input begin_array st d s) evaluate_state).
Proof.
  intros Ho Hl. unfold parse_value. cbn [at_input last_token sax].
  destruct (Sax.start_array d) as [d1|] eqn:Es; [|done]. apply start_container_eq in Es as ->.
  cbn [with_sax at_input m_lexer last_token states skip_to_state_evaluation].
  rewrite get_token_raw. destruct (scan s) as [t1 s1] eqn:E1. rewrite !(start_scan _ _ _ _ _ E1).
  pose proof (lexes_snoc _ _ _ _ Hl E1) as Hl1.
  destruct (decide (t1 = end_array)) as [->|Hne].
  - cbn [at_input last_token sax]. rewrite end_array_top.
    destruct (Sax.handle_value _ _) as [d'|] eqn:Ed; [|done].
    apply (evaluate_state_sound end_array st d' (ts ++ [begin_array; end_array]));
      [|by rewrite <-app_assoc in Hl1].
    eapply handle_value_closed; [exact Ho| |exact Ed]. by apply (value_array [] []).
  - rewrite not_end_array by done. exists (ts ++ [begin_array]). cbn. split; [|done].
    by apply (opened_array _ _ _ [] []).
Qed.

Lemma begin_object_sound st d ts s : opened (Sax.ref_stack d) st ts ->
  lexes input (ts ++ [begin_object]) s ->
  round_sound (parse_value (at_input begin_object st d s) evaluate_state).
Proof.
  intros Ho Hl. unfold parse_value. cbn [at_input last_token sax].
  destruct (Sax.start_object d) as [d1|] eqn:Es; [|done]. apply start_container_eq in Es as ->.
  cbn [with_sax at_input m_lexer last_token states skip_to_state_evaluation]. rewrite get_token_raw.
  destruct (decide (last_token (start st (in_object [] None d) s) = end_object)) as [Ht|Hne].
  - rewrite Ht. destruct (scan s) as [t1 s1] eqn:E1. rewrite (start_scan _ _ _ _ _ E1) in *.
    cbn in Ht. subst t1. pose proof (lexes_snoc _ _ _ _ Hl E1) as Hl1.
    rewrite <-app_assoc in Hl1. cbn [at_input sax]. rewrite end_object_top.
    destruct (Sax.handle_value _ _) as [d'|] eqn:Ed; [|done].
    apply (evaluate_state_sound end_object st d' (ts ++ [begin_object; end_object])); [|done].
    eapply handle_value_closed; [exact Ho| |exact Ed]. by apply (value_object [] []).
  - rewrite not_end_object by done. apply (parse_key_sound _ _ _ _ _ _ _ _ Hl). intros k s' Hl'.
    change (set_states _ _) with (at_input name_separator (false :: st) (in_object [] (Some k) d) s').
    rewrite get_token_at. eapply start_sound; [|exact Hl']. rewrite <-app_assoc. cbn [app].
    by apply (opened_object _ _ _ [] k []).
Qed.

Lemma parse_value_sound t st d ts s : opened (Sax.ref_stack d) st ts ->
  lexes input (ts ++ [t]) s -> round_sound (parse_value (at_input t st d s) evaluate_state).
Proof.
  intros Ho Hl.
  assert (forall v, value v [t] -> round_sound
            (with_sax (Sax.handle_value v d) (at_input t st d s) evaluate_state)) as Hv.
  { intros v Hv. destruct (Sax.handle_value v d) as [d'|] eqn:Ed; [|done].
    apply (evaluate_state_sound t st d' (ts ++ [t])); [|done]. by eapply handle_value_closed. }
  destruct t as [| | | | | | |f| | | | | | | | |]; try done; try (apply Hv; constructor).
  - destruct f; [apply Hv; constructor|done].
  - by apply (begin_array_sound st d ts s).
  - by apply (begin_object_sound st d ts s).
Qed.

Lemma sax_round_sound p : sound p -> round_sound (sax_round p).
Proof.
  destruct p as [s t st d []]; intros (ts & Hc & Hl); cbn in *; unfold sax_round; cbn.
  - by apply (evaluate_state_sound t st d ts).
  - by apply (parse_value_sound t st d ts).
Qed.
End sound.

Lemma parse_sound `{Strtod} input j : parse input = Some (Parsed j) ->
  exists ts, text_of input ts /\ value j ts.
Proof.
  unfold parse. destruct (sax_parse_internal _ _) as [r|] eqn:E; [|done]. cbn. intros Hr.
  unfold parser_init, scan_first in E.
  destruct (skip_bom input) as [s|] eqn:Eb; [|unfold parse_fuel in E; rewrite Nat.add_comm in E; by injection E as <-].
  change (let '(t, s0) := scan s in _) with (start [] Sax.dom_init s) in E.
  apply (loop_invariant (sound s)) in E as (q & Hq & <-).
  2: { intros p p' Hp Hn. pose proof (sax_round_sound s p Hp) as Hs. by rewrite Hn in Hs. }
  2: { apply (start_sound s _ _ []); [constructor|constructor]. }
  pose proof (sax_round_sound s q Hq) as Hs.
  destruct (sax_round q) as [p|p| |]; try done. destruct Hs as (ts & Hv & Hl).
  unfold get_token in Hr. destruct (scan (m_lexer p)) as [t s1] eqn:E1. cbn in Hr.
  destruct t; try done. injection Hr as <-. exists ts. split; [|done]. by exists s, (m_lexer p), s1.
Qed.

(** ** Reading what the serializer wrote *)

(** The items of a list behind the first. *)
Fixpoint join_rest (ls : list string) : string :=
  match ls with
  | [] => EmptyString
  | l :: ls' => "," +:+ l +:+ join_rest ls'
  end.

Lemma join_cons l ls : join "," (l :: ls) = l +:+ join_rest ls.
Proof.
  revert l. induction ls as [|l' ls IH]; intros l; [by rewrite app_str_nil_r|].
  cbn [join_rest]. by rewrite <-IH.
Qed.

Section inv.
Context `{JsonLib}.

Lemma dump_array_inv l e : dump (JArray l) = Some e ->
  exists es, Forall2 (fun v d => dump v = Some d) l es /\ e = "[" +:+ join "," es +:+ "]".
Proof.
  cbn [dump]. match goal with |- context [match ?go l with _ => _ end] => set (f := go) end.
  intros Hl. assert (exists es, f l = Some es /\ e = "[" +:+ join "," es +:+ "]") as (es & Hf & ->).
  { destruct (f l); [|done]. injection Hl as <-. eauto. }
  exists es. split; [|done]. clear Hl. revert es Hf.
  induction l as [|v l IH]; intros es; cbn [f]; [by intros [= <-]|]. fold f.
  destruct (dump v) eqn:?; [|done]. destruct (f l); [|done]. intros [= <-]. by constructor; [|apply IH].
Qed.

(** One member as it is written. *)
Definition member (kv : string * json) (m : string) : Prop :=
  exists dk dv, dump_string kv.1 = Some dk /\ dump kv.2 = Some dv /\ m = dk +:+ ":" +:+ dv.

Lemma dump_object_inv kvs e : dump (JObject kvs) = Some e ->
  exists ms, Forall2 member kvs ms /\ e = "{" +:+ join "," ms +:+ "}".
Proof.
  cbn [dump]. match goal with |- context [match ?go kvs with _ => _ end] => set (f := go) end.
  intros Hl. assert (exists ms, f kvs = Some ms /\ e = "{" +:+ join "," ms +:+ "}") as (ms & Hf & ->).
  { destruct (f kvs); [|done]. injection Hl as <-. eauto. }
  exists ms. split; [|done]. clear Hl. revert ms Hf.
  induction kvs as [|[k v] kvs IH]; intros ms; cbn [f]; [by intros [= <-]|]. fold f.
  destruct (dump_string k) eqn:?; [|done]. destruct (dump v) eqn:?; [|done].
  destruct (f kvs); [|done]. intros [= <-]. constructor; [|by apply IH]. red. cbn. eauto 6.
Qed.
End inv.

Section roundtrip.
Context `{JsonLib} `{Strtod}.

(** The rendering of a floating-point number is read back as that number. *)
Definition float_reads (f : Z) : Prop :=
  skip_bom (dump_float f) = Some (dump_float f)
  /\ forall r, number_end r -> scan (dump_float f +:+ r) = (value_float (Some f), r).

Lemma scan_dump_string s e r : utf8 s -> dump_string s = Some e ->
  scan (e +:+ r) = (value_string s, r).
Proof.
  unfold dump_string. destruct (dump_escaped s) as [b|] eqn:Eb; [|done]. intros Hs [= <-].
  unfold quoted. rewrite !app_str_assoc. unfold dq at 1. rewrite app_str_cons, scan_visible by done.
  change (scan_current _ _) with (scan_string (b +:+ dq +:+ r)).
  unfold scan_string. by rewrite (scan_string_dump s Hs EmptyString b r Eb).
Qed.

(** The punctuation and the literals are scanned by computation. *)
Lemma scan_punctuation s :
  scan ("[" +:+ s) = (begin_array, s) /\ scan ("]" +:+ s) = (end_array, s)
  /\ scan ("{" +:+ s) = (begin_object, s) /\ scan ("}" +:+ s) = (end_object, s)
  /\ scan ("," +:+ s) = (value_separator, s) /\ scan (":" +:+ s) = (name_separator, s)
  /\ scan ("null" +:+ s) = (literal_null, s) /\ scan ("true" +:+ s) = (literal_true, s)
  /\ scan ("false" +:+ s) = (literal_false, s).
Proof. repeat split. Qed.

Lemma number_end_rest es c r : c = "]" \/ c = "}" -> number_end (join_rest es +:+ c +:+ r).
Proof. intros [-> | ->]; by destruct es. Qed.

(** The items behind the first, as strings and as tokens. *)
Definition written (e : string) (ts : list token) : Prop :=
  forall r, number_end r -> lexes (e +:+ r) ts r.

Lemma lexes_items es tss c r : Forall2 written es tss -> c = "]" \/ c = "}" ->
  lexes (join_rest es +:+ c +:+ r) (comma_each tss) (c +:+ r).
Proof.
  intros Hes Hc. induction Hes as [|e ts es tss He _ IH]; [constructor|].
  cbn [join_rest]. rewrite !app_str_assoc. unfold comma_each. cbn.
  eapply lexes_cons; [apply scan_punctuation|]. eapply lexes_app; [|exact IH].
  apply He. by apply number_end_rest.
Qed.

Lemma lexes_list es tss c r t s : Forall2 written es tss -> c = "]" \/ c = "}" ->
  scan (c +:+ r) = (t, s) -> lexes (join "," es +:+ c +:+ r) (sep_tokens tss ++ [t]) s.
Proof.
  intros Hes Hc Ht. eapply lexes_app; [|by econstructor; [exact Ht|constructor]].
  destruct Hes as [|e ts es tss He Hes]; [constructor|].
  rewrite join_cons, app_str_assoc. cbn. eapply lexes_app; [|by apply lexes_items].
  apply He. by apply number_end_rest.
Qed.

(** Setting members with ascending keys keeps them as they are. *)
Lemma set_members_sorted kvs : forall acc, sorted_keys (acc ++ kvs) ->
  set_members kvs acc = acc ++ kvs.
Proof.
  induction kvs as [|[k v] kvs IH]; intros acc Hs; cbn; [by rewrite app_nil_r|].
  rewrite smap_set_last.
  - unfold set_members in IH. rewrite IH; by rewrite <-app_assoc.
  - apply StronglySorted_app in Hs as (Hs & _ & _). apply Forall_forall. intros a Ha.
    apply (Hs a (k, v)); [done|]. apply elem_of_cons. by left.
Qed.

Lemma Forall2_build {A B C} (P : A -> B -> Prop) (Q : A -> C -> Prop) (R : B -> C -> Prop) l bs :
  Forall2 P l bs -> Forall (fun a => forall b, P a b -> exists c, Q a c /\ R b c) l ->
  exists cs, Forall2 Q l cs /\ Forall2 R bs cs.
Proof.
  induction 1 as [|a b l bs Hp _ IH]; intros Hl; [by exists []|].
  apply Forall_cons in Hl as [Ha Hl]. destruct (Ha b Hp) as (c & ? & ?).
  destruct (IH Hl) as (cs & ? & ?). exists (c :: cs). by repeat constructor.
Qed.

(** What the serializer writes has the tokens of the value. *)
Lemma dump_tokens j : wf_json float_reads j -> forall e, dump j = Some e ->
  exists ts, value j ts /\ written e ts.
Proof.
  assert (forall j e t, (forall r, number_end r -> scan (e +:+ r) = (t, r)) -> value j [t] ->
            exists ts, value j ts /\ written e ts) as Hone.
  { intros j' e t Hs Hv. exists [t]. split; [done|]. intros r Hr.
    econstructor; [by apply Hs|constructor]. }
  induction 1 as [|b|z Hz|f Hf|s Hs|l Hwf Hl|kvs Hk Hl] using wf_json_rec; intros e He.
  - injection He as <-. eapply Hone; [intros; apply scan_punctuation|constructor].
  - injection He as <-. destruct b; (eapply Hone; [intros; apply scan_punctuation|constructor]).
  - injection He as <-. apply (Hone _ _ (int_token z)); [intros; by apply scan_show_Z|].
    unfold int_token. destruct (z <? 0); constructor.
  - injection He as <-. eapply Hone; [apply Hf|constructor].
  - eapply Hone; [|apply value_text]. intros r Hr. by apply scan_dump_string.
  - apply dump_array_inv in He as (es & Hes & ->).
    destruct (Forall2_build _ value written _ _ Hes Hl) as (tss & Hv & Hw).
    exists (begin_array :: sep_tokens tss ++ [end_array]). split; [by apply value_array|].
    intros r Hr. rewrite !app_str_assoc. eapply lexes_cons; [apply scan_punctuation|].
    apply lexes_list; [done|by left|apply scan_punctuation].
  - apply dump_object_inv in He as (ms & Hms & ->).
    destruct (Forall2_build _ (member_tokens value) written _ _ Hms) as (tss & Hv & Hw).
    { eapply Forall_impl; [exact Hl|]. intros [k v] [Hu Hj] m (dk & dv & Hdk & Hdv & ->).
      cbn [fst snd] in *. destruct (Hj dv Hdv) as (tv & Hv & Hw).
      exists (value_string k :: name_separator :: tv). split; [by exists tv|].
      intros r Hr. rewrite !app_str_assoc. eapply lexes_cons; [by apply scan_dump_string|].
      eapply lexes_cons; [apply scan_punctuation|]. by apply Hw. }
    exists (begin_object :: sep_tokens tss ++ [end_object]). split.
    + rewrite <-(set_members_sorted kvs [] Hk) at 1. by apply value_object.
    + intros r Hr. rewrite !app_str_assoc. eapply lexes_cons; [apply scan_punctuation|].
      apply lexes_list; [done|by right|apply scan_punctuation].
Qed.

Lemma skip_bom_ascii s :
  match s with String c _ => byte_val c < 128 | EmptyString => True end -> skip_bom s = Some s.
Proof. destruct s as [|c s]; [done|]. intros Hc. cbn. by destruct (_ =? 239) eqn:?; [lia|]. Qed.

Lemma skip_bom_dump j e : wf_json float_reads j -> dump j = Some e -> skip_bom e = Some e.
Proof.
  intros Hj He. destruct Hj as [|b|z Hz|f Hf|s Hs|l Hl|kvs Hk Hkvs].
  - by injection He as <-.
  - injection He as <-. by destruct b.
  - injection He as <-. apply skip_bom_ascii. pose proof (ascii7_show_Z z) as Hz'.
    destruct (show_Z z); [done|]. by apply Forall_cons in Hz' as [? _].
  - injection He as <-. apply Hf.
  - revert He. cbn. unfold dump_string. destruct (dump_escaped s); [|done]. by intros [= <-].
  - by apply dump_array_inv in He as (es & _ & ->).
  - by apply dump_object_inv in He as (ms & _ & ->).
Qed.

(** The parser reads back what the serializer wrote. *)
Lemma parse_dump j e : wf_json float_reads j -> dump j = Some e -> parse e = Some (Parsed j).
Proof.
  intros Hj He. destruct (dump_tokens j Hj e He) as (ts & Hv & Hw).
  eapply parse_complete; [|exact Hv]. exists e, EmptyString, EmptyString.
  split; [by eapply skip_bom_dump|]. split; [|done].
  rewrite <-(app_str_nil_r e). by apply Hw.
Qed.
End roundtrip.

(** ** The properties *)

(** The parser's loop, with its explicit stack and its value builder,
    implements the grammar: on every input it returns a value or throws, and
    it returns [j] exactly if the input, after an optional byte order mark, is
    the text of a token sequence (up to its end or a NUL byte) that the
    grammar of JSON derives for [j], where of several members with one key
    the last stands. *)
Theorem parse_iff_grammar `{Strtod} input :
  (forall j, parse input = Some (Parsed j) <-> exists ts, text_of input ts /\ value j ts)
  /\ ((exists j, parse input = Some (Parsed j)) \/ (exists e, parse input = Some (Thrown e))).
Proof.
  split.
  - intros j. split; [apply parse_sound|]. intros (ts & ? & ?). by eapply parse_complete.
  - destruct (parse_result input) as ([j|e|] & -> & Ho); [left|right|done]; eauto.
Qed.

(** Parsing inverts serializing: for every well-formed value (64-bit
    integers, UTF-8 strings, objects with ascending keys, and floating-point
    numbers whose rendering is read back as the number), the text that
    [dump] writes exists and [parse] of it returns exactly that value. *)
Theorem parse_inverts_dump `{JsonLib} `{Strtod} j :
  wf_json float_reads j -> exists text, dump j = Some text /\ parse text = Some (Parsed j).
Proof.
  intros Hj. destruct (wf_dump_some _ _ Hj) as [text He]. exists text.
  split; [done|]. by apply parse_dump.
Qed.

(** ** Concrete inputs *)

(** [strtod] where no floating-point number occurs. *)
Definition sample_strtod : Strtod := fun _ => None.
Definition sample_value : json :=
  JObject [("a", JArray [JInt (-42); JInt 18446744073709551615; JNull; JArray []]);
           ("b", JObject []);
           ("c" +:+ nl +:+ dq, JString ("x" +:+ String (byte_of 195) (String (byte_of 169) EmptyString)))].

Lemma sample_value_wf fl : wf_json fl sample_value.
Proof.
  apply wf_object; [repeat constructor|].
  repeat (apply Forall_cons_2; [split; cbn [fst snd]|]); [..|apply Forall_nil_2];
    try (by apply ascii7_utf8; repeat (apply Forall_cons_2; [done|]); apply Forall_nil_2).
  - apply wf_array. repeat (apply Forall_cons_2); [..|apply Forall_nil_2];
      [apply wf_int; lia|apply wf_int; lia|apply wf_null|apply wf_array; apply Forall_nil_2].
  - apply wf_object; [apply SSorted_nil|apply Forall_nil_2].
  - apply wf_string. apply utf8_1; [by vm_compute|].
    apply utf8_2; [by vm_compute|by vm_compute|constructor].
Qed.

Lemma parse_inverts_dump_witness : exists text,
  @dump sample_lib sample_value = Some text
  /\ @parse sample_strtod text = Some (Parsed sample_value).
Proof. apply parse_inverts_dump. apply sample_value_wf. Defined.

(** A text that derives a value, and one that does not. *)
Example parse_duplicate : @parse sample_strtod
  ("{" +:+ quoted "a" +:+ ": [1], " +:+ quoted "a" +:+ " :{}}")
  = Some (Parsed (JObject [("a", JObject [])])).
Proof. by vm_compute. Qed.
Example parse_trailing_comma : @parse sample_strtod "[1,]"
  = Some (Thrown (syntax_error end_array literal_or_value "value")).
Proof. by vm_compute. Qed.
