(* ===== verification/JsonText.v ===== *)
(** * JsonText: the lexemes of JSON, character by character

    The characters of strings, numbers, literals and white space as RFC 8259
    (sections 2, 3, 6 and 7) and RFC 3629 give them, as inductive relations
    between a text and what it denotes, independent of the scanner of JsonLex;
    and that the scanner recognises exactly these, where a number goes on as
    far as it can. *)

From Stdlib Require Import ZArith Ascii String Lia.
From stdpp Require Import base numbers list strings.
From S2P Require Import Prelude Json JsonLex.

Open Scope Z_scope.

(** ** Strings *)

(** Four hexadecimal digits, in either case. *)
Inductive hex_digit : ascii -> Z -> Prop :=
| hex_decimal c : in_range 48 57 c -> hex_digit c (byte_val c - 48)
| hex_upper c : in_range 65 70 c -> hex_digit c (byte_val c - 65 + 10)
| hex_lower c : in_range 97 102 c -> hex_digit c (byte_val c - 97 + 10).

Inductive hex4 : string -> Z -> Prop :=
| hex4_intro a b c d x y z u :
    hex_digit a x -> hex_digit b y -> hex_digit c z -> hex_digit d u ->
    hex4 (String a (String b (String c (String d EmptyString))))
         (((x * 16 + y) * 16 + z) * 16 + u).

Definition backslash : string := String (ascii_of_nat 92) EmptyString.

(** The text behind a backslash and [u]: one code point of the basic plane
    that is not a surrogate, or a surrogate pair. *)
Inductive unicode_text : string -> Z -> Prop :=
| unicode_basic h cp : hex4 h cp -> ~ 55296 <= cp <= 57343 -> unicode_text h cp
| unicode_pair h1 h2 high low :
    hex4 h1 high -> hex4 h2 low -> 55296 <= high <= 56319 -> 56320 <= low <= 57343 ->
    unicode_text (h1 +:+ backslash +:+ "u" +:+ h2)
                 (65536 + (high - 55296) * 1024 + (low - 56320)).

(** UTF-8: the bytes of a code point. *)
Definition utf8_bytes (cp : Z) : list Z :=
  if cp <? 128 then [cp]
  else if cp <? 2048 then [192 + cp / 64; 128 + cp mod 64]
  else if cp <? 65536 then [224 + cp / 4096; 128 + (cp / 64) mod 64; 128 + cp mod 64]
  else [240 + cp / 262144; 128 + (cp / 4096) mod 64; 128 + (cp / 64) mod 64; 128 + cp mod 64].
Definition utf8_of (cp : Z) : string :=
  String.string_of_list_ascii (byte_of <$> utf8_bytes cp).

(** One character of more than one byte. *)
Inductive multi : string -> Prop :=
| multi_2 a b : in_range 194 223 a -> in_range 128 191 b ->
    multi (String a (String b EmptyString))
| multi_3 a b c :
    (in_range 224 224 a /\ in_range 160 191 b \/ in_range 225 236 a /\ in_range 128 191 b
     \/ in_range 237 237 a /\ in_range 128 159 b \/ in_range 238 239 a /\ in_range 128 191 b) ->
    in_range 128 191 c -> multi (String a (String b (String c EmptyString)))
| multi_4 a b c d :
    (in_range 240 240 a /\ in_range 144 191 b \/ in_range 241 243 a /\ in_range 128 191 b
     \/ in_range 244 244 a /\ in_range 128 143 b) ->
    in_range 128 191 c -> in_range 128 191 d ->
    multi (String a (String b (String c (String d EmptyString)))).

(** The two-character escapes. *)
Definition escapes : list (Z * Z) :=
  [ (34, 34); (92, 92); (47, 47); (98, 8); (102, 12); (110, 10); (114, 13); (116, 9) ].

(** The text between the quotes, and the string it denotes. *)
Inductive chars : string -> string -> Prop :=
| chars_nil : chars EmptyString EmptyString
| chars_plain c t o : in_range 32 127 c -> byte_val c <> 34 -> byte_val c <> 92 -> chars t o ->
    chars (String c t) (String c o)
| chars_multi x t o : multi x -> chars t o -> chars (x +:+ t) (x +:+ o)
| chars_escape c b t o : (byte_val c, b) ∈ escapes -> chars t o ->
    chars (backslash +:+ String c t) (String (byte_of b) o)
| chars_unicode e cp t o : unicode_text e cp -> chars t o ->
    chars (backslash +:+ "u" +:+ e +:+ t) (utf8_of cp +:+ o).

Lemma chars_app a x b y : chars a x -> chars b y -> chars (a +:+ b) (x +:+ y).
Proof.
  intros Ha Hb. induction Ha; rewrite ?app_str_cons, ?app_str_assoc; [done|by constructor..|].
  cbn [String.append]. rewrite app_str_assoc. by constructor.
Qed.

(** *** The scanner against the relations *)

Lemma hex_char_digit c d : hex_char (byte_val c) = Some d <-> hex_digit c d.
Proof.
  unfold hex_char. split.
  - intros Hd. destruct ((48 <=? _) && _) eqn:E1;
      [|destruct ((65 <=? _) && _) eqn:E2; [|destruct ((97 <=? _) && _) eqn:E3; [|done]]];
      injection Hd as <-.
    + constructor. unfold in_range. lia.
    + replace (byte_val c - 55) with (byte_val c - 65 + 10) by lia. constructor. unfold in_range. lia.
    + replace (byte_val c - 87) with (byte_val c - 97 + 10) by lia. constructor. unfold in_range. lia.
  - intros [c' Hc|c' Hc|c' Hc]; unfold in_range in Hc;
      repeat match goal with |- context [if ?b then _ else _] => destruct b eqn:?; try lia end;
      f_equal; lia.
Qed.

Lemma hex_digit_bound c d : hex_digit c d -> 0 <= d <= 15.
Proof. intros [c' Hc|c' Hc|c' Hc]; unfold in_range in Hc; lia. Qed.
Lemma hex4_bound h cp : hex4 h cp -> 0 <= cp <= 65535.
Proof. intros []. repeat match goal with H : hex_digit _ _ |- _ => apply hex_digit_bound in H end. lia. Qed.

Section text_rules.
Context {R : Type} (P : R -> Prop).

(** As [get_codepoint_rule], but saying which text was read. *)
Lemma get_codepoint_text s err k :
  (forall r, P (err r)) ->
  (forall h cp r, hex4 h cp -> s = h +:+ r -> P (k cp r)) ->
  P (get_codepoint s err k).
Proof.
  intros Herr Hk. unfold get_codepoint, codepoint_digit.
  apply get_rule; [done|intros a s1 ->]. destruct (hex_char (byte_val a)) as [x|] eqn:Ea; [|done].
  apply get_rule; [done|intros b s2 ->]. destruct (hex_char (byte_val b)) as [y|] eqn:Eb; [|done].
  apply get_rule; [done|intros c s3 ->]. destruct (hex_char (byte_val c)) as [z|] eqn:Ec; [|done].
  apply get_rule; [done|intros d s4 ->]. destruct (hex_char (byte_val d)) as [u|] eqn:Ed; [|done].
  apply hex_char_digit in Ea, Eb, Ec, Ed.
  assert (0 + Z.shiftl x 12 + Z.shiftl y 8 + Z.shiftl z 4 + Z.shiftl u 0
          = ((x * 16 + y) * 16 + z) * 16 + u) as ->.
  { rewrite !Z.shiftl_mul_pow2 by lia. lia. }
  eapply Hk; [by constructor|done].
Qed.

Lemma unicode_escape_text s err k :
  (forall m r, P (err m r)) ->
  (forall e cp r, unicode_text e cp -> s = e +:+ r -> P (k cp r)) ->
  P (unicode_escape s err k).
Proof.
  intros Herr Hk. unfold unicode_escape. apply get_codepoint_text; [done|].
  intros h1 cp1 r1 H1 ->. pose proof (hex4_bound _ _ H1) as B1.
  destruct (is_high cp1) eqn:E1; unfold is_high in E1.
  - apply get_rule; [done|intros c r2 ->]. destruct (byte_val c =? 92) eqn:Ec; cbn [negb]; [|done].
    apply get_rule; [done|intros c' r3 ->]. destruct (byte_val c' =? 117) eqn:Ec'; cbn [negb]; [|done].
    apply get_codepoint_text; [done|]. intros h2 cp2 r4 H2 ->.
    pose proof (hex4_bound _ _ H2) as B2.
    destruct (is_low cp2) eqn:E2; [|done]. unfold is_low in E2.
    assert (u32 (u32 (Z.shiftl cp1 10) + cp2 - 56613888)
            = 65536 + (cp1 - 55296) * 1024 + (cp2 - 56320)) as ->.
    { rewrite Z.shiftl_mul_pow2 by lia. unfold u32. rewrite (Z.mod_small (cp1 * _)) by lia.
      rewrite Z.mod_small by lia. lia. }
    eapply Hk; [apply (unicode_pair h1 h2); [done|done|lia|lia]|].
    rewrite <-(byte_of_val c), <-(byte_of_val c'). apply Z.eqb_eq in Ec, Ec'. rewrite Ec, Ec'.
    by rewrite !app_str_assoc.
  - destruct (is_low cp1) eqn:E2; [done|]. unfold is_low in E2.
    eapply Hk; [by apply unicode_basic; [|lia]|done].
Qed.
End text_rules.

Lemma escaped_char_escapes c b : escaped_char c = Some b <-> (c, b) ∈ escapes.
Proof.
  unfold escaped_char, escapes. rewrite !elem_of_cons, elem_of_nil. split.
  - intros. repeat case_match; simplify_eq;
      match goal with H : (_ =? _) = true |- _ => apply Z.eqb_eq in H as -> end; tauto.
  - intros He. destruct_or! He; by simplify_eq.
Qed.

Lemma utf8_encode_bytes cp : scalar cp ->
  forall buf, fold_left add (utf8_encode cp) buf = buf +:+ utf8_of cp.
Proof.
  intros [Hcp _] buf. rewrite fold_add. f_equal. unfold utf8_of.
  assert (forall l, fold_left add l EmptyString = String.string_of_list_ascii (byte_of <$> l)) as Hf.
  { intros l. induction l as [|x l IH]; [done|]. cbn [fold_left fmap list_fmap].
    rewrite fold_add, IH. done. }
  rewrite Hf. do 2 f_equal. unfold utf8_encode, utf8_bytes. change 63 with (Z.ones 6).
  rewrite !Z.land_ones, !Z.shiftr_div_pow2 by lia.
  change (2 ^ 6) with 64. change (2 ^ 12) with 4096. change (2 ^ 18) with 262144.
  assert (cp / 64 / 64 = cp / 4096) as E1 by (rewrite Z.div_div by lia; done).
  assert (cp / 4096 / 64 = cp / 262144) as E2 by (rewrite Z.div_div by lia; done).
  pose proof (Z.mod_pos_bound cp 64 ltac:(lia)). pose proof (Z.mod_pos_bound (cp / 64) 64 ltac:(lia)).
  pose proof (Z.mod_pos_bound (cp / 4096) 64 ltac:(lia)).
  pose proof (Z.div_mod cp 64 ltac:(lia)). pose proof (Z.div_mod (cp / 64) 64 ltac:(lia)).
  pose proof (Z.div_mod (cp / 4096) 64 ltac:(lia)).
  replace (cp <=? 2047) with (cp <? 2048) by lia. replace (cp <=? 65535) with (cp <? 65536) by lia.
  destruct (cp <? 128) eqn:C1; [done|].
  destruct (cp <? 2048) eqn:C2; [|destruct (cp <? 65536) eqn:C3].
  all: rewrite !(lor_prefix 128 64) by (cbn; tauto || lia).
  - by rewrite (lor_prefix 192 32) by (cbn; tauto || lia).
  - by rewrite (lor_prefix 224 16) by (cbn; tauto || lia).
  - by rewrite (lor_prefix 240 8) by (cbn; tauto || lia).
Qed.

(** What the scanner made of [s] with the characters [buf] in its buffer: on
    success it has read the body of a string and its closing quote. *)
Definition string_read (buf s : string) (p : token * string) : Prop :=
  forall v, p.1 = value_string v ->
  exists t o, s = t +:+ dq +:+ p.2 /\ v = buf +:+ o /\ chars t o.

Lemma string_read_error buf s m r : string_read buf s (parse_error m, r).
Proof. intros v [=]. Qed.

(** Reading on behind the text [x], which denotes [y]. *)
Lemma string_read_more buf s x y s' p :
  s = x +:+ s' -> chars x y -> string_read (buf +:+ y) s' p -> string_read buf s p.
Proof.
  intros -> Hx Hp v Hv. destruct (Hp v Hv) as (t & o & -> & -> & Ht).
  exists (x +:+ t), (y +:+ o). rewrite !app_str_assoc. split; [done|]. split; [done|].
  by apply chars_app.
Qed.

Lemma chars_one_plain c : in_range 32 127 c -> byte_val c <> 34 -> byte_val c <> 92 ->
  chars (String c EmptyString) (String c EmptyString).
Proof. intros. by apply chars_plain; [..|constructor]. Qed.
Lemma chars_one_multi x : multi x -> chars x x.
Proof. intros Hx. rewrite <-(app_str_nil_r x). by apply chars_multi; [|constructor]. Qed.

Lemma unicode_text_scalar e cp : unicode_text e cp -> scalar cp.
Proof.
  intros [h cp' H4 Hs|h1 h2 high low H1 H2 ? ?]; unfold scalar; [|lia].
  pose proof (hex4_bound _ _ H4). lia.
Qed.

Lemma scan_escape_text buf s (err : string -> string -> token * string) k :
  (forall m r, exists m', (err m r).1 = parse_error m') ->
  (forall buf' r, (String.length r < String.length s)%nat -> string_read buf' r (k buf' r)) ->
  string_read buf (backslash +:+ s) (scan_escape buf s err k).
Proof.
  intros Herr Hk.
  assert (Hbad : forall m r, string_read buf (backslash +:+ s) (err m r)).
  { intros m r v Hv. destruct (Herr m r) as [m' Hm]. congruence. }
  unfold scan_escape. apply get_rule; [done|]. intros c s' ->. cbn [String.length] in Hk.
  destruct (escaped_char (byte_val c)) as [b|] eqn:Eb.
  { apply escaped_char_escapes in Eb.
    eapply (string_read_more buf _ (backslash +:+ String c EmptyString)
              (String (byte_of b) EmptyString) s'); [done|by apply chars_escape; [|constructor]|].
    apply Hk. lia. }
  destruct (byte_val c =? 117) eqn:Eu; [|done].
  apply unicode_escape_text; [done|]. intros e cp r He ->.
  rewrite utf8_encode_bytes by by eapply unicode_text_scalar.
  eapply (string_read_more buf _ (backslash +:+ "u" +:+ e +:+ EmptyString)
            (utf8_of cp +:+ EmptyString) r).
  - apply Z.eqb_eq in Eu. rewrite <-(byte_of_val c), Eu. cbn [String.append].
    rewrite app_str_nil_r, !app_str_assoc. reflexivity.
  - apply (chars_unicode _ _ _ _ He). constructor.
  - rewrite app_str_nil_r. apply Hk. rewrite length_app_str. lia.
Qed.

Lemma multi_byte_text {R} (P : R -> Prop) c bad k :
  P bad ->
  (forall ranges, (forall l, Forall2 byte_in ranges l -> multi (String c (String.string_of_list_ascii l))) ->
     P (k ranges)) ->
  P (multi_byte (byte_val c) bad k).
Proof.
  intros Hbad Hk. unfold multi_byte.
  repeat match goal with |- P (if ?b then _ else _) => destruct b eqn:? end;
    try done; apply Hk; intros l Hl;
    repeat match goal with H : Forall2 _ (_ :: _) _ |- _ =>
      apply Forall2_cons_inv_l in H as (? & ? & ? & H & ->) end;
    apply Forall2_nil_inv_l in Hl as ->; cbn [String.string_of_list_ascii];
    unfold byte_in, in_range in *; cbn [fst snd] in *;
    first [apply multi_4|apply multi_3|apply multi_2]; unfold in_range; lia.
Qed.

(** As [bytes_in_range_rule], without the bound on the rest in an error. *)
Lemma scan_string_read n : forall buf s,
  (String.length s < n)%nat -> string_read buf s (scan_string_from buf s).
Proof.
  induction n as [|n IH]; intros buf s Hn; [lia|]. rewrite scan_string_from_eq. cbv zeta.
  apply get_rule; [apply string_read_error|]. intros c s' ->. cbn [String.length] in Hn.
  destruct (_ =? 34) eqn:E34.
  { intros v [= <-]. exists EmptyString, EmptyString. rewrite app_str_nil_r. cbn.
    apply Z.eqb_eq in E34. rewrite <-(byte_of_val c), E34. by repeat constructor. }
  destruct (_ =? 92) eqn:E92.
  { apply Z.eqb_eq in E92. rewrite <-(byte_of_val c), E92.
    apply (scan_escape_text buf s'); [by eauto|]. intros. apply IH. lia. }
  destruct (_ <=? 31) eqn:?; [apply string_read_error|].
  destruct (is_plain _) eqn:Hp.
  { unfold is_plain in Hp. rewrite add_byte.
    eapply (string_read_more buf _ (String c EmptyString)); [done| |by apply IH; lia].
    apply chars_one_plain; unfold in_range; lia. }
  apply multi_byte_text; [apply string_read_error|]. intros ranges Hu.
  unfold next_byte_in_range. apply bytes_in_range_rule; [intros; apply string_read_error|].
  intros l r Hl ->. rewrite length_app_str in Hn. rewrite add_byte, app_str_assoc.
  eapply (string_read_more buf _ (String c (String.string_of_list_ascii l))); [done| |].
  - by apply chars_one_multi, Hu.
  - cbn [String.append]. apply IH. lia.
Qed.

Lemma scan_string_sound s v r :
  scan_string s = (value_string v, r) -> exists t, s = t +:+ dq +:+ r /\ chars t v.
Proof.
  intros E. pose proof (scan_string_read (S (String.length s)) EmptyString s ltac:(lia)) as Hr.
  change (scan_string_from EmptyString s) with (scan_string s) in Hr. rewrite E in Hr.
  destruct (Hr v eq_refl) as (t & o & -> & -> & Ht). by exists t.
Qed.

(** *** Every body is read *)

Lemma get_codepoint_hex {R} h cp s (err : string -> R) k :
  hex4 h cp -> get_codepoint (h +:+ s) err k = k cp s.
Proof.
  intros [a b c d x y z u Ha Hb Hc Hd]. apply hex_char_digit in Ha, Hb, Hc, Hd.
  unfold get_codepoint, codepoint_digit. cbn [get String.append].
  rewrite Ha, Hb, Hc, Hd. f_equal. rewrite !Z.shiftl_mul_pow2 by lia. lia.
Qed.

Lemma unicode_escape_complete {R} e cp s (err : string -> string -> R) k :
  unicode_text e cp -> unicode_escape (e +:+ s) err k = k cp s.
Proof.
  intros [h cp' H4 Hs|h1 h2 high low H1 H2 Hh Hl]; unfold unicode_escape, is_high, is_low.
  - rewrite (get_codepoint_hex _ _ _ _ _ H4). pose proof (hex4_bound _ _ H4).
    destruct ((55296 <=? cp') && (cp' <=? 56319)) eqn:?; [lia|].
    by destruct ((56320 <=? cp') && (cp' <=? 57343)) eqn:?; [lia|].
  - rewrite app_str_assoc, (get_codepoint_hex _ _ _ _ _ H1).
    destruct ((55296 <=? high) && _) eqn:?; [|lia]. cbn [String.append backslash get].
    change (byte_val (ascii_of_nat 92) =? 92) with true.
    change (byte_val "u" =? 117) with true. cbn [negb].
    rewrite (get_codepoint_hex _ _ _ _ _ H2).
    destruct ((56320 <=? low) && (low <=? 57343)) eqn:?; [|lia]. f_equal.
    rewrite Z.shiftl_mul_pow2 by lia. unfold u32. rewrite (Z.mod_small (high * _)) by lia.
    rewrite Z.mod_small by lia. lia.
Qed.

Lemma scan_plain buf c r : in_range 32 127 c -> byte_val c <> 34 -> byte_val c <> 92 ->
  scan_string_from buf (String c r) = scan_string_from (buf +:+ String c EmptyString) r.
Proof.
  intros Hc H34 H92. rewrite scan_string_from_eq. cbn [get]. unfold in_range in Hc.
  rewrite (proj2 (Z.eqb_neq _ _) H34), (proj2 (Z.eqb_neq _ _) H92).
  destruct (_ <=? 31) eqn:?; [lia|]. unfold is_plain. destruct (_ && _) eqn:?; [|lia].
  by rewrite add_byte.
Qed.

Lemma scan_backslash buf r :
  scan_string_from buf (backslash +:+ r)
  = scan_escape buf r (fun message rest => (parse_error message, rest)) scan_string_from.
Proof. rewrite scan_string_from_eq. reflexivity. Qed.

Lemma scan_multi buf x r : multi x ->
  scan_string_from buf (x +:+ r) = scan_string_from (buf +:+ x) r.
Proof.
  intros [a b Ha Hb|a b c Hab Hc|a b c d Hab Hc Hd]; rewrite !app_str_cons; cbn [String.append].
  - read_multi [(128, 191)]. done.
  - destruct Hab as [[? ?]|[[? ?]|[[? ?]|[? ?]]]].
    + read_multi [(160, 191); (128, 191)]. done.
    + read_multi [(128, 191); (128, 191)]. done.
    + read_multi [(128, 159); (128, 191)]. done.
    + read_multi [(128, 191); (128, 191)]. done.
  - destruct Hab as [[? ?]|[[? ?]|[? ?]]].
    + read_multi [(144, 191); (128, 191); (128, 191)]. done.
    + read_multi [(128, 191); (128, 191); (128, 191)]. done.
    + read_multi [(128, 143); (128, 191); (128, 191)]. done.
Qed.

Lemma scan_string_complete t o : chars t o -> forall buf r,
  scan_string_from buf (t +:+ dq +:+ r) = (value_string (buf +:+ o), r).
Proof.
  induction 1 as [|c t o Hc H34 H92 _ IH|x t o Hx _ IH|c b t o Hb _ IH|e cp t o He _ IH];
    intros buf r.
  - cbn. by rewrite app_str_nil_r.
  - rewrite app_str_cons, scan_plain, IH by done. by rewrite app_str_assoc.
  - rewrite app_str_assoc, scan_multi, IH by done. by rewrite app_str_assoc.
  - rewrite app_str_assoc, scan_backslash, app_str_cons. unfold scan_escape. cbn [get].
    rewrite (proj2 (escaped_char_escapes _ _) Hb), IH. unfold add. by rewrite app_str_assoc.
  - rewrite !app_str_assoc, scan_backslash, app_str_cons. unfold scan_escape. cbn [get].
    change (escaped_char (byte_val "u")) with (@None Z).
    change (byte_val "u" =? 117) with true. cbv iota.
    change (EmptyString +:+ ?x) with x.
    rewrite (unicode_escape_complete _ _ _ _ _ He), IH.
    rewrite utf8_encode_bytes by by eapply unicode_text_scalar. by rewrite app_str_assoc.
Qed.

(** ** Numbers *)

Definition digits1 (s : string) : Prop := s <> EmptyString /\ all_digits s.

(** The integer part: no superfluous zero. *)
Inductive int_part : string -> Prop :=
| int_zero : int_part "0"
| int_nonzero d ds : in_range 49 57 d -> all_digits ds -> int_part (String d ds).
Inductive frac_part : string -> Prop :=
| frac_none : frac_part EmptyString
| frac_some ds : digits1 ds -> frac_part ("." +:+ ds).
Inductive exp_part : string -> Prop :=
| exp_none : exp_part EmptyString
| exp_some e sg ds : e = "e" \/ e = "E" -> sg = EmptyString \/ sg = "+" \/ sg = "-" ->
    digits1 ds -> exp_part (e +:+ sg +:+ ds).

Definition minus_sign (neg : bool) : string := if neg then "-" else EmptyString.

(** The value of an integer part in decimal. *)
Fixpoint decimal (acc : Z) (s : string) : Z :=
  match s with
  | EmptyString => acc
  | String c s' => decimal (10 * acc + (byte_val c - 48)) s'
  end.

Section numbers.
Context `{Strtod}.

(** A number without fraction and exponent is an integer, unless it does not
    fit 64 bits; every other number is a floating-point one. *)
Definition number_token (neg : bool) (i f e : string) : token :=
  let text := minus_sign neg +:+ i +:+ f +:+ e in
  if is_empty f && is_empty e then
    if neg then
      if - 2 ^ 63 <=? - decimal 0 i then value_integer (- decimal 0 i) else value_float (strtod text)
    else if decimal 0 i <? 2 ^ 64 then value_unsigned (decimal 0 i) else value_float (strtod text)
  else value_float (strtod text).

Inductive number : string -> token -> Prop :=
| number_intro neg i f e : int_part i -> frac_part f -> exp_part e ->
    number (minus_sign neg +:+ i +:+ f +:+ e) (number_token neg i f e).

Lemma decimal_digits s : forall acc, all_digits s -> scan_digits acc s = decimal acc s.
Proof.
  induction s as [|c s IH]; intros acc Hs; [done|]. apply Forall_cons in Hs as [Hc Hs].
  cbn [scan_digits decimal]. unfold digit_val, is_digit in *. rewrite Hc. by apply IH.
Qed.

Lemma int_part_digits i : int_part i ->
  exists d ds, i = String d ds /\ is_digit (byte_val d) = true /\ all_digits i.
Proof.
  intros [|d ds Hd Hds].
  - exists "0"%char, EmptyString. split_and!; [done|done|]. apply Forall_cons_2; [done|constructor].
  - exists d, ds. assert (is_digit (byte_val d) = true) as Hd'
      by (unfold is_digit, in_range in *; lia).
    split_and!; [done|done|]. by apply Forall_cons_2.
Qed.

Lemma scan_int_part neg i : int_part i ->
  scan_int (minus_sign neg +:+ i) = if neg then - decimal 0 i else decimal 0 i.
Proof.
  intros Hi. destruct (int_part_digits i Hi) as (d & ds & -> & Hd & Hds). destruct neg.
  - change (scan_int _) with (- scan_digits 0 (String d ds)). by rewrite decimal_digits.
  - cbn [minus_sign String.append]. by rewrite scan_int_digit, decimal_digits.
Qed.

(** *** The states of the scanner

    What has been read in each state, and the kind of number so far. *)
Definition int_kind (neg : bool) : number_kind := if neg then kind_integer else kind_unsigned.

Inductive shape : number_state -> number_kind -> string -> Prop :=
| shape_minus : shape minus kind_integer "-"
| shape_zero neg : shape zero (int_kind neg) (minus_sign neg +:+ "0")
| shape_any1 neg d ds : in_range 49 57 d -> all_digits ds ->
    shape any1 (int_kind neg) (minus_sign neg +:+ String d ds)
| shape_decimal1 neg i : int_part i -> shape decimal1 kind_float (minus_sign neg +:+ i +:+ ".")
| shape_decimal2 neg i ds : int_part i -> digits1 ds ->
    shape decimal2 kind_float (minus_sign neg +:+ i +:+ "." +:+ ds)
| shape_exponent neg i f e : int_part i -> frac_part f -> e = "e" \/ e = "E" ->
    shape exponent kind_float (minus_sign neg +:+ i +:+ f +:+ e)
| shape_sign neg i f e sg : int_part i -> frac_part f -> e = "e" \/ e = "E" ->
    sg = "+" \/ sg = "-" -> shape sign kind_float (minus_sign neg +:+ i +:+ f +:+ e +:+ sg)
| shape_any2 neg i f e sg ds : int_part i -> frac_part f -> e = "e" \/ e = "E" ->
    sg = EmptyString \/ sg = "+" \/ sg = "-" -> digits1 ds ->
    shape any2 kind_float (minus_sign neg +:+ i +:+ f +:+ e +:+ sg +:+ ds).

Lemma digits1_add ds c : all_digits ds -> is_digit (byte_val c) = true ->
  digits1 (ds +:+ String c EmptyString).
Proof.
  intros Hds Hc. split; [by destruct ds|]. apply all_digits_app. split; [done|].
  by apply Forall_cons_2; [|constructor].
Qed.

Lemma byte_char c (a : ascii) : byte_val c = byte_val a -> c = a.
Proof. intros E. by rewrite <-(byte_of_val c), E, byte_of_val. Qed.

Lemma exp_char c : is_exp (byte_val c) = true ->
  String c EmptyString = "e" \/ String c EmptyString = "E".
Proof.
  unfold is_exp. intros [E|E]%orb_true_iff; apply Z.eqb_eq in E; [left|right]; f_equal;
    by apply byte_char.
Qed.
Lemma sign_char c : is_sign (byte_val c) = true ->
  String c EmptyString = "+" \/ String c EmptyString = "-".
Proof.
  unfold is_sign. intros [E|E]%orb_true_iff; apply Z.eqb_eq in E; [left|right]; f_equal;
    by apply byte_char.
Qed.

Lemma point_char c : (byte_val c =? 46) = true -> c = "."%char.
Proof. intros E%Z.eqb_eq. by apply byte_char. Qed.
Lemma zero_char c : (byte_val c =? 48) = true -> c = "0"%char.
Proof. intros E%Z.eqb_eq. by apply byte_char. Qed.

Lemma shape_step st ty buf c st' :
  shape st ty buf -> number_goto st (byte_val c) = Some st' ->
  shape st' (number_type st' ty) (buf +:+ String c EmptyString).
Proof.
  intros Hs Hg. destruct Hs; cbn [number_goto] in Hg;
    unfold scan_number_minus, scan_number_zero, scan_number_any1, scan_number_decimal1,
      scan_number_decimal2, scan_number_exponent, scan_number_sign, scan_number_any2 in Hg;
    repeat match type of Hg with (if ?b then _ else _) = _ => destruct b eqn:? end;
    try discriminate Hg; injection Hg as <-; cbn [number_type]; rewrite ?app_str_assoc.
  - rewrite (zero_char c) by done. apply (shape_zero true).
  - apply (shape_any1 true); [unfold is_digit19, in_range in *; lia|constructor].
  - rewrite (point_char c) by done. apply shape_decimal1. constructor.
  - apply (shape_exponent neg "0" EmptyString); [constructor|constructor|by apply exp_char].
  - apply shape_any1; [done|]. by apply (digits1_add ds).
  - rewrite (point_char c) by done. apply shape_decimal1. by constructor.
  - apply (shape_exponent neg (String d ds) EmptyString); [by constructor|constructor|by apply exp_char].
  - apply shape_decimal2; [done|]. by apply (digits1_add EmptyString); [constructor|].
  - apply shape_decimal2; [done|]. by apply digits1_add; [apply H1|].
  - rewrite <-(app_str_assoc "." ds). apply shape_exponent; [done|by constructor|by apply exp_char].
  - apply shape_sign; [done..|by apply sign_char].
  - apply (shape_any2 neg i f e EmptyString); [done..|by left|].
    by apply (digits1_add EmptyString); [constructor|].
  - apply shape_any2; [done..|by right|]. by apply (digits1_add EmptyString); [constructor|].
  - apply shape_any2; [done..|]. by apply digits1_add; [apply H4|].
Qed.

(** *** Numbers are read, and nothing else *)

Lemma number_done_int neg i : int_part i ->
  scan_number_done (int_kind neg) (minus_sign neg +:+ i) = number_token neg i EmptyString EmptyString.
Proof.
  intros Hi. unfold number_token. cbn [is_empty andb]. rewrite !app_str_nil_r.
  unfold scan_number_done. by destruct neg; cbn [int_kind]; rewrite scan_int_part.
Qed.

Lemma number_done_float neg i f e : is_empty f && is_empty e = false ->
  scan_number_done kind_float (minus_sign neg +:+ i +:+ f +:+ e) = number_token neg i f e.
Proof. intros E. unfold number_token. by rewrite E. Qed.

Lemma not_empty_exp (e x : string) : e = "e" \/ e = "E" -> is_empty (e +:+ x) = false.
Proof. by intros [-> | ->]. Qed.

(** In a state where the scanner stops without an error a number is in the
    buffer. *)
Lemma shape_number st ty buf : shape st ty buf -> number_stop st = None ->
  number buf (scan_number_done ty buf).
Proof.
  intros Hs Hst. destruct Hs; try discriminate Hst.
  - rewrite number_done_int by constructor. rewrite <-(app_str_nil_r "0") at 1.
    apply (number_intro neg "0" EmptyString EmptyString); constructor.
  - rewrite number_done_int by by constructor. rewrite <-(app_str_nil_r (String d ds)) at 1.
    apply (number_intro neg (String d ds) EmptyString EmptyString); by constructor.
  - rewrite <-(app_str_nil_r ("." +:+ ds)), number_done_float by done.
    apply number_intro; [done|by constructor|constructor].
  - rewrite number_done_float by (rewrite not_empty_exp by done; apply andb_false_r).
    apply number_intro; [done..|by constructor].
Qed.

Lemma scan_number_from_sound s : forall st ty buf t r,
  shape st ty buf -> scan_number_from st ty buf s = (t, r) -> last_of_input t = false ->
  exists x, s = x +:+ r /\ number (buf +:+ x) t.
Proof.
  induction s as [|c s IH]; intros st ty buf t r Hs E Ht; cbn [scan_number_from] in E;
    [|destruct (number_goto st (byte_val c)) as [st'|] eqn:Hst].
  2: { rewrite add_byte in E. destruct (IH _ _ _ _ _ (shape_step _ _ _ _ _ Hs Hst) E Ht)
         as (x & -> & Hx). exists (String c x). split; [done|].
       by rewrite app_str_assoc in Hx. }
  all: destruct (number_stop st) eqn:Hn; injection E as <- <-; [done|];
    exists EmptyString; rewrite (app_str_nil_r buf); split; [done|by eapply shape_number].
Qed.

Lemma scan_number_sound c s t r :
  scan_number (byte_val c) s = (t, r) -> last_of_input t = false ->
  exists x, String c s = x +:+ r /\ number x t.
Proof.
  intros E Ht. unfold scan_number in E.
  destruct (scan_number_init (byte_val c)) as [st|] eqn:Hi;
    [|injection E as <- <-; by cbn in Ht].
  rewrite add_byte in E. cbn [String.append] in E.
  assert (shape st (number_type st kind_unsigned) (String c EmptyString)) as Hs.
  { unfold scan_number_init in Hi.
    destruct (byte_val c =? 45) eqn:E1; [|destruct (byte_val c =? 48) eqn:E2;
      [|destruct (is_digit19 _) eqn:E3; [|done]]]; injection Hi as <-; cbn [number_type].
    - apply Z.eqb_eq in E1. rewrite (byte_char c "-"%char) by done. constructor.
    - rewrite (zero_char c) by done. apply (shape_zero false).
    - apply (shape_any1 false); [unfold is_digit19, in_range in *; lia|constructor]. }
  destruct (scan_number_from_sound s _ _ _ _ _ Hs E Ht) as (x & -> & Hx).
  by exists (String c x).
Qed.

Lemma scan_number_step st ty buf c r st' : number_goto st (byte_val c) = Some st' ->
  scan_number_from st ty buf (String c r)
  = scan_number_from st' (number_type st' ty) (buf +:+ String c EmptyString) r.
Proof. intros Hst. cbn [scan_number_from]. by rewrite Hst, add_byte. Qed.

(** The states that digits do not leave. *)
Lemma scan_number_loop st ds : forall ty buf r,
  st = any1 \/ st = decimal2 \/ st = any2 -> all_digits ds ->
  scan_number_from st ty buf (ds +:+ r) = scan_number_from st ty (buf +:+ ds) r.
Proof.
  induction ds as [|d ds IH]; intros ty buf r Hst Hds; [by rewrite app_str_nil_r|].
  apply Forall_cons in Hds as [Hd Hds]. rewrite app_str_cons, (scan_number_step _ _ _ _ _ st).
  - replace (number_type st ty) with ty by (by destruct_or! Hst; subst).
    rewrite IH by done. by rewrite app_str_assoc.
  - destruct_or! Hst; subst; cbn; unfold scan_number_any1, scan_number_decimal2, scan_number_any2;
      by rewrite Hd.
Qed.

(** Digits of which there is at least one lead into such a state. *)
Lemma scan_number_digits1 st st' ds ty buf r :
  (forall c, is_digit (byte_val c) = true -> number_goto st (byte_val c) = Some st') ->
  st' = decimal2 \/ st' = any2 -> digits1 ds ->
  scan_number_from st ty buf (ds +:+ r) = scan_number_from st' ty (buf +:+ ds) r.
Proof.
  intros Hg Hst [Hne Hds]. destruct ds as [|d ds]; [done|].
  apply Forall_cons in Hds as [Hd Hds]. rewrite app_str_cons, (scan_number_step _ _ _ _ _ st') by auto.
  replace (number_type st' ty) with ty by (by destruct_or! Hst; subst).
  rewrite scan_number_loop by tauto. by rewrite app_str_assoc.
Qed.

Lemma scan_frac st ty buf f r : st = zero \/ st = any1 -> frac_part f ->
  scan_number_from st ty buf (f +:+ r)
  = scan_number_from (if is_empty f then st else decimal2) (if is_empty f then ty else kind_float)
      (buf +:+ f) r.
Proof.
  intros Hst [|ds Hds]; [by rewrite app_str_nil_r|]. rewrite app_str_assoc.
  change ("." +:+ ds +:+ r) with (String "."%char (ds +:+ r)).
  rewrite (scan_number_step _ _ _ _ _ decimal1) by (by destruct Hst; subst).
  cbn [number_type is_empty String.append]. rewrite (scan_number_digits1 _ decimal2);
    [by rewrite app_str_assoc| |by left|done].
  intros c Hc. cbn. unfold scan_number_decimal1. by rewrite Hc.
Qed.

Lemma scan_exp st ty buf e r : st = zero \/ st = any1 \/ st = decimal2 -> exp_part e ->
  scan_number_from st ty buf (e +:+ r)
  = scan_number_from (if is_empty e then st else any2) (if is_empty e then ty else kind_float)
      (buf +:+ e) r.
Proof.
  intros Hst [|e' sg ds He Hsg Hds]; [by rewrite app_str_nil_r|]. rewrite not_empty_exp by done.
  rewrite !app_str_assoc.
  assert (exists c, e' = String c EmptyString /\ number_goto st (byte_val c) = Some exponent)
    as (c & -> & Hc) by (destruct_or! He; destruct_or! Hst; subst; eexists; by split).
  rewrite app_str_cons, (scan_number_step _ _ _ _ _ exponent) by done.
  cbn [number_type String.append].
  assert (forall st, st = exponent \/ st = sign -> forall buf,
    scan_number_from st kind_float buf (ds +:+ r)
    = scan_number_from any2 kind_float (buf +:+ ds) r) as Hdig.
  { intros st0 Hst0 buf0. apply scan_number_digits1; [|by right|done]. intros d Hd.
    unfold is_digit in Hd. destruct Hst0; subst; cbn;
      unfold scan_number_exponent, scan_number_sign, is_sign, is_digit; [|by rewrite Hd].
    rewrite Hd. destruct (byte_val d =? 43) eqn:?; [lia|]. by destruct (byte_val d =? 45) eqn:?; [lia|]. }
  destruct_or! Hsg; subst sg.
  - change (EmptyString +:+ ds +:+ r) with (ds +:+ r). rewrite Hdig by by left.
    by rewrite app_str_assoc.
  - rewrite app_str_cons, (scan_number_step _ _ _ _ _ sign) by done. cbn [number_type].
    change (EmptyString +:+ ds +:+ r) with (ds +:+ r). rewrite Hdig by by right.
    by rewrite !app_str_assoc.
  - rewrite app_str_cons, (scan_number_step _ _ _ _ _ sign) by done. cbn [number_type].
    change (EmptyString +:+ ds +:+ r) with (ds +:+ r). rewrite Hdig by by right.
    by rewrite !app_str_assoc.
Qed.

Lemma scan_number_ends st ty buf r :
  st = zero \/ st = any1 \/ st = decimal2 \/ st = any2 -> number_end r ->
  scan_number_from st ty buf r = (scan_number_done ty buf, r).
Proof.
  intros Hst Hr. destruct r as [|c r]; [by destruct_or! Hst; subst|]. destruct Hr as (Hd & Hp & He).
  cbn [scan_number_from].
  assert (number_goto st (byte_val c) = None) as ->; [|by destruct_or! Hst; subst].
  destruct_or! Hst; subst; cbn; unfold scan_number_zero, scan_number_any1, scan_number_decimal2,
    scan_number_any2; rewrite ?Hd, ?He; by destruct (byte_val c =? 46) eqn:?; [lia|].
Qed.

(** From the integer part on. *)
Lemma scan_from_int neg st i f e r :
  st = zero \/ st = any1 -> int_part i -> frac_part f -> exp_part e -> number_end r ->
  scan_number_from st (int_kind neg) (minus_sign neg +:+ i) (f +:+ e +:+ r)
  = (number_token neg i f e, r).
Proof.
  intros Hst Hi Hf He Hr. rewrite scan_frac by done.
  rewrite scan_exp; [|destruct (is_empty f); tauto|done].
  rewrite scan_number_ends by (try done; destruct (is_empty e), (is_empty f); tauto).
  f_equal. rewrite !app_str_assoc.
  destruct (is_empty e) eqn:Ee; [destruct (is_empty f) eqn:Ef|].
  - destruct Hf, He; try discriminate; [|by rewrite not_empty_exp in Ee].
    rewrite !app_str_nil_r. by apply number_done_int.
  - apply number_done_float. by rewrite Ef.
  - apply number_done_float. rewrite Ee. apply andb_false_r.
Qed.

Lemma scan_number_complete x t r : number x t -> number_end r ->
  exists c s, x = String c s /\ (byte_val c =? 45) || is_digit (byte_val c) = true
  /\ scan_number (byte_val c) (s +:+ r) = (t, r).
Proof.
  intros [neg i f e Hi Hf He] Hr.
  assert (exists d ds st, i = String d ds
    /\ is_digit (byte_val d) = true
    /\ (st = zero \/ st = any1) /\ scan_number_init (byte_val d) = Some st
    /\ number_goto minus (byte_val d) = Some st
    /\ forall ty buf r', scan_number_from st ty buf (ds +:+ r')
                        = scan_number_from st ty (buf +:+ ds) r')
    as (d & ds & st & -> & Hd & Hst & Hinit & Hgo & Hloop).
  { destruct Hi as [|d ds Hd Hds].
    - exists "0"%char, EmptyString, zero. split_and!; try done; [by left|].
      intros. by rewrite app_str_nil_r.
    - exists d, ds, any1. unfold scan_number_init. cbn [number_goto]. unfold scan_number_minus.
      assert (is_digit19 (byte_val d) = true) as -> by (unfold is_digit19, in_range in *; lia).
      unfold is_digit, in_range in *. destruct (byte_val d =? 45) eqn:?; [lia|].
      destruct (byte_val d =? 48) eqn:?; [lia|]. split_and!; try done; [lia|by right|].
      intros. apply scan_number_loop; [by left|done]. }
  destruct neg; cbn [minus_sign String.append].
  - exists "-"%char, (String d ds +:+ f +:+ e). split; [done|]. split; [done|].
    unfold scan_number. change (scan_number_init _) with (Some minus). cbv iota.
    cbn [number_type]. rewrite add_byte, !app_str_assoc, app_str_cons.
    rewrite (scan_number_step _ _ _ _ _ st) by done.
    replace (number_type st kind_integer) with (int_kind true) by (by destruct Hst; subst).
    rewrite Hloop. rewrite (app_str_assoc _ (String d EmptyString)).
    by apply (scan_from_int true st (String d ds)).
  - exists d, (ds +:+ f +:+ e). split; [done|]. split; [rewrite Hd; apply orb_true_r|].
    unfold scan_number. rewrite Hinit, add_byte, !app_str_assoc, Hloop. cbn [String.append].
    replace (number_type st kind_unsigned) with (int_kind false) by (by destruct Hst; subst).
    by apply (scan_from_int false st (String d ds)).
Qed.
End numbers.

(** ** Lexemes *)

(** White space: space, tab, line feed, carriage return. *)
Definition ws (s : string) : Prop :=
  Forall (fun c => byte_val c ∈ [32; 9; 10; 13]) (String.list_ascii_of_string s).

Lemma ws_whitespace c : byte_val c ∈ [32; 9; 10; 13] <-> is_whitespace (byte_val c) = true.
Proof.
  rewrite !elem_of_cons, elem_of_nil. unfold is_whitespace. rewrite !orb_true_iff, !Z.eqb_eq. tauto.
Qed.

Section lexemes.
Context `{Strtod}.

Inductive lexeme : token -> string -> Prop :=
| lx_begin_array : lexeme begin_array "["
| lx_end_array : lexeme end_array "]"
| lx_begin_object : lexeme begin_object "{"
| lx_end_object : lexeme end_object "}"
| lx_name_separator : lexeme name_separator ":"
| lx_value_separator : lexeme value_separator ","
| lx_true : lexeme literal_true "true"
| lx_false : lexeme literal_false "false"
| lx_null : lexeme literal_null "null"
| lx_string t o : chars t o -> lexeme (value_string o) (dq +:+ t +:+ dq)
| lx_number x t : number x t -> lexeme t x.

Lemma scan_literal_sound ls tok : forall s t r,
  scan_literal ls s tok = (t, r) -> last_of_input t = false -> t = tok /\ s = ls +:+ r.
Proof.
  induction ls as [|l ls IH]; intros s t r E Ht; cbn [scan_literal] in E; [by injection E as -> ->|].
  destruct s as [|c s]; cbn [get] in E; [by injection E as <- <-|].
  destruct (byte_val c =? byte_val l) eqn:Ec; [|by injection E as <- <-].
  destruct (IH _ _ _ E Ht) as [-> ->]. apply Z.eqb_eq, byte_char in Ec as ->. done.
Qed.

(** What the switch of [scan] reads is a lexeme. *)
Lemma scan_current_sound c s t r :
  scan_current (byte_val c) s = (t, r) -> last_of_input t = false ->
  exists l, String c s = l +:+ r /\ lexeme t l.
Proof.
  intros E Ht. unfold scan_current in E.
  assert (Hc : forall (a : ascii), (byte_val c =? byte_val a) = true -> c = a)
    by (intros a Ha; by apply Z.eqb_eq, byte_char in Ha).
  assert (Hone : forall (a : ascii) tok, (byte_val c =? byte_val a) = true -> (tok, s) = (t, r) ->
                   lexeme tok (String a EmptyString) ->
                   exists l, String c s = l +:+ r /\ lexeme t l).
  { intros a tok Ha [= <- <-] Hl. rewrite (Hc a Ha). by exists (String a EmptyString). }
  assert (Hlit : forall (a : ascii) ls tok, (byte_val c =? byte_val a) = true ->
                   scan_literal ls s tok = (t, r) -> lexeme tok (String a ls) ->
                   exists l, String c s = l +:+ r /\ lexeme t l).
  { intros a ls tok Ha [-> ->]%scan_literal_sound Hl; [|done]. rewrite (Hc a Ha). by exists (String a ls). }
  destruct (byte_val c =? 91) eqn:E1; [eapply (Hone "["%char); [done..|constructor]|].
  destruct (byte_val c =? 93) eqn:E2; [eapply (Hone "]"%char); [done..|constructor]|].
  destruct (byte_val c =? 123) eqn:E3; [eapply (Hone "{"%char); [done..|constructor]|].
  destruct (byte_val c =? 125) eqn:E4; [eapply (Hone "}"%char); [done..|constructor]|].
  destruct (byte_val c =? 58) eqn:E5; [eapply (Hone ":"%char); [done..|constructor]|].
  destruct (byte_val c =? 44) eqn:E6; [eapply (Hone ","%char); [done..|constructor]|].
  destruct (byte_val c =? 116) eqn:E7; [eapply (Hlit "t"%char); [done..|constructor]|].
  destruct (byte_val c =? 102) eqn:E8; [eapply (Hlit "f"%char); [done..|constructor]|].
  destruct (byte_val c =? 110) eqn:E9; [eapply (Hlit "n"%char); [done..|constructor]|].
  destruct (byte_val c =? 34) eqn:E10.
  { destruct t; try (by pose proof (scan_string_from_scanned (S (String.length s)) EmptyString s
      ltac:(lia)) as [(b & Hb & _)|(m & Hm & _)]; unfold scan_string in E; rewrite E in *;
      cbn in *; congruence).
    apply scan_string_sound in E as (x & -> & Hx). exists (dq +:+ x +:+ dq).
    split; [|by constructor]. apply Z.eqb_eq in E10. rewrite <-(byte_of_val c), E10.
    by rewrite !app_str_assoc. }
  destruct (_ || _) eqn:E11; [|destruct (byte_val c =? 0); by injection E as <- <-].
  destruct (scan_number_sound c s t r E Ht) as (x & Hx & Hn).
  exists x. split; [done|]. by constructor.
Qed.

Lemma scan_cons c s : scan (String c s)
  = if is_whitespace (byte_val c) then scan s else scan_current (byte_val c) s.
Proof. reflexivity. Qed.

Lemma scan_sound s t r : scan s = (t, r) -> last_of_input t = false ->
  exists w l, s = w +:+ l +:+ r /\ ws w /\ lexeme t l.
Proof.
  intros E Ht. induction s as [|c s IH]; [by injection E as <- <-|]. rewrite scan_cons in E.
  destruct (is_whitespace (byte_val c)) eqn:Hc.
  - destruct (IH E) as (w & l & -> & Hw & Hl). exists (String c w), l.
    split; [done|]. split; [|done]. apply Forall_cons_2; [by apply ws_whitespace|done].
  - destruct (scan_current_sound c s t r E Ht) as (l & -> & Hl). exists EmptyString, l.
    split; [done|]. by split; [constructor|].
Qed.

Lemma scan_ws w s : ws w -> scan (w +:+ s) = scan s.
Proof.
  intros Hw. induction w as [|c w IH]; [done|]. apply Forall_cons in Hw as [Hc Hw].
  rewrite app_str_cons, scan_cons, (proj1 (ws_whitespace c) Hc). by apply IH.
Qed.

Definition is_number (t : token) : Prop :=
  match t with value_unsigned _ | value_integer _ | value_float _ => True | _ => False end.

Lemma number_token_number neg i f e : is_number (number_token neg i f e).
Proof.
  unfold number_token. destruct (_ && _); [|done].
  destruct neg; [by destruct (_ <=? _)|by destruct (_ <? _)].
Qed.

(** A lexeme is read to its end, if a number ends there. *)
Lemma scan_complete w l t r : ws w -> lexeme t l -> (is_number t -> number_end r) ->
  scan (w +:+ l +:+ r) = (t, r).
Proof.
  intros Hw Hl Hr. rewrite scan_ws by done. destruct Hl as [| | | | | | | | |x o Hx|x t Hx];
    try reflexivity.
  - rewrite !app_str_assoc. unfold dq at 1. rewrite app_str_cons, scan_visible by done.
    change (scan_current _ _) with (scan_string (x +:+ dq +:+ r)).
    apply (scan_string_complete _ _ Hx EmptyString).
  - assert (number_end r) as He.
    { apply Hr. destruct Hx. apply number_token_number. }
    destruct (scan_number_complete x t r Hx He) as (c & s & -> & Hc & E).
    rewrite app_str_cons, scan_visible, scan_current_number by
      (done || unfold is_whitespace, is_digit in *; lia). done.
Qed.

(** The scanner reports the end of the input at its end and at a NUL byte. *)
Definition nul : string := String (ascii_of_nat 0) EmptyString.

Lemma scan_literal_not_end ls tok : tok <> end_of_input -> forall s,
  (scan_literal ls s tok).1 <> end_of_input.
Proof.
  intros Htok. induction ls as [|l ls IH]; intros s; cbn [scan_literal]; [done|].
  destruct s as [|c s]; cbn [get]; [done|]. destruct (_ =? _); [apply IH|done].
Qed.
Lemma scan_number_from_not_end s : forall st ty buf,
  (scan_number_from st ty buf s).1 <> end_of_input.
Proof.
  assert (Hd : forall ty buf, scan_number_done ty buf <> end_of_input).
  { intros [] buf; cbn; [by destruct (_ <? _)|by destruct (_ <=? _)|done]. }
  induction s as [|c s IH]; intros st ty buf; cbn [scan_number_from];
    [|destruct (number_goto _ _); [apply IH|]]; destruct (number_stop st); try done; apply Hd.
Qed.
Lemma scan_current_end c s r : scan_current c s = (end_of_input, r) -> c = 0 /\ r = s.
Proof.
  intros E. assert (Hf : (scan_current c s).1 = end_of_input) by by rewrite E.
  assert (Hs : (scan_string s).1 <> end_of_input).
  { by destruct (scan_string_from_scanned (S (String.length s)) EmptyString s ltac:(lia))
      as [(b & Hb & _)|(m & Hm & _)]; unfold scan_string; rewrite ?Hb, ?Hm. }
  revert E Hf. unfold scan_current.
  repeat match goal with |- (if ?b then _ else _) = _ -> _ =>
    lazymatch b with c =? 0 => fail | _ => destruct b; [intros E Hf; exfalso|] end end;
    try done; try (by eapply scan_literal_not_end; [|exact Hf]).
  - revert Hf. unfold scan_number. destruct (scan_number_init c); [apply scan_number_from_not_end|done].
  - destruct (c =? 0) eqn:E0; [|done]. intros [= ->] _. by apply Z.eqb_eq in E0.
Qed.

Lemma scan_end s r : scan s = (end_of_input, r) <->
  exists w, ws w /\ (s = w /\ r = EmptyString \/ s = w +:+ nul +:+ r).
Proof.
  split.
  - intros E. induction s as [|c s IH].
    { injection E as <-. exists EmptyString. split; [constructor|by left]. }
    rewrite scan_cons in E. destruct (is_whitespace (byte_val c)) eqn:Hc.
    + destruct (IH E) as (w & Hw & Hs). exists (String c w).
      split; [apply Forall_cons_2; [by apply ws_whitespace|done]|].
      destruct Hs as [[-> ->]| ->]; [by left|by right].
    + exists EmptyString. split; [constructor|]. right.
      apply scan_current_end in E as [E ->]. by rewrite <-(byte_of_val c), E.
  - intros (w & Hw & [[-> ->]| ->]); [|by rewrite scan_ws].
    rewrite <-(app_str_nil_r w). by rewrite scan_ws.
Qed.
End lexemes.
