(* ===== verification/JsonRfc.v ===== *)
(** * JsonRfc: the parser against RFC 8259

    The grammar of JSON texts on characters, over the lexemes of JsonText,
    with the value each text denotes; and that the parser of JsonParse
    returns a value exactly for these texts, and exactly that value. *)

From Stdlib Require Import ZArith Ascii String Lia.
From stdpp Require Import base numbers list strings.
From S2P Require Import Prelude Json JsonLex JsonParse JsonGrammar JsonText.

Open Scope Z_scope.

(** ** The grammar *)

Section grammar.
Context `{Strtod}.

(** [ws x ws]. *)
Definition padded (x e : string) : Prop :=
  exists w w', ws w /\ ws w' /\ e = w +:+ x +:+ w'.

(** The text of a value, without the white space around it.  A number whose
    magnitude no [double] reaches denotes nothing; of several members with
    one key the last stands. *)
Inductive rfc_value : json -> string -> Prop :=
| rfc_null : rfc_value JNull "null"
| rfc_true : rfc_value (JBool true) "true"
| rfc_false : rfc_value (JBool false) "false"
| rfc_unsigned z x : number x (value_unsigned z) -> rfc_value (JInt z) x
| rfc_integer z x : number x (value_integer z) -> rfc_value (JInt z) x
| rfc_float f x : number x (value_float (Some f)) -> rfc_value (JFloat f) x
| rfc_string s t : chars t s -> rfc_value (JString s) (dq +:+ t +:+ dq)
| rfc_no_elements w : ws w -> rfc_value (JArray []) ("[" +:+ w +:+ "]")
| rfc_array l es : l <> [] ->
    Forall2 (fun j e => exists x, padded x e /\ rfc_value j x) l es ->
    rfc_value (JArray l) ("[" +:+ join "," es +:+ "]")
| rfc_no_members w : ws w -> rfc_value (JObject []) ("{" +:+ w +:+ "}")
| rfc_object kvs es : kvs <> [] ->
    Forall2 (fun kv e => exists t n x v, chars t kv.1 /\ padded (dq +:+ t +:+ dq) n
               /\ padded x v /\ rfc_value kv.2 x /\ e = n +:+ ":" +:+ v) kvs es ->
    rfc_value (obj kvs) ("{" +:+ join "," es +:+ "}").

Definition element (P : json -> string -> Prop) (j : json) (e : string) : Prop :=
  exists x, padded x e /\ P j x.
Definition member (P : json -> string -> Prop) (kv : string * json) (e : string) : Prop :=
  exists t n x v, chars t kv.1 /\ padded (dq +:+ t +:+ dq) n
    /\ padded x v /\ P kv.2 x /\ e = n +:+ ":" +:+ v.

(** A JSON text: a value with white space around it. *)
Definition rfc_text (j : json) (text : string) : Prop :=
  exists x, padded x text /\ rfc_value j x.

Lemma rfc_value_rec (P : json -> string -> Prop) :
  P JNull "null" -> P (JBool true) "true" -> P (JBool false) "false" ->
  (forall z x, number x (value_unsigned z) -> P (JInt z) x) ->
  (forall z x, number x (value_integer z) -> P (JInt z) x) ->
  (forall f x, number x (value_float (Some f)) -> P (JFloat f) x) ->
  (forall s t, chars t s -> P (JString s) (dq +:+ t +:+ dq)) ->
  (forall w, ws w -> P (JArray []) ("[" +:+ w +:+ "]")) ->
  (forall l es, l <> [] -> Forall2 (element P) l es ->
     P (JArray l) ("[" +:+ join "," es +:+ "]")) ->
  (forall w, ws w -> P (JObject []) ("{" +:+ w +:+ "}")) ->
  (forall kvs es, kvs <> [] -> Forall2 (member P) kvs es ->
     P (obj kvs) ("{" +:+ join "," es +:+ "}")) ->
  forall j x, rfc_value j x -> P j x.
Proof.
  intros Hn Ht Hf Hu Hi Hfl Hs Ha0 Ha Ho0 Ho. fix IH 3.
  intros j x [| | |z y|z y|f y|s t|w|l es Hne Hl|w|kvs es Hne Hl]; [done|done|done|by auto..| | |].
  - apply Ha; [done|]. clear -IH Hl. induction Hl as [|j e l es (x & Hp & Hv) _ IHl]; constructor;
      [|done]. exists x. split; [done|]. by apply IH.
  - by apply Ho0.
  - apply Ho; [done|]. clear -IH Hl.
    induction Hl as [|kv e kvs es (t & n & x & v & Hc & Hn & Hp & Hv & He) _ IHl]; constructor;
      [|done]. exists t, n, x, v. split_and!; try done. by apply IH.
Qed.

(** ** Every JSON text has the tokens of its value *)

Lemma ws_app a b : ws (a +:+ b) <-> ws a /\ ws b.
Proof.
  unfold ws. induction a as [|c a IH]; cbn; [rewrite Forall_nil; tauto|].
  rewrite !Forall_cons, IH. tauto.
Qed.

Lemma number_end_ws w r : ws w -> number_end r -> number_end (w +:+ r).
Proof.
  intros Hw Hr. destruct w as [|c w]; [done|]. apply Forall_cons in Hw as [Hc _].
  apply ws_whitespace in Hc. unfold is_whitespace in Hc. cbn. unfold is_digit, is_exp. lia.
Qed.

(** The tokens of a text, wherever it stands. *)
Definition has_tokens (x : string) (ts : list token) : Prop :=
  forall w r, ws w -> number_end r -> lexes (w +:+ x +:+ r) ts r.

Lemma lexeme_tokens x t : lexeme t x -> has_tokens x [t].
Proof.
  intros Hx w r Hw Hr. eapply lexes_cons; [by apply scan_complete|constructor].
Qed.

(** Punctuation does not look at what follows. *)
Lemma scan_mark w t l r : ws w -> lexeme t l -> ~ is_number t -> scan (w +:+ l +:+ r) = (t, r).
Proof. intros Hw Hl Ht. by apply scan_complete. Qed.

Lemma number_end_mark (c : string) r : c = "," \/ c = "]" \/ c = "}" \/ c = ":" -> number_end (c +:+ r).
Proof. intros Hc. destruct_or! Hc; by subst. Qed.

Lemma padded_tokens x e ts : padded x e -> has_tokens x ts ->
  exists w', ws w' /\ forall w r, ws w -> number_end r -> lexes (w +:+ e +:+ r) ts (w' +:+ r).
Proof.
  intros (w0 & w' & Hw0 & Hw' & ->) Hx. exists w'. split; [done|]. intros w r Hw Hr.
  rewrite !app_str_assoc, <-(app_str_assoc w). apply Hx; [by apply ws_app|].
  by apply number_end_ws.
Qed.

(** A text with white space behind it, which is left to the next token. *)
Definition item_tokens (e : string) (ts : list token) : Prop :=
  exists w', ws w' /\ forall w r, ws w -> number_end r -> lexes (w +:+ e +:+ r) ts (w' +:+ r).

Lemma rest_tokens es tss t c w r : Forall2 item_tokens es tss -> c = "]" \/ c = "}" ->
  lexeme t c -> ~ is_number t -> ws w ->
  lexes (w +:+ join_rest es +:+ c +:+ r) (comma_each tss ++ [t]) r.
Proof.
  intros Hes Hc Hl Ht. revert w. induction Hes as [|e ts es tss (w' & Hw' & He) _ IH]; intros w Hw.
  { cbn. eapply lexes_cons; [by apply scan_mark|constructor]. }
  cbn [join_rest]. rewrite !app_str_assoc. unfold comma_each. cbn.
  eapply lexes_cons; [apply (scan_mark w value_separator ","); [done|constructor|auto]|].
  rewrite <-(assoc_L (++)). eapply lexes_app; [|by apply (IH w')].
  apply (He EmptyString); [constructor|]. by apply number_end_rest.
Qed.

Lemma items_tokens es tss t c r : es <> [] -> Forall2 item_tokens es tss -> c = "]" \/ c = "}" ->
  lexeme t c -> ~ is_number t ->
  lexes (join "," es +:+ c +:+ r) (sep_tokens tss ++ [t]) r.
Proof.
  intros Hne Hes Hc Hl Ht. destruct Hes as [|e ts es tss (w' & Hw' & He) Hes]; [done|].
  rewrite join_cons, app_str_assoc. cbn [sep_tokens]. rewrite <-(assoc_L (++)).
  eapply lexes_app; [|by eapply (rest_tokens es tss t c w')].
  apply (He EmptyString); [constructor|]. by apply number_end_rest.
Qed.

Definition denotes (j : json) (x : string) : Prop := exists ts, value j ts /\ has_tokens x ts.

Lemma elements_tokens l es : Forall2 (element denotes) l es ->
  exists tss, Forall2 value l tss /\ Forall2 item_tokens es tss.
Proof.
  induction 1 as [|j e l es (x & Hp & ts & Hv & Hx) _ (tss & Hvs & Hes)]; [by exists []|].
  exists (ts :: tss). split; constructor; try done. by eapply padded_tokens.
Qed.

Lemma members_tokens kvs es : Forall2 (member denotes) kvs es ->
  exists tss, Forall2 (member_tokens value) kvs tss /\ Forall2 item_tokens es tss.
Proof.
  induction 1 as [|[k j] e l es (t & n & x & v & Hc & Hn & Hp & (tv & Hv & Hx) & ->) _
                   (tss & Hvs & Hes)]; [by exists []|]. cbn [fst snd] in *.
  exists ((value_string k :: name_separator :: tv) :: tss).
  split; constructor; try done; [by exists tv|].
  destruct (padded_tokens _ _ _ Hn (lexeme_tokens _ _ (lx_string _ _ Hc))) as (w1 & Hw1 & H1).
  destruct (padded_tokens _ _ _ Hp Hx) as (w2 & Hw2 & H2). exists w2. split; [done|].
  intros w r Hw Hr. rewrite !app_str_assoc.
  apply (lexes_app _ [value_string k] (w1 +:+ ":" +:+ v +:+ r)).
  - apply H1; [done|]. apply number_end_mark. tauto.
  - eapply lexes_cons; [apply scan_mark; [done|constructor|auto]|].
    apply (H2 EmptyString); [constructor|done].
Qed.

Lemma bracketed_tokens w r t0 o y ts : lexeme t0 o -> ~ is_number t0 -> ws w ->
  lexes (y +:+ r) ts r -> lexes (w +:+ (o +:+ y) +:+ r) (t0 :: ts) r.
Proof.
  intros Ho Ht Hw Hy. rewrite app_str_assoc. eapply lexes_cons; [by apply scan_mark|done].
Qed.

Lemma rfc_value_denotes j x : rfc_value j x -> denotes j x.
Proof.
  assert (Hone : forall j t x, value j [t] -> lexeme t x -> denotes j x).
  { intros j' t y Hv Hl. exists [t]. split; [done|]. by apply lexeme_tokens. }
  induction 1 as [| | |z x Hx|z x Hx|f x Hx|s t Ht|w0 Hw0|l es Hne Hl|w0 Hw0|kvs es Hne Hl]
    using rfc_value_rec; try (by eapply Hone; constructor).
  - exists [begin_array; end_array]. split; [apply (value_array [] []); constructor|].
    intros w r Hw Hr. apply bracketed_tokens; [constructor|auto|done|]. rewrite app_str_assoc.
    eapply lexes_cons; [apply scan_mark; [done|constructor|auto]|constructor].
  - destruct (elements_tokens _ _ Hl) as (tss & Hv & Hes).
    exists (begin_array :: sep_tokens tss ++ [end_array]). split; [by constructor|].
    intros w r Hw Hr. apply bracketed_tokens; [constructor|auto|done|]. rewrite app_str_assoc.
    apply items_tokens; [by destruct Hl|done|auto|constructor|auto].
  - exists [begin_object; end_object]. split; [apply (value_object [] []); constructor|].
    intros w r Hw Hr. apply bracketed_tokens; [constructor|auto|done|]. rewrite app_str_assoc.
    eapply lexes_cons; [apply scan_mark; [done|constructor|auto]|constructor].
  - destruct (members_tokens _ _ Hl) as (tss & Hv & Hes).
    exists (begin_object :: sep_tokens tss ++ [end_object]). split; [by constructor|].
    intros w r Hw Hr. apply bracketed_tokens; [constructor|auto|done|]. rewrite app_str_assoc.
    apply items_tokens; [by destruct Hl|done|auto|constructor|auto].
Qed.

(** ** The tokens of a value are read from a JSON text only *)

Lemma number_is_number x t : number x t -> is_number t.
Proof. intros []. apply number_token_number. Qed.

Lemma lexeme_inv t l : lexeme t l ->
  match t with
  | begin_array => l = "[" | end_array => l = "]" | begin_object => l = "{"
  | end_object => l = "}" | name_separator => l = ":" | value_separator => l = ","
  | literal_true => l = "true" | literal_false => l = "false" | literal_null => l = "null"
  | value_string o => exists x, l = dq +:+ x +:+ dq /\ chars x o
  | value_unsigned _ | value_integer _ | value_float _ => number l t
  | _ => False
  end.
Proof.
  intros Hl. destruct Hl as [| | | | | | | | |x o Hx|x t Hx]; try done; [by exists x|].
  pose proof (number_is_number _ _ Hx). by destruct t.
Qed.

Lemma scan_mark_inv s t r c : scan s = (t, r) -> last_of_input t = false ->
  (forall l, lexeme t l -> l = c) -> exists w, s = w +:+ c +:+ r /\ ws w.
Proof.
  intros E Ht Hc. destruct (scan_sound s t r E Ht) as (w & l & -> & Hw & Hl).
  rewrite (Hc l Hl). by exists w.
Qed.

(** What the tokens [ts] are read from, up to white space before it. *)
Definition read_from (Q : string -> Prop) (ts : list token) : Prop :=
  forall s r, lexes s ts r -> exists w x, s = w +:+ x +:+ r /\ ws w /\ Q x.

Lemma read_from_lexeme (Q : string -> Prop) t :
  last_of_input t = false -> (forall l, lexeme t l -> Q l) -> read_from Q [t].
Proof.
  intros Ht HQ s r (s1 & E & ->%lexes_nil_inv)%lexes_cons_inv.
  destruct (scan_sound _ _ _ E Ht) as (w & l & -> & Hw & Hl). exists w, l. auto.
Qed.

Lemma rest_read {A} (Q : A -> string -> Prop) l tss t c :
  Forall2 (fun a ts => read_from (Q a) ts) l tss ->
  last_of_input t = false -> (forall x, lexeme t x -> x = c) ->
  forall s r, lexes s (comma_each tss ++ [t]) r ->
  exists w es, s = w +:+ join_rest es +:+ c +:+ r /\ ws w
    /\ Forall2 (fun a e => exists x, padded x e /\ Q a x) l es.
Proof.
  intros Hl Ht Hc. induction Hl as [|a ts l tss Ha _ IH]; intros s r Hs.
  - apply lexes_cons_inv in Hs as (s1 & E & ->%lexes_nil_inv).
    destruct (scan_mark_inv _ _ _ c E Ht Hc) as (w & -> & Hw). by exists w, [].
  - unfold comma_each in Hs. cbn in Hs. apply lexes_cons_inv in Hs as (s1 & E & Hs).
    destruct (scan_mark_inv _ _ _ "," E) as (w & -> & Hw);
      [done|by intros x Hx%lexeme_inv|]. rewrite <-(assoc_L (++)) in Hs.
    apply lexes_app_inv in Hs as (s2 & Hs1 & Hs2).
    destruct (Ha _ _ Hs1) as (w1 & x & -> & Hw1 & Hx).
    destruct (IH _ _ Hs2) as (w2 & es & -> & Hw2 & Hes).
    exists w, ((w1 +:+ x +:+ w2) :: es).
    split; [cbn [join_rest]; by rewrite !app_str_assoc|]. split; [done|].
    constructor; [|done]. exists x. split; [by exists w1, w2|done].
Qed.

Lemma items_read {A} (Q : A -> string -> Prop) l tss t c s r :
  Forall2 (fun a ts => read_from (Q a) ts) l tss -> l <> [] ->
  last_of_input t = false -> (forall x, lexeme t x -> x = c) ->
  lexes s (sep_tokens tss ++ [t]) r ->
  exists es, s = join "," es +:+ c +:+ r
    /\ Forall2 (fun a e => exists x, padded x e /\ Q a x) l es.
Proof.
  intros Hl Hne Ht Hc Hs. destruct Hl as [|a ts l tss Ha Hl]; [done|].
  cbn [sep_tokens] in Hs. rewrite <-(assoc_L (++)) in Hs.
  apply lexes_app_inv in Hs as (s2 & Hs1 & Hs2).
  destruct (Ha _ _ Hs1) as (w1 & x & -> & Hw1 & Hx).
  destruct (rest_read Q l tss t c Hl Ht Hc _ _ Hs2) as (w2 & es & -> & Hw2 & Hes).
  exists ((w1 +:+ x +:+ w2) :: es). split; [by rewrite join_cons, !app_str_assoc|].
  constructor; [|done]. exists x. split; [by exists w1, w2|done].
Qed.

(** A member without the white space around it. *)
Definition bare_member (kv : string * json) (e : string) : Prop :=
  exists t w w' x, chars t kv.1 /\ ws w /\ ws w' /\ rfc_value kv.2 x
    /\ e = (dq +:+ t +:+ dq) +:+ w +:+ ":" +:+ w' +:+ x.

Lemma padded_member kv e0 e : padded e0 e -> bare_member kv e0 -> member rfc_value kv e.
Proof.
  intros (w1 & w2 & Hw1 & Hw2 & ->) (t & w & w' & x & Ht & Hw & Hw' & Hx & ->).
  exists t, (w1 +:+ (dq +:+ t +:+ dq) +:+ w), x, (w' +:+ x +:+ w2).
  split_and!; [done|by exists w1, w|by exists w', w2|done|]. by rewrite !app_str_assoc.
Qed.

Lemma member_read kv ts :
  member_tokens (fun j => read_from (rfc_value j)) kv ts -> read_from (bare_member kv) ts.
Proof.
  intros (tv & -> & Hv) s r (s1 & E & (s2 & E2 & Hs)%lexes_cons_inv)%lexes_cons_inv.
  destruct (scan_sound _ _ _ E eq_refl) as (w1 & l & -> & Hw1 & (t & -> & Ht)%lexeme_inv).
  destruct (scan_mark_inv _ _ _ ":" E2) as (w & -> & Hw);
    [done|by intros x Hx%lexeme_inv|].
  destruct (Hv _ _ Hs) as (w' & x & -> & Hw' & Hx).
  exists w1, ((dq +:+ t +:+ dq) +:+ w +:+ ":" +:+ w' +:+ x).
  split; [by rewrite !app_str_assoc|]. split; [done|]. by exists t, w, w', x.
Qed.

(** An opening mark, and what is behind it. *)
Lemma read_from_bracketed (Q : string -> Prop) t o ts :
  last_of_input t = false -> (forall x, lexeme t x -> x = o) ->
  (forall s r, lexes s ts r -> exists y, s = y +:+ r /\ Q (o +:+ y)) -> read_from Q (t :: ts).
Proof.
  intros Ht Ho Hs s r (s1 & E & Hs1)%lexes_cons_inv.
  destruct (scan_mark_inv _ _ _ o E Ht Ho) as (w & -> & Hw).
  destruct (Hs _ _ Hs1) as (y & -> & HQ). exists w, (o +:+ y).
  by rewrite !app_str_assoc.
Qed.

Lemma empty_read t c s r : last_of_input t = false -> (forall x, lexeme t x -> x = c) ->
  lexes s (sep_tokens [] ++ [t]) r -> exists w, s = (w +:+ c) +:+ r /\ ws w.
Proof.
  intros Ht Hc (s1 & E & ->%lexes_nil_inv)%lexes_cons_inv.
  destruct (scan_mark_inv _ _ _ c E Ht Hc) as (w & -> & Hw). exists w.
  by rewrite app_str_assoc.
Qed.

Lemma value_read j ts : value j ts -> read_from (rfc_value j) ts.
Proof.
  induction 1 as [| | |z|z|f|x|l tss Hval Hl|kvs tss Hl] using value_rec.
  1-7: apply read_from_lexeme; [done|]; intros y Hy; apply lexeme_inv in Hy; cbn in Hy.
  1-3: subst y; constructor.
  1: by apply rfc_integer.
  1: by apply rfc_unsigned.
  1: by apply rfc_float.
  1: destruct Hy as (t & -> & Ht); by constructor.
  - apply read_from_bracketed with (o := "["); [done|by intros y Hy%lexeme_inv|].
    intros s r Hs. destruct Hl as [|j ts l tss Hj Hl].
    + destruct (empty_read end_array "]" s r) as (w & -> & Hw); [done|by intros y Hy%lexeme_inv|done|].
      exists (w +:+ "]"). split; [done|by constructor].
    + destruct (items_read rfc_value (j :: l) (ts :: tss) end_array "]" s r) as (es & -> & Hes);
        [by constructor|done|done|by intros y Hy%lexeme_inv|done|].
      exists (join "," es +:+ "]"). split; [by rewrite app_str_assoc|]. by constructor.
  - apply read_from_bracketed with (o := "{"); [done|by intros y Hy%lexeme_inv|].
    intros s r Hs. destruct Hl as [|kv ts kvs tss Hj Hl].
    + destruct (empty_read end_object "}" s r) as (w & -> & Hw); [done|by intros y Hy%lexeme_inv|done|].
      exists (w +:+ "}"). split; [done|by constructor].
    + destruct (items_read bare_member (kv :: kvs) (ts :: tss) end_object "}" s r) as (es & -> & Hes);
        [|done|done|by intros y Hy%lexeme_inv|done|].
      * constructor; [by apply member_read|]. eapply Forall2_impl; [exact Hl|].
        intros ? ?. apply member_read.
      * exists (join "," es +:+ "}"). split; [by rewrite app_str_assoc|].
        apply rfc_object; [done|]. eapply Forall2_impl; [exact Hes|].
        intros kv' e (e0 & Hp & Hb). by apply (padded_member kv' e0).
Qed.
End grammar.

(** ** The property *)

(** The byte order mark. *)
Definition bom : string :=
  String (ascii_of_nat 239) (String (ascii_of_nat 187) (String (ascii_of_nat 191) EmptyString)).

Lemma skip_bom_spec input s : skip_bom input = Some s <->
  input = bom +:+ s
  \/ input = s /\ match s with String c _ => byte_val c <> 239 | EmptyString => True end.
Proof.
  assert (Hb : forall c (n : nat), (n < 256)%nat -> byte_val c = Z.of_nat n -> c = ascii_of_nat n).
  { intros c n Hn E. rewrite <-(byte_of_val c), E. unfold byte_of, ascii_of_nat.
    rewrite Z.mod_small by lia. f_equal. lia. }
  split.
  - unfold skip_bom. destruct input as [|a s1]; cbn [get]; [intros [= <-]; by right|].
    destruct (byte_val a =? 239) eqn:Ea; [|intros [= <-]; right; split; [done|lia]].
    destruct s1 as [|b s2]; cbn [get]; [done|]. destruct (byte_val b =? 187) eqn:Eb; cbn [negb]; [|done].
    destruct s2 as [|c s3]; cbn [get]; [done|]. destruct (byte_val c =? 191) eqn:Ec; [|done].
    intros [= <-]. left. apply Z.eqb_eq in Ea, Eb, Ec.
    rewrite (Hb a 239%nat), (Hb b 187%nat), (Hb c 191%nat) by (done || lia). done.
  - intros [-> |[-> Hs]]; [done|]. destruct s as [|c s]; [done|]. cbn.
    by rewrite (proj2 (Z.eqb_neq _ _) Hs).
Qed.

Section theorem.
Context `{Strtod}.

Lemma rfc_value_ascii j x : rfc_value j x -> exists c y, x = String c y /\ byte_val c < 128.
Proof.
  assert (Hnum : forall x t, number x t -> exists c y, x = String c y /\ byte_val c < 128).
  { intros y t [neg i f e Hi _ _]. destruct (int_part_digits i Hi) as (d & ds & -> & Hd & _).
    destruct neg; [by exists "-"%char, (String d ds +:+ f +:+ e)|].
    exists d, (ds +:+ f +:+ e). split; [done|]. unfold is_digit in Hd. lia. }
  intros []; eauto; by eexists _, _.
Qed.

Lemma rfc_text_no_bom j text tail : rfc_text j text ->
  match text +:+ tail with String c _ => byte_val c <> 239 | EmptyString => True end.
Proof.
  intros (x & (w & w' & Hw & _ & ->) & (c & y & -> & Hc)%rfc_value_ascii).
  destruct w as [|a w]; cbn; [lia|]. apply Forall_cons in Hw as [Ha _].
  apply ws_whitespace in Ha. unfold is_whitespace in Ha. lia.
Qed.

(** The end of what the parser looks at. *)
Definition ends (tail : string) : Prop := tail = EmptyString \/ exists rest, tail = nul +:+ rest.

Lemma number_end_ends w tail : ws w -> ends tail -> number_end (w +:+ tail).
Proof. intros Hw [-> | [rest ->]]; by apply number_end_ws. Qed.

(** The input up to its end or to a NUL byte and without a byte order mark. *)
Definition read_as (j : json) (input : string) : Prop :=
  exists text tail, (input = text +:+ tail \/ input = bom +:+ text +:+ tail)
    /\ ends tail /\ rfc_text j text.

Lemma parse_rfc_sound input j : parse input = Some (Parsed j) -> read_as j input.
Proof.
  intros (ts & (s & s1 & s2 & Hb & Hl & He) & Hv)%parse_sound.
  destruct (value_read j ts Hv s s1 Hl) as (w & x & -> & Hw & Hx).
  apply scan_end in He as (w' & Hw' & Htail).
  assert (exists tail, s1 = w' +:+ tail /\ ends tail) as (tail & -> & Ht).
  { destruct Htail as [[-> ->]| ->].
    - exists EmptyString. rewrite app_str_nil_r. by split; [|left].
    - exists (nul +:+ s2). split; [done|right; eauto]. }
  exists (w +:+ x +:+ w'), tail. rewrite !app_str_assoc. split_and!; [|done|].
  + apply skip_bom_spec in Hb as [-> |[-> _]]; auto.
  + exists x. split; [by exists w, w'|done].
Qed.

Lemma parse_rfc_complete input j : read_as j input -> parse input = Some (Parsed j).
Proof.
  intros (text & tail & Hin & Ht & Hr).
  pose proof (rfc_text_no_bom j text tail Hr) as Hnb.
  destruct Hr as (x & (w & w' & Hw & Hw' & ->) & Hx).
  destruct (rfc_value_denotes j x Hx) as (ts & Hv & Htok).
  eapply parse_complete; [|exact Hv].
  assert (exists s2, scan (w' +:+ tail) = (end_of_input, s2)) as [s2 Hend].
  { destruct Ht as [-> |[rest ->]].
    - exists EmptyString. apply scan_end. exists w'. rewrite app_str_nil_r. auto.
    - exists rest. apply scan_end. exists w'. auto. }
  exists ((w +:+ x +:+ w') +:+ tail), (w' +:+ tail), s2. split; [|split; [|done]].
  + apply skip_bom_spec. destruct Hin as [-> | ->]; auto.
  + rewrite !app_str_assoc. apply Htok; [done|by apply number_end_ends].
Qed.

(** *** What is read is UTF-8 *)

Ltac ascii_tac := unfold ascii7; cbn; repeat (apply Forall_cons_2; [done|]); apply Forall_nil_2.

Lemma digits_ascii s : all_digits s -> ascii7 s.
Proof. intros Hs. eapply Forall_impl; [exact Hs|]. intros c. cbn. unfold is_digit. lia. Qed.

Lemma ws_ascii w : ws w -> ascii7 w.
Proof.
  intros Hw. eapply Forall_impl; [exact Hw|]. intros c. cbn.
  rewrite !elem_of_cons, elem_of_nil. lia.
Qed.

Lemma hex4_ascii h z : hex4 h z -> ascii7 h.
Proof.
  assert (forall c d, hex_digit c d -> byte_val c < 128) as Hd.
  { intros c d [c' Hc|c' Hc|c' Hc]; unfold in_range in Hc; lia. }
  intros [a b c d x y u v Ha Hb Hc He]. unfold ascii7. cbn.
  repeat apply Forall_cons_2; try apply Forall_nil_2; by eapply Hd.
Qed.

Lemma number_ascii x t : number x t -> ascii7 x.
Proof.
  assert (forall c s, byte_val c < 128 -> ascii7 s -> ascii7 (String c s)) as Hc
    by (intros; by apply Forall_cons_2).
  intros [neg i f e Hi Hf He]. rewrite !ascii7_app. split_and!.
  - destruct neg; ascii_tac.
  - destruct Hi as [|d ds Hd Hds]; [ascii_tac|]. apply Hc; [unfold in_range in Hd; lia|].
    by apply digits_ascii.
  - destruct Hf as [|ds [_ Hds]]; [ascii_tac|]. apply Hc; [done|]. by apply digits_ascii.
  - destruct He as [|e sg ds He Hsg [_ Hds]]; [ascii_tac|]. rewrite !ascii7_app.
    split_and!; [destruct He; subst; ascii_tac|destruct_or! Hsg; subst; ascii_tac|].
    by apply digits_ascii.
Qed.

Lemma rfc_chars_utf8 t o : chars t o -> utf8 t.
Proof.
  induction 1 as [|c t o Hc _ _ _ IH|x t o Hx _ IH|c b t o Hb _ IH|e cp t o He _ IH].
  - constructor.
  - apply utf8_1; [unfold in_range in *; lia|done].
  - apply utf8_app; [|done]. destruct Hx; [apply utf8_2|apply utf8_3|apply utf8_4];
      (done || constructor).
  - apply utf8_app; [by apply ascii7_utf8; ascii_tac|]. apply utf8_1; [|done].
    unfold escapes in Hb. rewrite !elem_of_cons, elem_of_nil in Hb. unfold in_range.
    destruct_or! Hb; simplify_eq; lia.
  - apply utf8_app; [by apply ascii7_utf8; ascii_tac|]. apply utf8_app; [by apply ascii7_utf8; ascii_tac|].
    apply utf8_app; [|done]. apply ascii7_utf8.
    destruct He as [h cp Hh _|h1 h2 high low H1 H2 _ _]; [by eapply hex4_ascii|].
    rewrite !ascii7_app. split_and!; try (by eapply hex4_ascii); ascii_tac.
Qed.

Lemma padded_utf8 x e : utf8 x -> padded x e -> utf8 e.
Proof.
  intros Hx (w & w' & Hw & Hw' & ->). apply ws_ascii, ascii7_utf8 in Hw, Hw'.
  by repeat apply utf8_app.
Qed.

Lemma join_utf8 es : Forall utf8 es -> utf8 (join "," es).
Proof.
  destruct 1 as [|e es He Hes]; [constructor|]. rewrite join_cons. apply utf8_app; [done|].
  induction Hes as [|x es Hx _ IH]; cbn [join_rest]; [constructor|].
  apply utf8_app; [by apply ascii7_utf8; ascii_tac|]. by apply utf8_app.
Qed.

Lemma wrapped_utf8 a x b : ascii7 a -> ascii7 b -> utf8 x -> utf8 (a +:+ x +:+ b).
Proof. intros Ha%ascii7_utf8 Hb%ascii7_utf8 Hx. by repeat apply utf8_app. Qed.

Lemma rfc_value_utf8 j x : rfc_value j x -> utf8 x.
Proof.
  revert j x. apply (rfc_value_rec (fun _ x => utf8 x));
    try (intros; by apply ascii7_utf8; ascii_tac);
    try (intros; eapply ascii7_utf8, number_ascii; done).
  - intros s t Ht. apply wrapped_utf8; [ascii_tac..|]. by eapply rfc_chars_utf8.
  - intros w Hw. apply wrapped_utf8; [ascii_tac..|]. by apply ascii7_utf8, ws_ascii.
  - intros l es _ Hl. apply wrapped_utf8; [ascii_tac..|]. apply join_utf8.
    induction Hl as [|j e l es (x & Hp & Hx) _ IH]; constructor; [by eapply padded_utf8|done].
  - intros w Hw. apply wrapped_utf8; [ascii_tac..|]. by apply ascii7_utf8, ws_ascii.
  - intros kvs es _ Hl. apply wrapped_utf8; [ascii_tac..|]. apply join_utf8.
    induction Hl as [|kv e kvs es (t & n & x & v & Hc & Hn & Hp & Hx & ->) _ IH];
      constructor; [|done].
    apply utf8_app; [eapply padded_utf8; [|exact Hn]|].
    + apply wrapped_utf8; [ascii_tac..|]. by eapply rfc_chars_utf8.
    + apply utf8_app; [by apply ascii7_utf8; ascii_tac|]. by eapply padded_utf8.
Qed.

(** An input without a NUL byte is read only if it is UTF-8. *)
Lemma read_as_utf8 j input : no_char (ascii_of_nat 0) input -> read_as j input -> utf8 input.
Proof.
  intros Hn (text & tail & Hin & Ht & (x & Hp & Hx)).
  apply rfc_value_utf8 in Hx. pose proof (padded_utf8 _ _ Hx Hp) as Hu.
  assert (tail = EmptyString) as ->.
  { destruct Ht as [->|[rest ->]]; [done|exfalso].
    destruct Hin as [->| ->]; rewrite ?no_char_app in Hn; unfold nul in Hn; cbn in Hn; tauto. }
  rewrite app_str_nil_r in Hin. destruct Hin as [->| ->]; [done|].
  apply utf8_app; [|done]. apply (accepts_utf8 4); [cbn; lia|by vm_compute].
Qed.

(** C10: The parser accepts exactly the JSON texts of RFC 8259, character by
    character: on every input it returns a value or throws, and it returns
    [j] exactly if the input, up to its end or to a NUL byte and without a
    byte order mark, is a text that the grammar derives for [j]: white space
    between the tokens; strings of UTF-8 characters and of escapes, surrogate
    pairs combined; numbers without superfluous zeros, as integers when they
    have neither fraction nor exponent and fit 64 bits, else rounded to a
    finite floating-point number; of several members with one key the last. *)
Theorem parse_iff_rfc8259 input :
  (forall j, parse input = Some (Parsed j) <->
     exists text tail, (input = text +:+ tail \/ input = bom +:+ text +:+ tail)
       /\ ends tail /\ rfc_text j text)
  /\ ((exists j, parse input = Some (Parsed j)) \/ (exists e, parse input = Some (Thrown e))).
Proof.
  split.
  - intros j. split; [apply parse_rfc_sound|apply parse_rfc_complete].
  - destruct (parse_result input) as ([j|e|] & -> & Ho); [left|right|done]; eauto.
Qed.
End theorem.

(** Two texts at the edges of the grammar: an escaped surrogate pair, and a
    number that does not fit 64 bits; and the quirk of the NUL byte. *)
Example parse_pair : @parse sample_strtod (quoted (backslash +:+ "ud83d" +:+ backslash +:+ "uDE00"))
  = Some (Parsed (JString (utf8_of 128512))).
Proof. by vm_compute. Qed.
Example parse_nul : @parse sample_strtod ("[ 1 ]" +:+ nul +:+ "}") = Some (Parsed (JArray [JInt 1])).
Proof. by vm_compute. Qed.
