(* ===== verification/JsonWrite.v ===== *)
(** * JsonWrite: what the writers write is JSON

    The two ways in which the daemon writes JSON, the serializer of its JSON
    library and text put together by hand around [json_escape], against the
    grammar of JsonRfc; and the contract of the library towards the daemon,
    which the library of ModuleJson fulfils. *)

From Stdlib Require Import ZArith Ascii String Lia.
From stdpp Require Import base numbers list strings.
From S2P Require Import Prelude Json JsonLex JsonParse JsonGrammar JsonText JsonRfc.

Open Scope Z_scope.

(** ** Strings *)

Lemma dump_escaped_chars s e : dump_escaped s = Some e -> chars e s.
Proof.
  intros He. assert (Hs : utf8 s) by (apply dump_escaped_utf8; eauto).
  destruct (scan_string_sound (e +:+ dq +:+ EmptyString) s EmptyString) as (t & Ht & Hc).
  - unfold scan_string. by rewrite (scan_string_dump s Hs EmptyString e EmptyString He).
  - rewrite !app_str_nil_r in Ht. apply app_str_inj_r in Ht as ->. done.
Qed.

(** The escaper, one 7-bit character at a time, run through the scanner. *)
Definition ascii_chars : list ascii := byte_of <$> seqZ 0 128.
Lemma escape_ascii_check :
  forallb (fun c => match scan_string_from EmptyString (escape_char c +:+ dq) with
                    | (value_string v, EmptyString) => str_eqb v (String c EmptyString)
                    | _ => false
                    end) ascii_chars = true.
Proof. by vm_compute. Qed.

Lemma escape_ascii c : byte_val c <= 127 -> chars (escape_char c) (String c EmptyString).
Proof.
  intros Hc. pose proof (proj1 (forallb_forall _ _) escape_ascii_check c) as E.
  destruct (scan_string_from EmptyString (escape_char c +:+ dq)) as [t r] eqn:Es.
  assert (Hin : In c ascii_chars).
  { apply list_elem_of_In, list_elem_of_fmap. exists (byte_val c). rewrite byte_of_val.
    split; [done|]. apply elem_of_seqZ. pose proof (byte_val_bound c). lia. }
  specialize (E Hin). cbv beta in E. rewrite Es in E.
  destruct t; try discriminate E. destruct r; [|discriminate E].
  apply str_eqb_true in E as ->.
  destruct (scan_string_sound _ _ _ Es) as (t & Ht & Hch).
  rewrite !app_str_nil_r in Ht. apply app_str_inj_r in Ht as ->. done.
Qed.

Lemma escape_high c : 128 <= byte_val c -> escape_char c = String c EmptyString.
Proof.
  intros Hc. unfold escape_char.
  repeat match goal with |- context [if ?b then _ else _] => destruct b eqn:?; try lia end. done.
Qed.

Lemma chars_json_escape s : utf8 s -> chars (json_escape s) s.
Proof.
  induction 1 as [|a s Ha _ IH|a b s Ha Hb _ IH|a b c s Hab Hc _ IH|a b c d s Hab Hc Hd _ IH];
    cbn [json_escape]; [constructor|..]; unfold in_range in *.
  - apply (chars_app _ (String a EmptyString)); [apply escape_ascii; lia|done].
  - rewrite !escape_high by lia.
    apply (chars_multi (String a (String b EmptyString))); [by constructor; unfold in_range|done].
  - rewrite !escape_high by lia.
    apply (chars_multi (String a (String b (String c EmptyString))));
      [by constructor; unfold in_range|done].
  - rewrite !escape_high by lia.
    apply (chars_multi (String a (String b (String c (String d EmptyString)))));
      [by constructor; unfold in_range|done].
Qed.

(** Text that stands for itself between quotes. *)
Definition verbatim (c : ascii) : bool :=
  (32 <=? byte_val c) && (byte_val c <=? 127) && negb (byte_val c =? 34)
  && negb (byte_val c =? 92).
Lemma chars_verbatim s : forallb verbatim (String.list_ascii_of_string s) = true -> chars s s.
Proof.
  induction s as [|c s IH]; cbn [String.list_ascii_of_string forallb]; [constructor|].
  intros [Hc Hs]%andb_true_iff. unfold verbatim in Hc.
  apply chars_plain; [unfold in_range; lia..|auto].
Qed.

Section write.
Context `{Strtod}.

(** A text of some value, and one of an object's members. *)
Definition json_text (x : string) : Prop := exists j, rfc_text j x.
Definition member_text (e : string) : Prop :=
  exists k t v, chars k t /\ json_text v /\ e = «k» +:+ ":" +:+ v.

Lemma value_text j x : rfc_value j x -> json_text x.
Proof.
  intros Hv. exists j, x. split; [|done]. exists EmptyString, EmptyString.
  split_and!; [constructor|constructor|]. by rewrite app_str_nil_r.
Qed.

Lemma string_text t s : chars t s -> json_text «t».
Proof. intros Ht. eapply value_text. by apply rfc_string. Qed.

Lemma bool_text (b : bool) : json_text (if b then "true" else "false").
Proof. destruct b; eapply value_text; constructor. Qed.

Lemma show_Z_text z : - 2 ^ 63 <= z < 2 ^ 64 -> json_text (show_Z z).
Proof.
  intros Hz. pose proof (scan_show_Z z EmptyString Hz I) as E.
  assert (Hl : last_of_input (int_token z) = false) by (unfold int_token; by destruct (z <? 0)).
  destruct (scan_sound _ _ _ E Hl) as (w & l & Hs & Hw & Hlex).
  rewrite !app_str_nil_r in Hs. rewrite Hs.
  exists (JInt z), l. split; [exists w, EmptyString; rewrite app_str_nil_r;
    split_and!; [done|constructor|done]|].
  unfold int_token in Hlex. destruct (z <? 0); inversion Hlex; subst;
    [by apply rfc_integer|by apply rfc_unsigned].
Qed.

Lemma texts_values es : Forall json_text es -> exists l, Forall2 (element rfc_value) l es.
Proof.
  induction 1 as [|e es [j (x & Hp & Hv)] _ [l Hl]]; [by exists []|].
  exists (j :: l). constructor; [by exists x|done].
Qed.

Lemma array_text es : Forall json_text es -> json_text ("[" +:+ join "," es +:+ "]").
Proof.
  intros [l Hl]%texts_values. destruct Hl as [|j e l es He Hl].
  - eapply value_text. apply (rfc_no_elements EmptyString). constructor.
  - eapply value_text. apply (rfc_array (j :: l)); [done|]. by constructor.
Qed.

Lemma texts_members es : Forall member_text es -> exists l, Forall2 (member rfc_value) l es.
Proof.
  induction 1 as [|e es (k & t & v & Hk & [j (x & Hp & Hv)] & ->) _ [l Hl]]; [by exists []|].
  exists ((t, j) :: l). constructor; [|done]. exists k, «k», x, v. split_and!; try done.
  exists EmptyString, EmptyString. split_and!; [constructor|constructor|by rewrite app_str_nil_r].
Qed.

Lemma object_text es : Forall member_text es -> json_text ("{" +:+ join "," es +:+ "}").
Proof.
  intros [l Hl]%texts_members. destruct Hl as [|kv e l es He Hl].
  - eapply value_text. apply (rfc_no_members EmptyString). constructor.
  - eapply value_text. apply (rfc_object (kv :: l)); [done|]. by constructor.
Qed.

(** A text can also be recognised by running the parser on it. *)
Definition no_nul (s : string) : bool :=
  forallb (fun c => negb (byte_val c =? 0)) (String.list_ascii_of_string s).
Definition recognised (s : string) : bool :=
  no_nul s && match s with String c _ => byte_val c <? 128 | EmptyString => false end
  && match parse s with Some (Parsed _) => true | _ => false end.

Lemma no_nul_app a b : no_nul (a +:+ b) = no_nul a && no_nul b.
Proof.
  unfold no_nul. induction a as [|c a IH]; [done|]. cbn. by rewrite IH, andb_assoc.
Qed.

Lemma recognised_text s : recognised s = true -> json_text s.
Proof.
  unfold recognised. intros [[Hn Ha]%andb_true_iff Hp]%andb_true_iff.
  destruct (parse s) as [[j| |]|] eqn:E; try done.
  apply parse_rfc_sound in E as (text & tail & Hin & He & Hr). exists j.
  assert (s = text +:+ tail) as ->.
  { destruct Hin as [|E]; [done|]. rewrite E in Ha. by cbn in Ha. }
  destruct He as [-> |[rest ->]]; [by rewrite app_str_nil_r|].
  rewrite !no_nul_app in Hn. apply andb_true_iff in Hn as [_ Hn]. by cbn in Hn.
Qed.
End write.

(** ** The serializer *)

Section dump.
Context `{JsonLib} `{Strtod}.

(** The rendering of the number is a number. *)
Definition float_text (f : Z) : Prop :=
  exists g, number (dump_float f) (value_float (Some g)).

(** Values whose numbers fit their types. *)
Inductive sendable : json -> Prop :=
| send_null : sendable JNull
| send_bool b : sendable (JBool b)
| send_int z : - 2 ^ 63 <= z < 2 ^ 64 -> sendable (JInt z)
| send_float f : float_text f -> sendable (JFloat f)
| send_string s : sendable (JString s)
| send_array l : Forall sendable l -> sendable (JArray l)
| send_object kvs : Forall (fun kv => sendable kv.2) kvs -> sendable (JObject kvs).

Lemma sendable_rec' (P : json -> Prop) :
  P JNull -> (forall b, P (JBool b)) -> (forall z, - 2 ^ 63 <= z < 2 ^ 64 -> P (JInt z)) ->
  (forall f, float_text f -> P (JFloat f)) -> (forall s, P (JString s)) ->
  (forall l, Forall P l -> P (JArray l)) ->
  (forall kvs, Forall (fun kv => P kv.2) kvs -> P (JObject kvs)) ->
  forall j, sendable j -> P j.
Proof.
  intros Hn Hb Hi Hf Hs Ha Ho. fix IH 2. intros j [|b|z ?|f ?|s|l Hl|kvs Hl]; [by auto..| |].
  - apply Ha. clear -IH Hl. induction Hl; constructor; auto.
  - apply Ho. clear -IH Hl. induction Hl as [|[k v] kvs ? _ ?]; constructor; auto.
Qed.

(** Whatever [dump] writes is the text of a value. *)
Lemma dump_text j : sendable j -> forall x, dump j = Some x -> json_text x.
Proof.
  induction 1 as [|b|z Hz|f [g Hg]|s|l Hl|kvs Hl] using sendable_rec'; intros x Hx.
  - injection Hx as <-. eapply value_text. constructor.
  - injection Hx as <-. apply bool_text.
  - injection Hx as <-. by apply show_Z_text.
  - injection Hx as <-. eapply value_text. by apply rfc_float.
  - revert Hx. cbn [dump]. unfold dump_string. destruct (dump_escaped s) as [e|] eqn:E; [|done].
    intros [= <-]. eapply string_text. by apply dump_escaped_chars.
  - apply dump_array_inv in Hx as (es & Hes & ->). apply array_text.
    clear -Hes Hl. induction Hes as [|v e l es Hd _ IH]; [constructor|].
    apply Forall_cons in Hl as [Hv Hl]. constructor; auto.
  - apply dump_object_inv in Hx as (es & Hes & ->). apply object_text.
    clear -Hes Hl. induction Hes as [|[k v] e l es (dk & dv & Hk & Hv & ->) _ IH]; [constructor|].
    apply Forall_cons in Hl as [Hj Hl]. constructor; [|auto]. cbn [fst snd] in *.
    revert Hk. unfold dump_string. destruct (dump_escaped k) as [t|] eqn:Et; [|done].
    intros [= <-]. exists t, k, dv. split_and!; [by apply dump_escaped_chars|by apply Hj|done].
Qed.

Lemma obj_sendable kvs : Forall (fun kv => sendable kv.2) kvs -> sendable (obj kvs).
Proof.
  intros Hk. apply send_object.
  assert (forall acc, Forall (fun kv => sendable kv.2) acc ->
    Forall (fun kv => sendable kv.2) (fold_left (fun o kv => obj_set kv.1 kv.2 o) kvs acc)) as Hf.
  { induction Hk as [|[k v] kvs Hv _ IH]; intros acc Ha; [done|]. apply IH.
    by apply smap_set_Forall. }
  by apply Hf.
Qed.

(** *** What the grammar reads can be sent on *)

Lemma decimal_nonneg s : forall acc, 0 <= acc -> all_digits s -> 0 <= decimal acc s.
Proof.
  induction s as [|c s IH]; intros acc Ha Hs; [done|]. apply Forall_cons in Hs as [Hc Hs].
  cbn [decimal]. apply IH; [unfold is_digit in Hc; lia|done].
Qed.

Lemma number_range x t z : number x t -> t = value_unsigned z \/ t = value_integer z ->
  - 2 ^ 63 <= z < 2 ^ 64.
Proof.
  intros [neg i f e Hi _ _] Ht. unfold number_token in Ht.
  destruct (int_part_digits i Hi) as (_ & _ & _ & _ & Hd).
  pose proof (decimal_nonneg i 0 ltac:(lia) Hd) as Hn.
  destruct (is_empty f && is_empty e), neg;
    [destruct (Z.leb_spec (- 2 ^ 63) (- decimal 0 i))
    |destruct (Z.ltb_spec (decimal 0 i) (2 ^ 64))|..];
    destruct Ht as [Ht|Ht]; try discriminate Ht; injection Ht as <-; lia.
Qed.
End dump.

(** ** The contract of the daemon's JSON library

    The library parses the texts of RFC 8259 (up to a NUL byte, behind an
    optional byte order mark) to the values they denote, and it renders a
    floating-point number that it has read as a number that reads the same. *)
Class JsonLibLaws `{JsonLib} `{Strtod} := {
  json_parse_reads s j : json_parse s = Some j <-> read_as j s;
  dump_float_reads f x : number x (value_float (Some f)) ->
    number (dump_float f) (value_float (Some f));
}.

Lemma read_sendable `{JsonLibLaws} j s : read_as j s -> sendable j.
Proof.
  intros (text & _ & _ & _ & x & _ & Hv).
  revert j x Hv. apply (rfc_value_rec (fun j _ => sendable j)); [constructor..| | | | | | | |].
  - intros z x Hx. constructor. by eapply number_range; [|left].
  - intros z x Hx. constructor. by eapply number_range; [|right].
  - intros f x Hx. constructor. exists f. by eapply dump_float_reads.
  - intros s' t _. constructor.
  - intros w _. by constructor.
  - intros l es _ Hl. constructor.
    induction Hl as [|j e l es (x & _ & Hj) _ IH]; by constructor.
  - intros w _. by constructor.
  - intros kvs es _ Hl. apply obj_sendable.
    induction Hl as [|kv e kvs es (t & n & x & v & _ & _ & _ & Hj & _) _ IH]; by constructor.
Qed.
