(* ===== verification/Dtoa.v ===== *)
(** * Dtoa: writing a floating-point number

    The conversion of a [double] to text in the JSON library,
    [module-spoof/jni/include/json.hpp], [detail::dtoa_impl] and
    [detail::to_chars] (the algorithm Grisu2).  A [double] is its 64-bit
    pattern.  Machine integers wrap around where the code computes with them;
    [JSON_ASSERT] ends the process when it fails, which is [None] here, and so
    is a loop that would not have ended within its fuel. *)

From Stdlib Require Import ZArith Ascii String Lia.
From stdpp Require Import base numbers list strings.
From S2P Require Import Prelude.

Open Scope Z_scope.

(** [JSON_ASSERT]. *)
Notation "'assert!' b ; k" := (if b then k else None)
  (at level 10, b at level 100, k at level 200, only parsing) : astra_scope.

(** ** diyfp: [df * 2 ^ de] *)

Record diyfp := Diyfp { df : Z; de : Z }.

Definition diyfp_sub (x y : diyfp) : option diyfp :=
  assert! de x =? de y;
  assert! df y <=? df x;
  Some (Diyfp (u64 (df x - df y)) (de x)).

Definition diyfp_mul (x y : diyfp) : diyfp :=
  let u_lo := Z.land (df x) 0xFFFFFFFF in
  let u_hi := Z.shiftr (df x) 32 in
  let v_lo := Z.land (df y) 0xFFFFFFFF in
  let v_hi := Z.shiftr (df y) 32 in
  let p0 := u64 (u_lo * v_lo) in
  let p1 := u64 (u_lo * v_hi) in
  let p2 := u64 (u_hi * v_lo) in
  let p3 := u64 (u_hi * v_hi) in
  let p0_hi := Z.shiftr p0 32 in
  let p1_lo := Z.land p1 0xFFFFFFFF in
  let p1_hi := Z.shiftr p1 32 in
  let p2_lo := Z.land p2 0xFFFFFFFF in
  let p2_hi := Z.shiftr p2 32 in
  let Q := u64 (u64 (p0_hi + p1_lo) + p2_lo) in
  let Q := u64 (Q + u64 (Z.shiftl 1 (64 - 32 - 1))) in
  let h := u64 (u64 (u64 (p3 + p2_hi) + p1_hi) + Z.shiftr Q 32) in
  Diyfp h (de x + de y + 64).

Fixpoint normalize_loop (fuel : nat) (x : diyfp) : option diyfp :=
  match fuel with
  | O => None
  | S fuel' =>
      if Z.shiftr (df x) 63 =? 0
      then normalize_loop fuel' (Diyfp (u64 (Z.shiftl (df x) 1)) (de x - 1))
      else Some x
  end.
Definition normalize (x : diyfp) : option diyfp :=
  assert! negb (df x =? 0); normalize_loop 64 x.

Definition normalize_to (x : diyfp) (target_exponent : Z) : option diyfp :=
  let delta := de x - target_exponent in
  assert! 0 <=? delta;
  assert! Z.shiftr (u64 (Z.shiftl (df x) delta)) delta =? df x;
  Some (Diyfp (u64 (Z.shiftl (df x) delta)) target_exponent).

(** ** The boundaries of a number *)

Record boundaries := { bd_w : diyfp; bd_minus : diyfp; bd_plus : diyfp }.

Definition kPrecision : Z := 53.
Definition kBias : Z := 1024 - 1 + (kPrecision - 1).
Definition kMinExp : Z := 1 - kBias.
Definition kHiddenBit : Z := Z.shiftl 1 (kPrecision - 1).

Definition signbit (bits : Z) : bool := negb (Z.shiftr bits 63 =? 0).
(** [std::isfinite]: the exponent is not all ones. *)
Definition isfinite (bits : Z) : bool := negb (Z.land (Z.shiftr bits 52) 2047 =? 2047).

Definition is_denormal (bits : Z) : bool := Z.shiftr bits (kPrecision - 1) =? 0.
Definition float_diyfp (bits : Z) : diyfp :=
  let E := Z.shiftr bits (kPrecision - 1) in
  let F := Z.land bits (kHiddenBit - 1) in
  if is_denormal bits then Diyfp F kMinExp else Diyfp (u64 (F + kHiddenBit)) (E - kBias).

Definition lower_boundary_is_closer (bits : Z) : bool :=
  (Z.land bits (kHiddenBit - 1) =? 0) && (1 <? Z.shiftr bits (kPrecision - 1)).
Definition m_plus (bits : Z) : diyfp :=
  let v := float_diyfp bits in Diyfp (u64 (u64 (2 * df v) + 1)) (de v - 1).
Definition m_minus (bits : Z) : diyfp :=
  let v := float_diyfp bits in
  if lower_boundary_is_closer bits then Diyfp (u64 (u64 (4 * df v) - 1)) (de v - 2)
  else Diyfp (u64 (u64 (2 * df v) - 1)) (de v - 1).

Definition compute_boundaries (bits : Z) : option boundaries :=
  assert! isfinite bits;
  assert! negb (signbit bits) && negb (bits =? 0);
  w_plus ← normalize (m_plus bits);
  w_minus ← normalize_to (m_minus bits) (de w_plus);
  w ← normalize (float_diyfp bits);
  Some {| bd_w := w; bd_minus := w_minus; bd_plus := w_plus |}.

(** ** Cached powers of ten *)

Definition kAlpha : Z := -60.
Definition kGamma : Z := -32.

Record cached_power := cached { cp_f : Z; cp_e : Z; cp_k : Z }.

Definition kCachedPowersMinDecExp : Z := -300.
Definition kCachedPowersDecStep : Z := 8.

Definition kCachedPowers : list cached_power :=
  [ cached 0xAB70FE17C79AC6CA (-1060) (-300); cached 0xFF77B1FCBEBCDC4F (-1034) (-292);
    cached 0xBE5691EF416BD60C (-1007) (-284); cached 0x8DD01FAD907FFC3C (-980) (-276);
    cached 0xD3515C2831559A83 (-954) (-268); cached 0x9D71AC8FADA6C9B5 (-927) (-260);
    cached 0xEA9C227723EE8BCB (-901) (-252); cached 0xAECC49914078536D (-874) (-244);
    cached 0x823C12795DB6CE57 (-847) (-236); cached 0xC21094364DFB5637 (-821) (-228);
    cached 0x9096EA6F3848984F (-794) (-220); cached 0xD77485CB25823AC7 (-768) (-212);
    cached 0xA086CFCD97BF97F4 (-741) (-204); cached 0xEF340A98172AACE5 (-715) (-196);
    cached 0xB23867FB2A35B28E (-688) (-188); cached 0x84C8D4DFD2C63F3B (-661) (-180);
    cached 0xC5DD44271AD3CDBA (-635) (-172); cached 0x936B9FCEBB25C996 (-608) (-164);
    cached 0xDBAC6C247D62A584 (-582) (-156); cached 0xA3AB66580D5FDAF6 (-555) (-148);
    cached 0xF3E2F893DEC3F126 (-529) (-140); cached 0xB5B5ADA8AAFF80B8 (-502) (-132);
    cached 0x87625F056C7C4A8B (-475) (-124); cached 0xC9BCFF6034C13053 (-449) (-116);
    cached 0x964E858C91BA2655 (-422) (-108); cached 0xDFF9772470297EBD (-396) (-100);
    cached 0xA6DFBD9FB8E5B88F (-369) (-92); cached 0xF8A95FCF88747D94 (-343) (-84);
    cached 0xB94470938FA89BCF (-316) (-76); cached 0x8A08F0F8BF0F156B (-289) (-68);
    cached 0xCDB02555653131B6 (-263) (-60); cached 0x993FE2C6D07B7FAC (-236) (-52);
    cached 0xE45C10C42A2B3B06 (-210) (-44); cached 0xAA242499697392D3 (-183) (-36);
    cached 0xFD87B5F28300CA0E (-157) (-28); cached 0xBCE5086492111AEB (-130) (-20);
    cached 0x8CBCCC096F5088CC (-103) (-12); cached 0xD1B71758E219652C (-77) (-4);
    cached 0x9C40000000000000 (-50) 4; cached 0xE8D4A51000000000 (-24) 12;
    cached 0xAD78EBC5AC620000 3 20; cached 0x813F3978F8940984 30 28;
    cached 0xC097CE7BC90715B3 56 36; cached 0x8F7E32CE7BEA5C70 83 44;
    cached 0xD5D238A4ABE98068 109 52; cached 0x9F4F2726179A2245 136 60;
    cached 0xED63A231D4C4FB27 162 68; cached 0xB0DE65388CC8ADA8 189 76;
    cached 0x83C7088E1AAB65DB 216 84; cached 0xC45D1DF942711D9A 242 92;
    cached 0x924D692CA61BE758 269 100; cached 0xDA01EE641A708DEA 295 108;
    cached 0xA26DA3999AEF774A 322 116; cached 0xF209787BB47D6B85 348 124;
    cached 0xB454E4A179DD1877 375 132; cached 0x865B86925B9BC5C2 402 140;
    cached 0xC83553C5C8965D3D 428 148; cached 0x952AB45CFA97A0B3 455 156;
    cached 0xDE469FBD99A05FE3 481 164; cached 0xA59BC234DB398C25 508 172;
    cached 0xF6C69A72A3989F5C 534 180; cached 0xB7DCBF5354E9BECE 561 188;
    cached 0x88FCF317F22241E2 588 196; cached 0xCC20CE9BD35C78A5 614 204;
    cached 0x98165AF37B2153DF 641 212; cached 0xE2A0B5DC971F303A 667 220;
    cached 0xA8D9D1535CE3B396 694 228; cached 0xFB9B7CD9A4A7443C 720 236;
    cached 0xBB764C4CA7A44410 747 244; cached 0x8BAB8EEFB6409C1A 774 252;
    cached 0xD01FEF10A657842C 800 260; cached 0x9B10A4E5E9913129 827 268;
    cached 0xE7109BFBA19C0C9D 853 276; cached 0xAC2820D9623BF429 880 284;
    cached 0x80444B5E7AA7CF85 907 292; cached 0xBF21E44003ACDD2D 933 300;
    cached 0x8E679C2F5E44FF8F 960 308; cached 0xD433179D9C8CB841 986 316;
    cached 0x9E19DB92B4E31BA9 1013 324 ].

Definition get_cached_power_for_binary_exponent (e : Z) : option cached_power :=
  assert! -1500 <=? e;
  assert! e <=? 1500;
  let f := kAlpha - e - 1 in
  let k := Z.quot (f * 78913) (Z.shiftl 1 18) + (if 0 <? f then 1 else 0) in
  let index := Z.quot (- kCachedPowersMinDecExp + k + (kCachedPowersDecStep - 1))
                 kCachedPowersDecStep in
  assert! 0 <=? index;
  assert! index <? Z.of_nat (length kCachedPowers);
  c ← kCachedPowers !! Z.to_nat index;
  assert! kAlpha <=? cp_e c + e + 64;
  assert! cp_e c + e + 64 <=? kGamma;
  Some c.

(** ** The digits *)

(** The number of digits, and the power of ten below. *)
Definition find_largest_pow10 (n : Z) : nat * Z :=
  if 1000000000 <=? n then (10%nat, 1000000000)
  else if 100000000 <=? n then (9%nat, 100000000)
  else if 10000000 <=? n then (8%nat, 10000000)
  else if 1000000 <=? n then (7%nat, 1000000)
  else if 100000 <=? n then (6%nat, 100000)
  else if 10000 <=? n then (5%nat, 10000)
  else if 1000 <=? n then (4%nat, 1000)
  else if 100 <=? n then (3%nat, 100)
  else if 10 <=? n then (2%nat, 10)
  else (1%nat, 1).

(** The used part of the buffer, as the codes of its characters. *)
Abbreviation buffer := (list Z).

(** [buf[len - 1]--]. *)
Definition decrement_last (buf : buffer) : buffer := alter Z.pred (length buf - 1)%nat buf.

Fixpoint grisu2_round_loop (fuel : nat) (buf : buffer) (dist delta rest ten_k : Z)
    : option buffer :=
  match fuel with
  | O => None
  | S fuel' =>
      if (rest <? dist) && (ten_k <=? u64 (delta - rest))
         && ((u64 (rest + ten_k) <? dist) || (u64 (u64 (rest + ten_k) - dist) <? u64 (dist - rest)))
      then
        assert! negb (default 48 (last buf) =? 48);
        grisu2_round_loop fuel' (decrement_last buf) dist delta (u64 (rest + ten_k)) ten_k
      else Some buf
  end.
Definition grisu2_round (buf : buffer) (dist delta rest ten_k : Z) : option buffer :=
  assert! (1 <=? length buf)%nat;
  assert! dist <=? delta;
  assert! rest <=? delta;
  assert! 0 <? ten_k;
  grisu2_round_loop 10 buf dist delta rest ten_k.

(** The loop over the integral part, [n] digits of it left; it returns the
    buffer and the decimal exponent, or the buffer when the part is used up.
    [s] is [-one.e]. *)
Fixpoint digit_gen_integral (n : nat) (buf : buffer) (decimal_exponent p1 p2 pow10 delta dist s : Z)
    : option (buffer * Z + buffer) :=
  match n with
  | O => Some (inr buf)
  | S n' =>
      let d := p1 / pow10 in
      let r := p1 mod pow10 in
      assert! d <=? 9;
      let buf := buf ++ [48 + d] in
      let rest := u64 (u64 (Z.shiftl r s) + p2) in
      if rest <=? delta then
        let ten_n := u64 (Z.shiftl pow10 s) in
        buf ← grisu2_round buf dist delta rest ten_n;
        Some (inl (buf, decimal_exponent + Z.of_nat n'))
      else digit_gen_integral n' buf decimal_exponent r p2 (pow10 / 10) delta dist s
  end.

(** The loop over the fractional part: the buffer, [m], and the values of
    [p2], [delta] and [dist] behind it. *)
Fixpoint digit_gen_fraction (fuel : nat) (buf : buffer) (m p2 delta dist s one_f : Z)
    : option (buffer * Z * Z * Z * Z) :=
  match fuel with
  | O => None
  | S fuel' =>
      assert! p2 <=? (2 ^ 64 - 1) / 10;
      let p2 := u64 (p2 * 10) in
      let d := Z.shiftr p2 s in
      let r := Z.land p2 (one_f - 1) in
      assert! d <=? 9;
      let buf := buf ++ [48 + d] in
      let delta := u64 (delta * 10) in
      let dist := u64 (dist * 10) in
      if r <=? delta then Some (buf, m + 1, r, delta, dist)
      else digit_gen_fraction fuel' buf (m + 1) r delta dist s one_f
  end.

Definition grisu2_digit_gen (decimal_exponent : Z) (M_minus w M_plus : diyfp)
    : option (buffer * Z) :=
  assert! kAlpha <=? de M_plus;
  assert! de M_plus <=? kGamma;
  delta ← diyfp_sub M_plus M_minus;
  dist ← diyfp_sub M_plus w;
  let s := - de M_plus in
  let one_f := u64 (Z.shiftl 1 s) in
  let p1 := u32 (Z.shiftr (df M_plus) s) in
  let p2 := Z.land (df M_plus) (one_f - 1) in
  assert! 0 <? p1;
  let '(k, pow10) := find_largest_pow10 p1 in
  part ← digit_gen_integral k [] decimal_exponent p1 p2 pow10 (df delta) (df dist) s;
  match part with
  | inl result => Some result
  | inr buf =>
      assert! df delta <? p2;
      '(buf, m, p2, delta, dist) ← digit_gen_fraction 20 buf 0 p2 (df delta) (df dist) s one_f;
      buf ← grisu2_round buf dist delta p2 one_f;
      Some (buf, decimal_exponent - m)
  end.

Definition grisu2_of (m_minus v m_plus : diyfp) : option (buffer * Z) :=
  assert! de m_plus =? de m_minus;
  assert! de m_plus =? de v;
  c ← get_cached_power_for_binary_exponent (de m_plus);
  let c_minus_k := Diyfp (cp_f c) (cp_e c) in
  let w := diyfp_mul v c_minus_k in
  let w_minus := diyfp_mul m_minus c_minus_k in
  let w_plus := diyfp_mul m_plus c_minus_k in
  let M_minus := Diyfp (u64 (df w_minus + 1)) (de w_minus) in
  let M_plus := Diyfp (u64 (df w_plus - 1)) (de w_plus) in
  grisu2_digit_gen (- cp_k c) M_minus w M_plus.

(** The digits of a positive finite number and its decimal exponent. *)
Definition grisu2 (bits : Z) : option (buffer * Z) :=
  assert! isfinite bits;
  assert! negb (signbit bits) && negb (bits =? 0);
  b ← compute_boundaries bits;
  grisu2_of (bd_minus b) (bd_w b) (bd_plus b).

(** ** The text *)

Definition append_exponent (e : Z) : option (list Z) :=
  assert! -1000 <? e;
  assert! e <? 1000;
  let sign := if e <? 0 then 45 else 43 in
  let k := if e <? 0 then - e else e in
  Some (sign :: (if k <? 10 then [48; 48 + k]
                 else if k <? 100 then [48 + k / 10; 48 + k mod 10]
                 else [48 + k / 100; 48 + k mod 100 / 10; 48 + k mod 100 mod 10])).

Definition format_buffer (buf : buffer) (decimal_exponent min_exp max_exp : Z)
    : option (list Z) :=
  assert! min_exp <? 0;
  assert! 0 <? max_exp;
  let k := Z.of_nat (length buf) in
  let n := k + decimal_exponent in
  if (k <=? n) && (n <=? max_exp) then
    Some (buf ++ replicate (Z.to_nat (n - k)) 48 ++ [46; 48])
  else if (0 <? n) && (n <=? max_exp) then
    assert! n <? k;
    Some (take (Z.to_nat n) buf ++ [46] ++ drop (Z.to_nat n) buf)
  else if (min_exp <? n) && (n <=? 0) then
    Some ([48; 46] ++ replicate (Z.to_nat (- n)) 48 ++ buf)
  else
    e ← append_exponent (n - 1);
    Some ((if k =? 1 then buf else take 1 buf ++ [46] ++ drop 1 buf) ++ [101] ++ e).

Definition float_kMinExp : Z := -4.
Definition float_kMaxExp : Z := 15.   (* digits10 *)
Definition max_digits10 : Z := 17.

(** [to_chars] into a buffer of [room] characters. *)
Definition to_chars (room bits : Z) : option (list Z) :=
  assert! isfinite bits;
  let negative := signbit bits in
  let sign := if negative then [45] else [] in
  let room := if negative then room - 1 else room in
  let value := if negative then bits - 2 ^ 63 else bits in
  if value =? 0 then Some (sign ++ [48; 46; 48])
  else
    assert! max_digits10 <=? room;
    '(buf, decimal_exponent) ← grisu2 value;
    assert! Z.of_nat (length buf) <=? max_digits10;
    assert! float_kMaxExp + 2 <=? room;
    assert! 2 + (- float_kMinExp - 1) + max_digits10 <=? room;
    assert! max_digits10 + 6 <=? room;
    text ← format_buffer buf decimal_exponent float_kMinExp float_kMaxExp;
    Some (sign ++ text).

Definition string_of_codes (l : list Z) : string := foldr (fun c s => String (byte_of c) s) EmptyString l.

(** The member of the serializer, with its buffer of 64 characters. *)
Definition write_float (bits : Z) : option string :=
  if negb (isfinite bits) then Some "null"
  else string_of_codes <$> to_chars 64 bits.
Example write_tenth : write_float 0x3FB999999999999A = Some "0.1"%string.
Proof. by vm_compute. Qed.
Example write_max : write_float 0x7FEFFFFFFFFFFFFF = Some "1.7976931348623157e+308"%string.
Proof. by vm_compute. Qed.
Example write_least : write_float 0x8000000000000001 = Some "-5e-324"%string.
Proof. by vm_compute. Qed.
Example write_million : write_float 0x412E848000000000 = Some "1000000.0"%string.
Proof. by vm_compute. Qed.
