(* ===== verification/Grisu.v ===== *)
(** * Grisu: the arithmetic of the conversion

    What the machine arithmetic of Dtoa computes: the rounded product of two
    numbers [f * 2 ^ e], normalizing, the boundaries of a floating-point number,
    and the accuracy of the cached powers of ten, by evaluating the whole table
    against exact powers. *)

From Stdlib Require Import ZArith Lia.
From stdpp Require Import base numbers list.
From S2P Require Import Prelude Dtoa.

Open Scope Z_scope.

(** ** Machine arithmetic that does not wrap *)

Lemma u64_small x : 0 <= x < 2 ^ 64 -> u64 x = x.
Proof. intros. unfold u64. by apply Z.mod_small. Qed.

Lemma shiftl_mul a n : 0 <= n -> Z.shiftl a n = a * 2 ^ n.
Proof. apply Z.shiftl_mul_pow2. Qed.
Lemma shiftr_div a n : 0 <= n -> Z.shiftr a n = a / 2 ^ n.
Proof. apply Z.shiftr_div_pow2. Qed.
Lemma low_bits a n : 0 <= n -> Z.land a (2 ^ n - 1) = a mod 2 ^ n.
Proof. intros. rewrite <-Z.land_ones by done. f_equal. rewrite Z.ones_equiv. lia. Qed.

(** The product, rounded to 64 bits. *)
Lemma diyfp_mul_spec x y : 0 <= df x < 2 ^ 64 -> 0 <= df y < 2 ^ 64 ->
  diyfp_mul x y = Diyfp ((df x * df y + 2 ^ 63) / 2 ^ 64) (de x + de y + 64).
Proof.
  destruct x as [u e], y as [v e']; cbn [df de]. intros Hu Hv. unfold diyfp_mul. cbn [df de].
  f_equal. change (Z.shiftl 1 (64 - 32 - 1)) with (2 ^ 31). change 0xFFFFFFFF with (2 ^ 32 - 1).
  rewrite !low_bits, !shiftr_div by lia.
  pose proof (Z.mod_pos_bound u (2 ^ 32)) as Hul. pose proof (Z.mod_pos_bound v (2 ^ 32)) as Hvl.
  assert (0 <= u / 2 ^ 32 < 2 ^ 32) as Huh
    by (split; [apply Z.div_pos; lia|apply Z.div_lt_upper_bound; lia]).
  assert (0 <= v / 2 ^ 32 < 2 ^ 32) as Hvh
    by (split; [apply Z.div_pos; lia|apply Z.div_lt_upper_bound; lia]).
  pose proof (Z.div_mod u (2 ^ 32)) as Eu. pose proof (Z.div_mod v (2 ^ 32)) as Ev.
  set (ul := u mod 2 ^ 32) in *. set (uh := u / 2 ^ 32) in *.
  set (vl := v mod 2 ^ 32) in *. set (vh := v / 2 ^ 32) in *.
  clearbody ul uh vl vh.
  assert (forall a b, 0 <= a < 2 ^ 32 -> 0 <= b < 2 ^ 32 -> 0 <= a * b <= (2 ^ 32 - 1) * (2 ^ 32 - 1))
    as Hp by (intros; nia).
  pose proof (Hp ul vl) as H0. pose proof (Hp ul vh) as H1.
  pose proof (Hp uh vl) as H2. pose proof (Hp uh vh) as H3. clear Hp.
  assert (u * v = uh * vh * 2 ^ 64 + (ul * vh + uh * vl) * 2 ^ 32 + ul * vl) as Euv
    by (rewrite Eu, Ev by lia; change (2 ^ 64) with (2 ^ 32 * 2 ^ 32); ring).
  rewrite Euv. clear Eu Ev Euv.
  set (p0 := ul * vl) in *. set (p1 := ul * vh) in *. set (p2 := uh * vl) in *.
  set (p3 := uh * vh) in *. clearbody p0 p1 p2 p3.
  rewrite (u64_small p0), (u64_small p1), (u64_small p2), (u64_small p3), (u64_small (2 ^ 31)) by lia.
  pose proof (Z.mod_pos_bound p0 (2 ^ 32)) as B0. pose proof (Z.mod_pos_bound p1 (2 ^ 32)) as B1.
  pose proof (Z.mod_pos_bound p2 (2 ^ 32)) as B2.
  pose proof (Z.div_mod p0 (2 ^ 32)) as E0. pose proof (Z.div_mod p1 (2 ^ 32)) as E1.
  pose proof (Z.div_mod p2 (2 ^ 32)) as E2.
  set (a0 := p0 / 2 ^ 32) in *. set (b0 := p0 mod 2 ^ 32) in *. set (a1 := p1 / 2 ^ 32) in *.
  set (b1 := p1 mod 2 ^ 32) in *. set (a2 := p2 / 2 ^ 32) in *. set (b2 := p2 mod 2 ^ 32) in *.
  clearbody a0 b0 a1 b1 a2 b2.
  rewrite (u64_small (a0 + b1)), (u64_small (a0 + b1 + b2)), (u64_small (a0 + b1 + b2 + 2 ^ 31)) by lia.
  set (q := a0 + b1 + b2 + 2 ^ 31) in *.
  pose proof (Z.div_mod q (2 ^ 32)) as Eq. pose proof (Z.mod_pos_bound q (2 ^ 32)) as Bq.
  set (qh := q / 2 ^ 32) in *. set (ql := q mod 2 ^ 32) in *. clearbody qh ql.
  rewrite (u64_small (p3 + a2)), (u64_small (p3 + a2 + a1)), u64_small by (subst q; lia).
  apply Z.div_unique with (2 ^ 32 * ql + b0); [left; lia|]. subst q. lia.
Qed.

(** ** Normalizing *)

Lemma normalize_loop_spec fuel : forall f e s, 0 <= s -> (Z.to_nat s < fuel)%nat ->
  2 ^ 63 <= f * 2 ^ s < 2 ^ 64 -> normalize_loop fuel (Diyfp f e) = Some (Diyfp (f * 2 ^ s) (e - s)).
Proof.
  induction fuel as [|fuel IH]; intros f e s Hs Hf Hb; [lia|]. cbn [normalize_loop df de].
  rewrite shiftr_div, shiftl_mul by lia. change (2 ^ 1) with 2.
  destruct (decide (s = 0)) as [->|Hs0].
  - change (2 ^ 0) with 1 in *. rewrite Z.mul_1_r in *. assert (f / 2 ^ 63 = 1) as ->.
    { symmetry. apply Z.div_unique with (f - 2 ^ 63); [left; lia|lia]. }
    cbn. by rewrite Z.sub_0_r.
  - assert (2 ^ s = 2 * 2 ^ (s - 1)) as E by (rewrite <-Z.pow_succ_r by lia; f_equal; lia).
    assert (1 <= 2 ^ (s - 1)) by (pose proof (Z.pow_pos_nonneg 2 (s - 1)); lia).
    rewrite E in Hb. assert (0 < f < 2 ^ 63) as Hf' by nia.
    rewrite Z.div_small by lia. cbn [Z.eqb]. rewrite u64_small by lia.
    rewrite (IH (f * 2) (e - 1) (s - 1)) by (lia || nia). rewrite E. f_equal. f_equal; [ring|lia].
Qed.

Lemma normalize_spec f e s : 0 <= s <= 63 -> 2 ^ 63 <= f * 2 ^ s < 2 ^ 64 ->
  normalize (Diyfp f e) = Some (Diyfp (f * 2 ^ s) (e - s)).
Proof.
  intros Hs Hb. unfold normalize. cbn [df]. destruct (Z.eqb_spec f 0) as [->|_]; [lia|].
  apply normalize_loop_spec; lia.
Qed.

(** The shift that normalizes. *)
Lemma norm_shift f : 0 < f < 2 ^ 64 ->
  exists s, 0 <= s <= 63 /\ 2 ^ 63 <= f * 2 ^ s < 2 ^ 64.
Proof.
  intros Hf. exists (63 - Z.log2 f).
  assert (Z.log2 f < 64) by (apply Z.log2_lt_pow2; lia). pose proof (Z.log2_nonneg f).
  split; [lia|]. destruct (Z.log2_spec f) as [Hlo Hhi]; [lia|].
  assert (2 ^ 63 = 2 ^ Z.log2 f * 2 ^ (63 - Z.log2 f)) as E
    by (rewrite <-Z.pow_add_r by lia; f_equal; lia).
  assert (2 ^ 64 = 2 ^ Z.succ (Z.log2 f) * 2 ^ (63 - Z.log2 f)) as E'
    by (rewrite <-Z.pow_add_r by lia; f_equal; lia).
  pose proof (Z.pow_pos_nonneg 2 (63 - Z.log2 f)). rewrite E, E'. nia.
Qed.

Lemma normalize_to_spec f e t : 0 <= e - t -> 0 <= f * 2 ^ (e - t) < 2 ^ 64 ->
  normalize_to (Diyfp f e) t = Some (Diyfp (f * 2 ^ (e - t)) t).
Proof.
  intros Ht Hb. unfold normalize_to. cbn [df de].
  destruct (Z.leb_spec 0 (e - t)); [|lia]. rewrite shiftl_mul, u64_small, shiftr_div by done.
  rewrite Z.div_mul by (apply Z.pow_nonzero; lia). by rewrite Z.eqb_refl.
Qed.

(** ** Decimal against binary

    [m * 10 ^ k] and [f * 2 ^ e] compared, with the negative exponents on the
    other side. *)
Definition pos (z : Z) : Z := Z.max z 0.
Definition dec_lt (m k f e : Z) : Prop :=
  m * 10 ^ pos k * 2 ^ pos (- e) < f * 2 ^ pos e * 10 ^ pos (- k).
Definition bin_lt (f e m k : Z) : Prop :=
  f * 2 ^ pos e * 10 ^ pos (- k) < m * 10 ^ pos k * 2 ^ pos (- e).

Lemma pow_pos_split b i i' : 0 < b -> 0 <= i -> 0 <= i' ->
  exists c, 0 < c /\ b ^ i = b ^ pos (i - i') * c /\ b ^ i' = b ^ pos (i' - i) * c.
Proof.
  intros Hb Hi Hi'. exists (b ^ Z.min i i'). split; [apply Z.pow_pos_nonneg; lia|].
  unfold pos. rewrite <-!Z.pow_add_r by lia. split; f_equal; lia.
Qed.

Section cross.
Variables (m f i i' j j' : Z).
Hypothesis (Hi : 0 <= i) (Hi' : 0 <= i') (Hj : 0 <= j) (Hj' : 0 <= j').

Lemma cross_factor : exists c, 0 < c
  /\ m * 10 ^ i * 2 ^ j = m * 10 ^ pos (i - i') * 2 ^ pos (j - j') * c
  /\ f * 2 ^ j' * 10 ^ i' = f * 2 ^ pos (j' - j) * 10 ^ pos (i' - i) * c.
Proof.
  destruct (pow_pos_split 10 i i') as (c & Hc & -> & ->); [lia..|].
  destruct (pow_pos_split 2 j j') as (c' & Hc' & -> & ->); [lia..|].
  exists (c * c'). split; [nia|]. split; ring.
Qed.

Lemma dec_lt_cross :
  m * 10 ^ i * 2 ^ j < f * 2 ^ j' * 10 ^ i' <-> dec_lt m (i - i') f (j' - j).
Proof.
  destruct cross_factor as (c & Hc & E1 & E2). rewrite E1, E2. unfold dec_lt.
  replace (- (i - i')) with (i' - i) by lia. replace (- (j' - j)) with (j - j') by lia.
  symmetry. by apply Z.mul_lt_mono_pos_r.
Qed.
Lemma bin_lt_cross :
  f * 2 ^ j' * 10 ^ i' < m * 10 ^ i * 2 ^ j <-> bin_lt f (j' - j) m (i - i').
Proof.
  destruct cross_factor as (c & Hc & E1 & E2). rewrite E1, E2. unfold bin_lt.
  replace (- (i - i')) with (i' - i) by lia. replace (- (j' - j)) with (j - j') by lia.
  symmetry. by apply Z.mul_lt_mono_pos_r.
Qed.
End cross.

(** ** The parts of a number *)

Definition positive (bits : Z) : Prop := 0 < bits < 2 ^ 63 /\ isfinite bits = true.

Section parts.
Variable bits : Z.
Hypothesis Hb : positive bits.

Let f := df (float_diyfp bits).
Let e := de (float_diyfp bits).

Lemma float_exponent : 0 <= bits / 2 ^ 52 < 2047.
Proof.
  destruct Hb as [Hr Hf]. unfold isfinite in Hf. rewrite shiftr_div in Hf by lia.
  change 2047 with (2 ^ 11 - 1) in Hf. rewrite low_bits in Hf by lia.
  assert (0 <= bits / 2 ^ 52 < 2 ^ 11) as Hd
    by (split; [apply Z.div_pos; lia|apply Z.div_lt_upper_bound; lia]).
  rewrite Z.mod_small in Hf by done. apply negb_true_iff, Z.eqb_neq in Hf. lia.
Qed.

Lemma float_parts :
  if bits / 2 ^ 52 =? 0
  then f = bits mod 2 ^ 52 /\ e = -1074
  else f = 2 ^ 52 + bits mod 2 ^ 52 /\ e = bits / 2 ^ 52 - 1075.
Proof.
  unfold f, e, float_diyfp, is_denormal, kHiddenBit, kMinExp, kBias, kPrecision.
  change (Z.shiftl 1 (53 - 1) - 1) with (2 ^ 52 - 1). rewrite low_bits, shiftr_div by lia.
  change (53 - 1) with 52. destruct (Z.eqb_spec (bits / 2 ^ 52) 0); cbn [df de]; [done|].
  split; [|lia]. pose proof (Z.mod_pos_bound bits (2 ^ 52)).
  change (Z.shiftl 1 52) with (2 ^ 52). rewrite u64_small; lia.
Qed.

Lemma float_bounds : 0 < f < 2 ^ 53 /\ -1074 <= e <= 971.
Proof.
  pose proof float_parts as Hp. pose proof float_exponent as He. destruct Hb as [Hr _].
  pose proof (Z.mod_pos_bound bits (2 ^ 52)). pose proof (Z.div_mod bits (2 ^ 52)).
  destruct (Z.eqb_spec (bits / 2 ^ 52) 0) as [E|E]; destruct Hp as [-> ->]; lia.
Qed.

Lemma lower_closer :
  lower_boundary_is_closer bits = (bits mod 2 ^ 52 =? 0) && (1 <? bits / 2 ^ 52).
Proof.
  unfold lower_boundary_is_closer, kHiddenBit, kPrecision. change (Z.shiftl 1 (53 - 1)) with (2 ^ 52).
  by rewrite low_bits, shiftr_div by lia.
Qed.

Lemma closer_power : lower_boundary_is_closer bits = true -> f = 2 ^ 52 /\ -1074 < e.
Proof.
  rewrite lower_closer. intros [H1%Z.eqb_eq H2%Z.ltb_lt]%andb_true_iff.
  pose proof float_parts as Hp. destruct (Z.eqb_spec (bits / 2 ^ 52) 0); lia.
Qed.

Lemma m_plus_eq : m_plus bits = Diyfp (2 * f + 1) (e - 1).
Proof.
  unfold m_plus. fold f e. pose proof float_bounds. rewrite (u64_small (2 * f)), u64_small by lia. done.
Qed.
Lemma m_minus_eq : m_minus bits = if lower_boundary_is_closer bits then Diyfp (4 * f - 1) (e - 2)
                                  else Diyfp (2 * f - 1) (e - 1).
Proof.
  unfold m_minus. fold f e. pose proof float_bounds.
  rewrite (u64_small (4 * f)), (u64_small (4 * f - 1)), (u64_small (2 * f)), u64_small by lia. done.
Qed.

(** The normalized boundaries: the same numbers, with one exponent, and far
    enough apart. *)
Lemma compute_boundaries_spec : exists s fm,
  compute_boundaries bits
  = Some {| bd_w := Diyfp (f * 2 ^ (s + 1)) (e - 1 - s); bd_minus := Diyfp fm (e - 1 - s);
            bd_plus := Diyfp ((2 * f + 1) * 2 ^ s) (e - 1 - s) |}
  /\ 10 <= s <= 62 /\ 2 ^ 63 <= (2 * f + 1) * 2 ^ s < 2 ^ 64
  /\ fm = df (m_minus bits) * 2 ^ (de (m_minus bits) - (e - 1 - s))
  /\ e - 1 - s <= de (m_minus bits)
  /\ 512 <= f * 2 ^ (s + 1) - fm
  /\ (2048 <= (2 * f + 1) * 2 ^ s - fm
      \/ 1536 <= (2 * f + 1) * 2 ^ s - fm /\ (2 * f + 1) * 2 ^ s <= 2 ^ 63 + 2 ^ 10)
  /\ 0 < fm.
Proof.
  pose proof float_bounds as [Hf He].
  destruct (norm_shift (2 * f + 1)) as (s & Hs & Hn); [lia|].
  assert (Hs10 : 10 <= s <= 62).
  { split.
    - destruct (Z.le_gt_cases 10 s); [done|]. assert (2 ^ s <= 2 ^ 9) by (apply Z.pow_le_mono_r; lia). nia.
    - destruct (decide (s = 63)) as [->|]; lia. }
  assert (H2s : 2 ^ (s + 1) = 2 * 2 ^ s) by (rewrite <-Z.pow_succ_r by lia; f_equal; lia).
  assert (H1024 : 2 ^ 10 <= 2 ^ s) by (apply Z.pow_le_mono_r; lia).
  assert (Hw : 2 ^ 63 <= f * 2 ^ (s + 1) < 2 ^ 64).
  { rewrite H2s. split; [|nia]. assert (2 ^ 63 = 2 ^ (63 - s) * 2 ^ s) as E
      by (rewrite <-Z.pow_add_r by lia; f_equal; lia).
    assert (2 ^ (63 - s) = 2 * 2 ^ (62 - s)) as E' by (rewrite <-Z.pow_succ_r by lia; f_equal; lia).
    rewrite E in Hn |- *. nia. }
  exists s, (df (m_minus bits) * 2 ^ (de (m_minus bits) - (e - 1 - s))).
  rewrite m_minus_eq. unfold compute_boundaries. destruct Hb as [Hr Hfin]. rewrite Hfin.
  assert (signbit bits = false) as -> by (unfold signbit; rewrite shiftr_div, Z.div_small by lia; done).
  destruct (Z.eqb_spec bits 0); [lia|]. cbn [negb andb].
  rewrite m_plus_eq, (normalize_spec _ _ s) by lia. cbn [mbind option_bind de].
  rewrite m_minus_eq. fold f e. destruct (lower_boundary_is_closer bits) eqn:Hc; cbn [df de].
  - apply closer_power in Hc as [Hf2 He2]. replace (e - 2 - (e - 1 - s)) with (s - 1) by lia.
    assert (Hs1 : 2 ^ s = 2 * 2 ^ (s - 1)) by (rewrite <-Z.pow_succ_r by lia; f_equal; lia).
    assert (s = 10) as ->.
    { destruct (decide (s = 10)); [done|].
      assert (2 ^ 11 <= 2 ^ s) by (apply Z.pow_le_mono_r; lia). nia. }
    rewrite (normalize_to_spec (4 * f - 1)) by (replace (e - 2 - (e - 1 - 10)) with 9 by lia; lia).
    cbn [mbind option_bind].
    destruct (float_diyfp bits) as [f0 e0] eqn:Ed. subst f e. cbn [df de] in *.
    rewrite (normalize_spec f0 e0 (10 + 1)) by lia. cbn [mbind option_bind].
    replace (e0 - 2 - (e0 - 1 - 10)) with (10 - 1) by lia. replace (e0 - (10 + 1)) with (e0 - 1 - 10) by lia.
    split; [done|]. split_and!; try lia.
  - replace (e - 1 - (e - 1 - s)) with s by lia.
    rewrite (normalize_to_spec (2 * f - 1)) by (replace (e - 1 - (e - 1 - s)) with s by lia; nia || lia).
    cbn [mbind option_bind]. destruct (float_diyfp bits) as [f0 e0] eqn:Ed. subst f e. cbn [df de] in *.
    rewrite (normalize_spec f0 e0 (s + 1)) by lia. cbn [mbind option_bind].
    replace (e0 - 1 - (e0 - 1 - s)) with s by lia. replace (e0 - (s + 1)) with (e0 - 1 - s) by lia.
    split; [done|]. split_and!; try lia; try nia.
Qed.
End parts.

(** ** The cached powers of ten *)

(** The power and [10 ^ cp_k], scaled alike: they differ by at most half a
    unit of the power. *)
Definition scaled_unit (c : cached_power) : Z := 2 ^ pos (cp_e c) * 10 ^ pos (- cp_k c).
Definition scaled_ten (c : cached_power) : Z := 10 ^ pos (cp_k c) * 2 ^ pos (- cp_e c).
Definition accurate (c : cached_power) : bool :=
  (2 ^ 63 <=? cp_f c) && (cp_f c <? 2 ^ 64)
  && (2 * Z.abs (cp_f c * scaled_unit c - scaled_ten c) <=? scaled_unit c).
Definition fits (e : Z) : bool :=
  match get_cached_power_for_binary_exponent e with
  | Some c => accurate c && (kAlpha <=? cp_e c + e + 64) && (cp_e c + e + 64 <=? kGamma)
              && (-300 <=? cp_k c) && (cp_k c <=? 324)
  | None => false
  end.

Lemma fits_check : forallb fits (seqZ (-1137) 2098) = true.
Proof. by vm_compute. Qed.

Lemma cached_power_spec e : -1137 <= e <= 960 ->
  exists c, get_cached_power_for_binary_exponent e = Some c
    /\ 2 ^ 63 <= cp_f c < 2 ^ 64
    /\ 2 * Z.abs (cp_f c * scaled_unit c - scaled_ten c) <= scaled_unit c
    /\ -60 <= cp_e c + e + 64 <= -32 /\ -300 <= cp_k c <= 324.
Proof.
  intros He. pose proof (proj1 (forallb_forall _ _) fits_check e) as Hf.
  assert (Hin : In e (seqZ (-1137) 2098)) by (apply list_elem_of_In, elem_of_seqZ; lia).
  specialize (Hf Hin). unfold fits in Hf.
  destruct (get_cached_power_for_binary_exponent e) as [c|]; [|done].
  exists c. split; [done|]. unfold accurate, kAlpha, kGamma in Hf. lia.
Qed.

Lemma scaled_unit_pos c : 0 < scaled_unit c.
Proof.
  unfold scaled_unit, pos. apply Z.mul_pos_pos; apply Z.pow_pos_nonneg; lia.
Qed.

(** One unit less or more than the rounded product is below or above the
    exact one. *)
Section products.
Variables (x : Z) (c : cached_power).
Hypothesis (Hx : 0 < x < 2 ^ 64).
Hypothesis (Hc : 2 * Z.abs (cp_f c * scaled_unit c - scaled_ten c) <= scaled_unit c).
Hypothesis (Hf : 2 ^ 63 <= cp_f c < 2 ^ 64).

Let W := (x * cp_f c + 2 ^ 63) / 2 ^ 64.

Lemma product_below : (W - 1) * 2 ^ 64 * scaled_unit c < x * scaled_ten c.
Proof.
  pose proof (scaled_unit_pos c) as Hp. pose proof (Z.mul_div_le (x * cp_f c + 2 ^ 63) (2 ^ 64)) as HW.
  fold W in HW. generalize dependent W. intros V HW.
  set (P := scaled_unit c) in *. set (T := scaled_ten c) in *. clearbody P T.
  assert ((V - 1) * 2 ^ 64 <= x * cp_f c - 2 ^ 63) as H1 by lia.
  apply Z.le_lt_trans with ((x * cp_f c - 2 ^ 63) * P); [by apply Z.mul_le_mono_pos_r|].
  assert (2 * (cp_f c * P) <= 2 * T + P) as H2 by lia. nia.
Qed.

Lemma product_above : x * scaled_ten c < (W + 1) * 2 ^ 64 * scaled_unit c.
Proof.
  pose proof (scaled_unit_pos c) as Hp.
  pose proof (Z.mul_succ_div_gt (x * cp_f c + 2 ^ 63) (2 ^ 64)) as HW.
  fold W in HW. generalize dependent W. intros V HW.
  set (P := scaled_unit c) in *. set (T := scaled_ten c) in *. clearbody P T.
  assert (x * cp_f c + 2 ^ 63 < (V + 1) * 2 ^ 64) as H1 by lia.
  apply Z.le_lt_trans with ((x * cp_f c + 2 ^ 63) * P); [|by apply Z.mul_lt_mono_pos_r].
  assert (2 * T <= 2 * (cp_f c * P) + P) as H2 by lia. nia.
Qed.

Lemma product_bounds : 0 <= W < 2 ^ 64.
Proof.
  split; [apply Z.div_pos; nia|]. apply Z.div_lt_upper_bound; [lia|]. nia.
Qed.
End products.

(** Rounded products keep the distance of their factors, up to a unit. *)
Lemma product_gap x y f : 0 < x -> x <= y -> 2 ^ 63 <= f < 2 ^ 64 ->
  (y - x) * f < ((y * f + 2 ^ 63) / 2 ^ 64 - (x * f + 2 ^ 63) / 2 ^ 64 + 1) * 2 ^ 64.
Proof.
  intros Hx Hy Hf. pose proof (Z.mul_div_le (x * f + 2 ^ 63) (2 ^ 64)).
  pose proof (Z.mul_succ_div_gt (y * f + 2 ^ 63) (2 ^ 64)). lia.
Qed.
