(* ===== verification/GrisuDigits.v ===== *)
(** * GrisuDigits: the digits are generated as they should be

    The loops of [grisu2_digit_gen] and [grisu2_round] (file Dtoa): they end
    within their fuel, their assertions hold, nothing overflows, and the digits
    denote a number between the two boundaries; put together with the
    arithmetic of Grisu, [grisu2] always returns at most 17 digits of a number
    strictly inside the rounding interval. *)

From Stdlib Require Import ZArith Lia.
From stdpp Require Import base numbers list.
From S2P Require Import Prelude Dtoa Grisu.

Open Scope Z_scope.

(** ** The buffer *)

Definition is_code (c : Z) : Prop := 48 <= c <= 57.
Definition digits (buf : buffer) : Prop := Forall is_code buf.
(** The number the digits denote. *)
Definition value (buf : buffer) : Z := fold_left (fun a c => 10 * a + (c - 48)) buf 0.

Lemma value_snoc buf c : value (buf ++ [c]) = 10 * value buf + (c - 48).
Proof. unfold value. by rewrite fold_left_app. Qed.

Lemma value_nonneg buf : digits buf -> 0 <= value buf.
Proof.
  induction buf as [|c buf IH] using rev_ind; intros Hb; [done|].
  apply Forall_app in Hb as [Hb [Hc _]%Forall_cons]. rewrite value_snoc. unfold is_code in Hc.
  specialize (IH Hb). lia.
Qed.

Lemma digits_snoc buf c : digits buf -> is_code c -> digits (buf ++ [c]).
Proof. intros. apply Forall_app_2; [done|]. by apply Forall_singleton. Qed.

Lemma last_snoc_default (buf : buffer) c : default 48 (last (buf ++ [c])) = c.
Proof. by rewrite last_snoc. Qed.

Lemma decrement_snoc buf c : decrement_last (buf ++ [c]) = buf ++ [c - 1].
Proof.
  unfold decrement_last. rewrite length_app, Nat.add_sub.
  by rewrite alter_app_r_alt, Nat.sub_diag by done.
Qed.

(** Rounding takes units off the last digit, which stays above zero, and stays
    within [delta]. *)
Definition rounded (buf0 : buffer) (c rest delta ten_k : Z) (buf : buffer) : Prop :=
  exists j, 0 <= j < c - 48 /\ buf = buf0 ++ [c - j] /\ rest + j * ten_k <= delta.

Lemma round_loop_spec buf0 dist delta ten_k : dist <= delta < 2 ^ 64 -> 0 < ten_k ->
  forall fuel c rest, is_code c -> 0 <= rest <= delta -> delta < rest + (c - 48) * ten_k ->
  (Z.to_nat (c - 48) <= fuel)%nat ->
  exists buf, grisu2_round_loop fuel (buf0 ++ [c]) dist delta rest ten_k = Some buf
    /\ rounded buf0 c rest delta ten_k buf.
Proof.
  intros Hd Ht. induction fuel as [|fuel IH]; intros c rest Hc Hr Hlast Hf; [nia|].
  cbn [grisu2_round_loop]. unfold is_code in *.
  assert (Hstop : exists buf, Some (buf0 ++ [c]) = Some buf /\ rounded buf0 c rest delta ten_k buf).
  { eexists. split; [done|]. exists 0. rewrite Z.sub_0_r. split_and!; [nia..|done|lia]. }
  destruct (Z.ltb_spec rest dist) as [H1|]; cbn [andb]; [|exact Hstop].
  rewrite (u64_small (delta - rest)) by lia.
  destruct (Z.leb_spec ten_k (delta - rest)) as [H2|]; cbn [andb]; [|exact Hstop].
  rewrite (u64_small (rest + ten_k)) by lia.
  destruct (_ || _); [|exact Hstop]. rewrite last_snoc_default.
  destruct (Z.eqb_spec c 48) as [->|Hne]; [lia|]. cbn [negb]. rewrite decrement_snoc.
  destruct (IH (c - 1) (rest + ten_k)) as (buf & E & j & Hj & -> & Hle); [lia..|].
  eexists. split; [exact E|]. exists (j + 1). split_and!; [lia|lia| |lia].
  by replace (c - (j + 1)) with (c - 1 - j) by lia.
Qed.

Lemma round_spec buf0 c dist delta rest ten_k :
  0 <= dist <= delta -> delta < 2 ^ 64 -> 0 < ten_k -> is_code c -> 0 <= rest <= delta ->
  delta < rest + (c - 48) * ten_k ->
  exists buf, grisu2_round (buf0 ++ [c]) dist delta rest ten_k = Some buf
    /\ rounded buf0 c rest delta ten_k buf.
Proof.
  intros Hd Hd' Ht Hc Hr Hl. unfold grisu2_round. rewrite length_app.
  destruct (Nat.leb_spec 1 (length buf0 + length [c])); [|cbn in *; lia].
  destruct (Z.leb_spec dist delta); [|lia]. destruct (Z.leb_spec rest delta); [|lia].
  destruct (Z.ltb_spec 0 ten_k); [|lia]. apply round_loop_spec; unfold is_code in *; lia.
Qed.

(** A buffer of digits without leading zeros whose number, at [unit], is what
    is left of [M] but for at most [delta]. *)
Definition generated (buf : buffer) (unit M delta : Z) : Prop :=
  digits buf /\ head buf <> Some 48 /\ M - delta <= value buf * unit <= M.

(** Leading digits stay. *)
Definition no_zero_head (buf : buffer) : Prop := head buf <> Some 48.

Lemma head_snoc (buf : buffer) c c' : no_zero_head (buf ++ [c]) -> c' <> 48 ->
  no_zero_head (buf ++ [c']).
Proof. unfold no_zero_head. destruct buf; cbn; congruence. Qed.

Lemma rounded_generated buf0 c rest delta unit M buf : digits buf0 -> is_code c ->
  no_zero_head (buf0 ++ [c]) -> 0 <= rest -> 0 < unit ->
  value (buf0 ++ [c]) * unit + rest = M -> rounded buf0 c rest delta unit buf ->
  generated buf unit M delta /\ length buf = S (length buf0).
Proof.
  unfold is_code. intros Hd Hc Hh Hr Hu HM (j & Hj & -> & Hle). split; [|rewrite length_app; cbn; lia].
  split; [apply digits_snoc; unfold is_code; [done|lia]|].
  split; [apply (head_snoc _ c); [done|lia]|]. rewrite value_snoc in *. nia.
Qed.

(** ** The loops *)

Lemma find_largest_pow10_spec n : 0 < n < 2 ^ 32 -> exists k : nat,
  find_largest_pow10 n = (S k, 10 ^ Z.of_nat k) /\ 10 ^ Z.of_nat k <= n < 10 ^ Z.of_nat (S k)
  /\ (k <= 9)%nat.
Proof.
  intros Hn. unfold find_largest_pow10.
  repeat match goal with |- context [?a <=? n] => destruct (Z.leb_spec a n) end.
  all: match goal with |- context [(S ?k, _)] => exists k end; split; [reflexivity|split; [|lia]].
  all: match goal with |- 10 ^ Z.of_nat ?k <= _ < 10 ^ Z.of_nat ?k' =>
    let a := eval vm_compute in (10 ^ Z.of_nat k) in
    let b := eval vm_compute in (10 ^ Z.of_nat k') in
    change (10 ^ Z.of_nat k) with a; change (10 ^ Z.of_nat k') with b end; lia.
Qed.

Lemma pow10_S n : 10 ^ Z.of_nat (S n) = 10 * 10 ^ Z.of_nat n.
Proof. rewrite Nat2Z.inj_succ, Z.pow_succ_r; lia. Qed.

Lemma pow10_pos n : 0 < 10 ^ Z.of_nat n.
Proof. apply Z.pow_pos_nonneg; lia. Qed.

Section loops.
Variables (s M : Z).
Hypothesis Hs : 32 <= s <= 60.
Hypothesis HM : M < 2 ^ 64.

Let one := 2 ^ s.

Lemma one_bound : 2 ^ 32 <= one <= 2 ^ 60.
Proof. unfold one. split; apply Z.pow_le_mono_r; lia. Qed.

Section integral.
Variables (D p2 delta dist : Z).
Hypothesis Hp2 : 0 <= p2 < one.
Hypothesis Hd : 0 <= dist <= delta.
Hypothesis Hdelta : delta < 2 ^ 64.

Definition integral_result (n : nat) (buf : buffer) (r : buffer * Z + buffer) : Prop :=
  match r with
  | inl (buf', K) => exists n' : nat, K = D + Z.of_nat n' /\ (n' < n)%nat
      /\ generated buf' (10 ^ Z.of_nat n' * one) M delta
      /\ (length buf' = length buf + n - n')%nat
  | inr buf' => digits buf' /\ no_zero_head buf' /\ value buf' * one + p2 = M /\ delta < p2
      /\ (length buf' = length buf + n)%nat
  end.

Lemma integral_result_snoc n buf c res :
  integral_result n (buf ++ [c]) res -> integral_result (S n) buf res.
Proof.
  unfold integral_result. rewrite length_app. cbn [length]. destruct res as [[buf' K]|buf'].
  - intros (n' & -> & Hlt & Hg & Hl). exists n'. split_and!; [done|lia|done|lia].
  - intros (? & ? & ? & ? & ?). split_and!; try done. lia.
Qed.

Lemma no_zero_head_snoc buf c : no_zero_head buf -> buf <> [] \/ c <> 48 -> no_zero_head (buf ++ [c]).
Proof. unfold no_zero_head. intros Hh [Hne|Hc]; destruct buf; cbn in *; congruence. Qed.

Lemma digit_gen_integral_spec n : forall buf p1 pow10, digits buf -> no_zero_head buf ->
  0 <= p1 < 10 ^ Z.of_nat n -> (forall n', n = S n' -> pow10 = 10 ^ Z.of_nat n') ->
  10 ^ Z.of_nat (n - 1) * one < 2 ^ 64 ->
  (buf <> [] \/ exists n', n = S n' /\ 10 ^ Z.of_nat n' <= p1) ->
  value buf * 10 ^ Z.of_nat n * one + p1 * one + p2 = M -> delta < p1 * one + p2 ->
  exists r, digit_gen_integral n buf D p1 p2 pow10 delta dist s = Some r /\ integral_result n buf r.
Proof.
  pose proof one_bound as Hone.
  induction n as [|n IH]; intros buf p1 pow10 Hdig Hh Hp1 Hpow Hten Hfirst HMv Hrest.
  { change (10 ^ Z.of_nat 0) with 1 in *. assert (p1 = 0) as -> by lia.
    exists (inr buf). split; [done|]. split_and!; [done|done|lia|lia|lia]. }
  specialize (Hpow n eq_refl). subst pow10. rewrite pow10_S in *. pose proof (pow10_pos n) as Ht.
  replace (S n - 1)%nat with n in Hten by lia. set (ten := 10 ^ Z.of_nat n) in *.
  cbn [digit_gen_integral]. fold ten.
  pose proof (Z.div_mod p1 ten) as Edm. pose proof (Z.mod_pos_bound p1 ten Ht) as Hr.
  assert (0 <= p1 / ten <= 9) as Hd9.
  { split; [apply Z.div_pos; lia|]. apply Z.lt_succ_r, Z.div_lt_upper_bound; lia. }
  set (d := p1 / ten) in *. set (r := p1 mod ten) in *.
  assert (p1 = ten * d + r) as Ep by lia. clearbody d r. clear Edm. subst p1.
  destruct (Z.leb_spec d 9); [|lia]. rewrite !shiftl_mul by lia. fold one.
  assert (Hcode : is_code (48 + d)) by (unfold is_code; lia).
  assert (Hv : value (buf ++ [48 + d]) = 10 * value buf + d) by (rewrite value_snoc; lia).
  assert (Hv0 : 0 <= value (buf ++ [48 + d]) * ten * one).
  { pose proof (value_nonneg _ (digits_snoc buf _ Hdig Hcode)).
    apply Z.mul_nonneg_nonneg; [apply Z.mul_nonneg_nonneg|]; lia. }
  assert (HM' : value (buf ++ [48 + d]) * ten * one + r * one + p2 = M).
  { rewrite Hv, <-HMv. ring. }
  assert (Hr0 : 0 <= r * one) by (apply Z.mul_nonneg_nonneg; lia).
  assert (Hh' : no_zero_head (buf ++ [48 + d])).
  { apply no_zero_head_snoc; [done|]. destruct Hfirst as [Hne|(n' & [= <-] & Hge)]; [by left|].
    right. intros Hd0. assert (d = 0) as -> by lia. subst ten. lia. }
  rewrite (u64_small (r * one)), (u64_small (r * one + p2)) by lia.
  destruct (Z.leb_spec (r * one + p2) delta) as [Hle|Hgt].
  - rewrite (u64_small (ten * one)) by lia.
    destruct (round_spec buf (48 + d) dist delta (r * one + p2) (ten * one)) as (buf' & -> & Hb');
      [lia|lia|apply Z.mul_pos_pos; lia|done|lia| |].
    { replace (48 + d - 48) with d by lia.
      replace ((ten * d + r) * one + p2) with (r * one + p2 + d * (ten * one)) in Hrest by ring. done. }
    destruct (rounded_generated buf (48 + d) (r * one + p2) delta (ten * one) M buf') as [Hg Hl];
      [done..|lia|apply Z.mul_pos_pos; lia|lia|done|].
    cbn [mbind option_bind]. eexists. split; [reflexivity|]. exists n. split_and!; [done|lia|done|lia].
  - destruct (IH (buf ++ [48 + d]) r (ten / 10)) as (res & E & Hres); try done.
    + by apply digits_snoc.
    + intros n' ->. subst ten. rewrite pow10_S, Z.mul_comm. by apply Z.div_mul.
    + eapply Z.le_lt_trans; [|exact Hten]. apply Z.mul_le_mono_nonneg_r; [lia|].
      apply Z.pow_le_mono_r; lia.
    + left. by destruct buf.
    + exists res. split; [exact E|]. by eapply integral_result_snoc.
Qed.
End integral.
(** The fractional part: [j] digits are enough when [one <= 10 ^ j * delta]. *)
Lemma digit_gen_fraction_spec fuel : forall j buf m p2 delta dist, (j < fuel)%nat ->
  digits buf -> no_zero_head buf -> buf <> [] -> 0 <= dist <= delta -> delta < p2 < one ->
  one <= 10 ^ Z.of_nat j * delta ->
  exists buf0 c i r, digit_gen_fraction fuel buf m p2 delta dist s one
      = Some (buf0 ++ [c], m + Z.of_nat i, r, delta * 10 ^ Z.of_nat i, dist * 10 ^ Z.of_nat i)
    /\ (i <= j)%nat /\ (S (length buf0) = length buf + i)%nat
    /\ digits buf0 /\ is_code c /\ no_zero_head (buf0 ++ [c])
    /\ value (buf0 ++ [c]) * one + r = (value buf * one + p2) * 10 ^ Z.of_nat i
    /\ 0 <= r <= delta * 10 ^ Z.of_nat i /\ delta * 10 ^ Z.of_nat i < 2 ^ 64
    /\ delta * 10 ^ Z.of_nat i < r + (c - 48) * one.
Proof.
  pose proof one_bound as Hone.
  induction fuel as [|fuel IH]; intros j buf m p2 delta dist Hj Hdig Hh Hne Hd Hp2 Hstop; [lia|].
  destruct j as [|j]; [change (10 ^ Z.of_nat 0) with 1 in Hstop; lia|]. rewrite pow10_S in Hstop.
  cbn [digit_gen_fraction]. assert ((2 ^ 64 - 1) / 10 = 1844674407370955161) as -> by done.
  destruct (Z.leb_spec p2 1844674407370955161); [|lia].
  rewrite !(u64_small (_ * 10)) by lia. rewrite shiftr_div by lia. fold one.
  change (one - 1) with (2 ^ s - 1). rewrite low_bits by lia. fold one.
  pose proof (Z.div_mod (p2 * 10) one) as Edm. pose proof (Z.mod_pos_bound (p2 * 10) one) as Hr.
  assert (0 <= p2 * 10 / one <= 9) as Hd9.
  { split; [apply Z.div_pos; lia|]. apply Z.lt_succ_r, Z.div_lt_upper_bound; lia. }
  set (d := p2 * 10 / one) in *. set (r := (p2 * 10) mod one) in *.
  assert (p2 * 10 = d * one + r) as Ep by lia. clearbody d r. clear Edm.
  destruct (Z.leb_spec d 9); [|lia].
  assert (Hcode : is_code (48 + d)) by (unfold is_code; lia).
  assert (Hh' : no_zero_head (buf ++ [48 + d])) by (revert Hh; unfold no_zero_head; by destruct buf).
  assert (Hv : value (buf ++ [48 + d]) * one + r = (value buf * one + p2) * 10).
  { rewrite value_snoc. replace (48 + d - 48) with d by lia. lia. }
  destruct (Z.leb_spec r (delta * 10)) as [Hle|Hgt].
  - exists buf, (48 + d), 1%nat, r. change (10 ^ Z.of_nat 1) with 10. change (Z.of_nat 1) with 1.
    split_and!; try done; lia.
  - destruct (IH j (buf ++ [48 + d]) (m + 1) r (delta * 10) (dist * 10))
      as (buf0 & c & i & r' & -> & Hi & Hl & Hdig0 & Hc & Hh0 & Hv' & Hr1 & Hr2 & Hlast);
      try done; try lia; [by apply digits_snoc|by destruct buf|].
    exists buf0, c, (S i), r'. rewrite pow10_S. rewrite length_app in Hl. cbn [length] in Hl.
    replace (delta * (10 * 10 ^ Z.of_nat i)) with (delta * 10 * 10 ^ Z.of_nat i) by ring.
    replace (dist * (10 * 10 ^ Z.of_nat i)) with (dist * 10 * 10 ^ Z.of_nat i) by ring.
    replace (m + Z.of_nat (S i)) with (m + 1 + Z.of_nat i) by lia.
    split_and!; try done; try lia. rewrite Hv', Hv. ring.
Qed.
End loops.

(** Where the number of a buffer is: [K] beyond the exponent [D]. *)
Definition located (buf : buffer) (K D one M delta : Z) : Prop :=
  (exists n : nat, K = D + Z.of_nat n /\ (n <= 16)%nat
     /\ generated buf (10 ^ Z.of_nat n * one) M delta)
  \/ (exists m : nat, K = D - Z.of_nat m /\ (m <= 16)%nat
        /\ generated buf one (M * 10 ^ Z.of_nat m) (delta * 10 ^ Z.of_nat m)).

Lemma pow10_le a b : (a <= b)%nat -> 10 ^ Z.of_nat a <= 10 ^ Z.of_nat b.
Proof. intros. apply Z.pow_le_mono_r; lia. Qed.

(** The digits a number of the size of [M] needs. *)
Lemma digits_needed k one M delta : (k <= 9)%nat -> 0 < one -> 10 ^ Z.of_nat k * one <= M ->
  M <= 10 ^ 16 * delta -> one <= 10 ^ Z.of_nat (16 - k) * delta.
Proof.
  intros Hk Ho HM Hd.
  assert (10 ^ 16 = 10 ^ Z.of_nat k * 10 ^ Z.of_nat (16 - k)) as E.
  { rewrite <-Z.pow_add_r by lia. f_equal. lia. }
  rewrite E in Hd. pose proof (pow10_pos k) as Hp. apply (Z.mul_le_mono_pos_l _ _ (10 ^ Z.of_nat k));
    [done|]. etransitivity; [exact HM|]. by rewrite Z.mul_assoc.
Qed.

Lemma grisu2_digit_gen_spec D Mm w Mp e : -60 <= e <= -32 ->
  0 < Mm -> Mm <= w <= Mp -> 2 ^ 60 <= Mp < 2 ^ 64 -> Mp <= 10 ^ 16 * (Mp - Mm) ->
  exists buf K, grisu2_digit_gen D (Diyfp Mm e) (Diyfp w e) (Diyfp Mp e) = Some (buf, K)
    /\ (1 <= length buf <= 17)%nat /\ located buf K D (2 ^ (- e)) Mp (Mp - Mm).
Proof.
  intros He HMm Hw HMp Hgap. unfold grisu2_digit_gen, kAlpha, kGamma, diyfp_sub. cbn [df de].
  destruct (Z.leb_spec (-60) e); [|lia]. destruct (Z.leb_spec e (-32)); [|lia].
  rewrite Z.eqb_refl. destruct (Z.leb_spec Mm Mp); [|lia]. cbn [mbind option_bind].
  destruct (Z.leb_spec w Mp); [|lia]. cbn [mbind option_bind df].
  rewrite (u64_small (Mp - Mm)), (u64_small (Mp - w)) by lia.
  set (s := - e). assert (Hs : 32 <= s <= 60) by (subst s; lia).
  pose proof (one_bound s Hs) as Hone. rewrite shiftl_mul, Z.mul_1_l, u64_small by lia.
  rewrite shiftr_div, low_bits by lia. set (one := 2 ^ s) in *.
  set (delta := Mp - Mm) in *. set (dist := Mp - w).
  pose proof (Z.div_mod Mp one) as Edm. pose proof (Z.mod_pos_bound Mp one) as Hp2.
  assert (0 < Mp / one < 2 ^ 32) as Hp1.
  { split; [apply Z.div_str_pos; lia|]. apply Z.div_lt_upper_bound; nia. }
  set (p1 := Mp / one) in *. set (p2 := Mp mod one) in *.
  assert (HM : p1 * one + p2 = Mp) by lia. clearbody p1 p2. clear Edm.
  unfold u32. rewrite (Z.mod_small p1) by lia. destruct (Z.ltb_spec 0 p1); [|lia].
  destruct (find_largest_pow10_spec p1 Hp1) as (k & -> & Hk & Hk9).
  assert (Hk1 : 10 ^ Z.of_nat k * one <= Mp) by nia.
  destruct (digit_gen_integral_spec s Mp Hs ltac:(lia) D p2 delta dist ltac:(lia) ltac:(lia)
    ltac:(lia) (S k) [] p1 (10 ^ Z.of_nat k)) as (r & -> & Hr);
    [apply Forall_nil_2|done|lia|by intros ? [= ->]|replace (S k - 1)%nat with k by lia; lia
    |right; exists k; split; [done|lia]|cbn [value]; change (value []) with 0; lia|lia|].
  cbn [mbind option_bind]. destruct r as [[buf K]|buf].
  - destruct Hr as (n & -> & Hn & Hg & Hl). cbn [length] in Hl. exists buf, (D + Z.of_nat n).
    split; [done|]. split; [lia|]. left. exists n. split_and!; [done|lia|done].
  - destruct Hr as (Hdig & Hh & Hv & Hp & Hl). cbn [length] in Hl.
    destruct (Z.ltb_spec delta p2); [|lia].
    destruct (digit_gen_fraction_spec s Hs 20 (16 - k) buf 0 p2 delta dist)
      as (buf0 & c & i & r & E & Hi & Hl0 & Hdig0 & Hc & Hh0 & Hv0 & Hr1 & Hr2 & Hlast);
      [lia|done|done|by destruct buf|lia|fold one; lia|by apply (digits_needed k _ Mp); [..|lia| |]|].
    fold one in E, Hv0, Hv, Hlast. rewrite E. clear E.
    cbn [mbind option_bind]. pose proof (pow10_pos i) as Hpi.
    destruct (round_spec buf0 c (dist * 10 ^ Z.of_nat i) (delta * 10 ^ Z.of_nat i) r one)
      as (buf' & -> & Hb');
      [split; [apply Z.mul_nonneg_nonneg|apply Z.mul_le_mono_nonneg_r]; lia|done|lia|done|done|done|].
    destruct (rounded_generated buf0 c r (delta * 10 ^ Z.of_nat i) one (Mp * 10 ^ Z.of_nat i) buf')
      as [Hg Hl']; [done|done|done|lia|lia| |done|].
    { rewrite Hv0. by rewrite Hv. }
    cbn [mbind option_bind]. exists buf', (D - (0 + Z.of_nat i)). split; [done|]. split; [lia|].
    right. exists i. split_and!; [lia|lia|done].
Qed.

(** ** The whole conversion *)

(** The decimal number [m * 10 ^ k] is strictly between the boundaries. *)
Definition rounds_to (m k bits : Z) : Prop :=
  bin_lt (df (m_minus bits)) (de (m_minus bits)) m k
  /\ dec_lt m k (df (m_plus bits)) (de (m_plus bits)).

(** From the scaled numbers back to the boundary [g * 2 ^ (E + s - 64 - cp_e c)]. *)
Section scale.
Variables (c : cached_power) (v g M E s : Z) (n m : nat).
Hypothesis (HE : E <= 0) (Hs : 0 <= s).

Let k := cp_k c.
Let ec := cp_e c.

Lemma scale_exponents :
  v * 10 ^ (Z.of_nat n + pos (- k)) * 2 ^ (- E + 64 + pos ec)
  = v * (10 ^ Z.of_nat n * 2 ^ (- E)) * (2 ^ 64 * scaled_unit c)
  /\ g * 2 ^ (s + pos (- ec)) * 10 ^ (pos k + Z.of_nat m)
     = g * 2 ^ s * scaled_ten c * 10 ^ Z.of_nat m.
Proof.
  unfold scaled_unit, scaled_ten. fold k ec. unfold pos.
  rewrite !Z.pow_add_r by lia. split; ring.
Qed.

Lemma scaled_dec_lt : v * (10 ^ Z.of_nat n * 2 ^ (- E)) <= M * 10 ^ Z.of_nat m ->
  M * 2 ^ 64 * scaled_unit c < g * 2 ^ s * scaled_ten c ->
  dec_lt v (- k + Z.of_nat n - Z.of_nat m) g (E + s - 64 - ec).
Proof.
  intros H1 H2. destruct scale_exponents as [E1 E2].
  replace (- k + Z.of_nat n - Z.of_nat m)
    with (Z.of_nat n + pos (- k) - (pos k + Z.of_nat m)) by (unfold pos; lia).
  replace (E + s - 64 - ec) with (s + pos (- ec) - (- E + 64 + pos ec)) by (unfold pos; lia).
  apply (dec_lt_cross v g (Z.of_nat n + pos (- k)) (pos k + Z.of_nat m) (- E + 64 + pos ec)
    (s + pos (- ec))); [unfold pos; lia..|]. rewrite E1, E2.
  pose proof (scaled_unit_pos c) as Hu. pose proof (pow10_pos m) as Hm.
  apply Z.le_lt_trans with (M * 10 ^ Z.of_nat m * (2 ^ 64 * scaled_unit c)).
  - apply Z.mul_le_mono_nonneg_r; [lia|done].
  - replace (M * 10 ^ Z.of_nat m * (2 ^ 64 * scaled_unit c))
      with (M * 2 ^ 64 * scaled_unit c * 10 ^ Z.of_nat m) by ring.
    by apply Z.mul_lt_mono_pos_r.
Qed.

Lemma scaled_bin_lt : M * 10 ^ Z.of_nat m <= v * (10 ^ Z.of_nat n * 2 ^ (- E)) ->
  g * 2 ^ s * scaled_ten c < M * 2 ^ 64 * scaled_unit c ->
  bin_lt g (E + s - 64 - ec) v (- k + Z.of_nat n - Z.of_nat m).
Proof.
  intros H1 H2. destruct scale_exponents as [E1 E2].
  replace (- k + Z.of_nat n - Z.of_nat m)
    with (Z.of_nat n + pos (- k) - (pos k + Z.of_nat m)) by (unfold pos; lia).
  replace (E + s - 64 - ec) with (s + pos (- ec) - (- E + 64 + pos ec)) by (unfold pos; lia).
  apply (bin_lt_cross v g (Z.of_nat n + pos (- k)) (pos k + Z.of_nat m) (- E + 64 + pos ec)
    (s + pos (- ec))); [unfold pos; lia..|]. rewrite E1, E2.
  pose proof (scaled_unit_pos c) as Hu. pose proof (pow10_pos m) as Hm.
  apply Z.lt_le_trans with (M * 10 ^ Z.of_nat m * (2 ^ 64 * scaled_unit c)).
  - replace (M * 10 ^ Z.of_nat m * (2 ^ 64 * scaled_unit c))
      with (M * 2 ^ 64 * scaled_unit c * 10 ^ Z.of_nat m) by ring.
    by apply Z.mul_lt_mono_pos_r.
  - apply Z.mul_le_mono_nonneg_r; [lia|done].
Qed.
End scale.

(** The two boundaries of a located number. *)
Lemma located_between buf K c E Mm Mp g s g' s' : E <= 0 -> 0 <= s -> 0 <= s' ->
  located buf K (- cp_k c) (2 ^ (- E)) Mp (Mp - Mm) ->
  Mp * 2 ^ 64 * scaled_unit c < g * 2 ^ s * scaled_ten c ->
  g' * 2 ^ s' * scaled_ten c < Mm * 2 ^ 64 * scaled_unit c ->
  - cp_k c - 16 <= K <= - cp_k c + 16 /\ digits buf /\ no_zero_head buf
  /\ dec_lt (value buf) K g (E + s - 64 - cp_e c)
  /\ bin_lt g' (E + s' - 64 - cp_e c) (value buf) K.
Proof.
  intros HE Hs Hs' Hloc Hp Hm.
  assert (exists n m : nat, K = - cp_k c + Z.of_nat n - Z.of_nat m /\ (n <= 16 /\ m <= 16)%nat
    /\ digits buf /\ no_zero_head buf
    /\ Mm * 10 ^ Z.of_nat m <= value buf * (10 ^ Z.of_nat n * 2 ^ (- E)) <= Mp * 10 ^ Z.of_nat m)
    as (n & m & -> & Hnm & Hd & Hh & Hlo & Hhi).
  { destruct Hloc as [(n & -> & Hn & Hd & Hh & Hv)|(m & -> & Hn & Hd & Hh & Hv)].
    - exists n, 0%nat. split; [lia|]. split; [lia|]. split; [done|]. split; [done|].
      change (10 ^ Z.of_nat 0) with 1. rewrite !Z.mul_1_r. lia.
    - exists 0%nat, m. split; [lia|]. split; [lia|]. split; [done|]. split; [done|].
      change (10 ^ Z.of_nat 0) with 1. rewrite Z.mul_1_l. nia. }
  split; [lia|]. split; [done|]. split; [done|]. split.
  - by eapply scaled_dec_lt.
  - by eapply scaled_bin_lt.
Qed.

(** The interval is wide enough for 17 digits. *)
Lemma interval_width x y f Wx Wy : 0 < x <= y -> y < 2 ^ 64 -> 2 ^ 63 <= f < 2 ^ 64 ->
  Wx = (x * f + 2 ^ 63) / 2 ^ 64 -> Wy = (y * f + 2 ^ 63) / 2 ^ 64 ->
  2048 <= y - x \/ 1536 <= y - x /\ y <= 2 ^ 63 + 2 ^ 10 ->
  Wy - 1 <= 10 ^ 16 * (Wy - 1 - (Wx + 1)).
Proof.
  intros Hx Hy Hf EWx EWy Hgap. pose proof (product_gap x y f ltac:(lia) ltac:(lia) Hf) as Hg.
  rewrite <-EWx, <-EWy in Hg. pose proof (Z.mul_div_le (y * f + 2 ^ 63) (2 ^ 64)) as Hle.
  rewrite <-EWy in Hle. clear EWx EWy.
  destruct Hgap as [H|[H Hy']].
  - assert (2048 * f <= (y - x) * f) by (apply Z.mul_le_mono_nonneg_r; lia).
    assert (y * f <= (2 ^ 64 - 1) * f) by (apply Z.mul_le_mono_nonneg_r; lia). lia.
  - assert (1536 * f <= (y - x) * f) by (apply Z.mul_le_mono_nonneg_r; lia).
    assert (y * f <= (2 ^ 63 + 2 ^ 10) * f) by (apply Z.mul_le_mono_nonneg_r; lia). lia.
Qed.

(** Every positive finite number is converted: no assertion fails, and at most
    17 digits, the first of them not a zero, denote a number strictly between
    the boundaries. *)
Lemma grisu2_spec bits : positive bits -> exists buf K,
  grisu2 bits = Some (buf, K) /\ (1 <= length buf <= 17)%nat /\ -400 <= K <= 400
  /\ digits buf /\ no_zero_head buf /\ rounds_to (value buf) K bits.
Proof.
  intros Hb. destruct (compute_boundaries_spec bits Hb)
    as (s & fm & Ec & Hs & Hn & Hfm & Hde & Hg1 & Hg2 & Hfm0).
  pose proof (float_bounds bits Hb) as [Hf He]. pose proof (m_plus_eq bits Hb) as Hmp.
  set (f := df (float_diyfp bits)) in *. set (e := de (float_diyfp bits)) in *.
  assert (H2s : 2 ^ (s + 1) = 2 * 2 ^ s) by (rewrite <-Z.pow_succ_r by lia; f_equal; lia).
  assert (H1024 : 2 ^ 10 <= 2 ^ s) by (apply Z.pow_le_mono_r; lia).
  unfold grisu2. destruct Hb as [Hr Hfin]. rewrite Hfin.
  assert (signbit bits = false) as -> by (unfold signbit; rewrite shiftr_div, Z.div_small by lia; done).
  destruct (Z.eqb_spec bits 0); [lia|]. cbn [negb andb]. rewrite Ec. cbn [mbind option_bind].
  unfold grisu2_of. cbn [bd_w bd_minus bd_plus de]. rewrite !Z.eqb_refl.
  destruct (cached_power_spec (e - 1 - s) ltac:(lia)) as (c & -> & Hc & Hacc & HE & Hk).
  cbn [mbind option_bind].
  set (xp := (2 * f + 1) * 2 ^ s) in *. set (xw := f * 2 ^ (s + 1)) in *.
  assert (Hxw : 0 < fm /\ fm + 512 <= xw /\ xw + 1024 <= xp) by (subst xw xp; rewrite H2s in *; lia).
  rewrite !diyfp_mul_spec by (cbn [df]; lia). cbn [df de].
  set (Wm := (fm * cp_f c + 2 ^ 63) / 2 ^ 64). set (W := (xw * cp_f c + 2 ^ 63) / 2 ^ 64).
  set (Wp := (xp * cp_f c + 2 ^ 63) / 2 ^ 64).
  pose proof (product_bounds fm c ltac:(lia) Hc) as Bm. fold Wm in Bm.
  pose proof (product_bounds xp c ltac:(lia) Hc) as Bp. fold Wp in Bp.
  pose proof (product_gap fm xw (cp_f c) ltac:(lia) ltac:(lia) Hc) as G1. fold Wm W in G1.
  pose proof (product_gap xw xp (cp_f c) ltac:(lia) ltac:(lia) Hc) as G2. fold W Wp in G2.
  assert (512 * 2 ^ 63 <= (xw - fm) * cp_f c) by (apply Z.mul_le_mono_nonneg; lia).
  assert (1024 * 2 ^ 63 <= (xp - xw) * cp_f c) by (apply Z.mul_le_mono_nonneg; lia).
  assert (2 ^ 62 <= Wp).
  { apply Z.div_le_lower_bound; [lia|]. assert (2 ^ 63 * 2 ^ 63 <= xp * cp_f c)
      by (apply Z.mul_le_mono_nonneg; lia). lia. }
  rewrite !u64_small by lia.
  destruct (grisu2_digit_gen_spec (- cp_k c) (Wm + 1) W (Wp - 1) (e - 1 - s + cp_e c + 64))
    as (buf & K & -> & Hlen & Hloc); [lia|lia|lia|lia| |].
  { eapply interval_width; try reflexivity; lia. }
  exists buf, K. split; [done|]. split; [done|].
  set (E := e - 1 - s + cp_e c + 64) in *.
  destruct (located_between buf K c E (Wm + 1) (Wp - 1) (2 * f + 1) s
    (df (m_minus bits)) (de (m_minus bits) - (e - 1 - s))) as (HK & Hd & Hh & Hlt & Hgt); [lia..|exact Hloc| | |].
  - apply product_below; [lia|done|done].
  - rewrite <-Hfm. apply product_above; [lia|done|done].
  - split; [lia|]. split; [done|]. split; [done|]. split.
    + by replace (de (m_minus bits)) with (E + (de (m_minus bits) - (e - 1 - s)) - 64 - cp_e c) by lia.
    + rewrite Hmp. cbn [df de]. by replace (e - 1) with (E + s - 64 - cp_e c) by lia.
Qed.
