(* ===== verification/Strtod.v ===== *)
(** * Strtod: rounding decimal text to the nearest number

    What the JSON library relies on of the C library's [strtod], as the laws
    [StrtodLaws]: the text of a number is read as the floating-point number
    nearest to it, where one is nearest.  [strtod_nearest_ref] is an executable
    function with these laws. *)

From Stdlib Require Import ZArith Ascii String Lia.
From stdpp Require Import base numbers list strings.
From S2P Require Import Prelude JsonLex JsonText.

Open Scope Z_scope.

(** ** The decimal value of a text *)

(** The digits as one number, the count of those behind the point, and what
    follows them. *)
Fixpoint mantissa (acc scale : Z) (point : bool) (s : string) : Z * Z * string :=
  match s with
  | EmptyString => (acc, scale, EmptyString)
  | String c s' =>
      if is_digit (byte_val c) then
        mantissa (10 * acc + (byte_val c - 48)) (if point then scale - 1 else scale) point s'
      else if byte_val c =? 46 then mantissa acc scale true s'
      else (acc, scale, s)
  end.

(** The exponent behind [e] or [E]. *)
Definition exponent_value (s : string) : Z :=
  match s with
  | String _ (String g ds) =>
      if byte_val g =? 45 then - decimal 0 ds
      else if byte_val g =? 43 then decimal 0 ds
      else decimal 0 (String g ds)
  | _ => 0
  end.

(** Sign, [m] and [k] of the value [m * 10 ^ k]. *)
Definition text_value (s : string) : bool * Z * Z :=
  let '(neg, s) := match s with
                   | String c s' => if byte_val c =? 45 then (true, s') else (false, s)
                   | EmptyString => (false, s)
                   end in
  let '(m, k, r) := mantissa 0 0 false s in (neg, m, k + exponent_value r).

(** ** Floating-point numbers in order

    A finite number that is not negative, by its bits, in units of the least
    one, [2 ^ -1074].  The bits after the largest number stand for the number
    that would follow it. *)
Definition units (b : Z) : Z :=
  if b / 2 ^ 52 =? 0 then b mod 2 ^ 52 else (2 ^ 52 + b mod 2 ^ 52) * 2 ^ (b / 2 ^ 52 - 1).
Definition max_bits : Z := 2047 * 2 ^ 52 - 1.

(** Twice the middle between a number and the next one. *)
Definition middle (b : Z) : Z := units b + units (b + 1).

Definition with_sign (neg : bool) (b : Z) : Z := if neg then b + 2 ^ 63 else b.

(** [m * 10 ^ k], in units of [2 ^ -1075], compared with [x]; a negative
    exponent is on the other side. *)
Definition above (x m k : Z) : Prop :=
  x * 10 ^ Z.max 0 (- k) < m * 10 ^ Z.max 0 k * 2 ^ 1075.
Definition below (m k x : Z) : Prop :=
  m * 10 ^ Z.max 0 k * 2 ^ 1075 < x * 10 ^ Z.max 0 (- k).

(** No other number is as near to [m * 10 ^ k] as [b]. *)
Definition nearest (m k b : Z) : Prop :=
  0 <= b <= max_bits /\ (0 < b -> above (middle (b - 1)) m k) /\ below m k (middle b).

(** ** The laws *)

Class StrtodLaws `{Strtod} := {
  strtod_nearest text t neg m k b : number text t -> text_value text = (neg, m, k) ->
    nearest m k b -> strtod text = Some (with_sign neg b);
  strtod_finite text t bits : number text t -> strtod text = Some bits ->
    exists neg b, 0 <= b <= max_bits /\ bits = with_sign neg b;
}.

(** ** A function with the laws *)

(** The least [b] of [lo .. hi] with [p b], which holds of [hi]. *)
Fixpoint bisect (fuel : nat) (p : Z -> bool) (lo hi : Z) : Z :=
  match fuel with
  | O => hi
  | S fuel' =>
      if hi <=? lo then hi
      else
        let mid := (lo + hi) / 2 in
        if p mid then bisect fuel' p lo mid else bisect fuel' p (mid + 1) hi
  end.

Definition below_middle (m k b : Z) : bool :=
  m * 10 ^ Z.max 0 k * 2 ^ 1075 <? middle b * 10 ^ Z.max 0 (- k).

Definition strtod_nearest_ref : Strtod := fun text =>
  let '(neg, m, k) := text_value text in
  if below_middle m k max_bits
  then Some (with_sign neg (bisect 64 (below_middle m k) 0 max_bits))
  else None.

Example strtod_tenth : strtod_nearest_ref "0.1" = Some 0x3FB999999999999A.
Proof. by vm_compute. Qed.
Example strtod_large : strtod_nearest_ref "-1.7976931348623157e+308" = Some 0xFFEFFFFFFFFFFFFF.
Proof. by vm_compute. Qed.
Example strtod_tiny : strtod_nearest_ref "2e-324" = Some 0.
Proof. by vm_compute. Qed.
Example strtod_overflow : strtod_nearest_ref "1e309" = None.
Proof. by vm_compute. Qed.

Lemma bisect_spec p t fuel : forall lo hi, lo <= t <= hi -> hi - lo < 2 ^ Z.of_nat fuel ->
  (forall b, lo <= b <= hi -> p b = (t <=? b)) -> bisect fuel p lo hi = t.
Proof.
  induction fuel as [|fuel IH]; intros lo hi Ht Hf Hp; cbn [bisect].
  - change (2 ^ Z.of_nat 0) with 1 in Hf. lia.
  - rewrite Nat2Z.inj_succ, Z.pow_succ_r in Hf by lia. destruct (Z.leb_spec hi lo); [lia|].
    assert (lo <= (lo + hi) / 2 < hi) as Hm
      by (split; [apply Z.div_le_lower_bound|apply Z.div_lt_upper_bound]; lia).
    pose proof (Z.div_mod (lo + hi) 2). pose proof (Z.mod_pos_bound (lo + hi) 2).
    rewrite (Hp ((lo + hi) / 2)) by lia. set (mid := (lo + hi) / 2) in *.
    destruct (Z.leb_spec t mid); apply IH; try lia; intros b Hb; apply Hp; lia.
Qed.

Lemma bisect_range p fuel : forall lo hi, lo <= hi -> lo <= bisect fuel p lo hi <= hi.
Proof.
  induction fuel as [|fuel IH]; intros lo hi Hle; cbn [bisect]; [lia|].
  destruct (Z.leb_spec hi lo); [lia|].
  assert (lo <= (lo + hi) / 2 < hi) as Hm
    by (split; [apply Z.div_le_lower_bound|apply Z.div_lt_upper_bound]; lia).
  destruct (p _); [specialize (IH lo ((lo + hi) / 2))|specialize (IH ((lo + hi) / 2 + 1) hi)]; lia.
Qed.

(** *** The numbers ascend with their bits *)

Lemma next_fields b : 0 <= b ->
  (b + 1) / 2 ^ 52 = (if b mod 2 ^ 52 =? 2 ^ 52 - 1 then b / 2 ^ 52 + 1 else b / 2 ^ 52)
  /\ (b + 1) mod 2 ^ 52 = (if b mod 2 ^ 52 =? 2 ^ 52 - 1 then 0 else b mod 2 ^ 52 + 1).
Proof.
  intros Hb. pose proof (Z.div_mod b (2 ^ 52)). pose proof (Z.mod_pos_bound b (2 ^ 52)).
  set (E := b / 2 ^ 52) in *. set (F := b mod 2 ^ 52) in *. clearbody E F.
  destruct (Z.eqb_spec F (2 ^ 52 - 1)); split; symmetry;
    [apply Z.div_unique with 0|apply Z.mod_unique with (E + 1)
    |apply Z.div_unique with (F + 1)|apply Z.mod_unique with E]; (left; lia) || lia.
Qed.

(** The distance to the next number. *)
Lemma units_next b : 0 <= b -> units (b + 1) = units b + 2 ^ Z.max 0 (b / 2 ^ 52 - 1).
Proof.
  intros Hb. unfold units. destruct (next_fields b Hb) as [-> ->].
  assert (0 <= b / 2 ^ 52) as HE by (apply Z.div_pos; lia).
  pose proof (Z.mod_pos_bound b (2 ^ 52)).
  set (E := b / 2 ^ 52) in *. set (F := b mod 2 ^ 52) in *. clearbody E F.
  destruct (Z.eqb_spec F (2 ^ 52 - 1)) as [->|HF].
  - destruct (Z.eqb_spec (E + 1) 0); [lia|]. destruct (Z.eqb_spec E 0) as [->|HE']; [done|].
    rewrite Z.max_r by lia. replace (E + 1 - 1) with (Z.succ (E - 1)) by lia.
    rewrite Z.pow_succ_r by lia. lia.
  - destruct (Z.eqb_spec E 0) as [->|HE']; [change (2 ^ Z.max 0 (0 - 1)) with 1; lia|].
    rewrite Z.max_r by lia. lia.
Qed.

Lemma units_lt b : 0 <= b -> units b < units (b + 1).
Proof.
  intros Hb. rewrite units_next by done.
  pose proof (Z.pow_pos_nonneg 2 (Z.max 0 (b / 2 ^ 52 - 1))). lia.
Qed.

Lemma middle_mono b b' : 0 <= b <= b' -> middle b <= middle b'.
Proof.
  intros Hb. replace b' with (b + Z.of_nat (Z.to_nat (b' - b))) by lia.
  induction (Z.to_nat (b' - b)) as [|n IH]; [by rewrite Z.add_0_r|].
  rewrite Nat2Z.inj_succ. replace (b + Z.succ (Z.of_nat n)) with (b + Z.of_nat n + 1) by lia.
  unfold middle in *. pose proof (units_lt (b + Z.of_nat n)).
  pose proof (units_lt (b + Z.of_nat n + 1)). lia.
Qed.

(** *** The function has the laws *)

Lemma below_middle_nearest m k b x : nearest m k b -> 0 <= x <= max_bits ->
  below_middle m k x = (b <=? x).
Proof.
  intros (Hb & Hl & Hu) Hx. unfold below_middle, above, below in *.
  set (A := m * 10 ^ Z.max 0 k * 2 ^ 1075) in *.
  assert (0 < 10 ^ Z.max 0 (- k)) as HB by (apply Z.pow_pos_nonneg; lia).
  set (B := 10 ^ Z.max 0 (- k)) in *. clearbody A B. destruct (Z.leb_spec b x) as [Hle|Hlt].
  - apply Z.ltb_lt. pose proof (middle_mono b x ltac:(lia)) as Hm.
    apply (Z.mul_le_mono_nonneg_r _ _ B) in Hm; lia.
  - apply Z.ltb_ge. specialize (Hl ltac:(lia)).
    pose proof (middle_mono x (b - 1) ltac:(lia)) as Hm.
    apply (Z.mul_le_mono_nonneg_r _ _ B) in Hm; lia.
Qed.

Lemma strtod_nearest_ref_laws : @StrtodLaws strtod_nearest_ref.
Proof.
  split.
  - intros text t neg m k b _ E Hn. unfold strtod, strtod_nearest_ref. rewrite E.
    assert (0 <= b <= max_bits) as Hb by apply Hn.
    rewrite (below_middle_nearest m k b), (proj2 (Z.leb_le b max_bits)) by (done || lia).
    f_equal. f_equal. apply bisect_spec; [lia|by vm_compute|].
    intros x Hx. by apply below_middle_nearest.
  - intros text t bits _. unfold strtod, strtod_nearest_ref.
    destruct (text_value text) as [[neg m] k]. destruct (below_middle m k max_bits); [|done].
    pose proof (bisect_range (below_middle m k) 64 0 max_bits) as Hr. revert Hr.
    generalize (bisect 64 (below_middle m k) 0 max_bits). intros b Hr [= <-].
    exists neg, b. split; [|done]. apply Hr. by vm_compute.
Qed.
