(* ===== verification/FloatText.v ===== *)
(** * FloatText: floating-point numbers as JSON text

    The text that [write_float] of Dtoa makes of the digits of grisu2: it is a
    number of RFC 8259, it fits the buffer, and a [strtod] with the laws of
    Strtod reads it back as the number that was written. *)

From Stdlib Require Import ZArith Ascii String Lia.
From stdpp Require Import base numbers list strings.
From S2P Require Import Prelude Json JsonLex JsonText Dtoa Grisu GrisuDigits Strtod.

Open Scope Z_scope.

(** ** Codes and characters *)

Lemma codes_cons c a : string_of_codes (c :: a) = String (byte_of c) (string_of_codes a).
Proof. reflexivity. Qed.
Lemma codes_app a b : string_of_codes (a ++ b) = string_of_codes a +:+ string_of_codes b.
Proof. induction a as [|c a IH]; [done|]. by rewrite <-app_comm_cons, !codes_cons, IH. Qed.

Lemma codes_length a : String.length (string_of_codes a) = length a.
Proof. induction a as [|c a IH]; [done|]. by rewrite codes_cons; cbn; rewrite IH. Qed.

Lemma code_char c : is_code c -> byte_val (byte_of c) = c.
Proof. intros Hc. unfold is_code in Hc. rewrite byte_val_of, Z.mod_small; lia. Qed.

Lemma code_digit c : is_code c -> is_digit (byte_val (byte_of c)) = true.
Proof. intros Hc. rewrite code_char by done. unfold is_code, is_digit in *. lia. Qed.

Lemma codes_digits a : digits a -> all_digits (string_of_codes a).
Proof.
  induction 1 as [|c a Hc _ IH]; [constructor|]. apply Forall_cons_2; [by apply code_digit|done].
Qed.
Lemma codes_digits1 a : digits a -> a <> [] -> digits1 (string_of_codes a).
Proof. intros Ha Hn. split; [by destruct a|by apply codes_digits]. Qed.

Lemma codes_int_part a : digits a -> a <> [] -> no_zero_head a -> int_part (string_of_codes a).
Proof.
  intros Ha Hn Hz. destruct a as [|c a]; [done|]. apply Forall_cons in Ha as [Hc Ha].
  apply int_nonzero; [|by apply codes_digits]. unfold in_range. rewrite code_char by done.
  unfold no_zero_head, is_code in *. cbn in Hz. assert (c <> 48) by congruence. lia.
Qed.

Lemma zeros_digits n : digits (replicate n 48).
Proof. apply Forall_replicate. unfold is_code. lia. Qed.

(** ** Values *)

Definition push (a c : Z) : Z := 10 * a + (c - 48).

Lemma fold_push b : forall a, fold_left push b a = a * 10 ^ Z.of_nat (length b) + value b.
Proof.
  induction b as [|c b IH] using rev_ind; intros a; [unfold value; cbn; lia|].
  rewrite fold_left_app, value_snoc, length_app, Nat.add_1_r, pow10_S. cbn [fold_left].
  rewrite IH. unfold push. lia.
Qed.
Lemma value_app a b : value (a ++ b) = value a * 10 ^ Z.of_nat (length b) + value b.
Proof. unfold value at 1. rewrite fold_left_app. apply (fold_push b). Qed.
Lemma value_zeros n : value (replicate n 48) = 0.
Proof.
  induction n as [|n IH]; [done|]. change (replicate (S n) 48) with ([48] ++ replicate n 48).
  rewrite value_app, IH. by cbn.
Qed.

Lemma decimal_codes b : forall a, digits b ->
  decimal a (string_of_codes b) = fold_left push b a.
Proof.
  induction b as [|c b IH]; intros a Hb; [done|]. apply Forall_cons in Hb as [Hc Hb].
  rewrite codes_cons. cbn [decimal fold_left]. rewrite code_char by done. by apply IH.
Qed.
Lemma decimal_value b : digits b -> decimal 0 (string_of_codes b) = value b.
Proof. intros Hb. by apply decimal_codes. Qed.

(** The mantissa of digits around a point. *)
Lemma mantissa_codes b : forall acc scale point r, digits b ->
  mantissa acc scale point (string_of_codes b +:+ r)
  = mantissa (fold_left push b acc) (if point then scale - Z.of_nat (length b) else scale) point r.
Proof.
  induction b as [|c b IH]; intros acc scale point r Hb.
  - cbn [length fold_left]. change (Z.of_nat 0) with 0. by destruct point; rewrite ?Z.sub_0_r.
  - apply Forall_cons in Hb as [Hc Hb]. rewrite codes_cons, app_str_cons. cbn [mantissa].
    rewrite code_digit, code_char by done. rewrite IH by done. cbn [length fold_left]. unfold push.
    destruct point; [|done]. by replace (scale - Z.of_nat (S (length b))) with (scale - 1 - Z.of_nat (length b)) by lia.
Qed.

(** ** The shapes of the text *)

(** An exponent part and its value. *)
Definition exponent_text (e : string) (x : Z) : Prop :=
  exp_part e /\ exponent_value e = x
  /\ forall acc scale point, mantissa acc scale point e = (acc, scale, e).

(** A number that is not an integer, without its sign: [m * 10 ^ k]. *)
Definition float_shape (text : string) (m k : Z) : Prop :=
  exists i f e r s, text = i +:+ f +:+ e /\ int_part i /\ frac_part f /\ exp_part e
  /\ is_empty f && is_empty e = false
  /\ mantissa 0 0 false text = (m, s, r) /\ s + exponent_value r = k.

Lemma no_exponent : exponent_text EmptyString 0.
Proof. split; [constructor|done]. Qed.

Lemma decimal_shape a b e x : digits a -> int_part (string_of_codes a) -> digits b -> b <> [] ->
  exponent_text e x ->
  float_shape (string_of_codes a +:+ ("." +:+ string_of_codes b) +:+ e) (value (a ++ b))
    (x - Z.of_nat (length b)).
Proof.
  intros Ha Hi Hb Hn (He & Hx & Hm).
  exists (string_of_codes a), ("." +:+ string_of_codes b), e, e, (- Z.of_nat (length b)).
  split_and!; [done|done|by constructor; apply codes_digits1|done|done| |lia].
  rewrite mantissa_codes by done. rewrite app_str_assoc.
  change (mantissa ?acc 0 false ("." +:+ ?s)) with (mantissa acc 0 true s).
  rewrite mantissa_codes, Hm by done. unfold value. by rewrite fold_left_app.
Qed.

Lemma integer_shape a e x : digits a -> int_part (string_of_codes a) -> exponent_text e x ->
  is_empty e = false -> float_shape (string_of_codes a +:+ EmptyString +:+ e) (value a) x.
Proof.
  intros Ha Hi (He & Hx & Hm) Hn.
  exists (string_of_codes a), EmptyString, e, e, 0.
  split_and!; [done|done|constructor|done|done| |lia].
  rewrite mantissa_codes by done. apply Hm.
Qed.

Lemma append_exponent_spec x : -1000 < x < 1000 -> exists l, append_exponent x = Some l
  /\ exponent_text (string_of_codes (101 :: l)) x /\ (length l <= 4)%nat.
Proof.
  intros Hx. unfold append_exponent. rewrite (proj2 (Z.ltb_lt (-1000) x)), (proj2 (Z.ltb_lt x 1000)) by lia.
  set (k := if x <? 0 then - x else x).
  assert (0 <= k < 1000) as Hk by (unfold k; destruct (Z.ltb_spec x 0); lia).
  assert (forall ds, digits ds -> ds <> [] -> (length ds <= 3)%nat -> value ds = k ->
    exists l, Some ((if x <? 0 then 45 else 43) :: ds) = Some l
      /\ exponent_text (string_of_codes (101 :: l)) x /\ (length l <= 4)%nat) as Hds.
  { intros ds Hd Hn Hl Hv. eexists. split; [reflexivity|]. split; [|cbn; lia].
    rewrite !codes_cons. split; [|split; [|done]].
    - change (String _ (String ?c ?s)) with ("e" +:+ String c EmptyString +:+ s).
      constructor; [by left|destruct (x <? 0); tauto|by apply codes_digits1].
    - unfold k in Hv. destruct (Z.ltb_spec x 0); cbn [exponent_value].
      + change (- decimal 0 (string_of_codes ds) = x). rewrite decimal_value by done. lia.
      + change (decimal 0 (string_of_codes ds) = x). by rewrite decimal_value. }
  clearbody k. destruct (Z.ltb_spec k 10); [|destruct (Z.ltb_spec k 100)]; apply Hds;
    try done; try (cbn; lia); unfold value; cbn [fold_left];
    repeat (apply Forall_cons_2 || apply Forall_nil_2); unfold is_code;
    Z.to_euclidean_division_equations; lia.
Qed.

(** ** The places of the decimal point *)

Section format.
Variables (buf : buffer) (K : Z).
Hypothesis (Hd : digits buf) (Hz : no_zero_head buf) (Hl : (1 <= length buf <= 17)%nat)
  (HK : -400 <= K <= 400).

Let k := Z.of_nat (length buf).
Let n := k + K.

(** The digits [buf] with [K] as their exponent, up to trailing zeros. *)
Definition shows (l : list Z) : Prop :=
  (length l <= 23)%nat
  /\ exists j, 0 <= j /\ float_shape (string_of_codes l) (value buf * 10 ^ j) (K - j).

Lemma shows_exact l : (length l <= 23)%nat -> float_shape (string_of_codes l) (value buf) K -> shows l.
Proof.
  intros Hll Hs. split; [done|]. exists 0. split; [done|].
  change (10 ^ 0) with 1. by rewrite Z.mul_1_r, Z.sub_0_r.
Qed.

Lemma buf_nonempty : buf <> [].
Proof. intros E. rewrite E in Hl. cbn in Hl. lia. Qed.

Lemma shows_integral : 0 <= K -> n <= 15 -> shows (buf ++ replicate (Z.to_nat (n - k)) 48 ++ [46; 48]).
Proof.
  intros HK0 Hn. unfold n in *. replace (k + K - k) with K by lia. unfold k in *. split.
  { rewrite !length_app, length_replicate. cbn [length]. lia. }
  exists (K + 1). split; [lia|]. rewrite app_assoc, codes_app.
  assert (value ((buf ++ replicate (Z.to_nat K) 48) ++ [48]) = value buf * 10 ^ (K + 1)) as <-.
  { rewrite !value_app, value_zeros, length_replicate, Z2Nat.id, Z.pow_add_r by lia. cbn [length].
    change (value [48]) with 0. lia. }
  replace (K - (K + 1)) with (0 - Z.of_nat (length [48])) by (cbn; lia).
  change (string_of_codes [46; 48]) with (("." +:+ string_of_codes [48]) +:+ EmptyString).
  apply decimal_shape; [|apply codes_int_part| |done|apply no_exponent].
  - apply Forall_app_2; [done|apply zeros_digits].
  - apply Forall_app_2; [done|apply zeros_digits].
  - pose proof buf_nonempty. by destruct buf.
  - pose proof buf_nonempty. by destruct buf.
  - by apply (zeros_digits 1).
Qed.

(** The point after the first [p] digits. *)
Lemma split_shape p e x : (1 <= p < length buf)%nat -> exponent_text e x ->
  float_shape (string_of_codes (take p buf ++ [46] ++ drop p buf) +:+ e) (value buf)
    (x - (k - Z.of_nat p)).
Proof.
  intros Hp He. rewrite !codes_app, !app_str_assoc, <-(app_str_assoc (string_of_codes [46])).
  rewrite <-(take_drop p buf) at 3.
  replace (k - Z.of_nat p) with (Z.of_nat (length (drop p buf))) by (rewrite length_drop; unfold k; lia).
  apply decimal_shape; [by apply Forall_take|apply codes_int_part|by apply Forall_drop| |done].
  - by apply Forall_take.
  - intros E%(f_equal length). rewrite length_take in E. cbn in E. lia.
  - unfold no_zero_head. destruct buf as [|c b]; [cbn in Hp; lia|]. by destruct p; [lia|].
  - intros E%(f_equal length). rewrite length_drop in E. cbn in E. lia.
Qed.

Lemma shows_point : K < 0 -> 0 < n -> shows (take (Z.to_nat n) buf ++ [46] ++ drop (Z.to_nat n) buf).
Proof.
  intros HK0 Hn. unfold n, k in *. apply shows_exact.
  { rewrite !length_app, length_take, length_drop. cbn [length]. lia. }
  pose proof (split_shape (Z.to_nat n) EmptyString 0 ltac:(unfold n, k; lia) no_exponent) as Hs.
  rewrite app_str_nil_r in Hs. unfold n, k in Hs. by replace (0 - _) with K in Hs by lia.
Qed.

Lemma shows_fraction : -4 < n <= 0 -> shows ([48; 46] ++ replicate (Z.to_nat (- n)) 48 ++ buf).
Proof.
  intros Hn. apply shows_exact.
  { rewrite !length_app, length_replicate. cbn [length]. lia. }
  assert (value ([48] ++ replicate (Z.to_nat (- n)) 48 ++ buf) = value buf) as <-.
  { by rewrite !value_app, value_zeros. }
  replace K with (0 - Z.of_nat (length (replicate (Z.to_nat (- n)) 48 ++ buf))).
  2:{ rewrite length_app, length_replicate. unfold n, k in *. lia. }
  change ([48; 46] ++ ?l) with ([48] ++ [46] ++ l). rewrite !(codes_app [_]).
  rewrite <-(app_str_nil_r (string_of_codes [46] +:+ _)).
  apply decimal_shape; [|constructor| | |apply no_exponent].
  - by apply (zeros_digits 1).
  - apply Forall_app_2; [apply zeros_digits|done].
  - intros [_ E]%app_eq_nil. by apply buf_nonempty.
Qed.

Lemma shows_scientific : exists e, append_exponent (n - 1) = Some e
  /\ shows ((if k =? 1 then buf else take 1 buf ++ [46] ++ drop 1 buf) ++ [101] ++ e).
Proof.
  destruct (append_exponent_spec (n - 1)) as (e & He & Hx & Hle); [unfold n, k; lia|].
  exists e. split; [done|]. unfold n, k in *. destruct (Z.eqb_spec (Z.of_nat (length buf)) 1) as [E|E].
  - apply shows_exact; [rewrite !length_app; cbn [length]; lia|].
    rewrite codes_app. rewrite E in Hx. replace (1 + K - 1) with K in Hx by lia.
    change ([101] ++ e) with (101 :: e). change (?a +:+ ?b) with (a +:+ EmptyString +:+ b).
    apply integer_shape; [done| |done|done]. apply codes_int_part; [done|apply buf_nonempty|done].
  - apply shows_exact; [rewrite !length_app, length_take, length_drop; cbn [length]; lia|].
    rewrite codes_app. change ([101] ++ e) with (101 :: e).
    pose proof (split_shape 1 _ _ ltac:(lia) Hx) as Hs. unfold k in Hs.
    by replace (_ - _ - _) with K in Hs by lia.
Qed.

Lemma format_buffer_spec : exists l,
  format_buffer buf K float_kMinExp float_kMaxExp = Some l /\ shows l.
Proof.
  unfold format_buffer, float_kMinExp, float_kMaxExp. change (-4 <? 0) with true.
  change (0 <? 15) with true. cbv iota. fold k n.
  destruct ((k <=? n) && (n <=? 15)) eqn:E1.
  { eexists. split; [done|]. apply shows_integral; unfold n in *; lia. }
  destruct ((0 <? n) && (n <=? 15)) eqn:E2.
  { rewrite (proj2 (Z.ltb_lt n k)) by (unfold n in *; lia). eexists. split; [done|].
    apply shows_point; unfold n in *; lia. }
  destruct ((-4 <? n) && (n <=? 0)) eqn:E3.
  { eexists. split; [done|]. apply shows_fraction. lia. }
  destruct shows_scientific as (e & He & Hs). rewrite He. cbn [mbind option_bind].
  eexists. by split.
Qed.
End format.

(** ** The boundaries of the code are the middles between the numbers *)

Lemma positive_range b : positive b <-> 0 < b <= max_bits.
Proof.
  unfold positive, max_bits. split.
  - intros Hp. pose proof (float_exponent b Hp) as He. destruct Hp as [Hr _].
    pose proof (Z.div_mod b (2 ^ 52)). pose proof (Z.mod_pos_bound b (2 ^ 52)). lia.
  - intros Hb. split; [lia|]. unfold isfinite. rewrite shiftr_div by lia.
    change 2047 with (2 ^ 11 - 1). rewrite low_bits by lia.
    assert (0 <= b / 2 ^ 52 < 2047) as Hd
      by (split; [apply Z.div_pos; lia|apply Z.div_lt_upper_bound; lia]).
    rewrite Z.mod_small by lia. apply negb_true_iff, Z.eqb_neq. lia.
Qed.

Lemma below_dec_lt m k f e : -1075 <= e -> dec_lt m k f e <-> below m k (f * 2 ^ (e + 1075)).
Proof.
  intros He. pose proof (dec_lt_cross m f (pos k) (pos (- k)) 1075 (e + 1075)) as Hc.
  replace (pos k - pos (- k)) with k in Hc by (unfold pos; lia).
  replace (e + 1075 - 1075) with e in Hc by lia. rewrite <-Hc by (unfold pos; lia).
  unfold below, pos. by rewrite (Z.max_comm k), (Z.max_comm (- k)).
Qed.
Lemma above_bin_lt m k f e : -1075 <= e -> bin_lt f e m k <-> above (f * 2 ^ (e + 1075)) m k.
Proof.
  intros He. pose proof (bin_lt_cross m f (pos k) (pos (- k)) 1075 (e + 1075)) as Hc.
  replace (pos k - pos (- k)) with k in Hc by (unfold pos; lia).
  replace (e + 1075 - 1075) with e in Hc by lia. rewrite <-Hc by (unfold pos; lia).
  unfold above, pos. by rewrite (Z.max_comm k), (Z.max_comm (- k)).
Qed.

Section boundaries.
Variable b : Z.
Hypothesis (Hb : positive b).

Lemma upper_middle : df (m_plus b) * 2 ^ (de (m_plus b) + 1075) = middle b.
Proof.
  rewrite m_plus_eq by done. cbn [df de]. unfold middle. rewrite units_next by (destruct Hb; lia).
  pose proof (float_parts b) as Hp. pose proof (float_exponent b Hb) as He. unfold units.
  destruct (Z.eqb_spec (b / 2 ^ 52) 0) as [E|E]; destruct Hp as [-> ->].
  - rewrite E. change (2 ^ Z.max 0 (0 - 1)) with 1. change (-1074 - 1 + 1075) with 0. lia.
  - replace (b / 2 ^ 52 - 1075 - 1 + 1075) with (b / 2 ^ 52 - 1) by lia. rewrite Z.max_r by lia. lia.
Qed.

(** The exponent field of the number before. *)
Lemma previous_field : (b - 1) / 2 ^ 52
  = if b mod 2 ^ 52 =? 0 then b / 2 ^ 52 - 1 else b / 2 ^ 52.
Proof.
  assert (0 <= b - 1) as Hb1 by (destruct Hb; lia).
  destruct (next_fields (b - 1) Hb1) as [E1 E2]. replace (b - 1 + 1) with b in * by lia.
  rewrite E1, E2. pose proof (Z.mod_pos_bound (b - 1) (2 ^ 52)).
  destruct (Z.eqb_spec ((b - 1) mod 2 ^ 52) (2 ^ 52 - 1)).
  - change (0 =? 0) with true. lia.
  - by destruct (Z.eqb_spec ((b - 1) mod 2 ^ 52 + 1) 0); [lia|].
Qed.

Lemma lower_middle : df (m_minus b) * 2 ^ (de (m_minus b) + 1075) = middle (b - 1).
Proof.
  assert (middle (b - 1) = 2 * units b - 2 ^ Z.max 0 ((b - 1) / 2 ^ 52 - 1)) as ->.
  { unfold middle. pose proof (units_next (b - 1)) as Hn. replace (b - 1 + 1) with b in * by lia.
    rewrite Hn by (destruct Hb; lia). lia. }
  rewrite previous_field, m_minus_eq, lower_closer by done.
  pose proof (float_parts b) as Hp. pose proof (float_exponent b Hb) as He. unfold units.
  assert (b / 2 ^ 52 = 0 -> b mod 2 ^ 52 <> 0) as Hne.
  { intros E E0. pose proof (Z.div_mod b (2 ^ 52)). destruct Hb. lia. }
  destruct (Z.eqb_spec (b / 2 ^ 52) 0) as [E|E]; destruct Hp as [-> ->].
  - rewrite E in *. rewrite andb_false_r. cbn [df de].
    destruct (Z.eqb_spec (b mod 2 ^ 52) 0); [by destruct Hne|].
    change (2 ^ Z.max 0 (0 - 1)) with 1. change (-1074 - 1 + 1075) with 0. lia.
  - assert (b / 2 ^ 52 - 1075 - 1 + 1075 = b / 2 ^ 52 - 1) as Hx by lia.
    destruct (Z.eqb_spec (b mod 2 ^ 52) 0) as [E0|E0], (Z.ltb_spec 1 (b / 2 ^ 52)) as [E1|E1];
      cbn [andb df de]; rewrite ?Hx.
    + rewrite E0, Z.max_r by lia. set (y := b / 2 ^ 52) in *.
      replace (y - 1075 - 2 + 1075) with (y - 2) by lia. replace (y - 1 - 1) with (y - 2) by lia.
      replace (y - 1) with (Z.succ (y - 2)) by lia. rewrite Z.pow_succ_r by lia. lia.
    + replace (b / 2 ^ 52) with 1 by lia. rewrite E0. by vm_compute.
    + rewrite Z.max_r by lia. lia.
    + rewrite Z.max_r by lia. lia.
Qed.

Lemma boundary_exponents : -1075 <= de (m_plus b) /\ -1075 <= de (m_minus b).
Proof.
  pose proof (float_bounds b Hb) as [_ He]. rewrite m_plus_eq, m_minus_eq by done.
  destruct (lower_boundary_is_closer b) eqn:E; cbn [de]; [|lia].
  apply closer_power in E. lia.
Qed.

Lemma rounds_to_nearest m k : rounds_to m k b -> nearest m k b.
Proof.
  intros [Hl Hu]. pose proof (proj1 (positive_range b) Hb) as Hr. destruct boundary_exponents.
  rewrite above_bin_lt, lower_middle in Hl by done. rewrite below_dec_lt, upper_middle in Hu by done.
  split; [lia|done].
Qed.
End boundaries.

(** ** Reading the text back *)

(** Zeros behind the digits do not change the number. *)
Lemma dec_lt_zeros m k f e j : 0 <= j -> dec_lt (m * 10 ^ j) (k - j) f e <-> dec_lt m k f e.
Proof.
  intros Hj. pose proof (dec_lt_cross (m * 10 ^ j) f (pos k) (pos (- k) + j) (pos (- e)) (pos e)) as Hc.
  replace (pos k - (pos (- k) + j)) with (k - j) in Hc by (unfold pos; lia).
  replace (pos e - pos (- e)) with e in Hc by (unfold pos; lia).
  rewrite <-Hc by (unfold pos; lia). unfold dec_lt. rewrite Z.pow_add_r by (unfold pos; lia).
  rewrite (Z.mul_lt_mono_pos_r (10 ^ j) (m * 10 ^ pos k * 2 ^ pos (- e))) by (apply Z.pow_pos_nonneg; lia).
  replace (m * 10 ^ j * 10 ^ pos k * 2 ^ pos (- e)) with (m * 10 ^ pos k * 2 ^ pos (- e) * 10 ^ j) by ring.
  by rewrite !Z.mul_assoc.
Qed.
Lemma bin_lt_zeros m k f e j : 0 <= j -> bin_lt f e (m * 10 ^ j) (k - j) <-> bin_lt f e m k.
Proof.
  intros Hj. pose proof (bin_lt_cross (m * 10 ^ j) f (pos k) (pos (- k) + j) (pos (- e)) (pos e)) as Hc.
  replace (pos k - (pos (- k) + j)) with (k - j) in Hc by (unfold pos; lia).
  replace (pos e - pos (- e)) with e in Hc by (unfold pos; lia).
  rewrite <-Hc by (unfold pos; lia). unfold bin_lt. rewrite Z.pow_add_r by (unfold pos; lia).
  rewrite (Z.mul_lt_mono_pos_r (10 ^ j) (f * 2 ^ pos e * 10 ^ pos (- k))) by (apply Z.pow_pos_nonneg; lia).
  replace (m * 10 ^ j * 10 ^ pos k * 2 ^ pos (- e)) with (m * 10 ^ pos k * 2 ^ pos (- e) * 10 ^ j) by ring.
  by rewrite !Z.mul_assoc.
Qed.

Lemma rounds_to_zeros m k j bits : 0 <= j -> rounds_to (m * 10 ^ j) (k - j) bits <-> rounds_to m k bits.
Proof. intros Hj. unfold rounds_to. by rewrite bin_lt_zeros, dec_lt_zeros. Qed.

Section read_back.
Context `{StrtodLaws}.

Lemma float_shape_number neg text m k : float_shape text m k ->
  number (minus_sign neg +:+ text) (value_float (strtod (minus_sign neg +:+ text)))
  /\ text_value (minus_sign neg +:+ text) = (neg, m, k).
Proof.
  intros (i & f & e & r & s & -> & Hi & Hf & He & Hn & Hm & Hk). split.
  - pose proof (number_intro neg i f e Hi Hf He) as Hx. unfold number_token in Hx. by rewrite Hn in Hx.
  - unfold text_value. destruct (int_part_digits i Hi) as (d & ds & -> & Hdig & _).
    destruct neg; cbn [minus_sign].
    + change ("-" +:+ ?t) with (String "-"%char t). cbv iota.
      change (byte_val "-"%char =? 45) with true. cbv iota. by rewrite Hm, Hk.
    + change (EmptyString +:+ ?t) with t. rewrite app_str_cons in *.
      assert ((byte_val d =? 45) = false) as -> by (unfold is_digit in Hdig; lia).
      by rewrite Hm, Hk.
Qed.

(** A text of the number [b]. *)
Definition float_text_of (b : Z) (text : string) : Prop :=
  exists m k, float_shape text m k /\ nearest m k b.

Lemma read_back neg b text : float_text_of b text ->
  number (minus_sign neg +:+ text) (value_float (Some (with_sign neg b))).
Proof.
  intros (m & k & Hs & Hb). destruct (float_shape_number neg text m k Hs) as [Hx Ht].
  rewrite <-(strtod_nearest _ _ neg m k b Hx Ht Hb). exact Hx.
Qed.
End read_back.

(** ** The writer *)

Definition finite (bits : Z) : Prop := 0 <= bits < 2 ^ 64 /\ isfinite bits = true.

Lemma zero_text : float_text_of 0 "0.0".
Proof.
  exists 0, (-1). split; [|by vm_compute].
  apply (decimal_shape [48] [48] EmptyString 0); [by apply (zeros_digits 1)|constructor
    |by apply (zeros_digits 1)|done|apply no_exponent].
Qed.

Lemma signbit_spec bits : 0 <= bits < 2 ^ 64 -> signbit bits = (2 ^ 63 <=? bits).
Proof.
  intros Hb. unfold signbit. rewrite shiftr_div by lia.
  destruct (Z.leb_spec (2 ^ 63) bits), (Z.eqb_spec (bits / 2 ^ 63) 0) as [E|E]; try done.
  - exfalso. pose proof (Z.div_le_lower_bound bits (2 ^ 63) 1). lia.
  - exfalso. apply E, Z.div_small. lia.
Qed.

(** The number without its sign. *)
Lemma isfinite_magnitude b : 0 <= b < 2 ^ 63 -> isfinite (b + 2 ^ 63) = isfinite b.
Proof.
  intros Hb. unfold isfinite. rewrite !shiftr_div by lia. change 2047 with (2 ^ 11 - 1).
  rewrite !low_bits by lia. change (2 ^ 63) with (2 ^ 11 * 2 ^ 52). rewrite Z.div_add by lia.
  rewrite <-(Z.mul_1_l (2 ^ 11)) at 1. by rewrite Z_mod_plus_full.
Qed.

Lemma with_sign_finite neg b : 0 <= b <= max_bits ->
  0 <= with_sign neg b < 2 ^ 64 /\ isfinite (with_sign neg b) = true.
Proof.
  intros Hb. assert (isfinite b = true) as Hf.
  { destruct (Z.eq_dec b 0) as [->|]; [done|]. apply positive_range. lia. }
  unfold max_bits in Hb. destruct neg; cbn [with_sign]; [rewrite isfinite_magnitude by lia|]; split; lia || done.
Qed.

Lemma magnitude bits : 0 <= bits < 2 ^ 64 -> isfinite bits = true -> exists neg b,
  signbit bits = neg /\ (if neg then bits - 2 ^ 63 else bits) = b /\ bits = with_sign neg b
  /\ (b = 0 \/ positive b).
Proof.
  intros Hb Hf. rewrite signbit_spec by done. destruct (Z.leb_spec (2 ^ 63) bits).
  - exists true, (bits - 2 ^ 63). split_and!; [done|done|cbn; lia|].
    destruct (Z.eq_dec (bits - 2 ^ 63) 0); [by left|right]. split; [lia|].
    rewrite <-isfinite_magnitude by lia. by replace (bits - 2 ^ 63 + 2 ^ 63) with bits by lia.
  - exists false, bits. split_and!; [done..|]. destruct (Z.eq_dec bits 0); [by left|right].
    split; [lia|done].
Qed.

Lemma positive_text b : positive b -> exists buf K l, grisu2 b = Some (buf, K)
  /\ (length buf <= 17)%nat /\ format_buffer buf K float_kMinExp float_kMaxExp = Some l
  /\ (length l <= 23)%nat /\ float_text_of b (string_of_codes l).
Proof.
  intros Hp. destruct (grisu2_spec b Hp) as (buf & K & Hg & Hl & HK & Hd & Hz & Hr).
  destruct (format_buffer_spec buf K Hd Hz Hl HK) as (l & Hf & Hll & j & Hj & Hs).
  exists buf, K, l. split_and!; [done|lia|done|done|].
  exists (value buf * 10 ^ j), (K - j). split; [done|]. apply rounds_to_nearest; [done|].
  by rewrite rounds_to_zeros.
Qed.

Lemma to_chars_spec bits : 0 <= bits < 2 ^ 64 -> isfinite bits = true ->
  exists l neg b text, to_chars 64 bits = Some l /\ (length l <= 24)%nat
  /\ string_of_codes l = minus_sign neg +:+ text /\ bits = with_sign neg b /\ float_text_of b text.
Proof.
  intros Hb Hf. destruct (magnitude bits Hb Hf) as (neg & b & Hn & Hbb & E & Hp).
  unfold to_chars. rewrite Hf, Hn, Hbb. destruct Hp as [E0|Hp].
  - rewrite E0. cbn [Z.eqb]. eexists _, neg, b, "0.0"%string.
    split; [done|]. split; [destruct neg; cbn; lia|]. split; [by destruct neg|]. split; [done|].
    rewrite E0. apply zero_text.
  - assert ((b =? 0) = false) as -> by (destruct Hp; lia).
    destruct (positive_text b Hp) as (buf & K & l & Hg & Hl & Hfm & Hll & Ht). rewrite Hg.
    cbn [mbind option_bind]. rewrite (proj2 (Z.leb_le _ max_digits10)) by (unfold max_digits10; lia).
    assert (forall r, (r <=? 62) = true -> (r <=? (if neg then 64 - 1 else 64)) = true) as Hroom
      by (intros r Hr; destruct neg; lia).
    rewrite !Hroom by done.
    rewrite Hfm. cbn [mbind option_bind].
    eexists _, neg, b, (string_of_codes l). split; [done|].
    split; [rewrite length_app; destruct neg; cbn; lia|]. split; [|done].
    rewrite codes_app. by destruct neg.
Qed.

(** C11: Every finite floating-point number is written, without any of the
    assertions of the writer failing, in at most 24 of the 64 characters of its
    buffer, as a number of RFC 8259 that is read back as exactly the same bits:
    the digits of Grisu2 are nearer to the number than to any other one,
    for every one of the 2^64 - 2^53 finite bit patterns, subnormal numbers and
    both zeros among them.  The reader is any [strtod] that reads a decimal
    number as the nearest floating-point number. *)
Theorem write_float_round_trip `{StrtodLaws} bits : finite bits ->
  exists text, write_float bits = Some text /\ number text (value_float (Some bits))
  /\ (String.length text <= 24)%nat.
Proof.
  intros [Hb Hf]. destruct (to_chars_spec bits Hb Hf) as (l & neg & b & text & Hl & Hll & Ht & E & Hs).
  exists (string_of_codes l). split_and!.
  - unfold write_float. by rewrite Hf, Hl.
  - rewrite Ht, E. by apply read_back.
  - by rewrite codes_length.
Qed.

Lemma write_float_round_trip_witness :
  exists text, write_float 0xBFB999999999999A = Some text
  /\ @number strtod_nearest_ref text (value_float (Some 0xBFB999999999999A))
  /\ (String.length text <= 24)%nat.
Proof.
  apply (@write_float_round_trip strtod_nearest_ref strtod_nearest_ref_laws). split; [lia|by vm_compute].
Defined.
