(* ===== verification/ModuleJson.v ===== *)
(** * ModuleJson: the JSON library of the zygisk module as one component

    The parser of JsonParse and the serializer of Json with the writer of
    floating-point numbers of Dtoa, put together; and that the library so
    composed inverts itself in both directions and keeps the contract
    [JsonLibLaws].  Of the C library's [strtod] only the laws of Strtod are
    used. *)

From Stdlib Require Import ZArith Ascii String Lia.
From stdpp Require Import base numbers list strings.
From S2P Require Import Prelude Json JsonLex JsonParse JsonGrammar JsonText JsonRfc JsonWrite.
From S2P Require Import Dtoa Strtod FloatText.

Open Scope Z_scope.

(** The serializer appends to its output, so that the text of a number whose
    writing fails would be missing; that it never fails is shown below. *)
Definition float_render (bits : Z) : string := default EmptyString (write_float bits).

Section library.
Context `{Strtod} (truncate : Z -> Z).

(** [json::parse(f)] as the module's sources use it: an exception of any
    kind is caught by their one handler. *)
Definition json_parse_text (text : string) : option json :=
  match parse text with
  | Some (Parsed j) => Some j
  | _ => None
  end.

(** The conversion of a floating-point number to [int] is a parameter. *)
Definition module_json : JsonLib :=
  {| json_parse := json_parse_text; dump_float := float_render; float_to_i32 := truncate |}.

Lemma json_parse_text_wf text j : json_parse_text text = Some j -> wf_json (fun _ => True) j.
Proof.
  unfold json_parse_text. destruct (parse_result text) as ([j'|e|] & -> & Ho); [|done|done].
  by intros [= <-].
Qed.
End library.

(** ** The laws *)

Section laws.
Context `{StrtodLaws} (truncate : Z -> Z).

Lemma float_render_number bits : finite bits ->
  number (float_render bits) (value_float (Some bits)).
Proof.
  intros [Hb Hf]. destruct (to_chars_spec bits Hb Hf) as (l & neg & b & text & Hl & _ & Ht & E & Hs).
  unfold float_render, write_float. rewrite Hf, Hl. cbn [negb fmap option_fmap option_map default].
  rewrite Ht, E. by apply read_back.
Qed.

Lemma float_render_written bits : finite bits -> write_float bits = Some (float_render bits).
Proof.
  intros [Hb Hf]. destruct (to_chars_spec bits Hb Hf) as (l & _ & _ & _ & Hl & _).
  unfold float_render, write_float. by rewrite Hf, Hl.
Qed.

Lemma finite_reads bits : finite bits -> @float_reads (module_json truncate) _ bits.
Proof.
  intros Hb. pose proof (float_render_number bits Hb) as Hx. split.
  - change (@dump_float _ bits) with (float_render bits).
    destruct (scan_number_complete _ _ EmptyString Hx I) as (c & s & -> & Hc & _).
    apply skip_bom_ascii. unfold is_digit in Hc. lia.
  - intros r Hr. apply (scan_complete EmptyString); [constructor|by constructor|done].
Qed.

(** A number that is read is finite. *)
Lemma number_finite x bits : number x (value_float (Some bits)) -> finite bits.
Proof.
  intros Hx. assert (strtod x = Some bits) as E.
  { inversion Hx as [neg i f e _ _ _ Ex Et]. unfold number_token in Et.
    repeat case_match; congruence. }
  destruct (strtod_finite _ _ _ Hx E) as (neg & b & Hb & ->). by apply with_sign_finite.
Qed.

Lemma chars_utf8 t o : chars t o -> utf8 o.
Proof.
  intros Hc. pose proof (scan_string_complete t o Hc EmptyString EmptyString) as E.
  destruct (scan_string_from_scanned _ EmptyString (t +:+ dq +:+ EmptyString) (Nat.lt_succ_diag_r _))
    as [(b & Hb & Hu & _)|(m & Hm & _)]; rewrite E in *; cbn [fst] in *; [|done].
  injection Hb as ->. exact Hu.
Qed.

(** What the grammar denotes is well-formed, with finite numbers. *)
Lemma rfc_value_wf j x : rfc_value j x -> wf_json finite j.
Proof.
  revert j x. apply (rfc_value_rec (fun j _ => wf_json finite j)); [by constructor..| | | | | | | |].
  - intros z x Hx. constructor. by eapply number_range; [|left].
  - intros z x Hx. constructor. by eapply number_range; [|right].
  - intros f x Hx. constructor. by eapply number_finite.
  - intros s t Hs. constructor. by eapply chars_utf8.
  - intros w _. by constructor.
  - intros l es _ Hl. constructor.
    induction Hl as [|j e l es (x & _ & Hj) _ IH]; by constructor.
  - intros w _. constructor; constructor.
  - intros kvs es _ Hl. unfold obj.
    assert (forall acc, sorted_keys acc -> Forall (fun e => utf8 e.1 /\ wf_json finite e.2) acc ->
      wf_json finite (JObject (fold_left (fun o kv => obj_set kv.1 kv.2 o) kvs acc))) as Hf;
      [|apply Hf; constructor].
    induction Hl as [|[k v] e kvs es (t & n & x & y & Ht & _ & _ & Hj & _) _ IH]; intros acc Hs Ha;
      [by constructor|]. apply IH; [by apply smap_set_sorted|].
    apply (smap_set_Forall (fun e => utf8 e.1 /\ wf_json finite e.2)); [|done].
    split; [by eapply chars_utf8|done].
Qed.

Lemma parsed_wf input j : parse input = Some (Parsed j) -> wf_json finite j.
Proof.
  intros Hj. destruct (parse_rfc_sound input j Hj) as (text & _ & _ & _ & x & _ & Hx). by eapply rfc_value_wf.
Qed.

Lemma dump_parses j : wf_json finite j -> exists text,
  @dump (module_json truncate) j = Some text /\ parse text = Some (Parsed j).
Proof.
  intros Hj. assert (wf_json (@float_reads (module_json truncate) _) j) as Hr.
  { induction Hj using wf_json_rec; constructor; try done. by apply finite_reads. }
  destruct (@wf_dump_some (module_json truncate) _ _ Hr) as [text He]. exists text. split; [done|]. by apply (@parse_dump (module_json truncate) _ j).
Qed.

Lemma module_json_laws : @JsonLibLaws (module_json truncate) _.
Proof.
  split.
  - intros s j. change (@json_parse _ s) with (json_parse_text s). unfold json_parse_text. split.
    + destruct (parse s) as [[j'| |]|] eqn:E; try done. intros [= <-]. by apply parse_rfc_sound.
    + intros Hj. by rewrite (parse_rfc_complete s j Hj).
  - intros f x Hx. apply float_render_number. by eapply number_finite.
Qed.
End laws.

(** Parsing and serializing invert each other, floating-point numbers
    included.  The serializer writes a text for every well-formed value (64-bit
    integers, finite floating-point numbers, UTF-8 strings, objects with
    ascending keys), and the parser reads exactly that value from it; and
    every value that the parser returns for any input is such a value, so that
    it is written and read again unchanged. *)
Theorem module_json_round_trip `{StrtodLaws} truncate :
  (forall j, wf_json finite j -> exists text,
     @dump (module_json truncate) j = Some text /\ parse text = Some (Parsed j))
  /\ forall input j, parse input = Some (Parsed j) -> wf_json finite j.
Proof.
  split; [apply dump_parses|]. apply parsed_wf.
Qed.

Definition reading : json :=
  JObject [("ratio", JFloat 0x3FB999999999999A); ("xs", JArray [JFloat 0x8000000000000000; JInt (-3)])].

Lemma reading_wf : wf_json finite reading.
Proof.
  repeat (constructor || apply ascii7_utf8 || lia); try by vm_compute.
Qed.

Lemma module_json_round_trip_witness : exists text,
  @dump (@module_json strtod_nearest_ref (fun _ => 0)) reading = Some text
  /\ @parse strtod_nearest_ref text = Some (Parsed reading).
Proof.
  apply (@module_json_round_trip strtod_nearest_ref strtod_nearest_ref_laws (fun _ => 0)), reading_wf.
Defined.
Example reading_text : @dump (@module_json strtod_nearest_ref (fun _ => 0)) reading
  = Some ("{" +:+ quoted "ratio" +:+ ":0.1," +:+ quoted "xs" +:+ ":[-0.0,-3]}").
Proof. by vm_compute. Qed.
