(* ===== verification/Serializer.v ===== *)
(** * Serializer: the serializer of the JSON library as it is written

    [module-spoof/jni/include/json.hpp], class [detail::serializer] and
    [basic_json::dump] with all their options: pretty printing with its
    indentation, escaping to ASCII, and the three ways to treat bytes that are
    not UTF-8; with its buffers, which are of fixed size.  The binary and the
    discarded kind of value, which no parser makes, are not in [json].  That
    [dump] of Json, the defaults, is what this comes to is shown in
    SerializerDump. *)

From Stdlib Require Import ZArith Ascii String Lia.
From stdpp Require Import base numbers list strings.
From S2P Require Import Prelude Json Dtoa.

Open Scope Z_scope.

(** ** Results

    A value, the type error 316 with its message, or a failed assertion or an
    access outside of a buffer. *)
Inductive dumped (A : Type) :=
| Dumped (a : A)
| Thrown316 (what_arg : string)
| Fault.
Arguments Dumped {A} _.
Arguments Thrown316 {A} _.
Arguments Fault {A}.

#[export] Instance dumped_ret : MRet dumped := fun A a => Dumped a.
#[export] Instance dumped_bind : MBind dumped := fun A B f m =>
  match m with Dumped a => f a | Thrown316 w => Thrown316 w | Fault => Fault end.

Definition of_option {A} (o : option A) : dumped A :=
  match o with Some a => Dumped a | None => Fault end.

(** ** Options *)

Inductive error_handler_t := strict | replace | ignore.

Record options := {
  ensure_ascii : bool;
  error_handler : error_handler_t;
}.

(** ** Strings *)

Definition hex_bytes (byte : Z) : string :=
  let nibble_to_hex n := byte_of (if n <? 10 then 48 + n else 55 + n) in
  String (nibble_to_hex (byte / 16)) (String (nibble_to_hex (byte mod 16)) EmptyString).

(** [string_buffer], of 512 characters, as its first [bytes] codes. *)
Definition buffer_size : nat := 512.

Definition put (buf : list Z) (c : Z) : dumped (list Z) :=
  if (length buf <? buffer_size)%nat then Dumped (buf ++ [c]) else Fault.
Fixpoint puts (buf : list Z) (cs : list Z) : dumped (list Z) :=
  match cs with
  | [] => Dumped buf
  | c :: cs' => buf' ← put buf c; puts buf' cs'
  end.

Definition nibble (n : Z) : Z := if n <? 10 then 48 + n else 87 + n.
Definition write_u_escape (buf : list Z) (codeunit : Z) : dumped (list Z) :=
  if (6 <=? buffer_size - length buf)%nat then
    puts buf [92; 117; nibble (Z.land (Z.shiftr codeunit 12) 15);
              nibble (Z.land (Z.shiftr codeunit 8) 15);
              nibble (Z.land (Z.shiftr codeunit 4) 15); nibble (Z.land codeunit 15)]
  else Fault.

(** The switch over a code point that is complete; [c] is its last byte. *)
Definition put_codepoint (ascii : bool) (codepoint c : Z) (buf : list Z) : dumped (list Z) :=
  if codepoint =? 8 then puts buf [92; 98]
  else if codepoint =? 9 then puts buf [92; 116]
  else if codepoint =? 10 then puts buf [92; 110]
  else if codepoint =? 12 then puts buf [92; 102]
  else if codepoint =? 13 then puts buf [92; 114]
  else if codepoint =? 34 then puts buf [92; 34]
  else if codepoint =? 92 then puts buf [92; 92]
  else if (codepoint <=? 31) || (ascii && (127 <=? codepoint)) then
    if codepoint <=? 65535 then write_u_escape buf (codepoint mod 65536)
    else
      buf' ← write_u_escape buf (u32 (55232 + Z.shiftr codepoint 10) mod 65536);
      write_u_escape buf' (u32 (56320 + Z.land codepoint 1023) mod 65536)
  else put buf c.

(** Thirteen bytes must be left for the next code point. *)
Definition flush (out : string) (buf : list Z) : string * list Z :=
  if (buffer_size - length buf <? 13)%nat then (out +:+ string_of_codes buf, []) else (out, buf).

Record escaping := {
  o : string;                         (* what was written *)
  string_buffer : list Z;
  bytes_after_last_accept : nat;
  undumped_chars : Z;
  state : Z;
  codepoint : Z;
}.

Definition replacement (ascii : bool) : list Z :=
  if ascii then [92; 117; 102; 102; 102; 100] else [239; 191; 189].

(** One round of the loop for the byte at [i]; whether the byte is read
    again. *)
Definition escape_step (opts : options) (i byte : Z) (st : escaping) : dumped (escaping * bool) :=
  let '(state', codepoint') := decode (state st) (codepoint st) byte in
  if state' =? UTF8_ACCEPT then
    buf ← put_codepoint (ensure_ascii opts) codepoint' byte (string_buffer st);
    let '(out, buf) := flush (o st) buf in
    mret ({| o := out; string_buffer := buf; bytes_after_last_accept := length buf;
             undumped_chars := 0; state := state'; codepoint := codepoint' |}, false)
  else if state' =? UTF8_REJECT then
    match error_handler opts with
    | strict =>
        Thrown316 ("invalid UTF-8 byte at index " +:+ show_Z i +:+ ": 0x" +:+ hex_bytes byte)
    | handler =>
        let again := 0 <? undumped_chars st in
        let buf := take (bytes_after_last_accept st) (string_buffer st) in
        '(out, buf, last) ←
          (match handler with
           | replace =>
               buf ← puts buf (replacement (ensure_ascii opts));
               let '(out, buf) := flush (o st) buf in
               mret (out, buf, length buf)
           | _ => mret (o st, buf, bytes_after_last_accept st)
           end : dumped (string * list Z * nat));
        mret ({| o := out; string_buffer := buf; bytes_after_last_accept := last;
                 undumped_chars := 0; state := UTF8_ACCEPT; codepoint := codepoint' |}, again)
    end
  else
    buf ← (if ensure_ascii opts then mret (string_buffer st) else put (string_buffer st) byte);
    mret ({| o := o st; string_buffer := buf;
             bytes_after_last_accept := bytes_after_last_accept st;
             undumped_chars := undumped_chars st + 1; state := state'; codepoint := codepoint' |},
          false).

(** The loop; [s] is what is left of the string from [i] on. *)
Fixpoint escape_loop (fuel : nat) (opts : options) (i : Z) (s : string) (st : escaping)
    : dumped escaping :=
  match s with
  | EmptyString => mret st
  | String c s' =>
      match fuel with
      | O => Fault
      | S fuel' =>
          '(st', again) ← escape_step opts i (byte_val c) st;
          if (again : bool) then escape_loop fuel' opts i s st'
          else escape_loop fuel' opts (i + 1) s' st'
      end
  end.

Definition back (s : string) : Z :=
  default 0 (last (byte_val <$> String.list_ascii_of_string s)).

(** What is written behind the loop. *)
Definition escape_end (opts : options) (s : string) (st : escaping) : dumped string :=
  if state st =? UTF8_ACCEPT then mret (o st +:+ string_of_codes (string_buffer st))
  else
    let accepted := take (bytes_after_last_accept st) (string_buffer st) in
    match error_handler opts with
    | strict => Thrown316 ("incomplete UTF-8 string; last byte: 0x" +:+ hex_bytes (back s))
    | ignore => mret (o st +:+ string_of_codes accepted)
    | replace =>
        mret (o st +:+ string_of_codes accepted
              +:+ string_of_codes (replacement (ensure_ascii opts)))
    end.

(** Every byte is read at most twice. *)
Definition escape_fuel (s : string) : nat := 2 * String.length s.

Definition serialize_escaped (opts : options) (s out : string) : dumped string :=
  st ← escape_loop (escape_fuel s) opts 0 s
         {| o := out; string_buffer := []; bytes_after_last_accept := 0; undumped_chars := 0;
            state := UTF8_ACCEPT; codepoint := 0 |};
  escape_end opts s st.

(** ** Integers *)

(** [digits_to_99]. *)
Definition digits_to_99 (i : Z) : Z * Z := (48 + i / 10, 48 + i mod 10).

Fixpoint count_digits_loop (fuel : nat) (x n_digits : Z) : option Z :=
  match fuel with
  | O => None
  | S fuel' =>
      if x <? 10 then Some n_digits
      else if x <? 100 then Some (n_digits + 1)
      else if x <? 1000 then Some (n_digits + 2)
      else if x <? 10000 then Some (n_digits + 3)
      else count_digits_loop fuel' (x / 10000) (n_digits + 4)
  end.
(** A 64-bit number has at most twenty digits. *)
Definition count_digits (x : Z) : option Z := count_digits_loop 6 x 1.

Definition remove_sign (x : Z) : option Z :=
  if (x <? 0) && (x <? 2 ^ 63 - 1) then Some (u64 (u64 (- (x + 1)) + 1)) else None.

(** [number_buffer], of 64 characters, written at a pointer that descends. *)
Definition number_buffer_size : nat := 64.

Definition poke (p : nat) (c : Z) (buf : list Z) : option (nat * list Z) :=
  match p with
  | O => None
  | S p' => if (p' <? length buf)%nat then Some (p', <[p' := c]> buf) else None
  end.

Fixpoint digits_loop (fuel : nat) (abs_value : Z) (buffer_ptr : nat) (buf : list Z)
    : option (list Z) :=
  match fuel with
  | O => None
  | S fuel' =>
      if 100 <=? abs_value then
        let '(d0, d1) := digits_to_99 (abs_value mod 100) in
        '(p, buf) ← poke buffer_ptr d1 buf;
        '(p, buf) ← poke p d0 buf;
        digits_loop fuel' (abs_value / 100) p buf
      else if 10 <=? abs_value then
        let '(d0, d1) := digits_to_99 abs_value in
        '(p, buf) ← poke buffer_ptr d1 buf;
        '(_, buf) ← poke p d0 buf;
        Some buf
      else snd <$> poke buffer_ptr (48 + abs_value) buf
  end.

(** The array is not cleared; its contents are [garbage]. *)
Definition dump_integer (garbage : list Z) (x : Z) : option string :=
  if x =? 0 then Some "0"
  else
    '(sign, buf, abs_value) ← (if x <? 0 then a ← remove_sign x; Some (1, <[0%nat := 45]> garbage, a)
                               else Some (0, garbage, x));
    n ← count_digits abs_value;
    let n_chars := Z.to_nat (sign + n) in
    assert! (n_chars <? number_buffer_size - 1)%nat;
    buf ← digits_loop 11 abs_value n_chars buf;
    Some (string_of_codes (take n_chars buf)).

(** ** Values *)

Record serializer := {
  out : string;
  indent_string : string;
  number_buffer : list Z;
}.

Definition write (s : string) (sr : serializer) : serializer :=
  {| out := out sr +:+ s; indent_string := indent_string sr; number_buffer := number_buffer sr |}.

(** [o->write_characters(indent_string.c_str(), n)]. *)
Definition write_indent (n : Z) (sr : serializer) : dumped serializer :=
  if n <=? str_size (indent_string sr)
  then mret (write (String.substring 0 (Z.to_nat n) (indent_string sr)) sr)
  else Fault.

Fixpoint spaces (n : nat) : string :=
  match n with O => EmptyString | S n' => String " "%char (spaces n') end.

(** [indent_string.resize(indent_string.size() * 2, ' ')], if it is too short. *)
Definition grow_indent (new_indent : Z) (sr : serializer) : serializer :=
  if str_size (indent_string sr) <? new_indent
  then {| out := out sr; number_buffer := number_buffer sr;
          indent_string := indent_string sr +:+ spaces (String.length (indent_string sr)) |}
  else sr.

(** The loop over the first n-1 elements, and the last one behind it. *)
Definition write_items {A} (item : A -> serializer -> dumped serializer) (sep : string)
    : list A -> serializer -> dumped serializer :=
  fix go l sr :=
    match l with
    | [] => Fault
    | a :: l' =>
        sr ← item a sr;
        match l' with [] => mret sr | _ => go l' (write sep sr) end
    end.

Section dump.
Variables (opts : options) (pretty_print : bool) (indent_step : Z).

Definition dump_escaped_to (s : string) (sr : serializer) : dumped serializer :=
  out' ← serialize_escaped opts s (out sr);
  mret {| out := out'; indent_string := indent_string sr; number_buffer := number_buffer sr |}.

(** The array keeps what was written there; of that nothing is read. *)
Definition dump_number (text : option string) (sr : serializer) : dumped serializer :=
  t ← of_option text;
  mret (write t sr).

Definition dump_key (k : string) (sep : string) (sr : serializer) : dumped serializer :=
  sr ← dump_escaped_to k (write dq sr);
  mret (write (dq +:+ sep) sr).

Fixpoint serialize (val : json) (current_indent : Z) (sr : serializer) : dumped serializer :=
  match val with
  | JObject [] => mret (write "{}" sr)
  | JObject kvs =>
      if pretty_print then
        let sr := write ("{" +:+ nl) sr in
        let new_indent := u32 (current_indent + indent_step) in
        let sr := grow_indent new_indent sr in
        sr ← write_items (fun kv sr =>
               sr ← write_indent new_indent sr;
               sr ← dump_key kv.1 ": " sr;
               serialize kv.2 new_indent sr) ("," +:+ nl) kvs sr;
        sr ← write_indent current_indent (write nl sr);
        mret (write "}" sr)
      else
        sr ← write_items (fun kv sr =>
               sr ← dump_key kv.1 ":" sr;
               serialize kv.2 current_indent sr) "," kvs (write "{" sr);
        mret (write "}" sr)
  | JArray [] => mret (write "[]" sr)
  | JArray l =>
      if pretty_print then
        let sr := write ("[" +:+ nl) sr in
        let new_indent := u32 (current_indent + indent_step) in
        let sr := grow_indent new_indent sr in
        sr ← write_items (fun v sr =>
               sr ← write_indent new_indent sr;
               serialize v new_indent sr) ("," +:+ nl) l sr;
        sr ← write_indent current_indent (write nl sr);
        mret (write "]" sr)
      else
        sr ← write_items (fun v sr => serialize v current_indent sr) "," l (write "[" sr);
        mret (write "]" sr)
  | JString s => sr ← dump_escaped_to s (write dq sr); mret (write dq sr)
  | JBool b => mret (write (if b then "true" else "false") sr)
  | JInt z => dump_number (dump_integer (number_buffer sr) z) sr
  | JFloat f => dump_number (write_float f) sr
  | JNull => mret (write "null" sr)
  end.
End dump.

(** [basic_json::dump]; [json_dump_default] has the defaults of its parameters. *)
Definition json_dump (val : json) (indent : Z) (indent_char : ascii) (ensure_ascii : bool)
    (error_handler : error_handler_t) : dumped string :=
  let opts := Build_options ensure_ascii error_handler in
  let sr := {| out := EmptyString;
               indent_string := string_of_codes (replicate 512 (byte_val indent_char));
               number_buffer := replicate number_buffer_size 0 |} in
  sr ← (if 0 <=? indent then serialize opts true (u32 indent) val 0 sr
        else serialize opts false 0 val 0 sr);
  mret (out sr).
Definition json_dump_default (val : json) : dumped string :=
  json_dump val (-1) " "%char false strict.

(** ** Examples *)

Definition invoice : json :=
  JObject [("k", JArray [JInt (-120); JObject []; JString ("A" +:+ nl)]); ("r", JFloat 0x3FB999999999999A)].

Example invoice_compact : json_dump_default invoice
  = Dumped ("{" +:+ quoted "k" +:+ ":[-120,{}," +:+ quoted ("A" +:+ esc "n") +:+ "]," +:+ quoted "r" +:+ ":0.1}").
Proof. by vm_compute. Qed.
Example invoice_pretty : json_dump invoice 1 " "%char true ignore
  = Dumped ("{" +:+ nl +:+ " " +:+ quoted "k" +:+ ": [" +:+ nl +:+ "  -120," +:+ nl +:+ "  {}," +:+ nl
            +:+ "  " +:+ quoted ("A" +:+ esc "n") +:+ nl +:+ " ]," +:+ nl
            +:+ " " +:+ quoted "r" +:+ ": 0.1" +:+ nl +:+ "}").
Proof. by vm_compute. Qed.
Example broken_text h : serialize_escaped {| ensure_ascii := true; error_handler := h |}
    (String (byte_of 240) (String (byte_of 159) (String "a"%char EmptyString))) EmptyString
  = match h with
    | strict => Thrown316 "invalid UTF-8 byte at index 2: 0x61"
    | replace => Dumped (esc "ufffda")
    | ignore => Dumped "a"
    end.
Proof. by destruct h; vm_compute. Qed.
