(* ===== verification/SerializerText.v ===== *)
(** * SerializerText: what the serializer makes of the bytes of a string

    The loop of [dump_escaped] against a description of strings that does not
    mention its automaton: which bytes are characters, and which are ill-formed
    and how many of them stand for one error (the maximal subparts of the
    Unicode Standard, section 3.9). *)

From Stdlib Require Import ZArith Ascii String Lia.
From stdpp Require Import base numbers list strings.
From S2P Require Import Prelude Json JsonLex JsonText Dtoa FloatText Serializer.

Open Scope Z_scope.

Definition one (c : ascii) : string := String c EmptyString.
Lemma app_str_cons_one x c s : x +:+ String c s = (x +:+ one c) +:+ s.
Proof. by rewrite app_str_assoc. Qed.

(** ** Characters and errors *)

Definition char (x : string) : Prop := (exists a, in_range 0 127 a /\ x = one a) \/ multi x.
(** The beginning of a character of several bytes. *)
Definition truncated (x : string) : Prop :=
  x <> EmptyString /\ exists y, y <> EmptyString /\ multi (x +:+ y).
Definition goes_on (x : string) : Prop := char x \/ truncated x.

(** [x], followed by [s], is one error: a beginning that does not go on, or a
    byte with which nothing begins. *)
Definition ill_formed (x s : string) : Prop :=
  truncated x /\ (forall c s', s = String c s' -> ~ goes_on (x +:+ one c))
  \/ exists c, x = one c /\ ~ goes_on x.

(** [v] is [s] with [repl] for every error. *)
Inductive repaired (repl : string) : string -> string -> Prop :=
| rep_nil : repaired repl EmptyString EmptyString
| rep_char x s v : char x -> repaired repl s v -> repaired repl (x +:+ s) (x +:+ v)
| rep_error x s v : ill_formed x s -> repaired repl s v -> repaired repl (x +:+ s) (repl +:+ v).

(** ** The automaton in the middle of a character

    [pending x st cp]: behind the bytes [x] the automaton is in state [st] and
    has the bits [cp] of the code point. *)
Definition second_of_3 (a b : ascii) : Prop :=
  in_range 224 224 a /\ in_range 160 191 b \/ in_range 225 236 a /\ in_range 128 191 b
  \/ in_range 237 237 a /\ in_range 128 159 b \/ in_range 238 239 a /\ in_range 128 191 b.
Definition second_of_4 (a b : ascii) : Prop :=
  in_range 240 240 a /\ in_range 144 191 b \/ in_range 241 243 a /\ in_range 128 191 b
  \/ in_range 244 244 a /\ in_range 128 143 b.

Inductive pending : string -> Z -> Z -> Prop :=
| pend_none cp : pending EmptyString 0 cp
| pend_2 a : in_range 194 223 a -> pending (one a) 2 (byte_val a - 192)
| pend_3 a : in_range 225 236 a \/ in_range 238 239 a -> pending (one a) 3 (byte_val a - 224)
| pend_4 a : in_range 224 224 a -> pending (one a) 4 (byte_val a - 224)
| pend_5 a : in_range 237 237 a -> pending (one a) 5 (byte_val a - 224)
| pend_6 a : in_range 240 240 a -> pending (one a) 6 (byte_val a - 240)
| pend_7 a : in_range 241 243 a -> pending (one a) 7 (byte_val a - 240)
| pend_8 a : in_range 244 244 a -> pending (one a) 8 (byte_val a - 240)
| pend_32 a b : second_of_3 a b ->
    pending (String a (one b)) 2 ((byte_val a - 224) * 64 + (byte_val b - 128))
| pend_43 a b : second_of_4 a b ->
    pending (String a (one b)) 3 ((byte_val a - 240) * 64 + (byte_val b - 128))
| pend_42 a b c : second_of_4 a b -> in_range 128 191 c ->
    pending (String a (String b (one c))) 2
      (((byte_val a - 240) * 64 + (byte_val b - 128)) * 64 + (byte_val c - 128)).

Ltac ranges := unfold second_of_3, second_of_4 in *; unfold in_range in *.

Lemma pending_live x st cp : pending x st cp -> In st live_states.
Proof. intros []; cbn; tauto. Qed.
Lemma pending_cp x st cp : pending x st cp -> st <> 0 -> 0 <= cp < 2 ^ 20.
Proof. intros Hp Hst. destruct Hp; ranges; lia. Qed.
Lemma pending_start x st cp : pending x st cp -> st = 0 <-> x = EmptyString.
Proof. intros []; split; intros E; try done. Qed.
Lemma pending_length x st cp : pending x st cp -> (String.length x <= 3)%nat.
Proof. intros []; cbn; lia. Qed.

(** The code point behind one byte more. *)
Definition cp_next (st cp b : Z) : Z :=
  if st =? 0 then
    if b <? 128 then b else if b <? 224 then b - 192 else if b <? 240 then b - 224 else b - 240
  else cp * 64 + b mod 64.

Lemma decode_pending x st cp c : pending x st cp ->
  exists cp', decode st cp (byte_val c) = (utf8_next st (byte_val c), cp')
  /\ (utf8_next st (byte_val c) <> 1 -> cp' = cp_next st cp (byte_val c)).
Proof.
  intros Hp. pose proof (byte_val_bound c) as Hb. eexists. split.
  - unfold decode. rewrite utf8d_next by (done || by eapply pending_live). reflexivity.
  - intros Hn. unfold cp_next, UTF8_ACCEPT. destruct (Z.eqb_spec st 0) as [->|Hst]; cbn [negb].
    + by apply lead_codepoint.
    + apply next_codepoint; [done|]. by eapply pending_cp.
Qed.

(** What can begin with a byte, by the shape of [multi]. *)
Lemma multi_inv x : multi x -> exists a b r, x = String a (String b r)
  /\ (in_range 194 223 a /\ in_range 128 191 b /\ r = EmptyString
      \/ second_of_3 a b /\ (exists c, in_range 128 191 c /\ r = one c)
      \/ second_of_4 a b /\ (exists c d, in_range 128 191 c /\ in_range 128 191 d
                              /\ r = String c (one d))).
Proof.
  intros [a b|a b c|a b c d]; eexists _, _, _; (split; [reflexivity|]); [left|right; left|right; right];
    eauto 10.
Qed.

(** A continuation byte, taken modulo 64. *)
Lemma cont_mod c : in_range 128 191 c -> byte_val c mod 64 = byte_val c - 128.
Proof. intros Hc. unfold in_range in Hc. symmetry. apply Z.mod_unique with 2; lia. Qed.

(** *** The bytes of a code point *)

Lemma utf8_of_intro cp x : utf8_bytes cp = byte_val <$> String.list_ascii_of_string x ->
  utf8_of cp = x.
Proof.
  intros E. unfold utf8_of. rewrite E.
  assert (forall l, byte_of <$> (byte_val <$> l) = l) as ->.
  { intros l. induction l as [|c l IH]; [done|]. rewrite !fmap_cons, byte_of_val. by f_equal. }
  apply String.string_of_list_ascii_of_string.
Qed.

Lemma utf8_of_1 a : in_range 0 127 a -> utf8_of (byte_val a) = one a.
Proof.
  intros Ha. apply utf8_of_intro. unfold utf8_bytes. unfold in_range in Ha.
  by rewrite (proj2 (Z.ltb_lt _ 128)) by lia.
Qed.
Lemma utf8_of_2 a b : in_range 194 223 a -> in_range 128 191 b ->
  utf8_of ((byte_val a - 192) * 64 + (byte_val b - 128)) = String a (one b).
Proof.
  intros Ha Hb. apply utf8_of_intro. unfold utf8_bytes. ranges. cbn [String.list_ascii_of_string one].
  rewrite (proj2 (Z.ltb_ge _ 128)), (proj2 (Z.ltb_lt _ 2048)) by lia. cbn [fmap list_fmap].
  repeat f_equal; Z.to_euclidean_division_equations; lia.
Qed.
Lemma utf8_of_3 a b c : second_of_3 a b -> in_range 128 191 c ->
  utf8_of (((byte_val a - 224) * 64 + (byte_val b - 128)) * 64 + (byte_val c - 128))
  = String a (String b (one c)).
Proof.
  intros Ha Hc. apply utf8_of_intro. unfold utf8_bytes. ranges. cbn [String.list_ascii_of_string one].
  rewrite (proj2 (Z.ltb_ge _ 128)), (proj2 (Z.ltb_ge _ 2048)), (proj2 (Z.ltb_lt _ 65536)) by lia.
  cbn [fmap list_fmap]. repeat f_equal; Z.to_euclidean_division_equations; lia.
Qed.
Lemma utf8_of_4 a b c d : second_of_4 a b -> in_range 128 191 c -> in_range 128 191 d ->
  utf8_of ((((byte_val a - 240) * 64 + (byte_val b - 128)) * 64 + (byte_val c - 128)) * 64
           + (byte_val d - 128))
  = String a (String b (String c (one d))).
Proof.
  intros Ha Hc Hd. apply utf8_of_intro. unfold utf8_bytes. ranges. cbn [String.list_ascii_of_string one].
  rewrite (proj2 (Z.ltb_ge _ 128)), (proj2 (Z.ltb_ge _ 2048)), (proj2 (Z.ltb_ge _ 65536)) by lia.
  cbn [fmap list_fmap]. repeat f_equal; Z.to_euclidean_division_equations; lia.
Qed.

(** *** One byte more *)

Lemma pending_truncated x st cp : pending x st cp -> x <> EmptyString -> truncated x.
Proof.
  assert (Hw : forall x y, x <> EmptyString -> y <> EmptyString -> multi (x +:+ y) -> truncated x)
    by (intros; split; eauto).
  intros Hp Hx. destruct Hp as [cp|a Ha|a Ha|a Ha|a Ha|a Ha|a Ha|a Ha|a b Ha|a b Ha|a b c Ha Hc];
    [done| | | | | | | | | |].
  - apply (Hw _ (one (byte_of 128))); [done..|]. by apply multi_2.
  - apply (Hw _ (String (byte_of 128) (one (byte_of 128)))); [done..|]. apply multi_3; [|done].
    destruct Ha; [right; left|do 3 right]; done.
  - apply (Hw _ (String (byte_of 160) (one (byte_of 128)))); [done..|]. apply multi_3; [by left|done].
  - apply (Hw _ (String (byte_of 128) (one (byte_of 128)))); [done..|]. apply multi_3; [|done].
    by do 2 right; left.
  - apply (Hw _ (String (byte_of 144) (String (byte_of 128) (one (byte_of 128))))); [done..|].
    apply multi_4; [by left|done..].
  - apply (Hw _ (String (byte_of 128) (String (byte_of 128) (one (byte_of 128))))); [done..|].
    apply multi_4; [by right; left|done..].
  - apply (Hw _ (String (byte_of 128) (String (byte_of 128) (one (byte_of 128))))); [done..|].
    apply multi_4; [by right; right|done..].
  - apply (Hw _ (one (byte_of 128))); [done..|]. by apply multi_3.
  - apply (Hw _ (String (byte_of 128) (one (byte_of 128)))); [done..|]. by apply multi_4.
  - apply (Hw _ (one (byte_of 128))); [done..|]. by apply multi_4.
Qed.

(** A character is complete: the automaton accepts, with its code point. *)
Definition completed (x : string) (cp : Z) : Prop :=
  utf8_of cp = x
  /\ ((exists c, x = one c /\ cp = byte_val c /\ cp < 128)
      \/ multi x /\ 128 <= cp <= 1114111 /\ ~ 55296 <= cp <= 57343).

Lemma completed_1 a : in_range 0 127 a -> completed (one a) (byte_val a).
Proof.
  intros Ha. split; [by apply utf8_of_1|]. left. exists a. split_and!; [done..|]. ranges. lia.
Qed.
Lemma completed_multi x cp : multi x -> utf8_of cp = x -> 128 <= cp <= 1114111 ->
  ~ 55296 <= cp <= 57343 -> completed x cp.
Proof. intros. split; [done|]. by right. Qed.
Lemma completed_char x cp : completed x cp -> char x.
Proof.
  intros [_ [(c & -> & -> & Hc)|[Hm _]]]; [left|by right]. exists c. split; [|done].
  pose proof (byte_val_bound c). unfold in_range. lia.
Qed.

Lemma pending_completes x st cp c : pending x st cp -> utf8_next st (byte_val c) = 0 ->
  completed (x +:+ one c) (cp_next st cp (byte_val c)).
Proof.
  intros Hp E. pose proof (byte_val_bound c).
  assert (st <> 0 -> in_range 128 191 c) as Hc.
  { intros Hst. unfold in_range. destruct Hp; try done; cbn in E; unfold between in E;
      repeat match type of E with context [if ?b then _ else _] => destruct b eqn:? end; lia || done. }
  destruct Hp as [cp|a Ha|a Ha|a Ha|a Ha|a Ha|a Ha|a Ha|a b Ha|a b Ha|a b d Ha Hd];
    cbn [utf8_next Z.eqb Pos.eqb] in E; try (specialize (Hc ltac:(lia)));
    unfold cp_next; cbn [Z.eqb Pos.eqb]; rewrite ?cont_mod by done.
  - assert (byte_val c < 128) as Hlt.
    { unfold between in E. destruct (Z.lt_ge_cases (byte_val c) 128); [done|].
      repeat match type of E with context [if ?b then _ else _] => destruct b eqn:? end; lia || done. }
    rewrite (proj2 (Z.ltb_lt _ 128)) by done. apply completed_1. unfold in_range. lia.
  - apply completed_multi; [by apply multi_2|by apply utf8_of_2|ranges; lia..].
  - by destruct (between _ _ _).
  - by destruct (between _ _ _).
  - by destruct (between _ _ _).
  - by destruct (between _ _ _).
  - by destruct (between _ _ _).
  - by destruct (between _ _ _).
  - apply completed_multi; [by apply multi_3|by apply utf8_of_3|ranges; lia..].
  - by destruct (between _ _ _).
  - apply completed_multi; [by apply multi_4|by apply utf8_of_4|ranges; lia..].
Qed.

Lemma between_spec lo hi b : between lo hi b = true <-> lo <= b <= hi.
Proof. unfold between. lia. Qed.

(** The state behind the first byte. *)
Lemma pending_lead c : utf8_next 0 (byte_val c) <> 0 -> utf8_next 0 (byte_val c) <> 1 ->
  pending (one c) (utf8_next 0 (byte_val c)) (cp_next 0 0 (byte_val c)).
Proof.
  unfold cp_next. cbn [Z.eqb utf8_next]. pose proof (byte_val_bound c). intros H0 H1.
  repeat (let E := fresh "E" in
    match goal with |- context [if ?b then _ else _] => destruct b eqn:E end; try done);
    rewrite ?between_spec in *; try lia;
    first [apply pend_2|apply pend_4|apply pend_5|apply pend_3|apply pend_6|apply pend_7|apply pend_8];
    unfold in_range; lia.
Qed.

Lemma pending_continues x st cp c : pending x st cp ->
  utf8_next st (byte_val c) <> 0 -> utf8_next st (byte_val c) <> 1 ->
  pending (x +:+ one c) (utf8_next st (byte_val c)) (cp_next st cp (byte_val c)).
Proof.
  intros Hp H0 H1.
  destruct Hp as [cp|a Ha|a Ha|a Ha|a Ha|a Ha|a Ha|a Ha|a b Ha|a b Ha|a b d Ha Hd];
    [by apply pending_lead|..]; unfold cp_next; cbn [utf8_next Z.eqb Pos.eqb] in *;
    match goal with |- context [if ?b then _ else _] => destruct b eqn:E end; try done;
    apply between_spec in E; (rewrite cont_mod by (unfold in_range; lia)).
  - apply (pend_32 a c). ranges. lia.
  - apply (pend_32 a c). ranges. lia.
  - apply (pend_32 a c). ranges. lia.
  - apply (pend_43 a c). ranges. lia.
  - apply (pend_43 a c). ranges. lia.
  - apply (pend_43 a c). ranges. lia.
  - apply (pend_42 a b c); [done|]. unfold in_range. lia.
Qed.

(** A byte with which the automaton rejects. *)
Lemma goes_on_inv x : goes_on x -> exists a r, x = String a r
  /\ (in_range 0 127 a /\ r = EmptyString \/ exists b t, in_range 194 244 a /\ multi (String a (String b t))
        /\ (r = EmptyString \/ exists u v, r = String b u /\ t = u +:+ v)).
Proof.
  intros [[(a & Ha & ->)|Hm]|(Hx & y & Hy & Hm)].
  - exists a, EmptyString. eauto.
  - destruct (multi_inv _ Hm) as (a & b & r & -> & Hr). exists a, (String b r). split; [done|].
    right. exists b, r. split; [ranges; lia|]. split; [done|]. right. exists r, EmptyString.
    by rewrite app_str_nil_r.
  - destruct x as [|a x]; [done|]. rewrite app_str_cons in Hm.
    destruct (multi_inv _ Hm) as (a' & b & r & [= -> E] & Hr).
    rewrite E in Hm. exists a', x. split; [done|]. right. exists b, r.
    split; [ranges; lia|]. split; [done|]. destruct x as [|b' x]; [by left|right].
    rewrite app_str_cons in E. injection E as -> <-. eauto.
Qed.

Lemma goes_on_2 a b r : goes_on (String a (String b r)) ->
  exists v, multi (String a (String b (r +:+ v))).
Proof.
  intros (a' & r' & [= <- <-] & [[_ Hr]|(b' & t & _ & Hm & [Hr|(u & v & [= <- <-] & ->)])])%goes_on_inv;
    [done..|]. by exists v.
Qed.

Lemma goes_on_1 a : goes_on (one a) -> in_range 0 127 a \/ in_range 194 244 a.
Proof. intros (a' & r & [= <- <-] & [[? _]|(b & t & ? & _)])%goes_on_inv; auto. Qed.

Lemma pending_stops x st cp c : pending x st cp -> utf8_next st (byte_val c) = 1 ->
  ~ goes_on (x +:+ one c).
Proof.
  intros Hp E. pose proof (byte_val_bound c).
  destruct Hp as [cp|a Ha|a Ha|a Ha|a Ha|a Ha|a Ha|a Ha|a b Ha|a b Ha|a b d Ha Hd];
    cbn [utf8_next Z.eqb Pos.eqb] in E.
  { intros Hg%goes_on_1. unfold in_range in Hg.
    repeat match type of E with context [if ?b then _ else _] =>
      let E' := fresh "E" in destruct b eqn:E' end; rewrite ?between_spec in *; try done;
      unfold between in *; lia. }
  all: destruct (between _ _ _) eqn:Eb; [done|]; unfold between in Eb;
    cbn [String.append one]; intros [v Hm]%goes_on_2;
    apply multi_inv in Hm as (a' & b' & r & [= <- <- <-] & Hr); ranges;
    destruct Hr as [(? & ? & ?)|[(? & e & ? & ?)|(? & e & e' & ? & ? & ?)]]; try lia;
    cbn [String.append one] in *; unfold one in *; simplify_eq; lia.
Qed.

(** ** Writing into the buffer *)

Lemma puts_room cs : forall buf, (length buf + length cs <= buffer_size)%nat ->
  puts buf cs = Dumped (buf ++ cs).
Proof.
  induction cs as [|c cs IH]; intros buf Hl; cbn [puts]; [by rewrite app_nil_r|].
  cbn [length] in Hl. unfold put. rewrite (proj2 (Nat.ltb_lt _ _)) by lia. cbn [mbind dumped_bind].
  rewrite IH by (rewrite length_app; cbn; lia). by rewrite <-app_assoc.
Qed.

(** What stands for a code point [cp] whose last byte is [c]. *)
Definition u_escape (n : Z) : list Z :=
  [92; 117; nibble (Z.land (Z.shiftr n 12) 15); nibble (Z.land (Z.shiftr n 8) 15);
   nibble (Z.land (Z.shiftr n 4) 15); nibble (Z.land n 15)].
Definition escape_codes (ascii : bool) (cp c : Z) : list Z :=
  match put_codepoint ascii cp c [] with Dumped l => l | _ => [] end.

Lemma write_u_escape_room buf n : (length buf + 6 <= buffer_size)%nat ->
  write_u_escape buf n = Dumped (buf ++ u_escape n).
Proof.
  intros Hl. unfold write_u_escape. rewrite (proj2 (Nat.leb_le _ _)) by lia.
  apply puts_room. cbn. lia.
Qed.

Lemma put_codepoint_room ascii cp c buf :
  (length buf + length (escape_codes ascii cp c) <= buffer_size)%nat ->
  put_codepoint ascii cp c buf = Dumped (buf ++ escape_codes ascii cp c).
Proof.
  unfold escape_codes, put_codepoint.
  do 7 (destruct (_ =? _); [rewrite (puts_room _ []) by (unfold buffer_size; cbn; lia);
    intros Hl; by rewrite puts_room|]).
  destruct (_ || _).
  - destruct (cp <=? 65535).
    + rewrite (write_u_escape_room []) by (unfold buffer_size; cbn; lia).
      intros Hl. by rewrite write_u_escape_room.
    + rewrite (write_u_escape_room []) by (unfold buffer_size; cbn; lia).
      cbn [mbind dumped_bind app].
      rewrite (write_u_escape_room (u_escape _)) by (unfold buffer_size; cbn; lia).
      rewrite length_app. intros Hl. cbn in Hl. rewrite write_u_escape_room by lia.
      cbn [mbind dumped_bind]. rewrite write_u_escape_room by (rewrite length_app; cbn; lia).
      by rewrite <-app_assoc.
  - unfold put. rewrite (proj2 (Nat.ltb_lt (length []) _)) by (unfold buffer_size; cbn; lia).
    cbn [app length]. intros Hl. by rewrite (proj2 (Nat.ltb_lt _ _)) by lia.
Qed.

(** *** The text of one code point *)

Lemma nibble_hex n : 0 <= n < 16 -> hex_digit (byte_of (nibble n)) n.
Proof.
  intros Hn. unfold nibble. destruct (Z.ltb_spec n 10).
  - assert (byte_val (byte_of (48 + n)) = 48 + n) as E by (rewrite byte_val_of, Z.mod_small; lia).
    replace n with (byte_val (byte_of (48 + n)) - 48) at 2 by lia. constructor. unfold in_range. lia.
  - assert (byte_val (byte_of (87 + n)) = 87 + n) as E by (rewrite byte_val_of, Z.mod_small; lia).
    replace n with (byte_val (byte_of (87 + n)) - 97 + 10) at 2 by lia.
    apply hex_lower. unfold in_range. lia.
Qed.

Lemma u_escape_text n : 0 <= n < 65536 ->
  exists h, string_of_codes (u_escape n) = backslash +:+ "u" +:+ h /\ hex4 h n.
Proof.
  intros Hn. eexists. split; [reflexivity|]. change 15 with (Z.ones 4).
  rewrite !Z.land_ones, !Z.shiftr_div_pow2 by lia.
  change (2 ^ 4) with 16. change (2 ^ 8) with 256. change (2 ^ 12) with 4096.
  assert (((n / 4096 mod 16 * 16 + n / 256 mod 16) * 16 + n / 16 mod 16) * 16 + n mod 16 = n) as E
    by (Z.to_euclidean_division_equations; lia).
  rewrite <-E at 5. constructor; apply nibble_hex; apply Z.mod_pos_bound; lia.
Qed.

Lemma unicode_chars e cp : unicode_text e cp -> chars (backslash +:+ "u" +:+ e) (utf8_of cp).
Proof.
  intros He. rewrite <-(app_str_nil_r (utf8_of cp)), <-(app_str_nil_r e). constructor; [done|constructor].
Qed.

(** A code point written as one or two escapes. *)
Definition unicode_codes (cp : Z) : list Z :=
  if cp <=? 65535 then u_escape (cp mod 65536)
  else u_escape (u32 (55232 + Z.shiftr cp 10) mod 65536)
       ++ u_escape (u32 (56320 + Z.land cp 1023) mod 65536).

Lemma unicode_codes_chars cp : 0 <= cp <= 1114111 -> ~ 55296 <= cp <= 57343 ->
  chars (string_of_codes (unicode_codes cp)) (utf8_of cp).
Proof.
  intros Hcp Hs. unfold unicode_codes. destruct (Z.leb_spec cp 65535).
  - rewrite Z.mod_small by lia. destruct (u_escape_text cp) as (h & -> & Hh); [lia|].
    by apply unicode_chars, unicode_basic.
  - change 1023 with (Z.ones 10). rewrite Z.land_ones, Z.shiftr_div_pow2 by lia.
    change (2 ^ 10) with 1024. unfold u32.
    assert (0 <= cp / 1024 <= 1087) as Hq by (Z.to_euclidean_division_equations; lia).
    pose proof (Z.mod_pos_bound cp 1024 ltac:(lia)) as Hm.
    rewrite !(Z.mod_small (_ + _) (2 ^ 32)), !(Z.mod_small (_ + _) 65536) by lia.
    destruct (u_escape_text (55232 + cp / 1024)) as (h1 & E1 & Hh1); [lia|].
    destruct (u_escape_text (56320 + cp mod 1024)) as (h2 & E2 & Hh2); [lia|].
    rewrite codes_app, E1, E2, !app_str_assoc. apply unicode_chars.
    assert (cp = 65536 + (55232 + cp / 1024 - 55296) * 1024 + (56320 + cp mod 1024 - 56320)) as E
      by (pose proof (Z.div_mod cp 1024); lia).
    rewrite E at 1. apply unicode_pair; [done|done|lia|lia].
Qed.

Lemma escape_short cp b : (b, cp) ∈ escapes ->
  chars (string_of_codes [92; b]) (one (byte_of cp)).
Proof.
  intros Hb. assert (byte_val (byte_of b) = b) as E.
  { unfold escapes in Hb. rewrite !elem_of_cons, elem_of_nil in Hb.
    destruct_or! Hb; simplify_eq; done. }
  change (string_of_codes [92; b]) with (backslash +:+ String (byte_of b) EmptyString).
  apply chars_escape; [by rewrite E|constructor].
Qed.

(** What the buffer has of a character before its last byte. *)
Definition raw (ascii : bool) (x : string) : string := if ascii then EmptyString else x.

Lemma escape_codes_split (ascii : bool) cp c :
  (exists b, (b, cp) ∈ escapes /\ escape_codes ascii cp c = [92; b])
  \/ (cp <= 31 \/ ascii = true /\ 127 <= cp) /\ escape_codes ascii cp c = unicode_codes cp
  \/ 31 < cp /\ (ascii = true -> cp < 127) /\ cp <> 34 /\ cp <> 92
     /\ escape_codes ascii cp c = [c].
Proof.
  unfold escape_codes, put_codepoint.
  assert (Hs : forall n b, (b, n) ∈ escapes ->
    (exists b', (b', n) ∈ escapes /\ match puts [] [92; b] with Dumped l => l | _ => [] end = [92; b']))
    by (intros n b Hb; exists b; split; [done|]; by rewrite puts_room by (unfold buffer_size; cbn; lia)).
  assert (He : forall b n, (b, n) ∈ [(34, 34); (92, 92); (98, 8); (102, 12); (110, 10); (114, 13); (116, 9)] ->
    (b, n) ∈ escapes).
  { intros b n Hb. unfold escapes. rewrite !elem_of_cons, elem_of_nil in *. tauto. }
  do 7 (match goal with |- context [cp =? ?n] => destruct (Z.eqb_spec cp n) as [->|] end;
    [left; apply Hs, He; rewrite !elem_of_cons; tauto|]).
  right. destruct ((cp <=? 31) || (ascii && (127 <=? cp))) eqn:E.
  - left. split; [destruct ascii; lia|]. unfold unicode_codes. destruct (cp <=? 65535).
    + by rewrite write_u_escape_room by (unfold buffer_size; cbn; lia).
    + rewrite (write_u_escape_room []) by (unfold buffer_size; cbn; lia). cbn [mbind dumped_bind app].
      by rewrite write_u_escape_room by (unfold buffer_size; cbn; lia).
  - right. split_and!; [lia|destruct ascii; lia|done|done|done].
Qed.

Lemma escape_codes_length (ascii : bool) cp c : (length (escape_codes ascii cp c) <= 12)%nat
  /\ (ascii = false -> 128 <= cp -> escape_codes ascii cp c = [c]).
Proof.
  destruct (escape_codes_split ascii cp c) as [(b & Hb & E)|[[Hcp E]|(Hlo & _ & _ & _ & E)]]; rewrite E.
  - split; [cbn; lia|]. intros _ Hcp. unfold escapes in Hb.
    rewrite !elem_of_cons, elem_of_nil in Hb. destruct_or! Hb; simplify_eq; lia.
  - split; [unfold unicode_codes; destruct (_ <=? _); [|rewrite length_app]; cbn; lia|].
    intros -> ?. destruct Hcp as [|[? _]]; [lia|done].
  - split; [cbn; lia|done].
Qed.

Lemma one_snoc x y c : one x = y +:+ one c -> y = EmptyString /\ x = c.
Proof.
  intros E. destruct y as [|a y]; [by injection E as ->|]. injection E as _ E. by destruct y.
Qed.

Lemma multi_chars x : multi x -> chars x x.
Proof.
  intros Hm. rewrite <-(app_str_nil_r x). apply chars_multi; [done|constructor].
Qed.

Lemma escape_codes_chars (ascii : bool) y c cp : completed (y +:+ one c) cp ->
  chars (raw ascii y +:+ string_of_codes (escape_codes ascii cp (byte_val c))) (y +:+ one c).
Proof.
  intros [Hu Hc]. destruct Hc as [(x & Ex & -> & Hx)|(Hm & Hr & Hs)].
  - destruct (one_snoc _ _ _ (eq_sym Ex)) as [-> ->]. pose proof (byte_val_bound c).
    replace (raw ascii EmptyString) with EmptyString by by destruct ascii. cbn [String.append] in *.
    destruct (escape_codes_split ascii (byte_val c) (byte_val c))
      as [(b & Hb & ->)|[[Hcp ->]|(Hlo & Hhi & Hq & Hbs & ->)]].
    + rewrite <-(byte_of_val c). by apply escape_short.
    + rewrite <-Hu. apply unicode_codes_chars; lia.
    + change (string_of_codes [byte_val c]) with (one (byte_of (byte_val c))). rewrite byte_of_val.
      apply chars_plain; [unfold in_range; lia|done|done|constructor].
  - destruct (escape_codes_split ascii cp (byte_val c))
      as [(b & Hb & _)|[[Hcp ->]|(Hlo & Hhi & Hq & Hbs & ->)]].
    + unfold escapes in Hb. rewrite !elem_of_cons, elem_of_nil in Hb.
      destruct_or! Hb; simplify_eq; lia.
    + destruct Hcp as [Hcp|[-> _]]; [lia|]. rewrite <-Hu. apply unicode_codes_chars; lia.
    + destruct ascii; [lia|].
      change (string_of_codes [byte_val c]) with (one (byte_of (byte_val c))). rewrite byte_of_val.
      by apply multi_chars.
Qed.

(** *** Only 7-bit characters *)

Lemma codes_ascii7 l : Forall (fun c => 0 <= c < 128) l -> ascii7 (string_of_codes l).
Proof.
  induction 1 as [|c l Hc _ IH]; [constructor|]. apply Forall_cons_2; [|done].
  rewrite byte_val_of, Z.mod_small; lia.
Qed.
Lemma u_escape_codes n : Forall (fun c => 0 <= c < 128) (u_escape n).
Proof.
  assert (forall m, 0 <= nibble (Z.land m 15) < 128) as Hn.
  { intros m. change 15 with (Z.ones 4). rewrite Z.land_ones by lia. change (2 ^ 4) with 16.
    pose proof (Z.mod_pos_bound m 16). unfold nibble. destruct (_ <? _); lia. }
  do 2 (apply Forall_cons_2; [lia|]). repeat (apply Forall_cons_2; [apply Hn|]). constructor.
Qed.

Lemma escape_codes_ascii y c cp : completed (y +:+ one c) cp ->
  ascii7 (string_of_codes (escape_codes true cp (byte_val c))).
Proof.
  intros [_ Hc]. apply codes_ascii7. pose proof (byte_val_bound c).
  destruct (escape_codes_split true cp (byte_val c))
    as [(b & Hb & ->)|[[_ ->]|(_ & Hlt & _ & _ & ->)]].
  - do 2 (apply Forall_cons_2; [try lia|]); [|constructor]. unfold escapes in Hb.
    rewrite !elem_of_cons, elem_of_nil in Hb. destruct_or! Hb; simplify_eq; lia.
  - unfold unicode_codes. destruct (_ <=? _); [|apply Forall_app_2]; apply u_escape_codes.
  - apply Forall_cons_2; [|constructor]. destruct Hc as [(x & Ex & -> & ?)|(_ & ? & _)]; [|lia].
    apply eq_sym, one_snoc in Ex as [_ ->]. lia.
Qed.

(** ** The loop *)

Section loop.
Variable opts : options.
Let ascii := ensure_ascii opts.
Let repl : string :=
  match error_handler opts with replace => string_of_codes (replacement ascii) | _ => EmptyString end.

Definition written (st : escaping) : string := o st +:+ string_of_codes (string_buffer st).

(** Between two characters. *)
Definition ready (st : escaping) : Prop :=
  state st = 0 /\ undumped_chars st = 0
  /\ bytes_after_last_accept st = length (string_buffer st)
  /\ (length (string_buffer st) + 13 <= buffer_size)%nat.

Definition codes_of (x : string) : list Z := byte_val <$> String.list_ascii_of_string x.

(** Behind the bytes [x] of a character, from [st0] on. *)
Definition mid (x : string) (st0 st : escaping) : Prop :=
  o st = o st0 /\ string_buffer st = string_buffer st0 ++ codes_of (raw ascii x)
  /\ bytes_after_last_accept st = length (string_buffer st0)
  /\ undumped_chars st = Z.of_nat (String.length x)
  /\ pending x (state st) (codepoint st).

Lemma codes_of_string x : string_of_codes (codes_of x) = x.
Proof.
  unfold codes_of. induction x as [|c x IH]; [done|]. cbn [String.list_ascii_of_string].
  rewrite fmap_cons, codes_cons, IH. by rewrite byte_of_val.
Qed.
Lemma codes_of_app x y : codes_of (x +:+ y) = codes_of x ++ codes_of y.
Proof. unfold codes_of. induction x as [|c x IH]; [done|]. cbn. by f_equal. Qed.
Lemma codes_of_length x : length (codes_of x) = String.length x.
Proof. unfold codes_of. induction x as [|c x IH]; [done|]. cbn. by f_equal. Qed.

Lemma ready_mid st : ready st -> mid EmptyString st st.
Proof.
  intros (Hs & Hu & Hl & Hr). assert (raw ascii EmptyString = EmptyString) as E by by destruct ascii.
  unfold mid. rewrite E, app_nil_r. split_and!; try done. rewrite Hs. constructor.
Qed.

Lemma raw_length x : (String.length (raw ascii x) <= String.length x)%nat.
Proof. destruct ascii; cbn; lia. Qed.

Lemma flush_ready out buf out' buf' : flush out buf = (out', buf') ->
  out' +:+ string_of_codes buf' = out +:+ string_of_codes buf
  /\ (length buf' + 13 <= buffer_size)%nat.
Proof.
  unfold flush. destruct (Nat.ltb_spec (buffer_size - length buf) 13) as [H|H]; intros [= <- <-].
  - cbn [string_of_codes foldr]. rewrite app_str_nil_r. split; [done|]. unfold buffer_size. cbn. lia.
  - split; [done|]. unfold buffer_size in *. lia.
Qed.

(** Before a character of several bytes is complete three more are in the
    buffer, and then one byte is added. *)
Lemma completes_room x st0 st c cp : ready st0 -> mid x st0 st -> completed (x +:+ one c) cp ->
  (length (string_buffer st) + length (escape_codes ascii cp (byte_val c)) <= buffer_size)%nat.
Proof.
  intros (_ & _ & _ & Hr0) (_ & Hb & _ & _ & Hp) [_ Hc].
  pose proof (pending_length _ _ _ Hp) as Hx. rewrite Hb, length_app, codes_of_length.
  destruct (escape_codes_length ascii cp (byte_val c)) as [H12 H1].
  destruct ascii; cbn [raw String.length] in *; [lia|].
  destruct Hc as [(y & Ey & _)|(_ & Hcp & _)]; [|rewrite H1 by lia; cbn; lia].
  apply eq_sym, one_snoc in Ey as [-> _]. cbn. lia.
Qed.

Lemma replacement_length a : (length (replacement a) <= 6)%nat.
Proof. destruct a; cbn; lia. Qed.

(** The three kinds of round. *)
Lemma step_completes i x st0 st c : ready st0 -> mid x st0 st ->
  utf8_next (state st) (byte_val c) = 0 ->
  exists st', escape_step opts i (byte_val c) st = Dumped (st', false) /\ ready st'
  /\ decode (state st) (codepoint st) (byte_val c) = (state st', codepoint st')
  /\ completed (x +:+ one c) (codepoint st')
  /\ written st'
     = written st0 +:+ raw ascii x +:+ string_of_codes (escape_codes ascii (codepoint st') (byte_val c)).
Proof.
  intros Hr0 Hm E. pose proof Hm as (Ho & Hb & Hl & Hu & Hp).
  destruct (decode_pending _ _ _ c Hp) as (cp & Ed & Hcp). specialize (Hcp ltac:(lia)).
  pose proof (pending_completes _ _ _ c Hp E) as Hc. rewrite <-Hcp in Hc.
  unfold escape_step. rewrite Ed, E. change (0 =? UTF8_ACCEPT) with true. cbv iota.
  assert (length (string_buffer st) + length (escape_codes ascii cp (byte_val c)) <= buffer_size)%nat
    as Hroom by (by eapply completes_room).
  fold ascii. rewrite put_codepoint_room by done. cbn [mbind dumped_bind].
  destruct (flush _ _) as [out' buf'] eqn:Ef. apply flush_ready in Ef as [Ew Er].
  eexists. split; [reflexivity|]. cbn [state codepoint]. split_and!; try done.
  unfold written. cbn [o string_buffer]. rewrite Ew, Hb, !codes_app, codes_of_string, Ho.
  by rewrite !app_str_assoc.
Qed.

Lemma step_stops i x st0 st c : ready st0 -> mid x st0 st ->
  utf8_next (state st) (byte_val c) = 1 ->
  match error_handler opts with
  | strict => exists w, escape_step opts i (byte_val c) st = Thrown316 w
  | _ => exists st', escape_step opts i (byte_val c) st = Dumped (st', negb (is_empty x))
           /\ ready st' /\ written st' = written st0 +:+ repl
  end.
Proof.
  intros (Hs0 & Hu0 & Hl0 & Hr0) (Ho & Hb & Hl & Hu & Hp) E.
  destruct (decode_pending _ _ _ c Hp) as (cp & Ed & _). unfold escape_step, repl.
  rewrite Ed, E. change (1 =? UTF8_ACCEPT) with false. change (1 =? UTF8_REJECT) with true.
  cbv iota. assert ((0 <? undumped_chars st) = negb (is_empty x)) as Ha.
  { rewrite Hu. destruct x as [|a x]; [done|]. apply Z.ltb_lt. cbn [String.length]. lia. }
  assert (take (bytes_after_last_accept st) (string_buffer st) = string_buffer st0) as Ht.
  { by rewrite Hl, Hb, take_app_length. }
  destruct (error_handler opts).
  - by eexists.
  - rewrite Ht. fold ascii. rewrite puts_room by (pose proof (replacement_length ascii); lia). cbn [mbind dumped_bind].
    destruct (flush _ _) as [out' buf'] eqn:Ef. apply flush_ready in Ef as [Ew Er].
    rewrite Ha. eexists. split; [reflexivity|]. split; [done|].
    unfold written. cbn [o string_buffer]. by rewrite Ew, Ho, codes_app, app_str_assoc.
  - rewrite Ht, Ha. eexists. split; [reflexivity|]. split.
    + split_and!; cbn; try done; lia.
    + unfold written. cbn [o string_buffer]. by rewrite Ho, app_str_nil_r.
Qed.

Lemma step_continues i x st0 st c : ready st0 -> mid x st0 st ->
  utf8_next (state st) (byte_val c) <> 0 -> utf8_next (state st) (byte_val c) <> 1 ->
  exists st', escape_step opts i (byte_val c) st = Dumped (st', false)
  /\ decode (state st) (codepoint st) (byte_val c) = (state st', codepoint st')
  /\ mid (x +:+ one c) st0 st'.
Proof.
  intros (Hs0 & Hu0 & Hl0 & Hr0) (Ho & Hb & Hl & Hu & Hp) H0 H1.
  destruct (decode_pending _ _ _ c Hp) as (cp & Ed & Hcp). specialize (Hcp H1).
  pose proof (pending_continues _ _ _ c Hp H0 H1) as Hp'. rewrite <-Hcp in Hp'.
  unfold escape_step. rewrite Ed.
  destruct (Z.eqb_spec (utf8_next (state st) (byte_val c)) UTF8_ACCEPT) as [|_]; [done|].
  destruct (Z.eqb_spec (utf8_next (state st) (byte_val c)) UTF8_REJECT) as [|_]; [done|].
  pose proof (pending_length _ _ _ Hp) as Hx. fold ascii.
  assert ((if ascii then mret (string_buffer st) else put (string_buffer st) (byte_val c))
    = Dumped (string_buffer st0 ++ codes_of (raw ascii (x +:+ one c)))) as ->.
  { rewrite Hb. destruct ascii; cbn [raw]; [done|]. unfold put.
    rewrite (proj2 (Nat.ltb_lt _ _)) by (rewrite length_app, codes_of_length; lia).
    by rewrite codes_of_app, <-app_assoc. }
  cbn [mbind dumped_bind]. eexists. split; [reflexivity|]. split; [done|]. split_and!; try done.
  cbn [undumped_chars]. rewrite Hu, length_app_str. cbn. lia.
Qed.
(** *** The whole string *)

(** What the errors are replaced with. *)
Definition repl_char : string :=
  match error_handler opts with replace => utf8_of 65533 | _ => EmptyString end.

Lemma repl_chars : chars repl repl_char.
Proof.
  unfold repl, repl_char. destruct (error_handler opts); [constructor| |constructor].
  destruct ascii; cbn [replacement].
  - change (string_of_codes _) with (backslash +:+ "u" +:+ "fffd"). apply unicode_chars.
    apply unicode_basic; [|lia].
    assert (hex4 "fffd" (((15 * 16 + 15) * 16 + 15) * 16 + 13)) as Hx; [|exact Hx].
    constructor; (exact (hex_lower "f"%char ltac:(done)) || exact (hex_lower "d"%char ltac:(done))).
  - change (string_of_codes _) with (utf8_of 65533). apply multi_chars.
    apply multi_3; [|done]. by do 3 right.
Qed.

Lemma repl_ascii7 : ascii = true -> ascii7 repl.
Proof.
  unfold repl. intros ->. destruct (error_handler opts); [constructor| |constructor].
  repeat (apply Forall_cons_2; [done|]). constructor.
Qed.

(** The text [t] behind [base] stands for [s]; with the strict handler an
    error is thrown instead if there is one in [s]. *)
Definition escaped_as (s base : string) (r : dumped string) : Prop :=
  (error_handler opts = strict /\ ~ utf8 s /\ exists w, r = Thrown316 w)
  \/ exists v t, (error_handler opts = strict -> utf8 s) /\ (utf8 s -> v = s)
     /\ repaired repl_char s v /\ chars t v /\ (ascii = true -> ascii7 t) /\ r = Dumped (base +:+ t).

Lemma utf8_iff s : utf8 s <-> accepts 0 s = true.
Proof. split; [apply utf8_accepts|]. apply (accepts_utf8 (S (String.length s))). lia. Qed.

Lemma accepts_step st a r st' : utf8_next st (byte_val a) = st' -> st' <> 1 ->
  accepts st (String a r) = accepts st' r.
Proof. intros E Hn. cbn [accepts]. rewrite E. by destruct (Z.eqb_spec st' 1). Qed.

(** The next state, from the range of the byte. *)
Ltac next_tac :=
  ranges; unfold utf8_next; cbn [Z.eqb Pos.eqb]; unfold between;
  repeat match goal with |- context [if ?b then _ else _] => destruct b eqn:? end; lia || done.

Lemma pending_accepts x st cp s : pending x st cp -> accepts 0 (x +:+ s) = accepts st s.
Proof.
  intros [cp'|a Ha|a Ha|a Ha|a Ha|a Ha|a Ha|a Ha|a b Hab|a b Hab|a b d Hab Hd];
    cbn [String.append one]; [done|apply accepts_step; [next_tac|done]..| | |].
  - destruct_or! Hab; destruct Hab as [Ha Hb];
      [rewrite (accepts_step 0 a _ 4) by next_tac|rewrite (accepts_step 0 a _ 3) by next_tac
      |rewrite (accepts_step 0 a _ 5) by next_tac|rewrite (accepts_step 0 a _ 3) by next_tac];
      apply accepts_step; next_tac.
  - destruct_or! Hab; destruct Hab as [Ha Hb];
      [rewrite (accepts_step 0 a _ 6) by next_tac|rewrite (accepts_step 0 a _ 7) by next_tac
      |rewrite (accepts_step 0 a _ 8) by next_tac]; apply accepts_step; next_tac.
  - destruct_or! Hab; destruct Hab as [Ha Hb];
      [rewrite (accepts_step 0 a _ 6), (accepts_step 6 b _ 3) by next_tac
      |rewrite (accepts_step 0 a _ 7), (accepts_step 7 b _ 3) by next_tac
      |rewrite (accepts_step 0 a _ 8), (accepts_step 8 b _ 3) by next_tac];
      apply accepts_step; next_tac.
Qed.

Lemma completed_utf8 x c s cp : pending x s cp -> utf8_next s (byte_val c) = 0 -> forall r,
  utf8 (x +:+ String c r) <-> utf8 r.
Proof.
  intros Hp E r. rewrite !utf8_iff, (pending_accepts _ _ _ _ Hp). cbn [accepts]. by rewrite E.
Qed.

Lemma escaped_char x s base t r : char x -> (utf8 (x +:+ s) <-> utf8 s) -> chars t x ->
  (ascii = true -> ascii7 t) ->
  escaped_as s (base +:+ t) r -> escaped_as (x +:+ s) base r.
Proof.
  intros Hx Hu Ht Ha [(Hh & Hn & Hw)|(v & t' & Hs & Hv & Hr & Ht' & Ha' & ->)].
  - left. by rewrite Hu.
  - right. exists (x +:+ v), (t +:+ t'). rewrite Hu. split; [done|]. split; [intros; f_equal; auto|].
    split; [by apply rep_char|]. split; [by apply chars_app|].
    split; [intros; apply ascii7_app; auto|]. by rewrite app_str_assoc.
Qed.

Lemma escaped_error x s base r : error_handler opts <> strict -> ill_formed x s -> ~ utf8 (x +:+ s) ->
  escaped_as s (base +:+ repl) r -> escaped_as (x +:+ s) base r.
Proof.
  intros Hh Hx Hu [(Hs & _)|(v & t' & _ & _ & Hr & Ht' & Ha & ->)]; [done|].
  right. exists (repl_char +:+ v), (repl +:+ t'). split; [done|]. split; [done|].
  split; [by apply rep_error|]. split; [by apply chars_app, Ht'; apply repl_chars|].
  split; [intros; apply ascii7_app; auto using repl_ascii7|].
  by rewrite app_str_assoc.
Qed.
(** The end of the string in the middle of a character, or between two. *)
Lemma run_end whole x st0 st : ready st0 -> mid x st0 st ->
  escaped_as x (written st0) (escape_end opts whole st).
Proof.
  intros (_ & _ & Hl0 & _) (Ho & Hb & Hl & _ & Hp). unfold escape_end.
  destruct (Z.eqb_spec (state st) UTF8_ACCEPT) as [E|E].
  - apply (pending_start _ _ _ Hp) in E as ->. right. exists EmptyString, EmptyString.
    split; [constructor|]. split; [done|]. do 3 (split; [constructor|]).
    rewrite Hb, Ho. replace (codes_of (raw ascii EmptyString)) with ([] : list Z) by by destruct ascii.
    rewrite app_nil_r, app_str_nil_r. done.
  - assert (~ utf8 x) as Hu.
    { rewrite utf8_iff, <-(app_str_nil_r x), (pending_accepts _ _ _ _ Hp). cbn [accepts].
      by destruct (Z.eqb_spec (state st) 0). }
    assert (take (bytes_after_last_accept st) (string_buffer st) = string_buffer st0) as ->
      by (by rewrite Hl, Hb, take_app_length).
    assert (ill_formed x EmptyString) as Hx.
    { left. split; [|done]. eapply pending_truncated; [exact Hp|]. intros Ex. apply E.
      by apply (pending_start _ _ _ Hp). }
    rewrite <-(app_str_nil_r x). rewrite <-(app_str_nil_r x) in Hu.
    assert (forall r, error_handler opts <> strict -> r = Dumped (written st0 +:+ repl) ->
      escaped_as (x +:+ EmptyString) (written st0) r) as Hend.
    { intros r Hh ->. apply escaped_error; [done..|]. right. exists EmptyString, EmptyString.
      rewrite app_str_nil_r. split; [constructor|]. split; [done|]. by repeat constructor. }
    unfold written, repl in *. rewrite Ho.
    destruct (error_handler opts) eqn:Hh; [left; eauto|apply Hend..]; try done; unfold mret, dumped_ret.
    + by rewrite app_str_assoc.
    + by rewrite app_str_nil_r.
Qed.

Lemma run whole fuel : forall i x s st0 st, ready st0 -> mid x st0 st ->
  (2 * String.length s + (if is_empty x then 0 else 1) <= fuel)%nat ->
  escaped_as (x +:+ s) (written st0) (st' ← escape_loop fuel opts i s st; escape_end opts whole st').
Proof.
  induction fuel as [|fuel IH]; intros i x s st0 st Hr Hm Hf; destruct s as [|c s];
    cbn [String.length] in Hf; cbn [escape_loop mbind dumped_bind];
    try (rewrite app_str_nil_r; by apply run_end); [lia|].
  pose proof Hm as (_ & _ & _ & _ & Hp).
  rewrite (app_str_cons_one x c s).
  destruct (Z.eq_dec (utf8_next (state st) (byte_val c)) 0) as [E0|E0].
  { destruct (step_completes i x st0 st c Hr Hm E0) as (st' & -> & Hr' & _ & Hc & Hw).
    cbn [mbind dumped_bind]. apply (escaped_char _ _ _ (raw ascii x +:+ string_of_codes (escape_codes ascii (codepoint st') (byte_val c)))).
    - by eapply completed_char.
    - rewrite <-app_str_cons_one. by apply (completed_utf8 _ _ _ _ Hp).
    - by apply escape_codes_chars.
    - intros Ha. rewrite Ha in *. by apply (escape_codes_ascii x).
    - rewrite <-Hw. apply (IH _ EmptyString s st' st'); [done|by apply ready_mid|cbn; lia]. }
  destruct (Z.eq_dec (utf8_next (state st) (byte_val c)) 1) as [E1|E1].
  - assert (~ utf8 (x +:+ String c s)) as Hu.
    { rewrite utf8_iff, (pending_accepts _ _ _ _ Hp). cbn [accepts]. by rewrite E1. }
    rewrite <-app_str_cons_one.
    pose proof (pending_stops _ _ _ c Hp E1) as Hg.
    pose proof (step_stops i x st0 st c Hr Hm E1) as Hs.
    assert (Hgo : forall st', error_handler opts <> strict -> ready st' -> written st' = written st0 +:+ repl ->
      escaped_as (x +:+ String c s) (written st0)
        (st'' ← (if negb (is_empty x) then escape_loop fuel opts i (String c s) st'
                 else escape_loop fuel opts (i + 1) s st'); escape_end opts whole st'')).
    { intros st' Hh Hr' Hw. destruct x as [|a x].
      - change (EmptyString +:+ String c s) with (one c +:+ s) in *.
        apply escaped_error; [done|right; by exists c|done|]. rewrite <-Hw.
        apply (IH _ EmptyString s st' st'); [done|by apply ready_mid|cbn; lia].
      - apply escaped_error; [done| |done|].
        + left. split; [by eapply pending_truncated|]. by intros c' s' [= <- <-].
        + rewrite <-Hw. apply (IH _ EmptyString (String c s) st' st'); [done|by apply ready_mid|].
          cbn in *. lia. }
    destruct (error_handler opts) eqn:Hh.
    + destruct Hs as [w ->]. left. rewrite Hh. eauto.
    + destruct Hs as (st' & -> & Hr' & Hw). by apply Hgo.
    + destruct Hs as (st' & -> & Hr' & Hw). by apply Hgo.
  - destruct (step_continues i x st0 st c Hr Hm E0 E1) as (st' & -> & _ & Hm').
    cbn [mbind dumped_bind]. apply IH; [done..|]. destruct (is_empty (x +:+ one c)); destruct (is_empty x); lia.
Qed.

Lemma escaped s base : escaped_as s base (serialize_escaped opts s base).
Proof.
  unfold serialize_escaped, escape_fuel.
  match goal with |- context [escape_loop _ _ _ _ ?st] =>
    pose proof (run s (2 * String.length s) 0 EmptyString s st st) as Hrun end.
  unfold written in Hrun. cbn [o string_buffer string_of_codes foldr] in Hrun.
  rewrite app_str_nil_r in Hrun. apply Hrun; [|apply ready_mid|cbn; lia];
    (split_and!; try done; cbn; unfold buffer_size; lia).
Qed.

(** *** Without the options

    What [dump_escaped] of Json writes. *)
Lemma codes_of_codepoint y c cp : completed (y +:+ one c) cp ->
  string_of_codes (escape_codes false cp (byte_val c)) = dump_codepoint cp c.
Proof.
  intros [_ Hc]. assert (0 <= cp) as Hcp.
  { destruct Hc as [(x & _ & -> & _)|(_ & ? & _)]; [apply byte_val_bound|lia]. }
  unfold escape_codes, put_codepoint, dump_codepoint.
  do 7 (destruct (_ =? _); [by rewrite puts_room by (unfold buffer_size; cbn; lia)|]).
  rewrite orb_false_r. destruct (Z.leb_spec cp 31) as [Hle|Hgt].
  - assert ((cp <=? 65535) = true) as -> by lia.
    rewrite write_u_escape_room by (unfold buffer_size; cbn; lia). rewrite Z.mod_small by lia.
    assert (forallb (fun n => str_eqb (string_of_codes ([] ++ u_escape n)) (esc_u n)) (seqZ 0 32) = true)
      as Hall by by vm_compute.
    rewrite forallb_forall in Hall. apply str_eqb_true, Hall, list_elem_of_In, elem_of_seqZ. lia.
  - change (one (byte_of (byte_val c)) = one c). by rewrite byte_of_val.
Qed.

Lemma run_default whole fuel : ascii = false -> forall i x s st0 st e, ready st0 -> mid x st0 st ->
  (String.length s <= fuel)%nat -> dump_escaped_from (state st) (codepoint st) s = Some e ->
  (st' ← escape_loop fuel opts i s st; escape_end opts whole st') = Dumped (written st0 +:+ x +:+ e).
Proof.
  intros Ha. induction fuel as [|fuel IH]; intros i x s st0 st e Hr Hm Hf He;
    pose proof Hm as (Ho & Hb & _ & _ & Hp); destruct s as [|c s]; cbn [String.length] in Hf; try lia;
    cbn [escape_loop mbind dumped_bind mret dumped_ret dump_escaped_from] in *;
    [unfold escape_end; destruct (state st =? UTF8_ACCEPT); [|done]; injection He as <-;
     unfold mret, dumped_ret, written; rewrite Hb, Ho, codes_app, codes_of_string, Ha; cbn [raw];
     by rewrite app_str_nil_r, !app_str_assoc..|].
  destruct (Z.eq_dec (utf8_next (state st) (byte_val c)) 0) as [E0|E0].
  { destruct (step_completes i x st0 st c Hr Hm E0) as (st' & -> & Hr' & Hd & Hc & Hw).
    rewrite Hd in He. assert (state st' = 0) as Hs by apply Hr'. rewrite Hs in He.
    cbn [mbind dumped_bind]. change (0 =? UTF8_ACCEPT) with true in He. cbv iota in He.
    destruct (dump_escaped_from 0 (codepoint st') s) as [r|] eqn:Er; [|done]. injection He as <-.
    rewrite (IH _ EmptyString s st' st' r); [|done|by apply ready_mid|lia|by rewrite Hs].
    rewrite Hw, Ha, (codes_of_codepoint x) by done. cbn [raw String.append].
    by rewrite !app_str_assoc. }
  destruct (Z.eq_dec (utf8_next (state st) (byte_val c)) 1) as [E1|E1].
  { destruct (decode_pending _ _ _ c Hp) as (cp & Ed & _). rewrite Ed, E1 in He. done. }
  destruct (step_continues i x st0 st c Hr Hm E0 E1) as (st' & -> & Hd & Hm').
  destruct (decode_pending _ _ _ c Hp) as (cp & Ed & _). rewrite Hd in Ed. injection Ed as Es _.
  rewrite Hd in He. rewrite <-Es in E0, E1.
  destruct (Z.eqb_spec (state st') UTF8_ACCEPT) as [|_]; [done|].
  destruct (Z.eqb_spec (state st') UTF8_REJECT) as [|_]; [done|].
  destruct (dump_escaped_from (state st') (codepoint st') s) as [r|] eqn:Er; [|done].
  injection He as <-. cbn [mbind dumped_bind]. rewrite (IH _ (x +:+ one c) s st0 st' r); try done; [|lia].
  by rewrite app_str_assoc.
Qed.

Lemma escaped_default s e base : ascii = false -> dump_escaped s = Some e ->
  serialize_escaped opts s base = Dumped (base +:+ e).
Proof.
  intros Ha He. unfold serialize_escaped, escape_fuel.
  rewrite (run_default s (2 * String.length s) Ha 0 EmptyString s
    {| o := base; string_buffer := []; bytes_after_last_accept := 0; undumped_chars := 0;
       state := UTF8_ACCEPT; codepoint := 0 |} _ e); [|..|exact He]; [| |apply ready_mid|lia];
    try (split_and!; try done; cbn; unfold buffer_size; lia).
  unfold written. cbn [o string_buffer string_of_codes foldr]. by rewrite app_str_nil_r.
Qed.
End loop.

(** ** The property *)

(** C13: The serializer's escaping of a string, for every string of bytes and
    under each of its options, ends without an access outside of its buffer of
    512 characters and without a failing assertion.  The strict handler throws
    exactly for the strings that are not UTF-8; the other two never throw and
    write a JSON text of the string in which every error (a maximal ill-formed
    subpart) is replaced with U+FFFD or left out, so of the string itself if it
    is UTF-8; and with [ensure_ascii] only 7-bit characters are written. *)
Theorem serialize_escaped_correct opts s base :
  (error_handler opts = strict /\ ~ utf8 s
   /\ exists w, serialize_escaped opts s base = Thrown316 w)
  \/ exists v t, serialize_escaped opts s base = Dumped (base +:+ t)
     /\ (error_handler opts = strict -> utf8 s) /\ (utf8 s -> v = s)
     /\ repaired (repl_char opts) s v /\ chars t v
     /\ (ensure_ascii opts = true -> ascii7 t).
Proof.
  destruct (escaped opts s base) as [Hs|(v & t & Hs & Hv & Hr & Ht & Ha & E)]; [by left|right].
  by exists v, t.
Qed.
