(* ===== verification/SerializerDump.v ===== *)
(** * SerializerDump: what the serializer writes is read back

    The integers and the values of Serializer, with its indentation, against
    the grammar of RFC 8259 and against the parser; and that the defaults of
    [basic_json::dump] write what [dump] of Json says. *)

From Stdlib Require Import ZArith Ascii String Lia.
From stdpp Require Import base numbers list strings.
From S2P Require Import Prelude Json JsonLex JsonParse JsonGrammar JsonText JsonRfc JsonWrite.
From S2P Require Import Dtoa GrisuDigits Strtod FloatText ModuleJson Serializer SerializerText.

Open Scope Z_scope.

(** ** Integers *)

(** The digits [l] of [a], without leading zeros. *)
Definition spells (l : list Z) (a : Z) : Prop :=
  digits l /\ l <> [] /\ no_zero_head l /\ value l = a.

Lemma spells_1 a : 0 < a < 10 -> spells [48 + a] a.
Proof.
  intros Ha. split_and!; [|done| |unfold value; cbn; lia].
  - apply Forall_cons_2; [unfold is_code; lia|constructor].
  - unfold no_zero_head. cbn. intros [= E]. lia.
Qed.

Lemma spells_snoc l a c : spells l a -> is_code c -> spells (l ++ [c]) (10 * a + (c - 48)).
Proof.
  intros (Hd & Hn & Hz & Hv) Hc. split_and!.
  - by apply digits_snoc.
  - by destruct l.
  - unfold no_zero_head in *. by destruct l.
  - by rewrite value_snoc, Hv.
Qed.

Lemma spells_pos l a : spells l a -> 0 < a.
Proof.
  intros (Hd & Hn & Hz & <-). destruct l as [|c l]; [done|]. apply Forall_cons in Hd as [Hc Hd].
  change (c :: l) with ([c] ++ l). rewrite value_app. pose proof (value_nonneg l Hd).
  assert (c <> 48) by (intros ->; by apply Hz). unfold is_code in Hc.
  pose proof (Z.pow_pos_nonneg 10 (Z.of_nat (length l))). change (value [c]) with (10 * 0 + (c - 48)). nia.
Qed.

(** The digits of a number are determined. *)
Lemma spells_unique l : forall l' a, spells l a -> spells l' a -> l = l'.
Proof.
  induction l as [|c l IH] using rev_ind; intros l' a Hs Hs'; [by destruct Hs as (_ & ? & _)|].
  destruct l' as [|c' l' _] using rev_ind; [by destruct Hs' as (_ & ? & _)|].
  assert (Hin : forall l c b, spells (l ++ [c]) b -> is_code c /\ b = 10 * value l + (c - 48)
    /\ (l = [] \/ spells l (value l))).
  { intros l0 c0 b (Hd & _ & Hz & Hv). apply Forall_app in Hd as [Hd Hc].
    apply Forall_cons in Hc as [Hc _]. rewrite value_snoc in Hv. split; [done|]. split; [done|].
    destruct l0 as [|x l0]; [by left|right]. by split_and!. }
  destruct (Hin _ _ _ Hs) as (Hc & E & Hl), (Hin _ _ _ Hs') as (Hc' & E' & Hl').
  unfold is_code in *. assert (value l = value l' /\ c = c') as [Ev ->] by lia. f_equal.
  destruct Hl as [->|Hl], Hl' as [->|Hl']; try done.
  - apply spells_pos in Hl'. rewrite <-Ev in Hl'. by cbn in Hl'.
  - apply spells_pos in Hl. rewrite Ev in Hl. by cbn in Hl.
  - apply (IH _ (value l)); [done|]. by rewrite Ev.
Qed.

(** The same digits are shown. *)
Lemma show_spells p : spells (codes_of (show_Z (Z.pos p))) (Z.pos p).
Proof.
  destruct (written_digits p) as (d & ds & -> & Hd & Hds & Hv).
  assert (all_digits (String d ds)) as Ha.
  { apply Forall_cons_2; [unfold is_digit, is_digit19 in *; lia|done]. }
  assert (digits (codes_of (String d ds))) as Hc.
  { apply Forall_fmap. eapply Forall_impl; [exact Ha|]. intros c Hc. cbn. unfold is_digit, is_code in *. lia. }
  split_and!; [done|done| |].
  - unfold no_zero_head. cbn. unfold is_digit19 in Hd. intros [= E]. lia.
  - rewrite <-decimal_value, codes_of_string, <-decimal_digits by done. exact Hv.
Qed.

Lemma spells_show l a : spells l a -> string_of_codes l = show_Z a.
Proof.
  intros Hl. pose proof (spells_pos l a Hl) as Hp. destruct a as [|p|p]; [lia| |lia].
  rewrite (spells_unique l _ (Z.pos p) Hl (show_spells p)). apply codes_of_string.
Qed.

(** *** Counting and writing the digits *)

Lemma count_digits_loop_spec fuel : forall x n, 0 < x < 10 ^ (4 * Z.of_nat fuel) -> exists d : nat,
  count_digits_loop fuel x n = Some (n + Z.of_nat d)
  /\ 10 ^ Z.of_nat d <= x < 10 ^ (Z.of_nat d + 1) /\ (d < 4 * fuel)%nat.
Proof.
  induction fuel as [|fuel IH]; intros x n Hx; cbn [count_digits_loop]; [cbn in Hx; lia|].
  destruct (Z.ltb_spec x 10); [exists 0%nat; split_and!; try lia; f_equal; lia|].
  destruct (Z.ltb_spec x 100); [exists 1%nat; split_and!; try lia; f_equal; lia|].
  destruct (Z.ltb_spec x 1000); [exists 2%nat; split_and!; try lia; f_equal; lia|].
  destruct (Z.ltb_spec x 10000); [exists 3%nat; split_and!; try lia; f_equal; lia|].
  replace (4 * Z.of_nat (S fuel)) with (4 * Z.of_nat fuel + 4) in Hx by lia.
  rewrite Z.pow_add_r in Hx by lia. change (10 ^ 4) with 10000 in Hx.
  destruct (IH (x / 10000) (n + 4)) as (d & -> & Hd & Hf).
  { split; [apply Z.div_str_pos; lia|apply Z.div_lt_upper_bound; lia]. }
  exists (4 + d)%nat. split; [f_equal; lia|]. split; [|lia].
  replace (Z.of_nat (4 + d)) with (Z.of_nat d + 4) by lia.
  replace (Z.of_nat d + 4 + 1) with (Z.of_nat d + 1 + 4) by lia.
  rewrite !(Z.pow_add_r 10 _ 4) by lia. change (10 ^ 4) with 10000.
  pose proof (Z.div_mod x 10000 ltac:(lia)). pose proof (Z.mod_pos_bound x 10000 ltac:(lia)). lia.
Qed.

Lemma poke_at pre x c post : poke (S (length pre)) c (pre ++ x :: post)
  = Some (length pre, pre ++ c :: post).
Proof.
  unfold poke. rewrite length_app. cbn [length]. rewrite (proj2 (Nat.ltb_lt _ _)) by lia.
  f_equal. f_equal. rewrite <-(Nat.add_0_r (length pre)) at 1. by rewrite insert_app_r.
Qed.

Lemma snoc_gap (gap : list Z) n : length gap = S n -> exists g x, gap = g ++ [x] /\ length g = n.
Proof.
  destruct gap as [|x g _] using rev_ind; [done|]. rewrite length_app. cbn. intros E.
  exists g, x. split; [done|lia].
Qed.

(** The last two digits. *)
Lemma poke_two pre gap post c d n : length gap = S (S n) ->
  ('(p, b) ← poke (length pre + S (S n)) d (pre ++ gap ++ post); poke p c b)
  = Some (length pre + n, pre ++ take n gap ++ [c; d] ++ post)%nat.
Proof.
  intros Hg. destruct (snoc_gap gap (S n) Hg) as (g & y & -> & Hg').
  destruct (snoc_gap g n Hg') as (g' & x & -> & Hn).
  assert (forall z w, pre ++ (((g' ++ [x]) ++ [z]) ++ w) = ((pre ++ g') ++ [x]) ++ z :: w) as E
    by (intros; by rewrite <-!app_assoc).
  rewrite E. replace (length pre + S (S n))%nat with (S (length ((pre ++ g') ++ [x])))
    by (rewrite !length_app; cbn; lia).
  rewrite poke_at. cbn [mbind option_bind].
  replace (length ((pre ++ g') ++ [x])) with (S (length (pre ++ g'))) by (rewrite !length_app; cbn; lia).
  rewrite <-(app_assoc (pre ++ g')). cbn [app]. rewrite poke_at, length_app, Hn.
  rewrite <-!(app_assoc g'), take_app_length' by lia. by rewrite <-app_assoc.
Qed.

(** Below a hundred the loop ends. *)
Lemma digits_loop_short fuel d a pre gap post : a < 100 ->
  0 < a -> 10 ^ Z.of_nat d <= a < 10 ^ (Z.of_nat d + 1) -> length gap = S d ->
  exists l, digits_loop (S fuel) a (length pre + S d) (pre ++ gap ++ post) = Some (pre ++ l ++ post)
  /\ spells l a /\ length l = S d.
Proof.
  intros H100 Ha Hd Hg. cbn [digits_loop]. destruct (Z.leb_spec 100 a); [lia|].
  pose proof (Z.pow_pos_nonneg 10 (Z.of_nat (d - 2))).
  destruct d as [|[|d]]; [| |replace (Z.of_nat (S (S d))) with (Z.of_nat (S (S d) - 2) + 2) in Hd by lia;
    rewrite (Z.pow_add_r 10 _ 2) in Hd by lia; change (10 ^ 2) with 100 in Hd; lia].
  - destruct (Z.leb_spec 10 a); [cbn in Hd; lia|]. destruct gap as [|x [|]]; try done.
    cbn [app]. rewrite Nat.add_1_r, poke_at. cbn [fmap option_fmap option_map snd].
    exists [48 + a]. split; [done|]. split; [apply spells_1; lia|done].
  - destruct (Z.leb_spec 10 a); [|cbn in Hd; lia]. unfold digits_to_99. cbv beta iota zeta.
    pose proof (poke_two pre gap post (48 + a / 10) (48 + a mod 10) 0 Hg) as Hp.
    destruct (poke (length pre + 2) (48 + a mod 10) (pre ++ gap ++ post)) as [[p1 b1]|]; [|done].
    cbn [mbind option_bind] in *. rewrite Hp. cbn [mbind option_bind take app].
    exists ([48 + a / 10] ++ [48 + a mod 10]). split; [done|]. split; [|done].
    replace a with (10 * (a / 10) + (48 + a mod 10 - 48)) at 3 by (Z.to_euclidean_division_equations; lia).
    apply spells_snoc; [apply spells_1|unfold is_code]; Z.to_euclidean_division_equations; lia.
Qed.

Lemma digits_loop_spec fuel : forall d a pre gap post, (d < 2 * fuel)%nat ->
  0 < a -> 10 ^ Z.of_nat d <= a < 10 ^ (Z.of_nat d + 1) -> length gap = S d ->
  exists l, digits_loop fuel a (length pre + S d) (pre ++ gap ++ post) = Some (pre ++ l ++ post)
  /\ spells l a /\ length l = S d.
Proof.
  induction fuel as [|fuel IH]; intros d a pre gap post Hf Ha Hd Hg; [lia|].
  destruct (Z.leb_spec 100 a) as [H100|H100]; cbn [digits_loop].
  - rewrite (proj2 (Z.leb_le _ _)) by done. destruct d as [|[|d]]; [cbn in Hd; lia|cbn in Hd; lia|].
    unfold digits_to_99. cbn [mbind option_bind]. cbv beta iota zeta.
    pose proof (poke_two pre gap post (48 + a mod 100 / 10) (48 + a mod 100 mod 10) (S d) Hg) as Hp.
    destruct (poke (length pre + S (S (S d))) (48 + a mod 100 mod 10) (pre ++ gap ++ post))
      as [[p1 b1]|]; [|done]. cbn [mbind option_bind] in *. rewrite Hp. cbn [mbind option_bind].
    destruct (IH d (a / 100) pre (take (S d) gap) ([48 + a mod 100 / 10; 48 + a mod 100 mod 10] ++ post))
      as (l & -> & Hl & Hn); [lia|apply Z.div_str_pos; lia| |rewrite length_take; lia|].
    { replace (Z.of_nat (S (S d))) with (Z.of_nat d + 2) in Hd by lia.
      replace (Z.of_nat d + 2 + 1) with (Z.of_nat d + 1 + 2) in Hd by lia.
      rewrite !(Z.pow_add_r 10 _ 2) in Hd by lia. change (10 ^ 2) with 100 in Hd.
      split; [apply Z.div_le_lower_bound; lia|apply Z.div_lt_upper_bound; lia]. }
    exists ((l ++ [48 + a mod 100 / 10]) ++ [48 + a mod 100 mod 10]).
    split; [by rewrite <-!app_assoc|]. split; [|rewrite !length_app; cbn; lia].
    replace a with (10 * (10 * (a / 100) + (48 + a mod 100 / 10 - 48)) + (48 + a mod 100 mod 10 - 48))
      at 3 by (Z.to_euclidean_division_equations; lia).
    apply spells_snoc; [apply spells_snoc; [done|]|]; unfold is_code;
      Z.to_euclidean_division_equations; lia.
  - by apply digits_loop_short.
Qed.

(** *** The integer *)

Lemma remove_sign_spec x : - 2 ^ 63 <= x < 0 -> remove_sign x = Some (- x).
Proof.
  intros Hx. unfold remove_sign. rewrite !(proj2 (Z.ltb_lt x _)) by lia. cbn [andb]. unfold u64.
  rewrite (Z.mod_small (- (x + 1))), Z.mod_small by lia. f_equal. lia.
Qed.

Lemma count_digits_spec x : 0 < x < 2 ^ 64 -> exists d : nat, count_digits x = Some (Z.of_nat (S d))
  /\ 10 ^ Z.of_nat d <= x < 10 ^ (Z.of_nat d + 1) /\ (d < 20)%nat.
Proof.
  intros Hx. destruct (count_digits_loop_spec 6 x 1) as (d & E & Hd & _); [lia|].
  exists d. unfold count_digits. rewrite E. split; [f_equal; lia|]. split; [done|].
  destruct (Nat.lt_ge_cases d 20) as [|Hge]; [done|].
  pose proof (Z.pow_le_mono_r 10 20 (Z.of_nat d)). lia.
Qed.

(** The digits in the buffer, behind [pre]. *)
Lemma digits_written a pre buf : 0 < a < 2 ^ 64 -> (length pre <= 1)%nat ->
  length (pre ++ buf) = number_buffer_size -> exists n l, count_digits a = Some n /\ spells l a
  /\ (Z.to_nat (Z.of_nat (length pre) + n) < number_buffer_size - 1)%nat
  /\ exists b, digits_loop 11 a (Z.to_nat (Z.of_nat (length pre) + n)) (pre ++ buf) = Some b
     /\ take (Z.to_nat (Z.of_nat (length pre) + n)) b = pre ++ l.
Proof.
  intros Ha Hp Hb. rewrite length_app in Hb. unfold number_buffer_size in *.
  destruct (count_digits_spec a Ha) as (d & Hc & Hd & Hd20).
  destruct (digits_loop_spec 11 d a pre (take (S d) buf) (drop (S d) buf)) as (l & E & Hl & Hn);
    [lia|lia|done|rewrite length_take; lia|].
  exists (Z.of_nat (S d)), l.
  replace (Z.to_nat (Z.of_nat (length pre) + Z.of_nat (S d))) with (length pre + S d)%nat by lia.
  rewrite take_drop in E. split_and!; [done|done|lia|]. eexists. split; [exact E|].
  rewrite app_assoc. apply take_app_length'. rewrite length_app. lia.
Qed.

(** The integer is written as in decimal notation, whatever is in the buffer. *)
Lemma dump_integer_spec garbage z : length garbage = number_buffer_size -> - 2 ^ 63 <= z < 2 ^ 64 ->
  dump_integer garbage z = Some (show_Z z).
Proof.
  intros Hg Hz. unfold dump_integer. destruct (Z.eqb_spec z 0) as [->|Hn0]; [done|].
  destruct (Z.ltb_spec z 0) as [Hneg|Hpos].
  - rewrite remove_sign_spec by lia. cbn [mbind option_bind].
    destruct garbage as [|g garbage]; [done|]. change (<[0%nat:=45]> (g :: garbage)) with ([45] ++ garbage).
    destruct (digits_written (- z) [45] garbage) as (n & l & -> & Hl & Hr & b & Hd & Ht); [lia|done|done|].
    cbn [length] in *. change (Z.of_nat 1) with 1 in *. cbn [mbind option_bind].
    rewrite (proj2 (Nat.ltb_lt _ _)) by done. rewrite Hd. cbn [mbind option_bind]. rewrite Ht.
    rewrite codes_app, (spells_show l _ Hl). destruct z; [done|lia|]. done.
  - cbn [mbind option_bind].
    destruct (digits_written z [] garbage) as (n & l & -> & Hl & Hr & b & Hd & Ht); [lia|cbn; lia|done|].
    cbn [length app] in *. change (Z.of_nat 0) with 0 in *. cbn [mbind option_bind].
    rewrite (proj2 (Nat.ltb_lt _ _)) by done. rewrite Hd. cbn [mbind option_bind]. rewrite Ht.
    by rewrite (spells_show l _ Hl).
Qed.

(** ** Writing

    [inv b sr]: the indentation string is white space of at least [b]
    characters. *)
Definition inv (b : Z) (sr : serializer) : Prop :=
  ws (indent_string sr) /\ b <= str_size (indent_string sr)
  /\ length (number_buffer sr) = number_buffer_size.

(** [m] writes a text with [R]. *)
Definition writes (b : Z) (m : serializer -> dumped serializer) (R : string -> Prop) : Prop :=
  forall sr, inv b sr -> exists sr' t, m sr = Dumped sr' /\ out sr' = out sr +:+ t /\ R t /\ inv b sr'.

Lemma inv_le b b' sr : b <= b' -> inv b' sr -> inv b sr.
Proof. intros Hb (Hw & Hl & Hn). split_and!; [done|lia|done]. Qed.

Lemma writes_write b s : writes b (fun sr => mret (write s sr)) (eq s).
Proof. intros sr Hi. exists (write s sr), s. by split_and!; try apply Hi. Qed.

Lemma writes_bind b m k R Q : writes b m R -> writes b k Q ->
  writes b (fun sr => sr ← m sr; k sr) (fun t => exists t1 t2, t = t1 +:+ t2 /\ R t1 /\ Q t2).
Proof.
  intros Hm Hk sr Hi. destruct (Hm sr Hi) as (sr1 & t1 & -> & E1 & Hr & Hi1).
  destruct (Hk sr1 Hi1) as (sr2 & t2 & E2 & E3 & Hq & Hi2). exists sr2, (t1 +:+ t2).
  split_and!; [exact E2|by rewrite E3, E1, app_str_assoc|by eauto|apply Hi2..].
Qed.

Lemma writes_weaken b m (R Q : string -> Prop) : (forall t, R t -> Q t) -> writes b m R -> writes b m Q.
Proof. intros Hrq Hm sr Hi. destruct (Hm sr Hi) as (sr' & t & ? & ? & ? & ?). exists sr', t. auto. Qed.

(** What is written first. *)
Lemma writes_before b s k R : writes b k R ->
  writes b (fun sr => k (write s sr)) (fun t => exists t', t = s +:+ t' /\ R t').
Proof.
  intros Hk sr Hi. destruct (Hk (write s sr)) as (sr' & t & E & Eo & Hr & Hi'); [apply Hi|].
  exists sr', (s +:+ t). split_and!; [exact E| |by eauto|apply Hi'..].
  rewrite Eo. cbn. by rewrite app_str_assoc.
Qed.

Lemma ws_substring n s : ws s -> ws (String.substring 0 n s).
Proof.
  revert n. induction s as [|c s IH]; intros [|n] Hs; try constructor.
  - by apply Forall_cons in Hs as [? _].
  - apply IH. by apply Forall_cons in Hs as [_ ?].
Qed.
Lemma ws_spaces n : ws (spaces n).
Proof. induction n as [|n IH]; [constructor|]. apply Forall_cons_2; [apply elem_of_cons; by left|done]. Qed.
Lemma spaces_length n : String.length (spaces n) = n.
Proof. induction n as [|n IH]; [done|]. cbn. by rewrite IH. Qed.

Lemma writes_indent b n : 0 <= n <= b -> writes b (write_indent n) ws.
Proof.
  intros Hn sr (Hw & Hb & Hl). unfold write_indent. rewrite (proj2 (Z.leb_le _ _)) by lia.
  eexists _, _. split; [done|]. split; [done|]. split; [by apply ws_substring|]. done.
Qed.

(** The next level: the indentation string is long enough, or is made so. *)
Section levels.
Variable step : Z.
Hypothesis Hstep : 0 <= step <= 1024.

Definition level (cur b : Z) : Prop := 0 <= cur <= b /\ 512 <= b /\ (cur = 0 \/ step <= b).

Lemma next_level cur b : level cur b ->
  let new := u32 (cur + step) in level new (Z.max b new)
  /\ forall sr, inv b sr -> inv (Z.max b new) (grow_indent new sr) /\ out (grow_indent new sr) = out sr.
Proof.
  intros (Hc & H512 & Hs) new.
  assert (0 <= new <= cur + step /\ (new = cur + step \/ 2 ^ 32 <= cur + step)) as [Hn Hw].
  { unfold new, u32. split; [split; [apply Z.mod_pos_bound; lia|apply Z.mod_le; lia]|].
    destruct (Z.lt_ge_cases (cur + step) (2 ^ 32)); [left; apply Z.mod_small; lia|by right]. }
  split; [split_and!; lia|].
  intros sr (Hws & Hl & Hb). unfold grow_indent, inv.
  destruct (Z.ltb_spec (str_size (indent_string sr)) new); cbn; [|by split_and!; [done|lia|done|]].
  split; [|done]. split; [apply ws_app; split; [done|apply ws_spaces]|]. split; [|done].
  unfold str_size in *. rewrite length_app_str, spaces_length. lia.
Qed.
End levels.

(** The loop over elements. *)
Lemma writes_items {A} b (item : A -> serializer -> dumped serializer) sep (R : A -> string -> Prop) l :
  l <> [] -> Forall (fun a => writes b (item a) (R a)) l ->
  writes b (write_items item sep l) (fun t => exists ts, t = join sep ts /\ Forall2 R l ts).
Proof.
  intros Hne Hl. induction Hl as [|a l Ha Hl IH]; [done|]. intros sr Hi.
  destruct (Ha sr Hi) as (sr1 & t1 & E1 & Eo1 & Hr1 & Hi1). cbn [write_items]. rewrite E1.
  cbn [mbind dumped_bind]. destruct l as [|a' l].
  - exists sr1, t1. split_and!; [done|done| |apply Hi1..]. exists [t1]. by repeat constructor.
  - destruct (IH ltac:(done) (write sep sr1)) as (sr2 & t2 & E2 & Eo2 & (ts & -> & Hts) & Hi2);
      [apply Hi1|]. rewrite E2.
    exists sr2, (t1 +:+ sep +:+ join sep ts). split_and!; [done| | |apply Hi2..].
    + rewrite Eo2. cbn [out write]. rewrite Eo1. by rewrite !app_str_assoc.
    + exists (t1 :: ts). split; [|by constructor]. by inversion Hts.
Qed.

(** *** Brackets and lines *)

Lemma compact_block b (opening closing : string) m Q : writes b m Q ->
  writes b (fun sr => sr ← m (write opening sr); mret (write closing sr))
    (fun t => exists q, t = opening +:+ q +:+ closing /\ Q q).
Proof.
  intros Hm. eapply writes_weaken; [|eapply writes_bind; [by apply writes_before|apply writes_write]].
  intros t (t1 & t2 & -> & (q & -> & Hq) & <-). exists q. split; [|done]. by rewrite app_str_assoc.
Qed.

Lemma pretty_block step cur b (opening closing : string) m Q : 0 <= step <= 1024 -> level step cur b ->
  (forall b', level step (u32 (cur + step)) b' -> writes b' m Q) ->
  writes b (fun sr =>
      sr ← m (grow_indent (u32 (cur + step)) (write (opening +:+ nl) sr));
      sr ← write_indent cur (write nl sr);
      mret (write closing sr))
    (fun t => exists q w, t = opening +:+ nl +:+ q +:+ nl +:+ w +:+ closing /\ Q q /\ ws w).
Proof.
  intros Hstep Hl Hm sr Hi. destruct (next_level step Hstep cur b Hl) as [Hl' Hg].
  destruct (Hg (write (opening +:+ nl) sr) Hi) as [Hi1 Ho1].
  set (b' := Z.max b (u32 (cur + step))) in *.
  assert (writes b' (fun sr => sr ← m sr; sr ← write_indent cur (write nl sr); mret (write closing sr))
    (fun t => exists q w, t = q +:+ nl +:+ w +:+ closing /\ Q q /\ ws w)) as Hw.
  { eapply writes_weaken; [|eapply writes_bind; [by apply Hm|]].
    2:{ eapply writes_bind; [apply writes_before, writes_indent|apply writes_write].
        destruct Hl. unfold b'. lia. }
    intros t (q & t2 & -> & Hq & (t3 & t4 & -> & (w & -> & Hw) & <-)). exists q, w.
    by rewrite !app_str_assoc. }
  destruct (Hw _ Hi1) as (sr' & t & E & Eo & (q & w & -> & Hq & Hws) & Hi').
  eexists sr', _. split; [exact E|]. split; [|split; [exists q, w; split; [reflexivity|done]|]].
  - rewrite Eo, Ho1. cbn. by rewrite !app_str_assoc.
  - eapply inv_le; [|exact Hi']. unfold b'. lia.
Qed.

Lemma ws_nl : ws nl.
Proof. apply Forall_cons_2; [|constructor]. by vm_compute; do 2 right; left. Qed.

(** Lines, with the line break before each of them. *)
Lemma join_lines {A} (R : A -> string -> Prop) l ts tail : l <> [] -> Forall2 R l ts -> ws tail ->
  exists es, nl +:+ join ("," +:+ nl) ts +:+ tail = join "," es
  /\ Forall2 (fun a e => exists t w, R a t /\ ws w /\ e = nl +:+ t +:+ w) l es.
Proof.
  intros Hne Hl Ht. induction Hl as [|a t l ts Ha Hl IH]; [done|]. destruct Hl as [|a' t' l ts Ha' Hl].
  - exists [nl +:+ t +:+ tail]. split; [done|]. repeat constructor. by exists t, tail.
  - destruct (IH ltac:(done)) as (es & E & Hes). exists ((nl +:+ t +:+ EmptyString) :: es).
    split; [|constructor; [exists t, EmptyString; split_and!; [done|constructor|done]|done]].
    inversion Hes as [|? e ? es']; subst. change (join ("," +:+ nl) (t :: t' :: ts))
      with (t +:+ ("," +:+ nl) +:+ join ("," +:+ nl) (t' :: ts)).
    change (join "," ((nl +:+ t +:+ EmptyString) :: e :: es'))
      with ((nl +:+ t +:+ EmptyString) +:+ "," +:+ join "," (e :: es')).
    rewrite <-E. by rewrite app_str_nil_r, !app_str_assoc.
Qed.

(** ** The texts of RFC 8259 *)

Section texts.
Context `{StrtodLaws} (opts : options) (step : Z).
Hypothesis Hstep : 0 <= step <= 1024.

Lemma writes_escaped b s : utf8 s -> writes b (dump_escaped_to opts s) (fun t => chars t s).
Proof.
  intros Hs sr Hi. unfold dump_escaped_to.
  destruct (escaped opts s (out sr)) as [(_ & Hn & _)|(v & t & _ & Hv & _ & Ht & _ & ->)]; [done|].
  rewrite (Hv Hs) in Ht. eexists _, t. split; [reflexivity|]. by split_and!; try apply Hi.
Qed.

Lemma writes_key b k sep : utf8 k ->
  writes b (dump_key opts k sep) (fun t => exists e, chars e k /\ t = dq +:+ e +:+ dq +:+ sep).
Proof.
  intros Hk. eapply writes_weaken; [|by apply compact_block, writes_escaped].
  intros t (q & -> & Hq). eauto.
Qed.

Lemma writes_number b text o : (forall sr, inv b sr -> o sr = Some text) ->
  writes b (fun sr => dump_number (o sr) sr) (eq text).
Proof.
  intros Ho sr Hi. rewrite (Ho sr Hi). eexists _, text. split; [reflexivity|]. by split_and!; try apply Hi.
Qed.

Lemma element_line v t w x : ws w -> (exists u, ws u /\ t = u +:+ x) ->
  rfc_value v x -> exists x, padded x (nl +:+ t +:+ w) /\ rfc_value v x.
Proof.
  intros Hw (u & Hu & ->) Hx. exists x. split; [|done]. exists (nl +:+ u), w.
  split; [by apply ws_app; split; [apply ws_nl|]|]. by rewrite !app_str_assoc.
Qed.

Definition text_of_value (pretty : bool) (val : json) : Prop :=
  forall cur b, level step cur b -> writes b (serialize opts pretty step val cur) (rfc_value val).

Lemma array_texts pretty l : Forall (text_of_value pretty) l -> text_of_value pretty (JArray l).
Proof.
  intros Hl cur b Hb. destruct l as [|v l].
  { eapply writes_weaken; [|apply writes_write]. intros t <-.
    apply (rfc_no_elements EmptyString). constructor. }
  assert (v :: l <> []) as Hne by done. revert Hl Hne. generalize (v :: l). clear v l.
  intros l Hl Hne. assert (forall cur sr, serialize opts pretty step (JArray l) cur sr
    = if pretty then
        (fun sr => sr ← write_items (fun v sr => sr ← write_indent (u32 (cur + step)) sr;
                                       serialize opts pretty step v (u32 (cur + step)) sr) ("," +:+ nl) l
                    (grow_indent (u32 (cur + step)) (write ("[" +:+ nl) sr));
           sr ← write_indent cur (write nl sr); mret (write "]" sr)) sr
      else (fun sr => sr ← write_items (fun v sr => serialize opts pretty step v cur sr) "," l (write "[" sr);
                      mret (write "]" sr)) sr) as Es.
  { intros. destruct l; [done|]. by destruct pretty. }
  assert (forall R, writes b (fun sr => serialize opts pretty step (JArray l) cur sr) R ->
    writes b (serialize opts pretty step (JArray l) cur) R) as Heta by done.
  apply Heta. clear Heta. intros sr. rewrite Es. revert sr. destruct pretty.
  - eapply writes_weaken; [|apply pretty_block; [done..|]].
    2:{ intros b' Hb'. apply writes_items; [done|]. eapply Forall_impl; [exact Hl|]. intros v Hv. cbv beta.
        eapply writes_bind; [apply writes_indent; destruct Hb'; lia|by apply Hv]. }
    intros t (q & w & -> & (ts & -> & Hts) & Hw).
    destruct (join_lines _ _ _ (nl +:+ w) Hne Hts) as (es & Ej & Hes); [by apply ws_app; split; [apply ws_nl|]|].
    replace ("[" +:+ nl +:+ join ("," +:+ nl) ts +:+ nl +:+ w +:+ "]") with ("[" +:+ join "," es +:+ "]")
      by (by rewrite <-Ej, !app_str_assoc).
    apply rfc_array; [done|]. eapply Forall2_impl; [exact Hes|].
    intros v e (t & w' & (u & x & -> & Hu & Hx) & Hw' & ->). by eapply element_line; eauto.
  - eapply writes_weaken; [|apply compact_block, writes_items; [done|]].
    2:{ eapply Forall_impl; [exact Hl|]. intros v Hv. by apply Hv. }
    intros t (q & -> & ts & -> & Hts). apply rfc_array; [done|].
    eapply Forall2_impl; [exact Hts|]. intros v x Hx. exists x. split; [|done].
    exists EmptyString, EmptyString. split_and!; [constructor..|by rewrite app_str_nil_r].
Qed.

Lemma member_line (kv : string * json) u e x w (sp : string) : ws u -> ws w -> ws sp -> chars e kv.1 ->
  rfc_value kv.2 x -> member rfc_value kv (u +:+ (dq +:+ e +:+ dq +:+ ":" +:+ sp) +:+ x +:+ w).
Proof.
  intros Hu Hw Hsp He Hx. exists e, (u +:+ dq +:+ e +:+ dq), x, (sp +:+ x +:+ w). split_and!; [done| | |done|].
  - exists u, EmptyString. split_and!; [done|constructor|by rewrite app_str_nil_r].
  - by exists sp, w.
  - by rewrite !app_str_assoc.
Qed.

Lemma obj_sorted kvs : sorted_keys kvs -> obj kvs = JObject kvs.
Proof. intros Hk. unfold obj. f_equal. by apply (set_members_sorted kvs []). Qed.

Lemma object_texts pretty kvs : sorted_keys kvs ->
  Forall (fun kv => utf8 kv.1 /\ text_of_value pretty kv.2) kvs -> text_of_value pretty (JObject kvs).
Proof.
  intros Hk Hl cur b Hb. destruct kvs as [|kv kvs].
  { eapply writes_weaken; [|apply writes_write]. intros t <-.
    apply (rfc_no_members EmptyString). constructor. }
  assert (kv :: kvs <> []) as Hne by done. revert Hk Hl Hne. generalize (kv :: kvs). clear kv kvs.
  intros l Hk Hl Hne. rewrite <-(obj_sorted l Hk) at 2.
  assert (forall cur sr, serialize opts pretty step (JObject l) cur sr
    = if pretty then
        (fun sr => sr ← write_items (fun kv sr => sr ← write_indent (u32 (cur + step)) sr;
                                       sr ← dump_key opts kv.1 ": " sr;
                                       serialize opts pretty step kv.2 (u32 (cur + step)) sr) ("," +:+ nl) l
                    (grow_indent (u32 (cur + step)) (write ("{" +:+ nl) sr));
           sr ← write_indent cur (write nl sr); mret (write "}" sr)) sr
      else (fun sr => sr ← write_items (fun kv sr => sr ← dump_key opts kv.1 ":" sr;
                                          serialize opts pretty step kv.2 cur sr) "," l (write "{" sr);
                      mret (write "}" sr)) sr) as Es.
  { intros. destruct l; [done|]. by destruct pretty. }
  assert (forall R, writes b (fun sr => serialize opts pretty step (JObject l) cur sr) R ->
    writes b (serialize opts pretty step (JObject l) cur) R) as Heta by done.
  apply Heta. clear Heta. intros sr. rewrite Es. revert sr. destruct pretty.
  - eapply writes_weaken; [|apply pretty_block; [done..|]].
    2:{ intros b' Hb'. apply writes_items; [done|]. eapply Forall_impl; [exact Hl|].
        intros kv [Hu Hv]. cbv beta. eapply writes_bind; [apply writes_indent; destruct Hb'; lia|].
        eapply writes_bind; [by apply writes_key|by apply Hv]. }
    intros t (q & w & -> & (ts & -> & Hts) & Hw).
    destruct (join_lines _ _ _ (nl +:+ w) Hne Hts) as (es & Ej & Hes); [by apply ws_app; split; [apply ws_nl|]|].
    replace ("{" +:+ nl +:+ join ("," +:+ nl) ts +:+ nl +:+ w +:+ "}") with ("{" +:+ join "," es +:+ "}")
      by (by rewrite <-Ej, !app_str_assoc).
    apply rfc_object; [done|]. eapply Forall2_impl; [exact Hes|].
    intros kv e (t & w' & (u & t' & -> & Hu & (k & x & -> & (c & Hc & ->) & Hx)) & Hw' & ->).
    pose proof (member_line kv (nl +:+ u) c x w' " ") as Hm. rewrite !app_str_assoc in *.
    apply Hm; try done; [by apply ws_app; split; [apply ws_nl|]|apply (ws_spaces 1)].
  - eapply writes_weaken; [|apply compact_block, writes_items; [done|]].
    2:{ eapply Forall_impl; [exact Hl|]. intros kv [Hu Hv].
        eapply writes_bind; [by apply writes_key|by apply Hv]. }
    intros t (q & -> & ts & -> & Hts). apply rfc_object; [done|].
    eapply Forall2_impl; [exact Hts|]. intros kv t (k & x & -> & (c & Hc & ->) & Hx).
    pose proof (member_line kv EmptyString c x EmptyString EmptyString) as Hm.
    rewrite !app_str_assoc, app_str_nil_r in *. by apply Hm; try constructor.
Qed.

(** An integer in decimal notation. *)
Lemma show_Z_value z : - 2 ^ 63 <= z < 2 ^ 64 -> rfc_value (JInt z) (show_Z z).
Proof.
  intros Hz. assert (forall p, int_part (show_Z (Z.pos p)) /\ decimal 0 (show_Z (Z.pos p)) = Z.pos p) as Hp.
  { intros p. destruct (show_spells p) as (Hd & Hn & Hh & Hv).
    rewrite <-(codes_of_string (show_Z (Z.pos p))). split; [by apply codes_int_part|].
    by rewrite decimal_value. }
  destruct z as [|p|p].
  - apply rfc_unsigned. apply (number_intro false "0" EmptyString EmptyString); constructor.
  - destruct (Hp p) as [Hi Hv]. apply rfc_unsigned.
    pose proof (number_intro false _ _ _ Hi frac_none exp_none) as Hx. unfold number_token in Hx.
    rewrite Hv, !app_str_nil_r, (proj2 (Z.ltb_lt _ _)) in Hx by lia. exact Hx.
  - destruct (Hp p) as [Hi Hv]. apply rfc_integer.
    pose proof (number_intro true _ _ _ Hi frac_none exp_none) as Hx. unfold number_token in Hx.
    rewrite Hv, !app_str_nil_r, (proj2 (Z.leb_le _ _)) in Hx by lia. exact Hx.
Qed.

(** What [serialize] writes is the text of the value. *)
Lemma serialize_texts pretty val : wf_json finite val -> text_of_value pretty val.
Proof.
  induction 1 as [|v|z Hz|f Hf|s Hs|l Hwf Hl|kvs Hk Hl] using wf_json_rec.
  - intros cur b _. eapply writes_weaken; [|apply writes_write]. intros t <-. constructor.
  - intros cur b _. eapply writes_weaken; [|apply writes_write]. intros t <-. destruct v; constructor.
  - intros cur b _. eapply writes_weaken;
      [|apply (writes_number b (show_Z z) (fun sr => dump_integer (number_buffer sr) z))].
    + intros t <-. by apply show_Z_value.
    + intros sr (_ & _ & Hn). by apply dump_integer_spec.
  - intros cur b _. eapply writes_weaken;
      [|apply (writes_number b (float_render f) (fun _ => write_float f)); intros; by apply float_render_written].
    intros t <-. constructor. by apply float_render_number.
  - intros cur b _. eapply writes_weaken; [|apply compact_block, writes_escaped, Hs].
    intros t (q & -> & Hq). by constructor.
  - by apply array_texts.
  - by apply object_texts.
Qed.
End texts.

(** ** The defaults

    Without indentation, with the strict handler and without escaping to
    ASCII. *)
Section defaults.
Context `{JsonLib}.
Hypothesis Hfloat : forall f, finite f -> write_float f = Some (dump_float f).
Let opts := Build_options false strict.

Definition dumps_as (val : json) : Prop :=
  forall cur b, writes b (serialize opts false 0 val cur) (fun t => dump val = Some t).

Lemma dump_array_of l es : Forall2 (fun v e => dump v = Some e) l es ->
  dump (JArray l) = Some ("[" +:+ join "," es +:+ "]").
Proof.
  intros Hl. cbn [dump].
  assert (forall f : list json -> option (list string), f [] = Some [] ->
    (forall v l, f (v :: l) = match dump v, f l with Some d, Some ds => Some (d :: ds) | _, _ => None end) ->
    f l = Some es) as Hf.
  { intros f H0 Hc. induction Hl as [|v e l es Hv _ IH]; [done|]. by rewrite Hc, Hv, IH. }
  by rewrite Hf.
Qed.

Lemma dump_object_of kvs es :
  Forall2 (fun kv e => exists dk d, dump_string kv.1 = Some dk /\ dump kv.2 = Some d
                         /\ e = dk +:+ ":" +:+ d) kvs es ->
  dump (JObject kvs) = Some ("{" +:+ join "," es +:+ "}").
Proof.
  intros Hl. cbn [dump].
  assert (forall f : list (string * json) -> option (list string), f [] = Some [] ->
    (forall k v l, f ((k, v) :: l) = match dump_string k, dump v, f l with
       | Some dk, Some d, Some ds => Some ((dk +:+ ":" +:+ d) :: ds) | _, _, _ => None end) ->
    f kvs = Some es) as Hf.
  { intros f H0 Hc. induction Hl as [|[k v] e l es (dk & d & Hk & Hv & ->) _ IH]; [done|].
    cbn [fst snd] in *. by rewrite Hc, Hk, Hv, IH. }
  by rewrite Hf.
Qed.

Lemma writes_escaped_default b s : utf8 s ->
  writes b (dump_escaped_to opts s) (fun t => dump_escaped s = Some t).
Proof.
  intros Hs sr Hi. apply dump_escaped_utf8 in Hs as [e He]. unfold dump_escaped_to.
  rewrite (escaped_default opts s e) by done. eexists _, e. split; [reflexivity|].
  by split_and!; try apply Hi.
Qed.

Lemma serialize_dumps val : wf_json finite val -> dumps_as val.
Proof.
  induction 1 as [|v|z Hz|f Hf|s Hs|l Hwf Hl|kvs Hk Hl] using wf_json_rec; intros cur b.
  - eapply writes_weaken; [|apply writes_write]. by intros t <-.
  - eapply writes_weaken; [|apply writes_write]. by intros t <-.
  - eapply writes_weaken;
      [|apply (writes_number b (show_Z z) (fun sr => dump_integer (number_buffer sr) z))].
    + by intros t <-.
    + intros sr (_ & _ & Hn). by apply dump_integer_spec.
  - eapply writes_weaken; [|apply (writes_number b (dump_float f) (fun _ => write_float f)); auto].
    by intros t <-.
  - eapply writes_weaken; [|apply compact_block, writes_escaped_default, Hs].
    intros t (q & -> & Hq). cbn [dump]. unfold dump_string. by rewrite Hq.
  - destruct l as [|v l]; [eapply writes_weaken; [|apply writes_write]; by intros t <-|].
    eapply writes_weaken; [|apply (compact_block b "[" "]"), writes_items; [done|]].
    2:{ eapply Forall_impl; [exact Hl|]. intros u Hu. by apply Hu. }
    intros t (q & -> & ts & -> & Hts). by apply dump_array_of.
  - destruct kvs as [|kv kvs]; [eapply writes_weaken; [|apply writes_write]; by intros t <-|].
    eapply writes_weaken; [|apply (compact_block b "{" "}"), writes_items; [done|]].
    2:{ eapply Forall_impl; [exact Hl|]. intros u [Hu Hv]. cbv beta.
        eapply writes_bind; [by apply compact_block, writes_escaped_default|by apply Hv]. }
    intros t (q & -> & ts & -> & Hts). apply dump_object_of. eapply Forall2_impl; [exact Hts|].
    intros u e (t1 & t2 & -> & (q & -> & Hq) & Hd). exists (dq +:+ q +:+ dq), t2.
    split; [unfold dump_string; by rewrite Hq|]. split; [done|]. by rewrite !app_str_assoc.
Qed.
End defaults.

(** ** The properties *)

Definition initial (indent_char : ascii) : serializer :=
  {| out := EmptyString;
     indent_string := string_of_codes (replicate 512 (byte_val indent_char));
     number_buffer := replicate number_buffer_size 0 |}.

Lemma initial_inv c : ws (one c) -> inv 512 (initial c).
Proof.
  intros Hc. unfold inv, initial. cbn [indent_string number_buffer]. split_and!.
  - apply Forall_cons in Hc as [Hc _]. generalize 512%nat. intros n.
    induction n as [|n IH]; [constructor|].
    change (ws (one (byte_of (byte_val c)) +:+ string_of_codes (replicate n (byte_val c)))).
    rewrite byte_of_val. by apply Forall_cons_2.
  - unfold str_size. rewrite codes_length, length_replicate. lia.
  - apply length_replicate.
Qed.

(** C12: Whatever is written can be read: a well-formed value (64-bit integers,
    finite floating-point numbers, UTF-8 strings, objects with ascending keys)
    is written under every combination of the serializer's options, with an
    indentation of up to 1024 white-space characters, without an access
    outside of a buffer or of the indentation string, without a failing
    assertion and without an exception, and the parser returns exactly that
    value for the text.  Every value that the parser returns for any input is
    such a value. *)
Theorem json_dump_read_back `{StrtodLaws} val indent indent_char ascii handler :
  indent <= 1024 -> ws (one indent_char) ->
  (wf_json finite val \/ exists input, parse input = Some (Parsed val)) ->
  exists text, json_dump val indent indent_char ascii handler = Dumped text
  /\ parse text = Some (Parsed val).
Proof.
  intros Hi Hc Hp. assert (wf_json finite val) as Hv by (destruct Hp as [|[input ?]]; [done|by eapply parsed_wf]).
  clear Hp. unfold json_dump. fold (initial indent_char).
  set (opts := Build_options ascii handler).
  assert (forall pretty step, 0 <= step <= 1024 -> exists text sr,
    serialize opts pretty step val 0 (initial indent_char) = Dumped sr /\ out sr = text
    /\ parse text = Some (Parsed val)) as Hs.
  { intros pretty step Hstep.
    assert (level step 0 512) as Hl by (split_and!; lia).
    destruct (serialize_texts opts step Hstep pretty val Hv 0 512 Hl (initial indent_char) (initial_inv _ Hc))
      as (sr & t & E & Eo & Hr & _).
    exists t, sr. split_and!; [done|done|]. apply parse_rfc_complete.
    exists t, EmptyString. rewrite app_str_nil_r. split_and!; [by left|by left|].
    exists t. split; [|done]. exists EmptyString, EmptyString. rewrite app_str_nil_r.
    by split_and!; [constructor..|]. }
  destruct (Z.leb_spec 0 indent).
  - destruct (Hs true indent) as (text & sr & E & <- & Hp); [lia|]. unfold u32.
    rewrite Z.mod_small by lia. rewrite E. by exists (out sr).
  - destruct (Hs false 0) as (text & sr & E & <- & Hp); [lia|]. rewrite E. by exists (out sr).
Qed.

(** C14: The detailed serializer, with its buffers, its digit pairs and its
    bookkeeping of code points, implements the plain one: with the default
    options it writes for every well-formed value the text that [dump] of Json
    gives, the definition that the daemon's answers are stated with. *)
Theorem json_dump_refines truncate `{Strtod} val : wf_json finite val -> exists text,
  @dump (module_json truncate) val = Some text /\ json_dump_default val = Dumped text.
Proof.
  intros Hv.
  destruct (@serialize_dumps (module_json truncate) float_render_written val Hv 0 512
    (initial " "%char) (initial_inv _ (ws_spaces 1))) as (sr & t & E & Eo & Hd & _).
  exists t. split; [done|]. unfold json_dump_default, json_dump. fold (initial " "%char).
  change (0 <=? -1) with false. cbv iota. rewrite E. cbn [mbind dumped_bind]. by rewrite Eo.
Qed.

(** ** Concrete values *)

Lemma json_dump_read_back_witness : exists text,
  json_dump reading 2 " "%char true strict = Dumped text
  /\ @parse strtod_nearest_ref text = Some (Parsed reading).
Proof.
  apply (@json_dump_read_back strtod_nearest_ref strtod_nearest_ref_laws);
    [lia|apply (ws_spaces 1)|left; apply reading_wf].
Defined.

Lemma json_dump_refines_witness : exists text,
  @dump (@module_json strtod_nearest_ref (fun _ => 0)) reading = Some text
  /\ json_dump_default reading = Dumped text.
Proof. apply (json_dump_refines (fun _ => 0)), reading_wf. Defined.

(** The indentation string is doubled once, which is not always enough; and
    what is added are spaces, whatever the indentation character is. *)
Lemma indent_overrun : json_dump (JArray [JNull]) 1025 " "%char false strict = Fault.
Proof. by vm_compute. Qed.
Lemma indent_not_tabs : exists text,
  json_dump (JArray [JNull]) 513 (ascii_of_nat 9) false strict = Dumped text
  /\ String.get 513 text = Some (ascii_of_nat 9) /\ String.get 514 text = Some " "%char.
Proof. eexists. split; [vm_compute; reflexivity|]. by vm_compute. Qed.
