(* ===== verification/RustText.v ===== *)
(** * RustText: the encodings of the Rust crate

    [rust/src/capability_token.rs] and [rust/src/zk_capability.rs]: base64url
    and hexadecimal text, the comparison in constant time, and what the crate
    uses of the standard library: [CStr::to_string_lossy], [format!] of
    integers, [u8::from_str_radix], the byte representation of integers.  A
    [String] or a byte slice is the string of its bytes. *)

From Stdlib Require Import ZArith Ascii String Lia.
From stdpp Require Import base numbers list strings.
From S2P Require Import Prelude Json JsonLex JsonText.

Open Scope Z_scope.

(** ** base64url without padding *)

Definition CHARS : string := "ABCDEFGHIJKLMNOPQRSTUVWXYZabcdefghijklmnopqrstuvwxyz0123456789-_".

(** [CHARS[i] as char]; the indices are masked to six bits. *)
Definition base64_char (i : Z) : ascii := default "A"%char (String.get (Z.to_nat i) CHARS).

Definition digit6 (n shift : Z) : ascii := base64_char (Z.land (Z.shiftr n shift) 63).

(** One round of the loop over [data.chunks(3)]. *)
Definition base64_chunk (b0 b1 b2 : Z) (len : nat) : string :=
  let n := Z.lor (Z.lor (Z.shiftl b0 16) (Z.shiftl b1 8)) b2 in
  String (digit6 n 18) (String (digit6 n 12)
    ((if (1 <? len)%nat then String (digit6 n 6) EmptyString else EmptyString)
     +:+ (if (2 <? len)%nat then String (digit6 n 0) EmptyString else EmptyString))).

Fixpoint base64url_encode (data : string) : string :=
  match data with
  | EmptyString => EmptyString
  | String a EmptyString => base64_chunk (byte_val a) 0 0 1
  | String a (String b EmptyString) => base64_chunk (byte_val a) (byte_val b) 0 2
  | String a (String b (String c rest)) =>
      base64_chunk (byte_val a) (byte_val b) (byte_val c) 3 +:+ base64url_encode rest
  end.

(** ** Hexadecimal *)

Definition hex_low (d : Z) : ascii := byte_of (if d <? 10 then 48 + d else 87 + d).

(** [format!("{:02x}", b)]. *)
Definition format_02x (b : ascii) : string :=
  String (hex_low (byte_val b / 16)) (String (hex_low (byte_val b mod 16)) EmptyString).

Fixpoint hex_encode (data : string) : string :=
  match data with
  | EmptyString => EmptyString
  | String b data' => format_02x b +:+ hex_encode data'
  end.

(** Results of code that may panic, which ends the process where it is called
    through the C interface. *)
Inductive panics (A : Type) := Returns (a : A) | Panic.
Arguments Returns {A} a.
Arguments Panic {A}.

(** Whether a byte of a string is the first of a character. *)
Definition char_start (c : ascii) : bool := negb ((128 <=? byte_val c) && (byte_val c <=? 191)).

(** [u8::from_str_radix] of two bytes: a plus sign may come first. *)
Definition from_str_radix16 (a b : ascii) : option Z :=
  if byte_val a =? 43 then hex_char (byte_val b)
  else match hex_char (byte_val a), hex_char (byte_val b) with
       | Some x, Some y => Some (x * 16 + y)
       | _, _ => None
       end.

(** The iterator of [hex_decode]: slicing inside a character panics; [collect]
    stops at the first [None]. *)
Fixpoint hex_pairs (s : string) : panics (option string) :=
  match s with
  | String a (String b rest) =>
      if negb (char_start a)
         || negb (match rest with String c _ => char_start c | EmptyString => true end) then Panic
      else
        match from_str_radix16 a b with
        | None => Returns None
        | Some v =>
            match hex_pairs rest with
            | Panic => Panic
            | Returns None => Returns None
            | Returns (Some bs) => Returns (Some (String (byte_of v) bs))
            end
        end
  | _ => Returns (Some EmptyString)
  end.
Definition hex_decode (s : string) : panics (option string) :=
  if negb (Nat.even (String.length s)) then Returns None else hex_pairs s.

(** ** Comparison in constant time *)

Fixpoint diff_bytes (a b : string) (diff : Z) : Z :=
  match a, b with
  | String x a', String y b' => diff_bytes a' b' (Z.lor diff (Z.lxor (byte_val x) (byte_val y)))
  | _, _ => diff
  end.
Definition constant_time_eq (a b : string) : bool :=
  if negb (String.length a =? String.length b)%nat then false else diff_bytes a b 0 =? 0.

(** ** Strings from C *)

Definition replacement : string := utf8_of 65533.
Definition cont (c : ascii) : bool := (128 <=? byte_val c) && (byte_val c <=? 191).
Definition between (lo hi : Z) (c : ascii) : bool := (lo <=? byte_val c) && (byte_val c <=? hi).

(** The second byte that may follow a lead byte of three or of four bytes. *)
Definition second3 (a b : ascii) : bool :=
  if between 224 224 a then between 160 191 b
  else if between 237 237 a then between 128 159 b
  else between 225 239 a && cont b.
Definition second4 (a b : ascii) : bool :=
  if between 240 240 a then between 144 191 b
  else if between 244 244 a then between 128 143 b
  else between 241 243 a && cont b.

(** [String::from_utf8_lossy]: every maximal part of a character that is not
    completed, and every other byte, becomes U+FFFD. *)
Fixpoint from_utf8_lossy (s : string) : string :=
  match s with
  | EmptyString => EmptyString
  | String a s1 =>
      if between 0 127 a then String a (from_utf8_lossy s1)
      else
        match s1 with
        | EmptyString => replacement
        | String b s2 =>
            if between 194 223 a && cont b then String a (String b (from_utf8_lossy s2))
            else if second3 a b then
              match s2 with
              | String c s3 =>
                  if cont c then String a (String b (String c (from_utf8_lossy s3)))
                  else replacement +:+ from_utf8_lossy s2
              | EmptyString => replacement
              end
            else if second4 a b then
              match s2 with
              | String c s3 =>
                  if cont c then
                    match s3 with
                    | String d s4 =>
                        if cont d
                        then String a (String b (String c (String d (from_utf8_lossy s4))))
                        else replacement +:+ from_utf8_lossy s3
                    | EmptyString => replacement
                    end
                  else replacement +:+ from_utf8_lossy s2
              | EmptyString => replacement
              end
            else replacement +:+ from_utf8_lossy s1
        end
  end.

(** [CStr::from_ptr(p).to_string_lossy().into_owned()], of the bytes at [p]. *)
Fixpoint before_nul (s : string) : string :=
  match s with
  | EmptyString => EmptyString
  | String c s' => if byte_val c =? 0 then EmptyString else String c (before_nul s')
  end.
Definition to_string_lossy (s : string) : string := from_utf8_lossy (before_nul s).

(** [to_le_bytes] of an integer of [n] bytes. *)
Fixpoint to_le_bytes (n : nat) (x : Z) : string :=
  match n with
  | O => EmptyString
  | S n' => String (byte_of x) (to_le_bytes n' (x / 256))
  end.
Definition le64 : Z -> string := to_le_bytes 8.
Definition le128 : Z -> string := to_le_bytes 16.

(** ** Digests *)

(** The crate [sha2]: the digest of the concatenation of all updates. *)
Class Sha256 := sha256 : string -> string.
Class Sha256Laws `{Sha256} := {
  sha256_length s : String.length (sha256 s) = 32%nat;
}.

(** A function with the law, for examples: the first 32 bytes. *)
Fixpoint fit (n : nat) (s : string) : string :=
  match n with
  | O => EmptyString
  | S n' => match s with
            | EmptyString => String "."%char (fit n' EmptyString)
            | String c s' => String c (fit n' s')
            end
  end.
Definition sample_sha256 : Sha256 := fit 32.
Lemma sample_sha256_laws : @Sha256Laws sample_sha256.
Proof. split. intros s. do 32 (destruct s as [|? s]; [done|]). done. Qed.

(** ** The comparison is equality *)

Lemma lor_zero a b : Z.lor a b = 0 <-> a = 0 /\ b = 0.
Proof. apply Z.lor_eq_0_iff. Qed.

Lemma diff_bytes_zero a : forall b diff, String.length a = String.length b ->
  diff_bytes a b diff = 0 <-> diff = 0 /\ a = b.
Proof.
  induction a as [|x a IH]; intros [|y b] diff Hl; try done; cbn [diff_bytes]; [tauto|].
  rewrite IH by by injection Hl. rewrite lor_zero, Z.lxor_eq_0_iff. split.
  - by intros [[-> ->%byte_val_inj] ->].
  - by intros [-> [= -> ->]].
Qed.

Lemma constant_time_eq_spec a b : constant_time_eq a b = str_eqb a b.
Proof.
  unfold constant_time_eq. destruct (Nat.eqb_spec (String.length a) (String.length b)) as [E|E];
    cbn [negb].
  - apply eq_bool_prop_intro. rewrite !Is_true_true, Z.eqb_eq, str_eqb_true, diff_bytes_zero by done.
    tauto.
  - symmetry. apply str_eqb_false. by intros ->.
Qed.

(** ** Hexadecimal text is read back *)

Lemma hex_low_digit d : 0 <= d < 16 -> hex_char (byte_val (hex_low d)) = Some d.
Proof.
  intros Hd. assert (exists n, (n < 16)%nat /\ d = Z.of_nat n) as (n & Hn & ->)
    by (exists (Z.to_nat d); lia).
  clear Hd. do 16 (destruct n as [|n]; [done|]). lia.
Qed.
Lemma hex_low_start d : 0 <= d < 16 ->
  char_start (hex_low d) = true /\ byte_val (hex_low d) <> 43.
Proof.
  intros Hd. assert (exists n, (n < 16)%nat /\ d = Z.of_nat n) as (n & Hn & ->)
    by (exists (Z.to_nat d); lia).
  clear Hd. do 16 (destruct n as [|n]; [done|]). lia.
Qed.

Lemma hex_encode_start s : match hex_encode s with String c _ => char_start c | EmptyString => true end = true.
Proof.
  destruct s as [|c s]; [done|]. cbn. pose proof (byte_val_bound c).
  apply hex_low_start. split; [by apply Z.div_pos; lia|by apply Z.div_lt_upper_bound; lia].
Qed.

Lemma length_hex_encode s : String.length (hex_encode s) = (2 * String.length s)%nat.
Proof. induction s as [|c s IH]; [done|]. cbn. rewrite IH. lia. Qed.

Lemma hex_decode_encode s : hex_decode (hex_encode s) = Returns (Some s).
Proof.
  unfold hex_decode. rewrite length_hex_encode, Nat.even_mul. cbn [Nat.even negb orb].
  induction s as [|c s IH]; [done|]. cbn [hex_encode format_02x String.append hex_pairs].
  pose proof (byte_val_bound c) as Hc.
  assert (0 <= byte_val c / 16 < 16) as Hhi
    by (split; [apply Z.div_pos; lia|apply Z.div_lt_upper_bound; lia]).
  assert (0 <= byte_val c mod 16 < 16) as Hlo by (apply Z.mod_pos_bound; lia).
  destruct (hex_low_start _ Hhi) as [-> Hp]. rewrite hex_encode_start. cbn [negb orb].
  unfold from_str_radix16. rewrite (proj2 (Z.eqb_neq _ _) Hp), !hex_low_digit, IH by done.
  replace (byte_val c / 16 * 16 + byte_val c mod 16) with (byte_val c)
    by (rewrite (Z.div_mod (byte_val c) 16) at 1 by lia; lia).
  by rewrite byte_of_val.
Qed.

(** Only text that is not ASCII makes [hex_decode] panic. *)
Definition ascii_text (s : string) : Prop :=
  Forall (fun c => byte_val c < 128) (String.list_ascii_of_string s).

Lemma hex_decode_ascii s : ascii_text s -> hex_decode s <> Panic.
Proof.
  unfold hex_decode, ascii_text. destruct (negb _); [done|].
  revert s. fix IH 1. intros [|a [|b rest]]; [done..|]. cbn [String.list_ascii_of_string hex_pairs].
  intros [Ha [Hb Hrest]%Forall_cons]%Forall_cons.
  assert (Hs : forall c, byte_val c < 128 -> char_start c = true) by (intros c; unfold char_start; lia).
  rewrite (Hs a Ha). cbn [negb orb].
  assert (match rest with String c _ => char_start c | EmptyString => true end = true) as ->.
  { destruct rest as [|c rest]; [done|]. by apply Hs; apply Forall_cons in Hrest as [? _]. }
  cbn [negb]. destruct (from_str_radix16 a b); [|done].
  specialize (IH rest Hrest). by destruct (hex_pairs rest) as [[|]|].
Qed.

(** ** base64url text determines the bytes *)

(** The reference decoder: RFC 4648, section 5, without padding. *)
Definition base64_value (c : ascii) : option Z :=
  if between 65 90 c then Some (byte_val c - 65)
  else if between 97 122 c then Some (byte_val c - 71)
  else if between 48 57 c then Some (byte_val c + 4)
  else if byte_val c =? 45 then Some 62
  else if byte_val c =? 95 then Some 63
  else None.
Fixpoint base64url_decode (s : string) : option string :=
  match s with
  | EmptyString => Some EmptyString
  | String w (String x EmptyString) =>
      a ← base64_value w; b ← base64_value x;
      Some (String (byte_of (a * 4 + b / 16)) EmptyString)
  | String w (String x (String y EmptyString)) =>
      a ← base64_value w; b ← base64_value x; c ← base64_value y;
      Some (String (byte_of (a * 4 + b / 16)) (String (byte_of (b * 16 + c / 4)) EmptyString))
  | String w (String x (String y (String z rest))) =>
      a ← base64_value w; b ← base64_value x; c ← base64_value y; d ← base64_value z;
      bs ← base64url_decode rest;
      Some (String (byte_of (a * 4 + b / 16)) (String (byte_of (b * 16 + c / 4))
             (String (byte_of (c * 64 + d)) bs)))
  | _ => None
  end.

Lemma base64_value_char i : 0 <= i < 64 -> base64_value (base64_char i) = Some i.
Proof.
  intros Hi. assert (exists n, (n < 64)%nat /\ i = Z.of_nat n) as (n & Hn & ->)
    by (exists (Z.to_nat i); lia).
  clear Hi. do 64 (destruct n as [|n]; [by vm_compute|]). lia.
Qed.

(** A number below [2^k] does not meet the multiples of [2^k]. *)
Lemma lor_add x y k : 0 <= k -> 0 <= y < 2 ^ k -> Z.lor (x * 2 ^ k) y = x * 2 ^ k + y.
Proof.
  intros Hk Hy. assert (Hl : Z.land (x * 2 ^ k) y = 0).
  { rewrite <-Z.shiftl_mul_pow2 by done. apply Z.bits_inj'. intros i Hi.
    rewrite Z.land_spec, Z.bits_0. destruct (Z.lt_ge_cases i k); [by rewrite Z.shiftl_spec_low|].
    destruct (decide (y = 0)) as [->|]; [rewrite Z.bits_0; apply andb_false_r|].
    rewrite (Z.bits_above_log2 y i), andb_false_r; [done|lia|].
    apply Z.log2_lt_pow2; [lia|]. apply Z.lt_le_trans with (2 ^ k); [lia|].
    by apply Z.pow_le_mono_r. }
  rewrite <-Z.lxor_lor by done. symmetry. by apply Z.add_nocarry_lxor.
Qed.

(** The four digits of three bytes. *)
Lemma chunk_digits a b c : 0 <= a < 256 -> 0 <= b < 256 -> 0 <= c < 256 ->
  let n := Z.lor (Z.lor (Z.shiftl a 16) (Z.shiftl b 8)) c in
  Z.land (Z.shiftr n 18) 63 = a / 4 /\ Z.land (Z.shiftr n 12) 63 = a mod 4 * 16 + b / 16
  /\ Z.land (Z.shiftr n 6) 63 = b mod 16 * 4 + c / 64 /\ Z.land (Z.shiftr n 0) 63 = c mod 64.
Proof.
  intros Ha Hb Hc n. assert (n = a * 65536 + b * 256 + c) as ->.
  { unfold n. rewrite !Z.shiftl_mul_pow2 by lia.
    rewrite (lor_add a (b * 2 ^ 8) 16) by (change (2 ^ 8) with 256; change (2 ^ 16) with 65536; lia).
    replace (a * 2 ^ 16 + b * 2 ^ 8) with ((a * 256 + b) * 2 ^ 8)
      by (change (2 ^ 8) with 256; change (2 ^ 16) with 65536; lia).
    rewrite lor_add by (change (2 ^ 8) with 256; lia). change (2 ^ 8) with 256. lia. }
  change 63 with (Z.ones 6). rewrite !Z.land_ones, !Z.shiftr_div_pow2 by lia.
  change (2 ^ 6) with 64. change (2 ^ 12) with 4096. change (2 ^ 18) with 262144.
  change (2 ^ 0) with 1. split_and!; Z.to_euclidean_division_equations; lia.
Qed.

Lemma digit6_value n shift : base64_value (digit6 n shift) = Some (Z.land (Z.shiftr n shift) 63).
Proof.
  apply base64_value_char. change 63 with (Z.ones 6). rewrite Z.land_ones by lia.
  by apply Z.mod_pos_bound.
Qed.

(** The decoder's arithmetic. *)
Lemma chunk_back a b c : 0 <= a < 256 -> 0 <= b < 256 -> 0 <= c < 256 ->
  a / 4 * 4 + (a mod 4 * 16 + b / 16) / 16 = a
  /\ ((a mod 4 * 16 + b / 16) * 16 + (b mod 16 * 4 + c / 64) / 4) mod 256 = b
  /\ ((b mod 16 * 4 + c / 64) * 64 + c mod 64) mod 256 = c.
Proof. intros. split_and!; Z.to_euclidean_division_equations; lia. Qed.

Lemma byte_of_mod x : byte_of x = byte_of (x mod 256).
Proof. unfold byte_of. by rewrite Z.mod_mod. Qed.

Lemma base64_decode_encode : forall data, base64url_decode (base64url_encode data) = Some data.
Proof.
  fix IH 1. intros [|a [|b [|c rest]]]; [done|..]; cbn [base64url_encode];
    unfold base64_chunk; cbn [Nat.ltb Nat.leb String.append base64url_decode];
    rewrite ?IH, !digit6_value; cbn [mbind option_bind].
  - pose proof (byte_val_bound a) as Ha.
    destruct (chunk_digits (byte_val a) 0 0) as (-> & -> & _); [lia..|].
    destruct (chunk_back (byte_val a) 0 0) as (-> & _); [lia..|]. by rewrite byte_of_val.
  - pose proof (byte_val_bound a) as Ha. pose proof (byte_val_bound b) as Hb.
    destruct (chunk_digits (byte_val a) (byte_val b) 0) as (-> & -> & -> & _); [lia..|].
    destruct (chunk_back (byte_val a) (byte_val b) 0) as (-> & E & _); [lia..|].
    rewrite (byte_of_mod (_ * 16 + _)), E. by rewrite !byte_of_val.
  - pose proof (byte_val_bound a) as Ha. pose proof (byte_val_bound b) as Hb.
    pose proof (byte_val_bound c) as Hc.
    destruct (chunk_digits (byte_val a) (byte_val b) (byte_val c)) as (-> & -> & -> & ->); [lia..|].
    destruct (chunk_back (byte_val a) (byte_val b) (byte_val c)) as (-> & E & E'); [lia..|].
    rewrite (byte_of_mod (_ * 16 + _)), (byte_of_mod (_ * 64 + _)), E, E'. by rewrite !byte_of_val.
Qed.

Lemma length_base64 data :
  String.length (base64url_encode data) = ((4 * String.length data + 2) / 3)%nat.
Proof.
  revert data. fix IH 1. intros [|a [|b [|c rest]]]; [done..|].
  cbn [base64url_encode]. rewrite length_app_str, IH. cbn [String.length].
  change (String.length (base64_chunk _ _ _ 3)) with 4%nat.
  replace (4 * S (S (S (String.length rest))) + 2)%nat with (4 * String.length rest + 2 + 4 * 3)%nat by lia.
  rewrite Nat.div_add by lia. lia.
Qed.

(** ** Strings from C are UTF-8, and UTF-8 is left alone *)

Lemma utf8_replacement s : utf8 s -> utf8 (replacement +:+ s).
Proof. intros Hs. apply utf8_app; [|done]. apply utf8_3; [by vm_compute; right; right; right|by vm_compute|constructor]. Qed.

Lemma from_utf8_lossy_utf8 s : utf8 (from_utf8_lossy s).
Proof.
  remember (String.length s) as n eqn:En. revert s En.
  induction (lt_wf n) as [n _ IH']. intros s ->.
  assert (IH : forall s', (String.length s' < String.length s)%nat -> utf8 (from_utf8_lossy s'))
    by (intros s' Hl; by eapply IH'). clear IH'.
  destruct s as [|a s1]; cbn [from_utf8_lossy]; [constructor|].
  destruct (between 0 127 a) eqn:E1.
  { apply utf8_1; [unfold in_range, between in *; lia|]. apply IH. cbn. lia. }
  assert (Hrep : utf8 replacement) by (rewrite <-(app_str_nil_r replacement); by apply utf8_replacement; constructor).
  destruct s1 as [|b s2]; [done|]. destruct (between 194 223 a && cont b) eqn:E2.
  { apply utf8_2; [unfold in_range, between, cont in *; lia..|]. apply IH. cbn. lia. }
  destruct (second3 a b) eqn:E3.
  { destruct s2 as [|c s3]; [done|]. destruct (cont c) eqn:Ec.
    - apply utf8_3; [|unfold in_range, cont in *; lia|apply IH; cbn; lia].
      unfold second3, between, cont, in_range in *.
      repeat match type of E3 with (if ?x then _ else _) = _ => destruct x eqn:? end; lia.
    - apply utf8_replacement, IH. cbn. lia. }
  destruct (second4 a b) eqn:E4; [|apply utf8_replacement, IH; cbn; lia].
  destruct s2 as [|c s3]; [done|]. destruct (cont c) eqn:Ec; [|apply utf8_replacement, IH; cbn; lia].
  destruct s3 as [|d s4]; [done|]. destruct (cont d) eqn:Ed; [|apply utf8_replacement, IH; cbn; lia].
  apply utf8_4; [|unfold in_range, cont in *; lia..|apply IH; cbn; lia].
  unfold second4, between, cont, in_range in *.
  repeat match type of E4 with (if ?x then _ else _) = _ => destruct x eqn:? end; lia.
Qed.

Lemma from_utf8_lossy_id s : utf8 s -> from_utf8_lossy s = s.
Proof.
  induction 1 as [|a s Ha _ IH|a b s Ha Hb _ IH|a b c s Hab Hc _ IH|a b c d s Hab Hc Hd _ IH];
    cbn [from_utf8_lossy]; [done|..]; unfold in_range in *.
  - unfold between. destruct (_ && _) eqn:?; [by rewrite IH|lia].
  - unfold between at 1. destruct ((0 <=? byte_val a) && _) eqn:?; [lia|].
    assert (between 194 223 a && cont b = true) as -> by (unfold between, cont; lia). by rewrite IH.
  - unfold between at 1. destruct ((0 <=? byte_val a) && _) eqn:?; [lia|].
    destruct (between 194 223 a && cont b) eqn:?; [unfold between in *; lia|].
    assert (second3 a b = true) as ->.
    { unfold second3, between, cont.
      destruct ((224 <=? _) && (byte_val a <=? 224)) eqn:?; [lia|].
      destruct ((237 <=? _) && (byte_val a <=? 237)) eqn:?; lia. }
    assert (cont c = true) as -> by (unfold cont; lia). by rewrite IH.
  - unfold between at 1. destruct ((0 <=? byte_val a) && _) eqn:?; [lia|].
    destruct (between 194 223 a && cont b) eqn:?; [unfold between in *; lia|].
    assert (second3 a b = false) as ->.
    { unfold second3, between, cont.
      destruct ((224 <=? _) && (byte_val a <=? 224)) eqn:?; [lia|].
      destruct ((237 <=? _) && (byte_val a <=? 237)) eqn:?; lia. }
    assert (second4 a b = true) as ->.
    { unfold second4, between, cont.
      destruct ((240 <=? _) && (byte_val a <=? 240)) eqn:?; [lia|].
      destruct ((244 <=? _) && (byte_val a <=? 244)) eqn:?; lia. }
    assert (cont c = true) as -> by (unfold cont; lia).
    assert (cont d = true) as -> by (unfold cont; lia). by rewrite IH.
Qed.
