(* ===== verification/Token.v ===== *)
(** * Token: capability tokens

    [rust/src/capability_token.rs]: tokens are issued and verified by an
    authority that holds a secret.  The crate [sha2] is the class [Sha256],
    [hmac] and [serde_json] are [TokenCrates]; the clock and the counter of
    nonces are arguments.  What cannot be forged is a value of the crate's
    keyed hash. *)

From Stdlib Require Import ZArith Ascii String Lia.
From stdpp Require Import base numbers list strings pretty.
From S2P Require Import Prelude Json JsonLex RustText.

Open Scope Z_scope.

Record CapabilityToken := {
  module_id : string;
  capability : string;
  issued_at : Z;
  expires_at : Z;
  nonce : string;
  hmac : string;
}.

(** The functions of other crates: HMAC-SHA256 on bytes, and what [serde_json]
    writes for a token and reads from a text. *)
Class TokenCrates := {
  hmac_sha256 : string -> string -> string;      (* key, message *)
  token_to_json : CapabilityToken -> option string;
  token_from_json : string -> option CapabilityToken;
}.

Definition U64_MAX : Z := 2 ^ 64 - 1.
Definition saturating_add (a b : Z) : Z := Z.min (a + b) U64_MAX.

Section authority.
Context `{Sha256} `{TokenCrates}.

(** [generate_secret]; [urandom] is what [read_exact] of 32 bytes gave, if it
    succeeded, [nanos] the clock. *)
Definition generate_secret (urandom : option string) (nanos : Z) : string :=
  match urandom with
  | Some buf => buf
  | None => sha256 (le128 nanos +:+ "astraveil-token-secret-fallback")
  end.

(** The text under the signature. *)
Definition payload (t : CapabilityToken) : string :=
  module_id t +:+ ":" +:+ capability t +:+ ":" +:+ show_Z (issued_at t) +:+ ":"
  +:+ show_Z (expires_at t) +:+ ":" +:+ nonce t.
Definition compute_hmac (secret : string) (t : CapabilityToken) : string :=
  base64url_encode (hmac_sha256 secret (payload t)).

(** [issue] at the second [now]; [count] is the counter, which wraps. *)
Definition issue (secret module capability : string) (duration_secs now count : Z)
    : CapabilityToken * Z :=
  let hash := sha256 (le64 now +:+ le64 count +:+ module +:+ capability) in
  let token := {| module_id := module; capability := capability; issued_at := now;
                  expires_at := saturating_add now duration_secs;
                  nonce := hex_encode (take_str 8 hash); hmac := EmptyString |} in
  ({| module_id := module_id token; capability := Token.capability token;
      issued_at := issued_at token; expires_at := expires_at token; nonce := nonce token;
      hmac := compute_hmac secret token |}, u64 (count + 1)).

Definition verify (secret : string) (now : Z) (token : CapabilityToken)
    (expected_module_id : string) : bool :=
  if negb (str_eqb (module_id token) expected_module_id) then false
  else if expires_at token <? now then false
  else constant_time_eq (hmac token) (compute_hmac secret token).

(** The C interface: a null pointer is [None].  [token_issue] answers its
    code and what it wrote to [out_json], and steps the counter. *)
Definition token_issue (module_id capability : option string) (duration_secs : Z)
    (secret : option string) (out_json : bool) (out_len : Z) (now count : Z)
    : Z * option string * Z :=
  match module_id, capability, secret with
  | Some m, Some c, Some k =>
      if negb out_json then (-1, None, count)
      else
        let '(token, count) := issue k (to_string_lossy m) (to_string_lossy c)
                                 duration_secs now count in
        match token_to_json token with
        | None => (-1, None, count)
        | Some json =>
            if out_len <? str_size json + 1 then (-1, None, count)
            else (0, Some (json +:+ String (byte_of 0) EmptyString), count)
        end
  | _, _, _ => (-1, None, count)
  end.

Definition token_verify (token_json expected_module_id secret : option string) (now : Z) : Z :=
  match token_json, expected_module_id, secret with
  | Some j, Some m, Some k =>
      match token_from_json (to_string_lossy j) with
      | None => -1
      | Some token => if verify k now token (to_string_lossy m) then 1 else 0
      end
  | _, _, _ => -1
  end.

(** ** What verification decides *)

Lemma token_verify_spec secret now t m :
  verify secret now t m = true <->
  module_id t = m /\ now <= expires_at t /\ hmac t = compute_hmac secret t.
Proof.
  unfold verify. destruct (str_eqb (module_id t) m) eqn:Em; cbn [negb].
  2: { apply str_eqb_false in Em. naive_solver. }
  apply str_eqb_true in Em. destruct (Z.ltb_spec (expires_at t) now); [naive_solver lia|].
  rewrite constant_time_eq_spec, str_eqb_true. naive_solver lia.
Qed.

(** The fields under the signature: no separator in the names. *)
Definition separable (t : CapabilityToken) : Prop :=
  no_char ":" (module_id t) /\ no_char ":" (capability t)
  /\ 0 <= issued_at t /\ 0 <= expires_at t.

Lemma no_char_split c (a a' b b' : string) : no_char c a -> no_char c a' ->
  a +:+ String c b = a' +:+ String c b' -> a = a' /\ b = b'.
Proof.
  revert a'. induction a as [|x a IH]; intros [|y a'] Ha Ha' E; cbn in *.
  - by injection E.
  - injection E as -> _. tauto.
  - injection E as -> _. tauto.
  - injection E as -> E. destruct (IH a' (proj2 Ha) (proj2 Ha') E) as [-> ->]. done.
Qed.

Lemma show_Z_inj z z' : show_Z z = show_Z z' -> z = z'.
Proof. apply (inj _). Qed.

Lemma no_char_digits s : all_digits s -> no_char ":" s.
Proof.
  induction s as [|c s IH]; [done|]. intros [Hc Hs]%Forall_cons. split; [|by apply IH].
  intros ->. done.
Qed.

Lemma show_Z_digits z : 0 <= z -> all_digits (show_Z z).
Proof.
  intros Hz. destruct z as [|p|p]; [by repeat constructor| |lia].
  destruct (written_digits p) as (d & ds & -> & Hd & Hds & _). apply Forall_cons_2; [|done].
  unfold is_digit19, is_digit in *. lia.
Qed.

Lemma payload_inj t t' : separable t -> separable t' -> payload t = payload t' ->
  module_id t = module_id t' /\ capability t = capability t' /\ issued_at t = issued_at t'
  /\ expires_at t = expires_at t' /\ nonce t = nonce t'.
Proof.
  intros (Hm & Hc & Hi & He) (Hm' & Hc' & Hi' & He'). unfold payload. cbn [String.append].
  intros E. apply no_char_split in E as [Em E]; [|done..].
  apply no_char_split in E as [Ec E]; [|done..].
  apply no_char_split in E as [Ei%show_Z_inj E]; [|by apply no_char_digits, show_Z_digits..].
  apply no_char_split in E as [Ee%show_Z_inj E]; [|by apply no_char_digits, show_Z_digits..].
  done.
Qed.

Lemma token_eq t t' : module_id t = module_id t' -> capability t = capability t' ->
  issued_at t = issued_at t' -> expires_at t = expires_at t' -> nonce t = nonce t' ->
  hmac t = hmac t' -> t = t'.
Proof. destruct t, t'. cbn. by intros -> -> -> -> -> ->. Qed.

(** Tokens are issued with fields of their types. *)
Lemma issue_fields secret m c d now count :
  let t := (issue secret m c d now count).1 in
  module_id t = m /\ capability t = c /\ issued_at t = now
  /\ expires_at t = saturating_add now d /\ hmac t = compute_hmac secret t.
Proof. by split_and!. Qed.

(** A token that the authority has issued, with a name that holds no colon. *)
Definition issued_token (secret : string) (t : CapabilityToken) : Prop :=
  separable t /\ exists m c d now count, t = (issue secret m c d now count).1.

(** What HMAC-SHA256 is for: a text is the signature of a message only if the
    holder of the secret has signed that message. *)
Definition unforged (secret : string) (signature : string) (issued : list CapabilityToken) : Prop :=
  forall message, signature = base64url_encode (hmac_sha256 secret message) ->
    message ∈ payload <$> issued.

(** C39: Capability tokens with names free of colons cannot be forged or passed
    on.  Assumed of the crate [hmac], for the signature that is presented: it
    is the code of no message under the secret but of those that were signed
    when the tokens [issued] were issued.  Then a token is accepted exactly if
    it is one of the issued tokens, unchanged in every field, presented for the
    module it was issued to, up to and including the second it expires. *)
Theorem token_authentic secret now m t (issued : list CapabilityToken) :
  (forall t', t' ∈ issued -> issued_token secret t') ->
  unforged secret (hmac t) issued ->
  separable t ->
  verify secret now t m = true <-> t ∈ issued /\ module_id t = m /\ now <= expires_at t.
Proof.
  intros Hiss Hauth Hsep. rewrite token_verify_spec. split.
  - intros (Hm & He & Hh). split; [|done].
    destruct (proj1 (list_elem_of_fmap _ _ _) (Hauth (payload t) Hh)) as (t' & Hp & Hin).
    destruct (Hiss t' Hin) as [Hsep' (m' & c' & d' & n' & k' & Et)].
    destruct (payload_inj t t' Hsep Hsep' Hp) as (E1 & E2 & E3 & E4 & E5).
    assert (hmac t' = compute_hmac secret t') as Hh' by (subst t'; apply issue_fields).
    assert (t = t') as -> by (apply token_eq; try done; rewrite Hh, Hh'; unfold compute_hmac;
      by rewrite Hp). done.
  - intros (Hin & Hm & He). split_and!; [done..|].
    destruct (Hiss t Hin) as [_ (m' & c' & d' & n' & k' & ->)]. apply issue_fields.
Qed.

(** The payload does not separate its fields: a token of a module for a
    capability whose name contains a colon is, with the same signature, a
    token of another module for another capability, and is accepted for it as
    long as the original is; so holding one token is holding both. *)
Theorem token_transferable secret now a b c i e n h :
  let t := {| module_id := a; capability := b +:+ ":" +:+ c; issued_at := i; expires_at := e;
              nonce := n; hmac := h |} in
  let t' := {| module_id := a +:+ ":" +:+ b; capability := c; issued_at := i; expires_at := e;
               nonce := n; hmac := h |} in
  verify secret now t a = verify secret now t' (a +:+ ":" +:+ b)
  /\ verify secret now t' a = false.
Proof.
  intros t t'. split.
  - apply eq_bool_prop_intro. rewrite !Is_true_true, !token_verify_spec. cbn [module_id expires_at hmac].
    assert (payload t = payload t') as E.
    { unfold payload, t, t'. cbn [module_id capability issued_at expires_at nonce].
      by rewrite !app_str_assoc. }
    unfold compute_hmac. rewrite E. tauto.
  - destruct (verify secret now t' a) eqn:E; [|done]. apply token_verify_spec in E as [E _]. cbn in E.
    apply (f_equal String.length) in E. rewrite !length_app_str in E. cbn in E. lia.
Qed.

(** The C interface end to end: what [token_issue] wrote is accepted by
    [token_verify] for the same module until it expires. *)
Lemma token_issue_verify m c k d out_len now count code out count' now' :
  (forall t j, token_to_json t = Some j ->
     token_from_json (to_string_lossy (j +:+ String (byte_of 0) EmptyString)) = Some t) ->
  token_issue (Some m) (Some c) d (Some k) true out_len now count = (code, Some out, count') ->
  code = 0 /\ str_size out <= out_len
  /\ token_verify (Some out) (Some m) (Some k) now'
     = if now' <=? saturating_add now d then 1 else 0.
Proof.
  intros Hj. unfold token_issue. cbn [negb].
  destruct (issue k (to_string_lossy m) (to_string_lossy c) d now count) as [t n] eqn:Ei.
  destruct (token_to_json t) as [j|] eqn:Ej; [|done].
  destruct (Z.ltb_spec out_len (str_size j + 1)); [done|]. intros [= <- <- <-].
  split; [done|]. split; [unfold str_size in *; rewrite length_app_str; cbn; lia|].
  unfold token_verify. rewrite (Hj t j Ej).
  pose proof (issue_fields k (to_string_lossy m) (to_string_lossy c) d now count) as Hf.
  rewrite Ei in Hf. destruct Hf as (Hm & _ & _ & He & Hh). cbn [fst] in *.
  destruct (Z.leb_spec now' (saturating_add now d)).
  - by rewrite (proj2 (token_verify_spec k now' t _)) by (rewrite He; auto).
  - destruct (verify k now' t (to_string_lossy m)) eqn:E; [|done].
    apply token_verify_spec in E as (_ & E & _). lia.
Qed.
End authority.

(** At an authority with one token. *)
Definition sample_crates : TokenCrates :=
  {| hmac_sha256 := fun k s => k +:+ s; token_to_json := fun _ => None;
     token_from_json := fun _ => None |}.
Definition sample_token : CapabilityToken :=
  (@issue sample_sha256 sample_crates "key" "com.example.mod" "overlayfs" 3600 1722556800 0).1.

(** Its token with another capability written into it. *)
Definition tampered_token : CapabilityToken :=
  {| module_id := module_id sample_token; capability := "kernel_hook";
     issued_at := issued_at sample_token; expires_at := expires_at sample_token;
     nonce := nonce sample_token; hmac := hmac sample_token |}.

Lemma sample_unforged : @unforged sample_crates "key" (hmac sample_token) [sample_token].
Proof.
  intros message E.
  change (hmac sample_token) with
    (base64url_encode (@hmac_sha256 sample_crates "key" (payload sample_token))) in E.
  apply (f_equal base64url_decode) in E. rewrite !base64_decode_encode in E.
  apply list_elem_of_singleton. unfold hmac_sha256, sample_crates in E. by simplify_eq.
Qed.

Lemma token_authentic_witness :
  (forall t', t' ∈ [sample_token] -> @issued_token sample_sha256 sample_crates "key" t')
  /\ @unforged sample_crates "key" (hmac sample_token) [sample_token]
  /\ separable sample_token /\ separable tampered_token
  /\ @verify sample_crates "key" 1722560400 sample_token "com.example.mod" = true
  /\ @verify sample_crates "key" 1722560401 sample_token "com.example.mod" = false
  /\ @verify sample_crates "key" 1722560400 tampered_token "com.example.mod" = false.
Proof.
  assert (separable sample_token) as Hs by by repeat split.
  assert (separable tampered_token) as Ht by by repeat split.
  assert (forall t', t' ∈ [sample_token] -> @issued_token sample_sha256 sample_crates "key" t') as Hi.
  { intros t' ->%list_elem_of_singleton. split; [exact Hs|].
    by exists "com.example.mod", "overlayfs", 3600, 1722556800, 0. }
  pose proof sample_unforged as Hu. split_and!; [exact Hi|exact Hu|exact Hs|exact Ht|..].
  - apply (@token_authentic sample_sha256 sample_crates "key" 1722560400 "com.example.mod"
      sample_token [sample_token] Hi Hu Hs). split; [by left|by split].
  - apply not_true_iff_false. intros Hv.
    apply (@token_authentic sample_sha256 sample_crates "key" 1722560401 "com.example.mod"
      sample_token [sample_token] Hi Hu Hs) in Hv as (_ & _ & Hle). by vm_compute in Hle.
  - apply not_true_iff_false. intros Hv.
    apply (@token_authentic sample_sha256 sample_crates "key" 1722560400 "com.example.mod"
      tampered_token [sample_token] Hi Hu Ht) in Hv as (Hin%list_elem_of_singleton & _).
    by apply (f_equal capability) in Hin.
Defined.
