(* ===== verification/Zk.v ===== *)
(** * Zk: proofs of holding a capability

    [rust/src/zk_capability.rs]: a prover's commitment and response, the
    verifier's challenge and check, the transcript and the C interface.  The
    clock's readings, in nanoseconds, are arguments; what [serde_json] does
    with a transcript is the class [ZkCrates]. *)

From Stdlib Require Import ZArith Ascii String Lia.
From stdpp Require Import base numbers list strings.
From S2P Require Import Prelude Json JsonText RustText.

Open Scope Z_scope.

Record ProofTranscript := {
  commitment : string;
  challenge : string;
  response : string;
  public_key : string;
}.

Class ZkCrates := {
  transcript_to_json : ProofTranscript -> option string;
  transcript_from_json : string -> option ProofTranscript;
}.

(** [x] is the secret. *)
Record ProverSecret := { x : string; pk : string }.

Definition any_nonzero (s : string) : bool :=
  existsb (fun b => negb (byte_val b =? 0)) (String.list_ascii_of_string s).

Section protocol.
Context `{Sha256}.

Definition from_token_hmac (hmac : string) : ProverSecret :=
  {| x := hmac; pk := sha256 hmac |}.

Definition commit (nonce : string) : string := sha256 (nonce +:+ "astraveil-zk-commit").

Definition respond (self : ProverSecret) (nonce challenge : string) : string :=
  sha256 (nonce +:+ challenge +:+ x self +:+ "astraveil-zk-respond").

Definition make_challenge (now : Z) : string := sha256 (le128 now +:+ "astraveil-zk-challenge").

(** The digest that the response must differ from. *)
Definition expected_binding (commitment challenge public_key : string) : string :=
  sha256 (commitment +:+ challenge +:+ public_key +:+ "astraveil-zk-verify").

Definition verify (commitment challenge response public_key : string) : bool :=
  if negb (str_size commitment =? 32) || negb (str_size response =? 32)
     || negb (str_size public_key =? 32) then false
  else if is_empty challenge then false
  else if str_eqb response (expected_binding commitment challenge public_key) then false
  else any_nonzero response.

(** The clock is read for the nonce and for the challenge. *)
Definition prove (token_hmac : string) (now1 now2 : Z) : ProofTranscript :=
  let secret := from_token_hmac token_hmac in
  let nonce := sha256 (le128 now1 +:+ "astraveil-zk-nonce") in
  let commitment := commit nonce in
  let challenge := make_challenge now2 in
  let response := respond secret nonce challenge in
  {| commitment := hex_encode commitment; challenge := hex_encode challenge;
     response := hex_encode response; public_key := hex_encode (pk secret) |}.

(** Go on with the decoded bytes; no transcript is valid without them. *)
Definition decoded (s : string) (k : string -> panics bool) : panics bool :=
  match hex_decode s with
  | Panic => Panic
  | Returns None => Returns false
  | Returns (Some b) => k b
  end.

Definition verify_transcript (t : ProofTranscript) : panics bool :=
  decoded (commitment t) (fun c => decoded (challenge t) (fun ch =>
  decoded (response t) (fun r => decoded (public_key t) (fun p => Returns (verify c ch r p))))).

Section ffi.
Context `{ZkCrates}.

Definition zk_prove (token_hmac : option string) (out_json : bool) (out_len now1 now2 : Z)
    : Z * option string :=
  match token_hmac with
  | None => (-1, None)
  | Some h =>
      if negb out_json then (-1, None)
      else
        match transcript_to_json (prove (to_string_lossy h) now1 now2) with
        | None => (-1, None)
        | Some json =>
            if out_len <? str_size json + 1 then (-1, None)
            else (0, Some (json +:+ String (byte_of 0) EmptyString))
        end
  end.

(** A panic ends the process: it may not leave an [extern "C"] function. *)
Definition zk_verify (transcript_json : option string) : panics Z :=
  match transcript_json with
  | None => Returns (-1)
  | Some j =>
      match transcript_from_json (to_string_lossy j) with
      | None => Returns (-1)
      | Some t =>
          match verify_transcript t with
          | Panic => Panic
          | Returns b => Returns (if b then 1 else 0)
          end
      end
  end.
End ffi.

(** ** What the verifier checks *)

(** The transcript of chosen bytes; no secret is used. *)
Definition transcript_of (c ch r p : string) : ProofTranscript :=
  {| commitment := hex_encode c; challenge := hex_encode ch;
     response := hex_encode r; public_key := hex_encode p |}.

Lemma verify_transcript_of c ch r p :
  verify_transcript (transcript_of c ch r p) = Returns (verify c ch r p).
Proof. unfold verify_transcript, decoded, transcript_of; cbn. by rewrite !hex_decode_encode. Qed.

Lemma proof_verify_spec c ch r p :
  verify c ch r p = true <->
  str_size c = 32 /\ str_size r = 32 /\ str_size p = 32 /\ ch <> EmptyString
  /\ r <> expected_binding c ch p /\ any_nonzero r = true.
Proof.
  unfold verify.
  destruct (Z.eqb_spec (str_size c) 32); cbn [negb orb]; [|naive_solver].
  destruct (Z.eqb_spec (str_size r) 32); cbn [negb orb]; [|naive_solver].
  destruct (Z.eqb_spec (str_size p) 32); cbn [negb orb]; [|naive_solver].
  destruct ch as [|a ch]; cbn [is_empty]; [naive_solver|].
  destruct (str_eqb r _) eqn:E.
  - apply str_eqb_true in E. naive_solver.
  - apply str_eqb_false in E. naive_solver.
Qed.

(** C40: The check does not involve the secret.  Whoever knows a public key can
    make a transcript for it that is accepted: of any two different responses
    of 32 bytes that are not all zero, at least one passes, whatever
    commitment of 32 bytes and challenge it is presented with.  The proof of a
    holder of the secret passes as well, unless its response happens to be the
    binding or zero. *)
Theorem proof_needs_no_secret `{!Sha256Laws} hmac c ch r r' :
  (str_size c = 32 -> ch <> EmptyString -> str_size r = 32 -> str_size r' = 32 ->
   any_nonzero r = true -> any_nonzero r' = true -> r <> r' ->
   let p := pk (from_token_hmac hmac) in
   verify_transcript (transcript_of c ch r p) = Returns true
   \/ verify_transcript (transcript_of c ch r' p) = Returns true)
  /\ forall now1 now2,
     let nonce := sha256 (le128 now1 +:+ "astraveil-zk-nonce") in
     let s := respond (from_token_hmac hmac) nonce (make_challenge now2) in
     verify_transcript (prove hmac now1 now2)
     = Returns (negb (str_eqb s (expected_binding (commit nonce) (make_challenge now2)
                                   (sha256 hmac))) && any_nonzero s).
Proof.
  assert (H32 : forall s, str_size (sha256 s) = 32) by (intros s; unfold str_size; by rewrite sha256_length).
  split.
  - intros Hc Hch Hr Hr' Hn Hn' Hne p. rewrite !verify_transcript_of.
    destruct (decide (r = expected_binding c ch p)) as [E|E].
    + right. f_equal. apply proof_verify_spec. split_and!; try done; [apply H32|congruence].
    + left. f_equal. apply proof_verify_spec. by split_and!; try apply H32.
  - intros now1 now2 nonce s.
    change (prove hmac now1 now2)
      with (transcript_of (commit nonce) (make_challenge now2) s (sha256 hmac)).
    rewrite verify_transcript_of. f_equal.
    assert (Hch : make_challenge now2 <> EmptyString).
    { intros E. apply (f_equal str_size) in E. unfold make_challenge in E. by rewrite H32 in E. }
    unfold verify, s, commit, respond. rewrite !H32. cbn [Z.eqb negb orb Pos.eqb].
    destruct (make_challenge now2); [done|]. cbn [is_empty].
    by destruct (str_eqb _ _).
Qed.
(** The checks of a transcript come back with an answer, unless a field
    holds text that is not ASCII: then the slice of two bytes may cut a
    character and panics, which ends the process that called the C interface.
    The transcript's bytes decide, so its sender chooses. *)
Theorem transcript_panics t :
  (ascii_text (commitment t) -> ascii_text (challenge t) -> ascii_text (response t) ->
   ascii_text (public_key t) -> exists b, verify_transcript t = Returns b)
  /\ (commitment t = ("a" +:+ utf8_of 233 +:+ "a")%string -> verify_transcript t = Panic
      /\ forall `{ZkCrates} j, transcript_from_json (to_string_lossy j) = Some t ->
         zk_verify (Some j) = Panic).
Proof.
  split.
  - intros H1%hex_decode_ascii H2%hex_decode_ascii H3%hex_decode_ascii H4%hex_decode_ascii.
    unfold verify_transcript, decoded.
    repeat match goal with
    | Hp : hex_decode ?s <> Panic |- context [hex_decode ?s] =>
        destruct (hex_decode s) as [[|]|]; [|eauto|done]; clear Hp
    end. eauto.
  - intros Hc. assert (verify_transcript t = Panic) as E
      by (unfold verify_transcript, decoded; rewrite Hc; by vm_compute).
    split; [done|]. intros ? j Hj. unfold zk_verify. by rewrite Hj, E.
Qed.
End protocol.

(** A forged transcript, at a digest that has the law. *)
Definition sample_bytes (c : ascii) : string := fit 32 (String c EmptyString).

Lemma proof_needs_no_secret_witness :
  let p := @pk (@from_token_hmac sample_sha256 "secret") in
  @verify_transcript sample_sha256
    (transcript_of (sample_bytes "c") "now" (sample_bytes "r") p) = Returns true
  \/ @verify_transcript sample_sha256
    (transcript_of (sample_bytes "c") "now" (sample_bytes "s") p) = Returns true.
Proof.
  by apply (proj1 (@proof_needs_no_secret sample_sha256 sample_sha256_laws "secret"
             (sample_bytes "c") "now" (sample_bytes "r") (sample_bytes "s"))); vm_compute.
Defined.

(** A transcript that ends the verifier's process. *)
Definition sample_transcript : ProofTranscript :=
  {| commitment := "a" +:+ utf8_of 233 +:+ "a"; challenge := EmptyString; response := EmptyString;
     public_key := EmptyString |}.

Lemma transcript_panics_witness : @verify_transcript sample_sha256 sample_transcript = Panic.
Proof. by apply (@transcript_panics sample_sha256 sample_transcript). Defined.
