(* ===== verification/RustPolicy.v ===== *)
(** * RustPolicy: module policies, sandbox configurations and attestation

    [rust/src/policy.rs] (the registry of module policies and its decision),
    [rust/src/sandbox.rs] (the configuration of a sandbox and its check) and
    [rust/src/attestation.rs] (the record of a module's digest).  The crate
    [sha2] is the class [Sha256], what [serde_json] does with a record is the
    class [AttestationCrates]; the clock is an argument. *)

From Stdlib Require Import ZArith Ascii String Lia.
From stdpp Require Import base numbers gmap list strings pretty.
From S2P Require Import Prelude Json JsonText RustText.

Open Scope Z_scope.

Module RustPolicies.

Inductive Permission := None_ | Shell | Root | Kernel.
#[global] Instance Permission_eq_dec : EqDecision Permission.
Proof. solve_decision. Defined.

Definition as_level (p : Permission) : Z :=
  match p with None_ => 0 | Shell => 1 | Root => 2 | Kernel => 3 end.

Record ModulePolicy := {
  mp_module_id : string;
  mp_permissions : list string;
  mp_max_level : Permission;
  mp_sandboxed : bool;
}.

Inductive Decision := Allow | Deny | RequireApproval.
#[global] Instance Decision_eq_dec : EqDecision Decision.
Proof. solve_decision. Defined.

Definition DENYLIST : list string := ["mount"; "su"; "kernel_hook"; "ptrace"; "namespace"]%string.

(** [PolicyEngine]: the policies by module id. *)
Definition engine_new : gmap string ModulePolicy := ∅.
Definition register (self : gmap string ModulePolicy) (policy : ModulePolicy) : gmap string ModulePolicy :=
  <[mp_module_id policy := policy]> self.
Definition get (self : gmap string ModulePolicy) (module_id : string) : option ModulePolicy :=
  self !! module_id.

Definition engine_evaluate (self : gmap string ModulePolicy) (module_id requested_permission : string)
    : Decision :=
  match self !! module_id with
  | None => Deny
  | Some policy =>
      if negb (bool_decide (requested_permission ∈ mp_permissions policy)) then Deny
      else if bool_decide (requested_permission ∈ DENYLIST) then
        if as_level (mp_max_level policy) <? as_level Shell then Deny else RequireApproval
      else Allow
  end.

Definition default_policy_for (module_id : string) : ModulePolicy :=
  {| mp_module_id := module_id; mp_permissions := []; mp_max_level := None_;
     mp_sandboxed := true |}.

(** ** Decisions depend on the last policy of a module *)

(** The engine's operations in the order they came; the reference keeps all. *)
Definition registered (policies : list ModulePolicy) : gmap string ModulePolicy :=
  foldl register engine_new policies.
Definition last_policy (policies : list ModulePolicy) (m : string) : option ModulePolicy :=
  last (filter (fun p => mp_module_id p = m) policies).

Lemma registered_lookup ps m : registered ps !! m = last_policy ps m.
Proof.
  unfold registered, last_policy. induction ps as [|p ps IH] using rev_ind; [done|].
  rewrite foldl_app, filter_app. cbn [foldl]. unfold register at 1.
  rewrite filter_cons, filter_nil. destruct (decide (mp_module_id p = m)) as [<-|Hne].
  - by rewrite lookup_insert_eq, last_snoc.
  - by rewrite lookup_insert_ne, app_nil_r.
Qed.

(** What is granted without asking, and what after asking. *)
Definition may (p : ModulePolicy) (perm : string) : Prop := perm ∈ mp_permissions p.
Definition dangerous (perm : string) : Prop := perm ∈ DENYLIST.

Lemma exists_some {A} (a : A) (P : A -> Prop) : (exists b, Some a = Some b /\ P b) <-> P a.
Proof. naive_solver. Qed.

Lemma policy_cases p perm :
  let d := if negb (bool_decide (perm ∈ mp_permissions p)) then Deny
           else if bool_decide (perm ∈ DENYLIST) then
             if as_level (mp_max_level p) <? as_level Shell then Deny else RequireApproval
           else Allow in
  (d = Allow <-> may p perm /\ ~ dangerous perm)
  /\ (d = RequireApproval <-> may p perm /\ dangerous perm /\ mp_max_level p <> None_).
Proof.
  unfold may, dangerous. generalize DENYLIST as l. intros l.
  case_bool_decide; case_bool_decide; cbn; destruct (mp_max_level p); cbn; naive_solver.
Qed.

(** After any sequence of registrations the engine decides about a module by
    the last policy registered for it: it allows exactly the permissions the
    policy lists that are not dangerous - whatever the policy's ceiling -,
    asks for approval for the dangerous ones that it lists if its ceiling is
    above None, and denies the rest, everything for a module without a policy
    among it.  A module that gets the default policy is denied everything. *)
Theorem engine_history ps m perm :
  let d := engine_evaluate (registered ps) m perm in
  (d = Allow <-> exists p, last_policy ps m = Some p /\ may p perm /\ ~ dangerous perm)
  /\ (d = RequireApproval <->
      exists p, last_policy ps m = Some p /\ may p perm /\ dangerous perm
        /\ mp_max_level p <> None_)
  /\ engine_evaluate (registered (ps ++ [default_policy_for m])) m perm = Deny
  /\ forall m', m' <> m ->
     engine_evaluate (registered (ps ++ [default_policy_for m'])) m perm = d.
Proof.
  intros d. unfold d, engine_evaluate. rewrite !registered_lookup. split_and!.
  - destruct (last_policy ps m) as [p|]; [rewrite exists_some, <-(proj1 (policy_cases p perm))|];
      naive_solver.
  - destruct (last_policy ps m) as [p|]; [rewrite exists_some, <-(proj2 (policy_cases p perm))|];
      naive_solver.
  - unfold last_policy. rewrite filter_app, filter_cons, filter_nil. cbn [mp_module_id default_policy_for].
    rewrite decide_True by done. by rewrite last_snoc.
  - intros m' Hne. rewrite registered_lookup. unfold last_policy.
    rewrite filter_app, filter_cons, filter_nil. cbn [mp_module_id default_policy_for].
    by rewrite decide_False, app_nil_r.
Qed.

(** The ceiling None does not stop a permission outside the list. *)
Example ceiling_ignored :
  engine_evaluate (register engine_new
    {| mp_module_id := "m"; mp_permissions := ["root"]; mp_max_level := None_;
       mp_sandboxed := true |}) "m" "root" = Allow.
Proof. by vm_compute. Qed.
End RustPolicies.

Module RustSandbox.
Import RustPolicies.

Record SandboxConfig := {
  root_dir : string;
  read_only_paths : list string;
  write_paths : list string;
  network : bool;
  max_level : Permission;
}.

Definition default_config : SandboxConfig :=
  {| root_dir := "/data/astra/sandbox"; read_only_paths := []; write_paths := [];
     network := false; max_level := None_ |}.

(** [s.trim().is_empty()]: only characters of Unicode's White_Space. *)
Fixpoint trim_is_empty (s : string) : bool :=
  match s with
  | EmptyString => true
  | String a s1 =>
      if between 9 13 a || between 32 32 a then trim_is_empty s1
      else
        match s1 with
        | EmptyString => false
        | String b s2 =>
            if between 194 194 a && (between 133 133 b || between 160 160 b) then trim_is_empty s2
            else
              match s2 with
              | EmptyString => false
              | String c s3 =>
                  if between 225 225 a && between 154 154 b && between 128 128 c
                     || between 226 226 a && between 128 128 b
                        && (between 128 138 c || between 168 169 c || between 175 175 c)
                     || between 226 226 a && between 129 129 b && between 159 159 c
                     || between 227 227 a && between 128 128 b && between 128 128 c
                  then trim_is_empty s3 else false
              end
        end
  end.

Definition is_absolute (path : string) : bool :=
  match path with String c _ => byte_val c =? 47 | EmptyString => false end.

(** The error is the text of the [Err]. *)
Definition validate (config : SandboxConfig) : option string :=
  if trim_is_empty (root_dir config) then Some "sandbox root_dir must not be empty"
  else if negb (is_absolute (root_dir config)) then
    Some ("sandbox root_dir must be absolute: " +:+ root_dir config)
  else
    match list_find (fun w => w ∈ read_only_paths config) (write_paths config) with
    | Some (_, w) => Some ("path listed in both read_only_paths and write_paths: " +:+ w)
    | None => None
    end.

Definition show_bool (b : bool) : string := if b then "true" else "false".
Definition describe (config : SandboxConfig) : string :=
  "Sandbox(root=" +:+ root_dir config +:+ ", ro=" +:+ pretty (length (read_only_paths config))
  +:+ ", rw=" +:+ pretty (length (write_paths config)) +:+ ", net=" +:+ show_bool (network config)
  +:+ ", max_level=" +:+ pretty (as_level (max_level config)) +:+ ")".

Record SandboxPolicy := { filesystem : string; sp_network : bool; root : bool }.
Definition restricted : SandboxPolicy :=
  {| filesystem := "readonly"; sp_network := false; root := false |}.
Definition deny_all : SandboxPolicy :=
  {| filesystem := "none"; sp_network := false; root := false |}.

Lemma absolute_not_blank s : is_absolute s = true -> trim_is_empty s = false.
Proof.
  destruct s as [|a s]; [done|]. cbn [is_absolute trim_is_empty]. intros Ha%Z.eqb_eq.
  unfold between. rewrite Ha. cbn. destruct s as [|b [|c s]]; done.
Qed.

(** A configuration passes exactly when its root directory begins with a
    slash and no path that may be written is also a read-only path, compared
    as text; otherwise the message names what is wrong, the first common path
    in the order of the writable ones. *)
Theorem validate_spec config :
  (validate config = None <->
   is_absolute (root_dir config) = true
   /\ forall p, p ∈ write_paths config -> p ∉ read_only_paths config)
  /\ (is_absolute (root_dir config) = true -> forall i p,
      write_paths config !! i = Some p -> p ∈ read_only_paths config ->
      (forall j q, (j < i)%nat -> write_paths config !! j = Some q ->
                   q ∉ read_only_paths config) ->
      validate config
      = Some ("path listed in both read_only_paths and write_paths: " +:+ p)%string).
Proof.
  unfold validate. destruct (is_absolute (root_dir config)) eqn:Ha.
  - rewrite absolute_not_blank by done. cbn [negb]. split.
    + destruct (list_find _ _) as [[i w]|] eqn:Ef.
      * apply list_find_Some in Ef as (Hi & Hw & _). split; [done|]. intros [_ H].
        destruct (H w); [by eapply list_elem_of_lookup_2|done].
      * apply list_find_None in Ef. rewrite Forall_forall in Ef. naive_solver.
    + intros _ i p Hi Hp Hfirst.
      rewrite (proj2 (list_find_Some _ _ i p)); [done|]. split_and!; [done..|].
      intros j q Hj Hlt. by eapply Hfirst.
  - split; [|done]. destruct (trim_is_empty _); cbn; naive_solver.
Qed.

(** Paths are compared as text: a directory below a read-only one may be
    writable. *)
Example overlap_below :
  validate {| root_dir := "/data/astra/sandbox"; read_only_paths := ["/system"%string];
              write_paths := ["/system/"; "/system/app"]%string; network := false;
              max_level := None_ |} = None.
Proof. by vm_compute. Qed.

Example describe_default :
  describe default_config
  = "Sandbox(root=/data/astra/sandbox, ro=0, rw=0, net=false, max_level=0)"%string.
Proof. by vm_compute. Qed.
End RustSandbox.

Module Attestation.

Record AttestationToken := { at_module_id : string; timestamp : Z; hash : string }.

Class AttestationCrates := {
  attestation_to_json : AttestationToken -> option string;
  attestation_from_json : string -> option AttestationToken;
}.

(** The milliseconds since the epoch, if the clock is not before it. *)
Definition unix_millis (since_epoch : option Z) : Z :=
  match since_epoch with Some ms => u64 ms | None => 0 end.

Section attestation.
Context `{Sha256}.

(** The loop writes each byte of the digest. *)
Fixpoint write_hex (digest out : string) : string :=
  match digest with
  | EmptyString => out
  | String b digest' => write_hex digest' (out +:+ format_02x b)
  end.
Definition sha256_hex (data : string) : string := write_hex (sha256 data) EmptyString.

Definition for_module (module_id content : string) (clock : option Z) : AttestationToken :=
  {| at_module_id := module_id; timestamp := unix_millis clock; hash := sha256_hex content |}.

Definition to_json `{AttestationCrates} : AttestationToken -> option string := attestation_to_json.
Definition from_json `{AttestationCrates} : string -> option AttestationToken :=
  attestation_from_json.

Lemma write_hex_encode digest out : write_hex digest out = out +:+ hex_encode digest.
Proof.
  revert out. induction digest as [|b d IH]; intros out; cbn [write_hex hex_encode].
  - by rewrite app_str_nil_r.
  - by rewrite IH, app_str_assoc.
Qed.

(** The record of a module holds its digest in 64 lower-case digits, from
    which the digest is read back: two contents have the same record exactly
    when their digests agree. *)
Lemma for_module_spec `{!Sha256Laws} m content content' clock clock' :
  String.length (hash (for_module m content clock)) = 64%nat
  /\ hex_decode (hash (for_module m content clock)) = Returns (Some (sha256 content))
  /\ (hash (for_module m content clock) = hash (for_module m content' clock')
      <-> sha256 content = sha256 content')
  /\ 0 <= timestamp (for_module m content clock) < 2 ^ 64.
Proof.
  cbn [for_module hash timestamp]. unfold sha256_hex. rewrite !write_hex_encode. split_and!.
  - change (String.length (hex_encode (sha256 content)) = 64%nat).
    by rewrite length_hex_encode, sha256_length.
  - apply hex_decode_encode.
  - split; [|by intros ->]. intros E. apply (f_equal hex_decode) in E. cbn in E.
    rewrite !hex_decode_encode in E. by injection E.
  - destruct clock; cbn; [unfold u64; by apply Z.mod_pos_bound|lia].
  - destruct clock; cbn; [unfold u64; by apply Z.mod_pos_bound|lia].
Qed.
End attestation.
End Attestation.
