(* ===== verification/Capability.v ===== *)
(** * Capability: the capability vocabulary, the matrix and the probes

    Models [daemon/src/capability/capability.cpp], [capability_matrix.cpp]
    and [probe_detector.cpp].  The matrix is a map from capabilities to
    booleans; the probes run in [Sys]. *)

From Stdlib Require Import ZArith Ascii String Lia.
From stdpp Require Import base numbers list strings gmap.
From S2P Require Import Prelude Json.

Open Scope Z_scope.

(** ** capability.hpp, capability.cpp *)

Inductive Capability :=
| Cap_ROOT_ACCESS
| Cap_SELINUX_CONTROL
| Cap_MOUNT_NAMESPACE
| Cap_BOOT_PATCH
| Cap_SYSTEM_WRITE
| Cap_KERNEL_INTERFACE
| Cap_NETWORK
| Cap_IPC_ACCESS
| Cap_MODULE_RUNTIME
| Cap_NAMESPACE_ISOLATION
| Cap_ASTRA_ROOT
| Cap_OVERLAYFS.

#[global] Instance Capability_eq_dec : EqDecision Capability.
Proof. solve_decision. Defined.

Definition capability_name (c : Capability) : string :=
  match c with
  | Cap_ROOT_ACCESS => "ROOT_ACCESS"
  | Cap_SYSTEM_WRITE => "SYSTEM_WRITE"
  | Cap_MOUNT_NAMESPACE => "MOUNT_NAMESPACE"
  | Cap_KERNEL_INTERFACE => "KERNEL_INTERFACE"
  | Cap_BOOT_PATCH => "BOOT_PATCH"
  | Cap_SELINUX_CONTROL => "SELINUX_CONTROL"
  | Cap_NETWORK => "NETWORK"
  | Cap_IPC_ACCESS => "IPC_ACCESS"
  | Cap_MODULE_RUNTIME => "MODULE_RUNTIME"
  | Cap_NAMESPACE_ISOLATION => "NAMESPACE_ISOLATION"
  | Cap_ASTRA_ROOT => "ASTRA_ROOT"
  | Cap_OVERLAYFS => "OVERLAYFS"
  end.

Definition all_capabilities : list Capability :=
  [ Cap_ROOT_ACCESS; Cap_SYSTEM_WRITE; Cap_MOUNT_NAMESPACE; Cap_KERNEL_INTERFACE;
    Cap_BOOT_PATCH; Cap_SELINUX_CONTROL; Cap_NETWORK; Cap_IPC_ACCESS; Cap_MODULE_RUNTIME;
    Cap_NAMESPACE_ISOLATION; Cap_ASTRA_ROOT; Cap_OVERLAYFS ].

(** The enumerator's position in the declaration, its C++ value. *)
Definition capability_index (c : Capability) : nat :=
  match c with
  | Cap_ROOT_ACCESS => 0 | Cap_SELINUX_CONTROL => 1 | Cap_MOUNT_NAMESPACE => 2
  | Cap_BOOT_PATCH => 3 | Cap_SYSTEM_WRITE => 4 | Cap_KERNEL_INTERFACE => 5
  | Cap_NETWORK => 6 | Cap_IPC_ACCESS => 7 | Cap_MODULE_RUNTIME => 8
  | Cap_NAMESPACE_ISOLATION => 9 | Cap_ASTRA_ROOT => 10 | Cap_OVERLAYFS => 11
  end.

Lemma all_capabilities_complete c : c ∈ all_capabilities.
Proof. apply list_elem_of_In. destruct c; cbn; tauto. Qed.

Definition capability_of_index (n : nat) : option Capability :=
  List.find (fun c => (capability_index c =? n)%nat) all_capabilities.
Lemma capability_of_index_ok c : capability_of_index (capability_index c) = Some c.
Proof. by destruct c. Qed.

#[global] Instance Capability_countable : Countable Capability :=
  inj_countable capability_index capability_of_index capability_of_index_ok.

(** ** capability_matrix.cpp *)

Abbreviation CapabilityMatrix := (gmap Capability bool).

Definition matrix_set (matrix : CapabilityMatrix) (capability : Capability) (enabled : bool)
    : CapabilityMatrix := <[capability := enabled]> matrix.

Definition matrix_has (matrix : CapabilityMatrix) (capability : Capability) : bool :=
  match matrix !! capability with
  | None => false
  | Some enabled => enabled
  end.

(** The loop body of [json()], with the [first] flag. *)
Fixpoint matrix_entries (matrix : CapabilityMatrix) (first : bool) (cs : list Capability)
    : string :=
  match cs with
  | [] => EmptyString
  | c :: cs' =>
      (if first then EmptyString else ",") +:+ dq +:+ capability_name c +:+ dq +:+ ":"
      +:+ (if matrix_has matrix c then "true" else "false") +:+ matrix_entries matrix false cs'
  end.

Definition matrix_json (matrix : CapabilityMatrix) : string :=
  "{" +:+ matrix_entries matrix true all_capabilities +:+ "}".

(** ** probe_detector.cpp *)

Record Probe := { probe_available : bool; probe_source : string }.

Definition read_file_contains (path needle : string) : Sys bool :=
  let! f := sys_read path in
  match f with
  | None => ret false
  | Some content => ret (existsb (fun line => contains line needle) (getlines content))
  end.

Definition read_first_line (path : string) : Sys string :=
  let! f := sys_read path in
  ret (match f with None => EmptyString | Some content => first_getline content end).

Definition CLONE_NEWNS : Z := 0x20000.
Definition CLONE_NEWPID : Z := 0x20000000.
Definition CLONE_NEWNET : Z := 0x40000000.

(** [WIFEXITED(status) && WEXITSTATUS(status) == 0]. *)
Definition exited_zero (status : Z) : bool := WIFEXITED status && (WEXITSTATUS status =? 0).

(** What the forked child does: the code it exits with. *)
Definition test_unshare_child (flag : Z) : Sys Z :=
  let! r := sys_int (OpUnshare flag) in
  let code := if r =? 0 then 0 else 1 in
  sys_do (OpExit code) ;;; ret code.

(** The parent; the status it waits for is an answer of the world. *)
Definition test_unshare (flag : Z) : Sys bool :=
  let! pid := sys_int (OpCall "fork" [] [flag]) in
  if 0 <? pid then
    let! status := sys_int (OpWaitpid pid false) in
    ret (exited_zero status)
  else ret false.

Definition probe_root : Sys Probe :=
  let! uid := sys_int (OpCall "getuid" [] []) in
  ret {| probe_available := uid =? 0; probe_source := "getuid()==" +:+ show_Z uid |}.

Definition probe_overlayfs : Sys Probe :=
  let! ok := read_file_contains "/proc/filesystems" "overlay" in
  ret {| probe_available := ok; probe_source := "/proc/filesystems" |}.

Definition probe_namespace (path : string) (flag : Z) (source : string) : Sys Probe :=
  let! exists_ := sys_exists path in
  let! can := test_unshare flag in
  ret {| probe_available := exists_ && can; probe_source := source |}.
Definition probe_mount_namespace : Sys Probe :=
  probe_namespace "/proc/self/ns/mnt" CLONE_NEWNS "/proc/self/ns/mnt + unshare(CLONE_NEWNS)".
Definition probe_pid_namespace : Sys Probe :=
  probe_namespace "/proc/self/ns/pid" CLONE_NEWPID "/proc/self/ns/pid + unshare(CLONE_NEWPID)".
Definition probe_net_namespace : Sys Probe :=
  probe_namespace "/proc/self/ns/net" CLONE_NEWNET "/proc/self/ns/net + unshare(CLONE_NEWNET)".

Definition probe_selinux : Sys Probe :=
  let! present := sys_exists "/sys/fs/selinux/enforce" in
  let! mode :=
    (if present then
       let! v := read_first_line "/sys/fs/selinux/enforce" in
       ret (if str_eqb v "1" then "enforcing" else "permissive")
     else ret "absent") in
  ret {| probe_available := present;
         probe_source := "/sys/fs/selinux/enforce (" +:+ mode +:+ ")" |}.

Definition probe_system_write : Sys Probe :=
  let! f := sys_read "/proc/mounts" in
  let lines := match f with None => [] | Some content => getlines content end in
  let rw := match List.find (fun line => contains line " /system ") lines with
            | Some line => contains line " rw," || contains line " rw "
            | None => false
            end in
  ret {| probe_available := rw; probe_source := "/proc/mounts /system flags" |}.

Definition probe_zygisk : Sys Probe :=
  let! a := sys_exists "/data/adb/modules/zygisk" in
  let! ok := (if a then ret true else sys_exists "/data/adb/magisk/zygisk") in
  ret {| probe_available := ok; probe_source := "zygisk module path" |}.

Definition probe_detect_all : Sys (list (string * Probe)) :=
  let! root := probe_root in
  let! overlayfs := probe_overlayfs in
  let! mnt := probe_mount_namespace in
  let! pid := probe_pid_namespace in
  let! net := probe_net_namespace in
  let! selinux := probe_selinux in
  let! system_write := probe_system_write in
  let! zygisk := probe_zygisk in
  let m := smap_set "root" root [] in
  let m := smap_set "overlayfs" overlayfs m in
  let m := smap_set "mount_namespace" mnt m in
  let m := smap_set "pid_namespace" pid m in
  let m := smap_set "net_namespace" net m in
  let m := smap_set "selinux" selinux m in
  let m := smap_set "system_write" system_write m in
  let m := smap_set "zygisk" zygisk m in
  ret (smap_set "boot_patch"
         {| probe_available := false;
            probe_source := "not probed in Phase 0 (needs boot partition)" |} m).

(** ** Lemmas *)

Lemma capability_name_inj : Inj (=) (=) capability_name.
Proof. intros [] []; done. Qed.

Lemma matrix_has_set_eq m c b : matrix_has (matrix_set m c b) c = b.
Proof. unfold matrix_has, matrix_set. by rewrite lookup_insert_eq. Qed.
Lemma matrix_has_set_ne m c d b : c <> d -> matrix_has (matrix_set m c b) d = matrix_has m d.
Proof. intros. unfold matrix_has, matrix_set. by rewrite lookup_insert_ne. Qed.
Lemma matrix_has_set m c d b :
  matrix_has (matrix_set m c b) d = if decide (c = d) then b else matrix_has m d.
Proof.
  case_decide; subst; [apply matrix_has_set_eq|by apply matrix_has_set_ne].
Qed.

Lemma matrix_has_empty c : matrix_has ∅ c = false.
Proof. unfold matrix_has. by rewrite lookup_empty. Qed.

(** Enabling every capability of a list. *)
Lemma matrix_has_fold cs m d :
  matrix_has (fold_left (fun m c => matrix_set m c true) cs m) d
  = bool_decide (d ∈ cs) || matrix_has m d.
Proof.
  revert m. induction cs as [|c cs IH]; intros m; cbn [fold_left].
  { rewrite bool_decide_eq_false_2; [done|]. apply not_elem_of_nil. }
  rewrite IH, matrix_has_set. destruct (decide (c = d)) as [<-|Hd].
  - rewrite (bool_decide_eq_true_2 (c ∈ c :: cs)) by set_solver. by rewrite orb_true_r.
  - f_equal. apply bool_decide_ext. set_solver.
Qed.

Definition matrix_entry (m : CapabilityMatrix) (c : Capability) : string :=
  dq +:+ capability_name c +:+ dq +:+ ":" +:+ (if matrix_has m c then "true" else "false").

Lemma matrix_entries_join m cs :
  matrix_entries m true cs = join "," (matrix_entry m <$> cs) /\
  matrix_entries m false cs = match cs with
                              | [] => EmptyString
                              | _ => "," +:+ join "," (matrix_entry m <$> cs)
                              end.
Proof.
  induction cs as [|c cs [_ IH]]; [done|].
  assert (forall b, matrix_entries m b (c :: cs)
    = (if b then EmptyString else ",") +:+ join "," (matrix_entry m <$> c :: cs)) as E.
  { intros b. cbn [matrix_entries]. rewrite IH. clear IH.
    destruct cs as [|c' cs]; cbn [fmap list_fmap join].
    - unfold matrix_entry. by rewrite !app_str_nil_r.
    - generalize (join "," (matrix_entry m c' :: (matrix_entry m <$> cs))). intros r.
      unfold matrix_entry. by rewrite !app_str_assoc. }
  by rewrite !E.
Qed.

Lemma dump_flags `{JsonLib} m cs :
  dump (JObject ((fun c => (capability_name c, JBool (matrix_has m c))) <$> cs))
  = Some ("{" +:+ join "," (matrix_entry m <$> cs) +:+ "}").
Proof.
  cbn [dump]. match goal with |- match ?go _ with _ => _ end = _ =>
    assert (go ((fun c => (capability_name c, JBool (matrix_has m c))) <$> cs)
            = Some (matrix_entry m <$> cs)) as E end; [|by rewrite E].
  induction cs as [|c cs IH]; cbn [fmap list_fmap]; [done|].
  assert (dump_string (capability_name c) = Some «capability_name c») as -> by by destruct c.
  rewrite IH. cbn [dump]. unfold matrix_entry at 2, quoted.
  by rewrite !app_str_assoc.
Qed.

(** the hand-built [CapabilityMatrix::json] is exactly what the JSON
    library would serialize for the object that lists every capability of the
    vocabulary once, under its distinct name, with the value of [has]. *)
Theorem matrix_json_serialized `{JsonLib} m :
  dump (JObject ((fun c => (capability_name c, JBool (matrix_has m c))) <$> all_capabilities))
  = Some (matrix_json m) /\
  NoDup (capability_name <$> all_capabilities) /\ (forall c, c ∈ all_capabilities).
Proof.
  split; [|split].
  - rewrite dump_flags. unfold matrix_json. by rewrite (proj1 (matrix_entries_join _ _)).
  - apply (bool_decide_unpack _). by vm_compute.
  - apply all_capabilities_complete.
Qed.
