(* ===== verification/Security.v ===== *)
(** * Security: permissions, authorization, risk, audit, and the module checks

    Models [daemon/src/security/] ([permission.cpp], [permission_database.cpp],
    [security_engine.cpp], [risk_engine.cpp], [audit_logger.cpp],
    [signature_verifier.cpp], [selinux_manager.cpp], [policy_loader.cpp]) and
    [daemon/src/module/] ([module_manager.cpp], [module_permission_checker.cpp],
    [module_runtime.cpp], [manifest_parser.cpp]).

    The permission database is a map from module ids to sets of permissions;
    its abstract specification is the history of grants and revocations. *)

From Stdlib Require Import ZArith Ascii String Lia.
From stdpp Require Import base numbers list strings gmap.
From S2P Require Import Prelude Capability.

Open Scope Z_scope.

(** ** permission.hpp, permission.cpp *)

Inductive Permission :=
| Perm_ROOT_ACCESS
| Perm_SYSTEM_WRITE
| Perm_MOUNT
| Perm_BOOT_PATCH
| Perm_SELINUX_CONTROL
| Perm_KERNEL_INTERFACE
| Perm_NETWORK_ACCESS
| Perm_FILESYSTEM_ACCESS
| Perm_IPC_ACCESS.

#[global] Instance Permission_eq_dec : EqDecision Permission.
Proof. solve_decision. Defined.

Definition permission_name (p : Permission) : string :=
  match p with
  | Perm_ROOT_ACCESS => "ROOT_ACCESS"
  | Perm_SYSTEM_WRITE => "SYSTEM_WRITE"
  | Perm_MOUNT => "MOUNT"
  | Perm_BOOT_PATCH => "BOOT_PATCH"
  | Perm_SELINUX_CONTROL => "SELINUX_CONTROL"
  | Perm_KERNEL_INTERFACE => "KERNEL_INTERFACE"
  | Perm_NETWORK_ACCESS => "NETWORK_ACCESS"
  | Perm_FILESYSTEM_ACCESS => "FILESYSTEM_ACCESS"
  | Perm_IPC_ACCESS => "IPC_ACCESS"
  end.

Definition all_permissions : list Permission :=
  [ Perm_ROOT_ACCESS; Perm_SYSTEM_WRITE; Perm_MOUNT; Perm_BOOT_PATCH; Perm_SELINUX_CONTROL;
    Perm_KERNEL_INTERFACE; Perm_NETWORK_ACCESS; Perm_FILESYSTEM_ACCESS; Perm_IPC_ACCESS ].

(** [None] is the return value [false]. *)
Definition permission_from_name (name : string) : option Permission :=
  List.find (fun p => str_eqb (permission_name p) name) all_permissions.

Lemma permission_from_name_ok p : permission_from_name (permission_name p) = Some p.
Proof. by destruct p. Qed.

#[global] Instance Permission_countable : Countable Permission :=
  inj_countable permission_name permission_from_name permission_from_name_ok.

Record PermissionRequest := {
  pr_module_id : string;
  pr_permission : Permission;
  pr_reason : string;
}.

(** ** permission_database.cpp *)

Abbreviation PermissionDatabase := (gmap string (gset Permission)).

(** [grants_[module]] creates the empty set when the key is absent. *)
Definition db_grant (db : PermissionDatabase) (module : string) (permission : Permission)
    : bool * PermissionDatabase :=
  let set := default ∅ (db !! module) in
  (negb (bool_decide (permission ∈ set)), <[module := set ∪ {[permission]}]> db).

Definition db_revoke (db : PermissionDatabase) (module : string) (permission : Permission)
    : bool * PermissionDatabase :=
  match db !! module with
  | None => (false, db)
  | Some set => (bool_decide (permission ∈ set), <[module := set ∖ {[permission]}]> db)
  end.

Definition db_check (db : PermissionDatabase) (module : string) (permission : Permission) : bool :=
  match db !! module with
  | None => false
  | Some set => bool_decide (permission ∈ set)
  end.

Definition db_revoke_all (db : PermissionDatabase) (module : string) : PermissionDatabase :=
  delete module db.

(** ** security_engine.cpp

    The engine owns the database and reads the live matrix, which the
    operations take as an argument. *)

Definition permission_to_capability (p : Permission) : option Capability :=
  match p with
  | Perm_ROOT_ACCESS => Some Cap_ROOT_ACCESS
  | Perm_SYSTEM_WRITE => Some Cap_SYSTEM_WRITE
  | Perm_MOUNT => Some Cap_MOUNT_NAMESPACE
  | Perm_BOOT_PATCH => Some Cap_BOOT_PATCH
  | Perm_SELINUX_CONTROL => Some Cap_SELINUX_CONTROL
  | Perm_KERNEL_INTERFACE => Some Cap_KERNEL_INTERFACE
  | Perm_NETWORK_ACCESS => Some Cap_NETWORK
  | Perm_IPC_ACCESS => Some Cap_IPC_ACCESS
  | Perm_FILESYSTEM_ACCESS => None
  end.

Definition authorize (matrix : CapabilityMatrix) (database : PermissionDatabase)
    (request : PermissionRequest) : bool :=
  if negb (db_check database (pr_module_id request) (pr_permission request)) then false
  else match permission_to_capability (pr_permission request) with
       | Some cap => if negb (matrix_has matrix cap) then false else true
       | None => true
       end.

Definition engine_grant (database : PermissionDatabase) (module : string) (p : Permission)
    : bool * PermissionDatabase := db_grant database module p.
Definition engine_revoke (database : PermissionDatabase) (module : string) (p : Permission)
    : bool * PermissionDatabase := db_revoke database module p.
Definition engine_check (database : PermissionDatabase) (module : string) (p : Permission) : bool :=
  db_check database module p.

(** ** module.hpp *)

Record ModulePermission := { mp_name : string }.

Record ModuleManifest := {
  mm_api_version : Z;
  mm_id : string;
  mm_name : string;
  mm_version : string;
  mm_author : string;
  mm_permissions : list ModulePermission;
}.

Record Module_ := { mod_manifest : ModuleManifest; mod_path : string }.

Definition empty_manifest : ModuleManifest :=
  {| mm_api_version := 0; mm_id := EmptyString; mm_name := EmptyString;
     mm_version := EmptyString; mm_author := EmptyString; mm_permissions := [] |}.

(** ** module_manager.cpp *)

Definition mgr_install (modules : list Module_) (path : string) : bool * list Module_ :=
  (true, modules ++ [{| mod_manifest := empty_manifest; mod_path := path |}]).

Fixpoint mgr_remove (modules : list Module_) (id : string) : bool * list Module_ :=
  match modules with
  | [] => (false, [])
  | m :: modules' =>
      if str_eqb (mm_id (mod_manifest m)) id then (true, modules')
      else let '(r, modules'') := mgr_remove modules' id in (r, m :: modules'')
  end.

Definition mgr_list (modules : list Module_) : list Module_ := modules.

(** ** module_permission_checker.cpp, module_runtime.cpp, manifest_parser.cpp *)

Definition resolve_capability (name : string) : option Capability :=
  List.find (fun c => str_eqb (capability_name c) name) all_capabilities.

Fixpoint check_permissions (perms : list ModulePermission) (matrix : CapabilityMatrix) : bool :=
  match perms with
  | [] => true
  | permission :: perms' =>
      match resolve_capability (mp_name permission) with
      | None => false
      | Some resolved => if negb (matrix_has matrix resolved) then false
                         else check_permissions perms' matrix
      end
  end.
Definition checker_check (manifest : ModuleManifest) (matrix : CapabilityMatrix) : bool :=
  check_permissions (mm_permissions manifest) matrix.

Definition runtime_start (matrix : CapabilityMatrix) (module : Module_) : bool :=
  if negb (checker_check (mod_manifest module) matrix) then false else true.
Definition runtime_stop (id : string) : bool := true.

(** The manifest is left as it was. *)
Definition manifest_parse (file : string) (output : ModuleManifest) : bool * ModuleManifest :=
  if is_empty file then (false, output) else (true, output).

(** ** risk_engine.cpp *)

Definition permission_score (name : string) : Z :=
  if str_eqb name "ROOT_ACCESS" then 30
  else if str_eqb name "BOOT_PATCH" then 40
  else if str_eqb name "NETWORK_ACCESS" then 10
  else if str_eqb name "SYSTEM_WRITE" then 20
  else if str_eqb name "SELINUX_CONTROL" then 25
  else if str_eqb name "KERNEL_INTERFACE" then 35
  else if str_eqb name "MOUNT" then 10
  else if str_eqb name "FILESYSTEM_ACCESS" then 10
  else if str_eqb name "IPC_ACCESS" then 5
  else 0.

Definition risk_calculate (module : ModuleManifest) : Z :=
  fold_left (fun score perm => i32 (score + permission_score (mp_name perm)))
    (mm_permissions module) 0.

Definition level_for_score (score : Z) : string :=
  if 100 <=? score then "CRITICAL"
  else if 60 <=? score then "HIGH"
  else if 30 <=? score then "MEDIUM"
  else "LOW".

Definition risk_level (module : ModuleManifest) : string := level_for_score (risk_calculate module).

(** ** audit_logger.cpp *)

Definition audit_log_path (log_path : string) : string :=
  if is_empty log_path then "/data/astra/log/security.log" else log_path.

Definition audit_line (now module action : string) (result : bool) : string :=
  "{" +:+ «"time"» +:+ ":" +:+ «now»
  +:+ "," +:+ «"module"» +:+ ":" +:+ «module»
  +:+ "," +:+ «"action"» +:+ ":" +:+ «action»
  +:+ "," +:+ «"result"» +:+ ":" +:+ «(if result then "ALLOW" else "DENY")» +:+ "}".

Definition audit_log (log_path module action : string) (result : bool) : Sys unit :=
  let! now := sys_now in
  let line := audit_line now module action result in
  let p := parent_path log_path in
  (if is_empty p then ret tt else sys_do (OpMkdirs p)) ;;;
  sys_do (OpAppend log_path (line +:+ nl)).

(** ** signature_verifier.cpp, selinux_manager.cpp, policy_loader.cpp *)

(** [std::filesystem::path::operator/] with a relative right-hand side. *)
Definition ends_in_slash (s : string) : bool :=
  match rev (String.list_ascii_of_string s) with c :: _ => is_slash c | [] => false end.
Definition path_join (a b : string) : string :=
  if is_empty a || ends_in_slash a then a +:+ b else a +:+ "/" +:+ b.

(** [None] is the exception of [std::filesystem::exists]. *)
Definition signature_verify (module_path : string) : Sys (option bool) :=
  let? signed := sys_fs_exists (path_join module_path "signature.sig") in
  if negb signed then ret (Some true) else ret (Some true).

Definition selinux_enabled : Sys bool :=
  let! f := sys_read "/sys/fs/selinux/enforce" in
  ret (match f with Some _ => true | None => false end).

(** [value] keeps its initial -1 when the file cannot be opened. *)
Definition selinux_enforcing : Sys bool :=
  let! f := sys_read "/sys/fs/selinux/enforce" in
  let value := match f with None => -1 | Some content => scan_int content end in
  ret (value =? 1).

Definition selinux_loadPolicy : Sys bool :=
  let! en := selinux_enabled in
  if negb en then ret false
  else let! _ := selinux_enforcing in ret true.

Definition policy_load (policy_path : string) : Sys (option bool) :=
  let? there := sys_fs_exists policy_path in
  if negb there then ret (Some false) else ret (Some true).

(** ** The permission database against the history of its operations *)

Inductive sec_op :=
| OpGrant (module : string) (p : Permission)
| OpRevoke (module : string) (p : Permission)
| OpRevokeAll (module : string).

Definition sec_step (db : PermissionDatabase) (o : sec_op) : PermissionDatabase :=
  match o with
  | OpGrant m p => (engine_grant db m p).2
  | OpRevoke m p => (engine_revoke db m p).2
  | OpRevokeAll m => db_revoke_all db m
  end.

(** The specification: the most recent operation that concerns the module
    and the permission was a grant. *)
Fixpoint granted (recent_first : list sec_op) (m : string) (p : Permission) : bool :=
  match recent_first with
  | [] => false
  | OpGrant m' p' :: ops =>
      if bool_decide (m' = m /\ p' = p) then true else granted ops m p
  | OpRevoke m' p' :: ops =>
      if bool_decide (m' = m /\ p' = p) then false else granted ops m p
  | OpRevokeAll m' :: ops => if bool_decide (m' = m) then false else granted ops m p
  end.

Lemma db_check_grant db m p m' p' :
  db_check (db_grant db m p).2 m' p'
  = if bool_decide (m = m' /\ p = p') then true else db_check db m' p'.
Proof.
  unfold db_check, db_grant. cbn [snd]. destruct (decide (m = m')) as [<-|Hm].
  - rewrite lookup_insert_eq. destruct (decide (p = p')) as [<-|Hp].
    + rewrite (bool_decide_eq_true_2 (m = m /\ p = p)) by done.
      apply bool_decide_eq_true_2. set_solver.
    + rewrite (bool_decide_eq_false_2 (m = m /\ p = p')) by naive_solver.
      destruct (db !! m) as [s|]; cbn [default]; [apply bool_decide_ext; set_solver|].
      apply bool_decide_eq_false_2. set_solver.
  - rewrite lookup_insert_ne by done. by rewrite (bool_decide_eq_false_2 (m = m' /\ p = p')) by naive_solver.
Qed.

Lemma db_check_revoke db m p m' p' :
  db_check (db_revoke db m p).2 m' p'
  = if bool_decide (m = m' /\ p = p') then false else db_check db m' p'.
Proof.
  unfold db_check, db_revoke. destruct (db !! m) as [s|] eqn:E; cbn [snd].
  - destruct (decide (m = m')) as [<-|Hm].
    + rewrite lookup_insert_eq, E. destruct (decide (p = p')) as [<-|Hp].
      * rewrite (bool_decide_eq_true_2 (m = m /\ p = p)) by done.
        apply bool_decide_eq_false_2. set_solver.
      * rewrite (bool_decide_eq_false_2 (m = m /\ p = p')) by naive_solver.
        apply bool_decide_ext. set_solver.
    + rewrite lookup_insert_ne by done.
      by rewrite (bool_decide_eq_false_2 (m = m' /\ p = p')) by naive_solver.
  - case_bool_decide as Hd; [|done]. destruct Hd as [<- <-]. by rewrite E.
Qed.

Lemma db_check_revoke_all db m m' p' :
  db_check (db_revoke_all db m) m' p' = if bool_decide (m = m') then false else db_check db m' p'.
Proof.
  unfold db_check, db_revoke_all. case_bool_decide as Hm; subst.
  - by rewrite lookup_delete_eq.
  - by rewrite lookup_delete_ne.
Qed.

Lemma db_check_granted ops m p :
  db_check (fold_left sec_step ops ∅) m p = granted (rev ops) m p.
Proof.
  induction ops as [|o ops IH] using rev_ind; [done|].
  rewrite fold_left_app, rev_app_distr. cbn [fold_left rev app].
  destruct o; cbn [sec_step granted];
    unfold engine_grant, engine_revoke;
    rewrite ?db_check_grant, ?db_check_revoke, ?db_check_revoke_all; by case_bool_decide.
Qed.

(** C18: after any sequence of grants, revocations and uninstall wipes,
    [SecurityEngine::authorize] allows a request exactly when the most recent
    operation about that module and permission was a grant and the device
    offers the capability the permission is gated on (FILESYSTEM_ACCESS has no
    gate); [grant] reports whether the grant is new and [revoke] whether one
    was removed. *)
Theorem authorize_refines_history matrix ops m p reason :
  let db := fold_left sec_step ops ∅ in
  authorize matrix db {| pr_module_id := m; pr_permission := p; pr_reason := reason |}
  = granted (rev ops) m p
    && match permission_to_capability p with Some c => matrix_has matrix c | None => true end /\
  engine_check db m p = granted (rev ops) m p /\
  (engine_grant db m p).1 = negb (granted (rev ops) m p) /\
  (engine_revoke db m p).1 = granted (rev ops) m p.
Proof.
  cbn zeta. rewrite <-db_check_granted. set (db := fold_left sec_step ops ∅).
  split_and!.
  - unfold authorize. cbn. destruct (db_check db m p); cbn; [|done].
    destruct (permission_to_capability p) as [c|]; [|done]. by destruct (matrix_has matrix c).
  - done.
  - unfold engine_grant, db_grant, db_check. cbn. by destruct (db !! m).
  - unfold engine_revoke, db_revoke, db_check. cbn. by destruct (db !! m).
Qed.

(** ** The module permission check *)

Lemma resolve_capability_spec name c :
  resolve_capability name = Some c <-> capability_name c = name.
Proof.
  unfold resolve_capability. split.
  - intros [_ E]%List.find_some. by apply str_eqb_true in E.
  - intros <-. by destruct c.
Qed.

(** a module starts exactly when every permission of its manifest is the
    name of a capability that the matrix has; in particular one unknown name
    or one missing capability refuses the module, and growing the matrix never
    stops a module that started. *)
Theorem runtime_start_spec matrix module :
  runtime_start matrix module = true <->
  Forall (fun perm => exists c, capability_name c = mp_name perm /\ matrix_has matrix c = true)
    (mm_permissions (mod_manifest module)).
Proof.
  unfold runtime_start, checker_check.
  assert (forall ps, check_permissions ps matrix = true <->
    Forall (fun perm => exists c, capability_name c = mp_name perm /\ matrix_has matrix c = true) ps)
    as E.
  { induction ps as [|q ps IH]; cbn [check_permissions]; [by split|].
    rewrite Forall_cons, <-IH. destruct (resolve_capability (mp_name q)) as [c|] eqn:Er.
    - apply resolve_capability_spec in Er. destruct (matrix_has matrix c) eqn:Eh; cbn [negb].
      + split; [intros; split; [eauto|done]|by intros [_ ?]].
      + split; [done|]. intros [(d & Ed & Hd) _]. rewrite <-Er in Ed.
        apply capability_name_inj in Ed as ->. congruence.
    - split; [done|]. intros [(d & Ed & Hd) _]. apply resolve_capability_spec in Ed. congruence. }
  rewrite <-E. by destruct (check_permissions _ _).
Qed.

(** ** Risk *)

Definition score_sum (ps : list ModulePermission) : Z :=
  foldr (fun p acc => permission_score (mp_name p) + acc) 0 ps.

Lemma permission_score_bound name : 0 <= permission_score name <= 40.
Proof. unfold permission_score. repeat case_match; lia. Qed.

Lemma score_sum_bound ps : 0 <= score_sum ps <= 40 * Z.of_nat (length ps).
Proof.
  induction ps as [|p ps IH]; cbn [score_sum foldr length]; [lia|].
  pose proof (permission_score_bound (mp_name p)). unfold score_sum in IH. lia.
Qed.

Lemma risk_fold ps : forall acc,
  0 <= acc -> acc + 40 * Z.of_nat (length ps) < 2 ^ 31 ->
  fold_left (fun score perm => i32 (score + permission_score (mp_name perm))) ps acc
  = acc + score_sum ps.
Proof.
  induction ps as [|p ps IH]; intros acc H0 H1; cbn [fold_left score_sum foldr]; [lia|].
  cbn [length] in H1. pose proof (permission_score_bound (mp_name p)).
  assert (i32 (acc + permission_score (mp_name p)) = acc + permission_score (mp_name p)) as ->.
  { unfold i32. rewrite Z.mod_small by lia. lia. }
  rewrite IH by lia. unfold score_sum. lia.
Qed.

(** Every name the module check accepts but that is not also the name of a
    security permission. *)
Definition unscored : list Capability :=
  [ Cap_MOUNT_NAMESPACE; Cap_NETWORK; Cap_MODULE_RUNTIME; Cap_NAMESPACE_ISOLATION;
    Cap_ASTRA_ROOT; Cap_OVERLAYFS ].

(** for every manifest with fewer than 50 million permissions the risk
    score is the sum of the weights of its permissions (the [int] accumulator
    does not wrap), so it depends neither on their order nor on unknown names,
    and adding permissions never lowers it; but the capability names that have
    no permission of the same name, MOUNT_NAMESPACE and NETWORK among them,
    weigh nothing although the module check accepts them. *)
Theorem risk_calculate_spec m :
  Z.of_nat (length (mm_permissions m)) < 50000000 ->
  risk_calculate m = score_sum (mm_permissions m) /\
  (forall m', mm_permissions m ≡ₚ mm_permissions m' -> risk_calculate m' = risk_calculate m) /\
  (forall m', mm_permissions m' ⊆+ mm_permissions m -> risk_calculate m' <= risk_calculate m) /\
  (forall c, permission_score (capability_name c) = 0 <-> c ∈ unscored).
Proof.
  intros Hn. unfold risk_calculate. rewrite risk_fold by lia. rewrite Z.add_0_l.
  assert (forall l l', l ≡ₚ l' -> score_sum l = score_sum l') as Hperm.
  { induction 1; cbn [score_sum foldr] in *; unfold score_sum in *; cbn [foldr]; lia. }
  split_and!; [done|..].
  - intros m' Hp. rewrite risk_fold, <-(Hperm _ _ Hp) by (rewrite <-?(Permutation_length Hp); lia). lia.
  - intros m' Hs. pose proof (submseteq_length _ _ Hs).
    rewrite risk_fold by lia. apply submseteq_Permutation in Hs as [k Hk].
    rewrite (Hperm _ _ Hk). unfold score_sum. rewrite foldr_app.
    fold (score_sum k). pose proof (score_sum_bound k) as Hb. generalize dependent (score_sum k).
    intros z Hb. clear -Hb. induction (mm_permissions m') as [|p ps IH]; cbn [foldr]; lia.
  - intros c. rewrite <-(bool_decide_eq_true (c ∈ unscored)). by destruct c.
Qed.

Definition sample_manifest : ModuleManifest :=
  {| mm_api_version := 2; mm_id := "m"; mm_name := "m"; mm_version := "1"; mm_author := "a";
     mm_permissions := [{| mp_name := "BOOT_PATCH" |}; {| mp_name := "NETWORK" |}] |}.

Lemma risk_calculate_spec_witness : risk_calculate sample_manifest = 40.
Proof.
  assert (Z.of_nat (length (mm_permissions sample_manifest)) < 50000000) as Hn by (cbn; lia).
  destruct (risk_calculate_spec sample_manifest Hn) as [E _]. exact E.
Defined.

(** ** The audit log *)

Lemma getlines_line a b : no_char newline a -> getlines (a +:+ String newline b) = a :: getlines b.
Proof.
  induction a as [|c a IH]; intros Hn; cbn [getlines String.append].
  - by rewrite Ascii.eqb_refl.
  - destruct Hn as [Hc Hn]. destruct (Ascii.eqb_spec c newline) as [->|_]; [done|]. by rewrite IH.
Qed.


Lemma audit_line_no_newline now m a r :
  no_char newline now -> no_char newline m -> no_char newline a ->
  no_char newline (audit_line now m a r).
Proof.
  intros. unfold audit_line, quoted. rewrite !no_char_app.
  split_and!; try done; try (by destruct r); cbn; repeat split; done.
Qed.

Definition audit_prefix (now : string) : string :=
  "{" +:+ «"time"» +:+ ":" +:+ «now» +:+ "," +:+ «"module"» +:+ ":" +:+ dq.
Lemma audit_line_split now m a r : exists tail, audit_line now m a r = audit_prefix now +:+ m +:+ tail.
Proof. eexists. unfold audit_line, audit_prefix, quoted at 4. by rewrite !app_str_assoc. Qed.

(** A module id that closes its own entry and adds another one. *)
Definition forged_module (now m a : string) : string :=
  "x" +:+ dq +:+ "}" +:+ nl +:+ audit_line now m a true +:+ nl.

(** [AuditLogger::log] appends one line per call when the module id and
    the action contain no newline, but it escapes neither: for every entry
    there is a module id that makes a denied request append that entry, with
    the result ALLOW, as a line of its own. *)
Theorem audit_log_lines path now_w h module action result :
  let now := w_now now_w h in
  let appended m r := audit_line now m action r +:+ nl in
  no_char newline now ->
  (audit_log path module action result now_w h).2
  = h ++ [OpNow] ++ (if is_empty (parent_path path) then [] else [OpMkdirs (parent_path path)])
      ++ [OpAppend path (appended module result)] /\
  (no_char newline module -> no_char newline action ->
   getlines (appended module result) = [audit_line now module action result]) /\
  (forall m a, no_char newline m -> no_char newline a ->
   In (audit_line now m a true) (getlines (appended (forged_module now m a) false))).
Proof.
  intros now appended Hnow. split; [|split].
  - unfold audit_log, bind, sys_now, sys_do, ret. cbn. destruct (is_empty _); cbn;
      by rewrite <-!(assoc_L (++)).
  - intros Hm Ha. unfold appended, nl. rewrite getlines_line by by apply audit_line_no_newline. done.
  - intros m a Hm Ha. unfold appended.
    destruct (audit_line_split now (forged_module now m a) action false) as [tail ->].
    assert ((audit_prefix now +:+ forged_module now m a +:+ tail) +:+ nl
      = (audit_prefix now +:+ "x" +:+ dq +:+ "}")
        +:+ String newline (audit_line now m a true +:+ String newline (tail +:+ nl))) as ->.
    { unfold forged_module. by rewrite !app_str_assoc. }
    rewrite getlines_line, getlines_line; [right; by left| |].
    + by apply audit_line_no_newline.
    + unfold audit_prefix, quoted. rewrite !no_char_app. split_and!; try done; cbn; repeat split; done.
Qed.

(** A world whose clock shows a fixed time and where nothing else answers. *)
Definition fixed_clock (t : string) : World :=
  {| w_exists _ _ := false; w_read _ _ := None; w_popen _ _ := None;
     w_now _ := t; w_int _ _ := 0 |}.

Lemma audit_log_lines_witness :
  let now := "2026-07-26T12:00:00Z" in
  In (audit_line now "good" "ROOT_ACCESS" true)
    (getlines (audit_line now (forged_module now "good" "ROOT_ACCESS") "ROOT_ACCESS" false +:+ nl)).
Proof.
  refine (proj2 (proj2 (audit_log_lines "/data/astra/log/security.log"
    (fixed_clock "2026-07-26T12:00:00Z") [] "m" "ROOT_ACCESS" true _)) "good" "ROOT_ACCESS" _ _);
    cbn; repeat split; discriminate.
Defined.
