(* ===== verification/RootRuntime.v ===== *)
(** * RootRuntime: the AstraRoot backend

    Models [daemon/src/root/]: the runtime with its namespace, overlay and
    boot managers as a state record driven by [prepare], [start], [stop] and
    [recover], and the command, mount, file and namespace helpers behind the
    [AstraRoot] facade.  A null [const char*] argument of [mount] is the empty
    string; the code is taken in its [__linux__] configuration. *)

From Stdlib Require Import ZArith Ascii String Lia.
From stdpp Require Import base numbers list strings.
From S2P Require Import Prelude Capability.

Open Scope Z_scope.

Definition MS_BIND : Z := 4096.
Definition MS_REC_PRIVATE : Z := Z.lor 16384 262144.   (* MS_REC | MS_PRIVATE *)
Definition SIGTERM : Z := 15.

(** ** overlay_config.cpp, overlay_manager.cpp *)

Record OverlayConfig := {
  oc_lowerdir : string;
  oc_upperdir : string;
  oc_workdir : string;
  oc_merged : string;
}.

Definition build_overlay_options (cfg : OverlayConfig) : string :=
  "lowerdir=" +:+ oc_lowerdir cfg +:+ ",upperdir=" +:+ oc_upperdir cfg
  +:+ ",workdir=" +:+ oc_workdir cfg.

Definition build_overlay_config (partition : string) : OverlayConfig :=
  {| oc_lowerdir := "/" +:+ partition;
     oc_upperdir := "/data/astra/overlay/" +:+ partition +:+ "/upper";
     oc_workdir := "/data/astra/overlay/" +:+ partition +:+ "/work";
     oc_merged := "/mnt/astra/" +:+ partition |}.

(** The private copy of the option builder in overlay_manager.cpp. *)
Definition build_options (cfg : OverlayConfig) : string :=
  "lowerdir=" +:+ oc_lowerdir cfg +:+ ",upperdir=" +:+ oc_upperdir cfg
  +:+ ",workdir=" +:+ oc_workdir cfg.

Definition ensure_dir (path : string) : Sys bool := sys_ok (OpMkdirs path).

Definition overlay_mount (cfg : OverlayConfig) : Sys bool :=
  let! a := ensure_dir (oc_upperdir cfg) in
  if negb a then ret false
  else let! b := ensure_dir (oc_workdir cfg) in
  if negb b then ret false
  else let! c := ensure_dir (oc_merged cfg) in
  if negb c then ret false
  else sys_ok (OpMount "overlay" (oc_merged cfg) "overlay" 0 (build_options cfg)).

Definition mount_partition (name : string) : Sys bool :=
  overlay_mount {| oc_lowerdir := "/" +:+ name;
                   oc_upperdir := "/data/astra/overlay/" +:+ name +:+ "/upper";
                   oc_workdir := "/data/astra/overlay/" +:+ name +:+ "/work";
                   oc_merged := "/mnt/astra/" +:+ name |}.

Definition overlay_unmount (target : string) : Sys bool := sys_ok (OpUmount target 0).

(** ** namespace_manager.cpp: the state is [namespace_pid_], -1 when there is none *)

Definition ns_create (pid : Z) : Sys (bool * Z) :=
  let! ok := sys_ok (OpUnshare CLONE_NEWNS) in
  if negb ok then ret (false, pid)
  else
    sys_do (OpMount EmptyString "/" EmptyString MS_REC_PRIVATE EmptyString) ;;;
    let! self := sys_int (OpCall "getpid" [] []) in
    ret (true, self).
Definition ns_enter (pid : Z) : bool := negb (pid =? -1).
Definition ns_destroy (pid : Z) : bool * Z := (true, -1).

(** ** boot_manager.cpp *)

Inductive BootImage := BootUnknown | BOOT_IMG | VENDOR_BOOT | INIT_BOOT.

(** [None] is the exception of [std::filesystem::exists]. *)
Definition boot_detect : Sys (option BootImage) :=
  let? a := sys_fs_exists "/dev/block/by-name/init_boot" in
  if a then ret (Some INIT_BOOT)
  else let? b := sys_fs_exists "/dev/block/by-name/vendor_boot" in
  if b then ret (Some VENDOR_BOOT)
  else let? c := sys_fs_exists "/dev/block/by-name/boot" in
  if c then ret (Some BOOT_IMG)
  else ret (Some BootUnknown).

Definition boot_patch : Sys (option bool) :=
  let? img := boot_detect in
  ret (Some (match img with BootUnknown => false | _ => true end)).
Definition boot_restore : bool := true.

(** ** root_runtime.cpp

    [rr_ns] is the pid held by the namespace manager when there is one; the
    overlay and boot managers have no state of their own. *)

Record RootRuntime := {
  rr_initialized : bool;
  rr_prepared : bool;
  rr_ns : option Z;
  rr_overlay : bool;
  rr_boot : bool;
}.

Definition fresh_runtime : RootRuntime :=
  {| rr_initialized := false; rr_prepared := false; rr_ns := None;
     rr_overlay := false; rr_boot := false |}.

Definition prepare (rr : RootRuntime) : bool * RootRuntime :=
  if rr_prepared rr then (true, rr)
  else (true, {| rr_initialized := rr_initialized rr; rr_prepared := true; rr_ns := rr_ns rr;
                 rr_overlay := rr_overlay rr; rr_boot := rr_boot rr |}).

(** The result is [None] when the detection of the boot image throws out of
    [start]; the managers are made by then and [initialized_] is not set. *)
Definition start (rr : RootRuntime) : Sys (option bool * RootRuntime) :=
  if rr_initialized rr then ret (Some true, rr)
  else
    let '(prepared, rr) := if rr_prepared rr then (true, rr) else prepare rr in
    if negb prepared then ret (Some false, rr)
    else
      let! '(ok, pid) := ns_create (-1) in
      if negb ok then
        ret (Some false, {| rr_initialized := false; rr_prepared := rr_prepared rr; rr_ns := Some pid;
                       rr_overlay := true; rr_boot := true |})
      else
        let! _ := mount_partition "system" in
        let! _ := mount_partition "vendor" in
        let! img := boot_detect in
        let up := bool_decide (img <> None) in
        ret (if up then Some true else None,
             {| rr_initialized := up; rr_prepared := rr_prepared rr; rr_ns := Some pid;
                rr_overlay := true; rr_boot := true |}).

Definition stop (rr : RootRuntime) : Sys (bool * RootRuntime) :=
  if negb (rr_initialized rr) then ret (true, rr)
  else
    (if rr_overlay rr then
       let! _ := overlay_unmount "/mnt/astra/system" in
       let! _ := overlay_unmount "/mnt/astra/vendor" in
       ret tt
     else ret tt) ;;;
    ret (true, fresh_runtime).

Definition recover (rr : RootRuntime) : Sys (option bool * RootRuntime) :=
  let! '(_, rr) := stop rr in start rr.

Definition ready (rr : RootRuntime) : bool := rr_initialized rr.

(** ** command_runtime.cpp, namespace_executor.cpp

    [popen] is given [c_str()] of the command.

    [fgets] reads the pipe in chunks that end after a newline or [size - 1]
    bytes, and [+=] stops at a NUL byte inside a chunk. *)

Fixpoint fgets_collect (size room : nat) (cut : bool) (s : string) : string :=
  match s with
  | EmptyString => EmptyString
  | String c s' =>
      let cut' := cut || Ascii.eqb c (ascii_of_nat 0) in
      let rest := if Ascii.eqb c newline || (room =? 1)%nat
                  then fgets_collect size (size - 1) false s'
                  else fgets_collect size (room - 1) cut' s' in
      if cut' then rest else String c rest
  end.
Definition fgets_all (size : nat) (s : string) : string := fgets_collect size (size - 1) false s.

Record CommandResult := { cr_success : bool; cr_exit_code : Z; cr_output : string }.

Definition command_execute (command : string) : Sys CommandResult :=
  let! pipe := sys_popen (c_str command) in
  match pipe with
  | None => ret {| cr_success := false; cr_exit_code := -1; cr_output := EmptyString |}
  | Some (out, status) =>
      ret {| cr_success := status =? 0; cr_exit_code := status; cr_output := fgets_all 256 out |}
  end.

Definition enterNamespace : bool := true.
Definition namespace_execute (command : string) : Sys CommandResult :=
  if negb enterNamespace then
    ret {| cr_success := false; cr_exit_code := -1; cr_output := "namespace unavailable" |}
  else command_execute command.

(** ** mount_manager.cpp, file_manager.cpp, hook_manager.cpp *)

Definition bind_mount (source target : string) : Sys bool :=
  sys_ok (OpMount source target EmptyString MS_BIND EmptyString).
Definition bind_umount (target : string) : Sys bool := sys_ok (OpUmount target 0).

Definition file_read (path : string) : Sys (option string) := sys_read path.
Definition file_write (path data : string) : Sys bool := sys_ok (OpWrite path data).
Definition file_remove (path : string) : Sys bool := sys_ok (OpRemove path).

Definition registerHook : bool := true.
Definition removeHook : bool := true.

(** ** astra_root.cpp: the facade; the state is [ready_] *)

Definition astra_initialize (ready_ : bool) : bool * bool := (true, true).

Definition astra_execute (ready_ : bool) (command : string) : Sys CommandResult :=
  if negb ready_ then
    ret {| cr_success := false; cr_exit_code := -1; cr_output := "AstraRoot not initialized" |}
  else command_execute command.

Definition astra_mount (ready_ : bool) (source target : string) : Sys bool :=
  if ready_ then bind_mount source target else ret false.
Definition astra_umount (ready_ : bool) (target : string) : Sys bool :=
  if ready_ then bind_umount target else ret false.
Definition astra_readFile (ready_ : bool) (path : string) : Sys (option string) :=
  if ready_ then file_read path else ret None.
Definition astra_writeFile (ready_ : bool) (path data : string) : Sys bool :=
  if ready_ then file_write path data else ret false.

(** ** namespace_context.cpp: a forked child that holds a namespace *)

(** What the child does before it sleeps; [false] when it exits instead. *)
Definition holder_child : Sys bool :=
  let! ok := sys_ok (OpUnshare CLONE_NEWNS) in
  if negb ok then (sys_do (OpExit 1) ;;; ret false)
  else (sys_do (OpMount EmptyString "/" EmptyString MS_REC_PRIVATE EmptyString) ;;; ret true).

(** The parent; the answer of [fork] is positive or negative there. *)
Definition context_create (pid : Z) : Sys (bool * Z) :=
  let! child := sys_int (OpCall "fork" [] []) in
  if child <? 0 then ret (false, pid) else ret (true, child).
Definition isolateMount (pid : Z) : bool := if pid <? 0 then false else true.
Definition switchNamespace (pid : Z) : bool := if pid <? 0 then false else true.
Definition context_destroy (pid : Z) : Sys unit :=
  if 0 <? pid then
    sys_do (OpKill pid SIGTERM) ;;; sys_do (OpWaitpid pid false)
  else ret tt.

(** ** The life cycle as a transition system *)

Inductive rr_op := RPrepare | RStart | RStop | RRecover.

Definition rr_step (o : rr_op) (rr : RootRuntime) : Sys (option bool * RootRuntime) :=
  match o with
  | RPrepare => let '(ok, rr) := prepare rr in ret (Some ok, rr)
  | RStart => start rr
  | RStop => let! '(ok, rr) := stop rr in ret (Some ok, rr)
  | RRecover => recover rr
  end.

Inductive rr_reachable (w : World) : RootRuntime -> trace -> Prop :=
| rr_init : rr_reachable w fresh_runtime []
| rr_next rr h o : rr_reachable w rr h ->
    rr_reachable w (rr_step o rr w h).1.2 (rr_step o rr w h).2.

(** The runtime is up exactly with all of its parts and after [prepare]. *)
Definition rr_wf (rr : RootRuntime) : Prop :=
  rr_initialized rr = true ->
  rr_prepared rr = true /\ (exists pid, rr_ns rr = Some pid) /\ rr_overlay rr = true /\ rr_boot rr = true.

(** The mounts and unmounts the runtime may perform, and when. *)
Definition astra_target (target : string) : Prop :=
  target = "/mnt/astra/system" \/ target = "/mnt/astra/vendor".
Definition is_mount (o : sysop) : Prop :=
  match o with OpMount _ _ _ _ _ | OpUmount _ _ => True | _ => False end.
Definition confined (o : sysop) : Prop :=
  match o with
  | OpMount src target fstype flags _ =>
      fstype = "overlay" /\ astra_target target \/ target = "/" /\ flags = MS_REC_PRIVATE
  | OpUmount target _ => astra_target target
  | _ => True
  end.
Definition unshared (w : World) (h : trace) : Prop :=
  exists h1 h2, h = h1 ++ OpUnshare CLONE_NEWNS :: h2 /\ w_int w h1 (OpUnshare CLONE_NEWNS) = 0.
Definition isolated (w : World) (h : trace) : Prop :=
  forall h1 o h2, h = h1 ++ o :: h2 -> is_mount o -> unshared w h1 /\ confined o.

Lemma mount_partition_confined name :
  astra_target ("/mnt/astra/" +:+ name) -> emits confined (mount_partition name).
Proof. intros Hn. unfold mount_partition, overlay_mount, ensure_dir. emits_tac. by left. Qed.

Lemma boot_detect_confined : emits confined boot_detect.
Proof. unfold boot_detect. emits_tac. Qed.

(** What [start] does on a runtime that is down. *)
Lemma start_down rr w h :
  rr_initialized rr = false ->
  wp (start rr) (fun r h' =>
    if w_int w h (OpUnshare CLONE_NEWNS) =? 0
    then r.1 <> Some false /\ default false r.1 = ready r.2 /\ rr_wf r.2 /\
         exists t, h' = h ++ OpUnshare CLONE_NEWNS
           :: OpMount EmptyString "/" EmptyString MS_REC_PRIVATE EmptyString :: t
         /\ Forall confined t
    else r.1 = Some false /\ ready r.2 = false /\ h' = h ++ [OpUnshare CLONE_NEWNS]) w h.
Proof.
  intros Hi. unfold start. rewrite Hi.
  assert (exists rr1, (if rr_prepared rr then (true, rr) else prepare rr) = (true, rr1)
    /\ rr_prepared rr1 = true) as (rr1 & -> & Hp).
  { unfold prepare. destruct (rr_prepared rr) eqn:?; eexists; by split. }
  cbn [negb]. unfold ns_create. apply wp_bind, wp_bind, wp_ok.
  destruct (w_int w h (OpUnshare CLONE_NEWNS) =? 0); cbn [negb]; [|by wp_tac].
  do 2 wp_step. apply wp_bind, wp_int, wp_ret. cbn [negb]. apply wp_bind.
  eapply wp_emits; [apply mount_partition_confined; by left|intros b1 t1 H1]. apply wp_bind.
  eapply wp_emits; [apply mount_partition_confined; by right|intros b2 t2 H2]. apply wp_bind.
  eapply wp_emits; [apply boot_detect_confined|intros b3 t3 H3]. apply wp_ret. cbn.
  split_and!; [by case_bool_decide..| |]; [by intros _; cbn; eauto|].
  exists (OpCall "getpid" [] [] :: t1 ++ t2 ++ t3). split.
  - by rewrite <-!(assoc_L (++)).
  - constructor; [done|]. by rewrite !Forall_app.
Qed.

(** What [stop] does: nothing, or the two unmounts. *)
Lemma stop_spec rr w h :
  wp (stop rr) (fun r h' => r.1 = true /\ ready r.2 = false /\ rr_wf r.2 /\
    (rr_initialized rr = false -> r.2 = rr /\ h' = h) /\
    (rr_initialized rr = true -> r.2 = fresh_runtime /\
      exists t, h' = h ++ t /\ Forall confined t)) w h.
Proof.
  unfold stop. destruct (rr_initialized rr) eqn:E; cbn [negb].
  - destruct (rr_overlay rr).
    + unfold overlay_unmount. wp_tac. cbn. split_and!; try done. intros _. split; [done|].
      rewrite <-(assoc_L (++)). eexists. split; [done|].
      repeat apply Forall_cons_2; [by left|by right|done].
    + wp_tac. cbn. split_and!; try done. intros _. split; [done|]. exists [].
      by rewrite app_nil_r.
  - wp_tac. unfold rr_wf, ready. cbn. by rewrite E.
Qed.

(** ** The isolation invariant *)

Lemma isolated_nil w : isolated w [].
Proof. intros h1 o h2 E. by destruct h1. Qed.

Lemma isolated_snoc w h o :
  isolated w h -> (is_mount o -> unshared w h /\ confined o) -> isolated w (h ++ [o]).
Proof.
  intros Hh Ho h1 o' h2 E Hm. destruct (decide (h2 = [])) as [->|Hn].
  - apply app_inj_tail in E as [-> ->]. by apply Ho.
  - destruct (exists_last Hn) as (h2' & o2 & ->).
    rewrite app_comm_cons, (assoc_L (++)) in E. apply app_inj_tail in E as [-> _].
    eapply Hh; [reflexivity|done].
Qed.

Lemma unshared_app w h t : unshared w h -> unshared w (h ++ t).
Proof.
  intros (h1 & h2 & -> & Hw). exists h1, (h2 ++ t). split; [|done].
  by rewrite <-(assoc_L (++)).
Qed.

Lemma isolated_app w h t :
  isolated w h -> unshared w h -> Forall confined t -> isolated w (h ++ t).
Proof.
  intros Hh Hu. induction t as [|o t IH] using rev_ind; intros Ht; [by rewrite app_nil_r|].
  apply Forall_app in Ht as [Ht Ho]. rewrite Forall_singleton in Ho.
  rewrite (assoc_L (++)). apply isolated_snoc; [by apply IH|].
  intros _. split; [by apply unshared_app|done].
Qed.

Definition rr_inv (w : World) (rr : RootRuntime) (h : trace) : Prop :=
  rr_wf rr /\ isolated w h /\ (ready rr = true -> unshared w h).

Lemma start_inv w rr h :
  rr_inv w rr h -> wp (start rr) (fun r h' => rr_inv w r.2 h' /\ default false r.1 = ready r.2) w h.
Proof.
  intros (Hwf & Hiso & Hun). destruct (rr_initialized rr) eqn:Hi.
  { unfold start. rewrite Hi. apply wp_ret. cbn. unfold rr_inv, ready. rewrite Hi. auto. }
  eapply wp_mono; [by apply start_down|]. intros [ok rr'] h'. cbn.
  destruct (w_int w h (OpUnshare CLONE_NEWNS) =? 0) eqn:Hw.
  - intros (_ & Hr & Hwf' & t & -> & Ht). apply Z.eqb_eq in Hw.
    assert (isolated w (h ++ [OpUnshare CLONE_NEWNS])) as Hiso'
      by (apply isolated_snoc; [done|by intros []]).
    assert (unshared w (h ++ [OpUnshare CLONE_NEWNS])) as Hun' by (exists h, []; done).
    change (OpUnshare CLONE_NEWNS :: ?t) with ([OpUnshare CLONE_NEWNS] ++ t).
    rewrite (assoc_L (++)). split; [|done]. split; [done|]. split.
    + apply isolated_app; [done..|]. constructor; [by right|done].
    + intros _. by apply unshared_app.
  - intros (-> & Hr & ->). split; [|done]. split; [|split].
    + intros Hi'. unfold ready in Hr. congruence.
    + apply isolated_snoc; [done|by intros []].
    + by rewrite Hr.
Qed.

Lemma stop_inv w rr h :
  rr_inv w rr h -> wp (stop rr) (fun r h' => rr_inv w r.2 h' /\ ready r.2 = false) w h.
Proof.
  intros (Hwf & Hiso & Hun). eapply wp_mono; [apply stop_spec|].
  intros [ok rr'] h' (_ & Hr & Hwf' & Hdown & Hup). cbn in *. split; [|done].
  split; [done|]. split; [|by rewrite Hr].
  destruct (rr_initialized rr) eqn:Hi.
  - destruct Hup as (_ & t & -> & Ht); [done|]. apply isolated_app; auto.
  - by destruct Hdown as [_ ->].
Qed.

Lemma prepare_inv w rr h : rr_inv w rr h -> rr_inv w (prepare rr).2 h.
Proof.
  intros (Hwf & Hiso & Hun). unfold prepare, rr_inv, rr_wf, ready in *.
  destruct (rr_prepared rr) eqn:?; cbn; (split; [|done]);
    intros Hi; destruct (Hwf Hi) as (? & ? & ? & ?); done.
Qed.

Lemma recover_inv w rr h :
  rr_inv w rr h -> wp (recover rr) (fun r h' => rr_inv w r.2 h' /\ default false r.1 = ready r.2) w h.
Proof.
  intros Hinv. unfold recover. apply wp_bind. eapply wp_mono; [by apply stop_inv|].
  intros [ok rr'] h' [Hinv' _]. by apply start_inv.
Qed.

Lemma rr_reachable_inv w rr h : rr_reachable w rr h -> rr_inv w rr h.
Proof.
  induction 1 as [|rr h o _ IH].
  - split; [done|]. split; [apply isolated_nil|done].
  - destruct o; cbn [rr_step].
    + pose proof (prepare_inv w rr h IH) as Hp. by destruct (prepare rr).
    + by destruct (wp_run _ _ _ _ (start_inv w rr h IH)).
    + destruct (wp_run _ _ _ _ (stop_inv w rr h IH)) as [Hs _]. unfold bind.
      by destruct (stop rr w h) as [[ok rr'] h'].
    + by destruct (wp_run _ _ _ _ (recover_inv w rr h IH)).
Qed.

Lemma returned_true (r : option bool) (b : bool) :
  default false r = b -> (r = Some true <-> b = true).
Proof. intros <-. by destruct r as [[]|]. Qed.

(** C23: in every state the AstraRoot runtime can reach by prepare, start,
    stop and recover, whatever the system answers: when it reports ready it
    was prepared and holds its namespace, overlay and boot managers and an
    unshare(CLONE_NEWNS) has succeeded; every mount or unmount in the whole
    history came after such a success and is the private remount of / or
    concerns an overlay at /mnt/astra/system or /mnt/astra/vendor (never
    /system itself); and start and recover return true exactly when the
    runtime is ready afterwards, also when the detection of the boot image
    throws out of them, which leaves it down; stop always leaves it down. *)
Theorem root_runtime_isolated w rr h :
  rr_reachable w rr h ->
  rr_wf rr /\ (ready rr = true -> unshared w h) /\ isolated w h /\
  ((start rr w h).1.1 = Some true <-> ready (start rr w h).1.2 = true) /\
  ((recover rr w h).1.1 = Some true <-> ready (recover rr w h).1.2 = true) /\
  ready (stop rr w h).1.2 = false.
Proof.
  intros Hinv%rr_reachable_inv. pose proof Hinv as (Hwf & Hiso & Hun).
  pose proof (wp_run _ _ _ _ (start_inv w rr h Hinv)) as [_ ?].
  pose proof (wp_run _ _ _ _ (recover_inv w rr h Hinv)) as [_ ?].
  pose proof (wp_run _ _ _ _ (stop_inv w rr h Hinv)) as [_ ?].
  split_and!; try done; apply returned_true; done.
Qed.

(** A system on which every call succeeds. *)
Definition all_ok : World :=
  {| w_exists _ _ := true; w_read _ _ := Some EmptyString;
     w_popen _ _ := Some (EmptyString, 0); w_now _ := EmptyString; w_int _ _ := 0 |}.

(** The mounts are done and the last path of the detection cannot be read:
    [start] does not return. *)
Definition unreadable_boot : World :=
  {| w_exists _ _ := false; w_read _ _ := None; w_popen _ _ := None; w_now _ := EmptyString;
     w_int _ o := if bool_decide (o = OpExists "/dev/block/by-name/boot") then 5 else 0 |}.
Example start_throws :
  (start fresh_runtime unreadable_boot []).1
  = (None, {| rr_initialized := false; rr_prepared := true; rr_ns := Some 0;
              rr_overlay := true; rr_boot := true |}) /\
  In (OpMount "overlay" "/mnt/astra/system" "overlay" 0
        (build_options (build_overlay_config "system"))) (start fresh_runtime unreadable_boot []).2.
Proof. vm_compute. tauto. Qed.

Lemma root_runtime_isolated_witness :
  exists rr h, rr_reachable all_ok rr h /\ ready rr = true /\ unshared all_ok h.
Proof.
  pose (r := rr_step RStart fresh_runtime all_ok []). exists r.1.2, r.2.
  assert (rr_reachable all_ok r.1.2 r.2) as Hr by (apply rr_next, rr_init).
  split; [exact Hr|]. split; [reflexivity|].
  exact (proj1 (proj2 (root_runtime_isolated _ _ _ Hr)) eq_refl).
Defined.
