(* ===== verification/Provider.v ===== *)
(** * Provider: the root backends and their clients

    Models [daemon/src/provider/] (the [RootProvider] interface, its five
    implementations, [ProviderManager] and [ProviderRegistry]),
    [capability/capability_detector.cpp], [service/permission_service.cpp] and
    [ipc/request_handler.cpp].

    The abstract class is the type class [RootProvider]; what every client
    relies on is the class [RootProviderLaws], which each backend's instance
    discharges.  A [unique_ptr<RootProvider>] is the package [AnyProvider]. *)

From Stdlib Require Import ZArith Ascii String Lia.
From stdpp Require Import base numbers list strings gmap.
From S2P Require Import Prelude Capability RootRuntime.

Open Scope Z_scope.

(** ** root_provider.hpp *)

Inductive RootType := ROOT_NONE | ROOT_MAGISK | ROOT_KERNELSU | ROOT_APATCH | ROOT_ASTRA_ROOT.
#[global] Instance RootType_eq_dec : EqDecision RootType.
Proof. solve_decision. Defined.

(** [None] as the result of [isAvailable] and [execute] is an exception;
    [execute] answers [Some output] for the return value [true] and [None]
    for [false]; [rp_destroy] is the virtual destructor. *)
Class RootProvider (P : Type) := {
  rp_type : P -> RootType;
  rp_available : P -> Sys (option bool);
  rp_execute : P -> string -> Sys (option (option string));
  rp_name : P -> string;
  rp_capabilities : P -> list Capability;
  rp_destroy : P -> Sys unit;
}.

(** Probing a backend only looks at the file system, and throws only when
    the file system cannot be read. *)
Definition only_exists (o : sysop) : Prop := match o with OpExists _ => True | _ => False end.

Class RootProviderLaws (P : Type) `{RootProvider P} := {
  law_execute (p : P) cmd w h :
    (rp_execute p cmd w h).1 = Some None <-> (rp_available p w h).1 = Some false;
  law_execute_throws (p : P) cmd : throws_iff (rp_execute p cmd);
  law_available_throws (p : P) : throws_iff (rp_available p);
  law_execute_ops (p : P) cmd : emits only_exists (rp_execute p cmd);
  law_available_ops (p : P) : emits only_exists (rp_available p);
  law_root (p : P) : rp_type p <> ROOT_NONE -> Cap_ROOT_ACCESS ∈ rp_capabilities p;
  law_none (p : P) w h : rp_type p = ROOT_NONE ->
    rp_capabilities p = [] /\ (rp_available p w h).1 = Some false;
}.

Record AnyProvider := {
  ap_class : Type;
  ap_ops : RootProvider ap_class;
  ap_laws : RootProviderLaws ap_class;
  ap_obj : ap_class;
}.
#[global] Existing Instance ap_ops.
#[global] Existing Instance ap_laws.

(** ** no_root_provider.cpp *)

Inductive NoRootProvider := MkNoRoot.

#[global] Instance NoRoot_provider : RootProvider NoRootProvider := {|
  rp_type _ := ROOT_NONE;
  rp_available _ := ret (Some false);
  rp_execute _ _ := ret (Some None);
  rp_name _ := "none";
  rp_capabilities _ := [];
  rp_destroy _ := ret tt |}.

(** ** magisk_provider.cpp *)

Inductive MagiskProvider := MkMagisk.

Definition magisk_available : Sys (option bool) := sys_fs_exists "/sbin/.magisk".
Definition magisk_execute (command : string) : Sys (option (option string)) :=
  let? a := magisk_available in
  if negb a then ret (Some None) else ret (Some (Some "Magisk execution placeholder")).
Definition magisk_capabilities : list Capability :=
  [Cap_ROOT_ACCESS; Cap_SYSTEM_WRITE; Cap_MOUNT_NAMESPACE; Cap_BOOT_PATCH; Cap_SELINUX_CONTROL].

#[global] Instance Magisk_provider : RootProvider MagiskProvider := {|
  rp_type _ := ROOT_MAGISK;
  rp_available _ := magisk_available;
  rp_execute _ := magisk_execute;
  rp_name _ := "Magisk";
  rp_capabilities _ := magisk_capabilities;
  rp_destroy _ := ret tt |}.

(** ** kernelsu_provider.cpp *)

Inductive KernelSUProvider := MkKernelSU.

Definition kernelsu_available : Sys (option bool) := sys_fs_exists "/data/adb/ksu".
Definition kernelsu_execute (command : string) : Sys (option (option string)) :=
  let? a := kernelsu_available in
  if negb a then ret (Some None) else ret (Some (Some "KernelSU execution placeholder")).
Definition kernelsu_capabilities : list Capability :=
  [Cap_ROOT_ACCESS; Cap_MOUNT_NAMESPACE; Cap_KERNEL_INTERFACE; Cap_BOOT_PATCH; Cap_SELINUX_CONTROL].

#[global] Instance KernelSU_provider : RootProvider KernelSUProvider := {|
  rp_type _ := ROOT_KERNELSU;
  rp_available _ := kernelsu_available;
  rp_execute _ := kernelsu_execute;
  rp_name _ := "KernelSU";
  rp_capabilities _ := kernelsu_capabilities;
  rp_destroy _ := ret tt |}.

(** ** apatch_provider.cpp *)

Inductive APatchProvider := MkAPatch.

Definition apatch_available : Sys (option bool) := sys_fs_exists "/data/adb/ap".
Definition apatch_execute (command : string) : Sys (option (option string)) :=
  let? a := apatch_available in
  if negb a then ret (Some None) else ret (Some (Some "APatch execution placeholder")).
Definition apatch_capabilities : list Capability :=
  [Cap_ROOT_ACCESS; Cap_MOUNT_NAMESPACE; Cap_KERNEL_INTERFACE; Cap_BOOT_PATCH; Cap_SELINUX_CONTROL].

#[global] Instance APatch_provider : RootProvider APatchProvider := {|
  rp_type _ := ROOT_APATCH;
  rp_available _ := apatch_available;
  rp_execute _ := apatch_execute;
  rp_name _ := "APatch";
  rp_capabilities _ := apatch_capabilities;
  rp_destroy _ := ret tt |}.

(** ** astra_root_provider.cpp *)

Record AstraRootProvider := { arp_runtime : RootRuntime; arp_initialized : bool }.

Definition new_astra_root : AstraRootProvider :=
  {| arp_runtime := fresh_runtime; arp_initialized := false |}.

(** The result is [None] when [start] throws. *)
Definition arp_initialize (p : AstraRootProvider) : Sys (option bool * AstraRootProvider) :=
  if arp_initialized p then ret (Some true, p)
  else
    let '(prepared, rt) := prepare (arp_runtime p) in
    if negb prepared then ret (Some false, {| arp_runtime := rt; arp_initialized := false |})
    else
      let! '(started, rt) := start rt in
      match started with
      | None => ret (None, {| arp_runtime := rt; arp_initialized := false |})
      | Some false => ret (Some false, {| arp_runtime := rt; arp_initialized := false |})
      | Some true => ret (Some true, {| arp_runtime := rt; arp_initialized := true |})
      end.

Definition arp_available (p : AstraRootProvider) : bool :=
  arp_initialized p && ready (arp_runtime p).
Definition arp_execute (p : AstraRootProvider) (command : string) : Sys (option (option string)) :=
  if negb (arp_available p) then ret (Some None) else ret (Some (Some "executed by AstraRoot")).
Definition arp_capabilities : list Capability :=
  [Cap_ROOT_ACCESS; Cap_ASTRA_ROOT; Cap_MOUNT_NAMESPACE; Cap_NAMESPACE_ISOLATION; Cap_OVERLAYFS;
   Cap_BOOT_PATCH; Cap_SYSTEM_WRITE; Cap_SELINUX_CONTROL].

(** The destructor runs the one of the runtime, which stops it. *)
#[global] Instance AstraRoot_provider : RootProvider AstraRootProvider := {|
  rp_type _ := ROOT_ASTRA_ROOT;
  rp_available p := ret (Some (arp_available p));
  rp_execute := arp_execute;
  rp_name _ := "AstraRoot";
  rp_capabilities _ := arp_capabilities;
  rp_destroy p := let! _ := stop (arp_runtime p) in ret tt |}.

(** ** The backends satisfy the interface *)

Ltac throws_tac :=
  unfold magisk_available, kernelsu_available, apatch_available;
  repeat match goal with
  | |- throws_iff (try_bind _ _) => apply throws_try_bind; [|intros ?]
  | |- throws_iff (sys_fs_exists _) => apply throws_fs_exists
  | |- throws_iff (ret (Some _)) => apply throws_ret
  | |- throws_iff (if ?b then _ else _) => destruct b
  end.

Ltac provider_laws :=
  split; cbn;
  [ intros [] cmd w h; unfold magisk_execute, kernelsu_execute, apatch_execute,
      magisk_available, kernelsu_available, apatch_available, try_bind, bind, sys_fs_exists, ret; cbn;
      try (destruct (stat_error _ _ _); [|destruct (w_exists _ _ _)]; done)
  | intros [] cmd; unfold magisk_execute, kernelsu_execute, apatch_execute; throws_tac
  | intros []; throws_tac
  | intros [] cmd; unfold magisk_execute, kernelsu_execute, apatch_execute,
      magisk_available, kernelsu_available, apatch_available; emits_tac
  | intros []; unfold magisk_available, kernelsu_available, apatch_available; emits_tac
  | intros [] ?; try done; apply list_elem_of_here
  | intros [] ? ? ?; done ].

#[global] Instance NoRoot_laws : RootProviderLaws NoRootProvider.
Proof. provider_laws. done. Qed.
#[global] Instance Magisk_laws : RootProviderLaws MagiskProvider.
Proof. provider_laws. Qed.
#[global] Instance KernelSU_laws : RootProviderLaws KernelSUProvider.
Proof. provider_laws. Qed.
#[global] Instance APatch_laws : RootProviderLaws APatchProvider.
Proof. provider_laws. Qed.
#[global] Instance AstraRoot_laws : RootProviderLaws AstraRootProvider.
Proof.
  split; cbn.
  - intros p cmd w h. unfold arp_execute. by destruct (arp_available p).
  - intros p cmd. unfold arp_execute. throws_tac.
  - intros p. throws_tac.
  - intros p cmd. unfold arp_execute. emits_tac.
  - intros p. emits_tac.
  - intros p _. apply list_elem_of_here.
  - done.
Qed.

Definition pack {P} `{RootProviderLaws P} (p : P) : AnyProvider :=
  {| ap_class := P; ap_ops := _; ap_laws := _; ap_obj := p |}.

(** ** provider_manager.cpp: the state is [provider_] *)

Abbreviation ProviderManager := (option AnyProvider).

(** [provider_ = std::move(p)] destroys the previous provider. *)
Definition replace_provider (manager : ProviderManager) (p : AnyProvider) : Sys ProviderManager :=
  match manager with
  | Some old => rp_destroy (ap_obj old) ;;; ret (Some p)
  | None => ret (Some p)
  end.

(** A provider that is not selected is destroyed on return; the destructor of
    an [AstraRootProvider] whose runtime did not start performs no call.
    [None] is an exception of one of the probes; [provider_] is as before
    then. *)
Definition pm_initialize (manager : ProviderManager) : Sys (option ProviderManager) :=
  let select p := let! m := replace_provider manager p in ret (Some m) in
  let! '(ok, astra_root) := arp_initialize new_astra_root in
  match ok with
  | None => ret None
  | Some ok =>
      if ok && arp_available astra_root then select (pack astra_root)
      else let? ksu := kernelsu_available in
      if ksu then select (pack MkKernelSU)
      else let? apatch := apatch_available in
      if apatch then select (pack MkAPatch)
      else let? magisk := magisk_available in
      if magisk then select (pack MkMagisk)
      else select (pack MkNoRoot)
  end.

Definition pm_current (manager : ProviderManager) : option AnyProvider := manager.
Definition pm_type (manager : ProviderManager) : RootType :=
  match manager with None => ROOT_NONE | Some p => rp_type (ap_obj p) end.
Definition pm_capabilities (manager : ProviderManager) : list Capability :=
  match manager with None => [] | Some p => rp_capabilities (ap_obj p) end.

(** ** provider_registry.cpp: [manager_] is a pointer that may be null *)

Definition registry_resolve (manager : option ProviderManager) (cap : Capability)
    : Sys (option (option AnyProvider)) :=
  match manager with
  | None => ret (Some None)
  | Some m =>
      match pm_current m with
      | None => ret (Some None)
      | Some p =>
          let? a := rp_available (ap_obj p) in
          if negb a then ret (Some None)
          else ret (Some (if bool_decide (cap ∈ rp_capabilities (ap_obj p)) then Some p else None))
      end
  end.

(** ** capability_detector.cpp *)

Definition capability_detect (provider : option AnyProvider) : Sys (option CapabilityMatrix) :=
  let? matrix :=
    (match provider with
     | None => ret (Some ∅)
     | Some p =>
         let? a := rp_available (ap_obj p) in
         ret (Some (if a then fold_left (fun m c => matrix_set m c true)
                                (rp_capabilities (ap_obj p)) (matrix_set ∅ Cap_ROOT_ACCESS true)
                    else ∅))
     end) in
  let? se := sys_fs_exists "/sys/fs/selinux/enforce" in
  let matrix := matrix_set matrix Cap_SELINUX_CONTROL se in
  let? ns := sys_fs_exists "/proc/self/ns/mnt" in
  let matrix := matrix_set matrix Cap_MOUNT_NAMESPACE ns in
  ret (Some (matrix_set matrix Cap_MODULE_RUNTIME true)).

(** ** permission_service.cpp *)

Definition can_execute (manager : ProviderManager) (command : string) : Sys (option bool) :=
  match pm_current manager with
  | None => ret (Some false)
  | Some p => rp_available (ap_obj p)
  end.
Definition provider_name (manager : ProviderManager) : string :=
  match pm_current manager with None => "none" | Some p => rp_name (ap_obj p) end.

(** ** request_handler.cpp *)

Definition request_resolve_capability (name : string) : option Capability :=
  List.find (fun c => str_eqb (capability_name c) name) all_capabilities.

Definition request_handle (registry : option ProviderManager) (data : string) : Sys (option bool) :=
  if str_size data <=? 0 then ret (Some false)
  else
    match str_find ":" data 0 with
    | None => ret (Some false)
    | Some sep =>
        let cap_name := take_str sep data in
        let command := drop_str (sep + 1) data in
        match request_resolve_capability cap_name with
        | None => ret (Some false)
        | Some cap =>
            let? provider := registry_resolve registry cap in
            match provider with
            | None => ret (Some false)
            | Some p =>
                let? output := rp_execute (ap_obj p) command in
                ret (Some (match output with Some _ => true | None => false end))
            end
        end
    end.

(** ** Selection *)

Lemma arp_initialize_new w h :
  wp (arp_initialize new_astra_root) (fun r h' =>
    if w_int w h (OpUnshare CLONE_NEWNS) =? 0
    then r.1 <> Some false /\ (r.1 = Some true -> arp_available r.2 = true)
    else r.1 = Some false /\ h' = h ++ [OpUnshare CLONE_NEWNS]) w h.
Proof.
  unfold arp_initialize, new_astra_root. cbn [arp_initialized arp_runtime prepare rr_prepared fresh_runtime negb].
  apply wp_bind. eapply wp_mono; [apply start_down; done|]. intros [ok rt] h'. cbn.
  destruct (w_int w h (OpUnshare CLONE_NEWNS) =? 0).
  - intros (Hn & Hr & _). destruct ok as [[]|]; [|done|by apply wp_ret].
    apply wp_ret. split; [done|]. intros _. unfold arp_available. cbn. by rewrite <-Hr.
  - intros (-> & _ & ->). by apply wp_ret.
Qed.

(** The first backend, in the order of the code, that answers the probe. *)
Definition first_available (w : World) (h : trace) : RootType :=
  let h1 := h ++ [OpUnshare CLONE_NEWNS] in
  let h2 := h1 ++ [OpExists "/data/adb/ksu"] in
  let h3 := h2 ++ [OpExists "/data/adb/ap"] in
  if w_int w h (OpUnshare CLONE_NEWNS) =? 0 then ROOT_ASTRA_ROOT
  else if w_exists w h1 "/data/adb/ksu" then ROOT_KERNELSU
  else if w_exists w h2 "/data/adb/ap" then ROOT_APATCH
  else if w_exists w h3 "/sbin/.magisk" then ROOT_MAGISK
  else ROOT_NONE.

Lemma replace_provider_type m p Q w h :
  (forall m' h', pm_type m' = rp_type (ap_obj p) -> m' <> None -> Q m' h') ->
  wp (replace_provider m p) Q w h.
Proof.
  intros HQ. unfold replace_provider. destruct m as [old|].
  - apply wp_bind. unfold wp at 1. apply wp_ret. by apply HQ.
  - apply wp_ret. by apply HQ.
Qed.

Lemma select_provider_type m p Q w h :
  (forall m' h', pm_type m' = rp_type (ap_obj p) -> m' <> None -> Q (Some m') h') ->
  wp (let! m' := replace_provider m p in ret (Some m')) Q w h.
Proof.
  intros HQ. apply wp_bind, replace_provider_type. intros m' h' Ht Hm. apply wp_ret. by apply HQ.
Qed.

(** whatever provider was active before, [ProviderManager::initialize], if
    no probe throws, ends with one active provider, the first of AstraRoot,
    KernelSU, APatch and Magisk whose probe succeeds (for AstraRoot: whose
    mount namespace can be created), and the NoRoot provider when none does. *)
Theorem provider_priority w h manager :
  match (pm_initialize manager w h).1 with
  | Some m => pm_type m = first_available w h /\ m <> None
  | None => True
  end.
Proof.
  apply (wp_run (pm_initialize manager) (fun r _ => match r with
    | Some m => pm_type m = first_available w h /\ m <> None | None => True end)).
  unfold pm_initialize, first_available. cbv zeta. apply wp_bind.
  eapply wp_mono; [apply arp_initialize_new|]. intros [ok ar] h'. cbn [fst snd].
  destruct (w_int w h (OpUnshare CLONE_NEWNS) =? 0).
  - intros [Hn Ha]. destruct ok as [[]|]; [|done|by apply wp_ret].
    rewrite Ha by done. by apply select_provider_type.
  - intros [-> ->]. cbn [andb]. unfold kernelsu_available, apatch_available, magisk_available.
    do 3 (apply wp_try_bind, wp_fs_exists; destruct (stat_error _ _ _); [done|];
          destruct (w_exists _ _ _); [by apply select_provider_type|]).
    by apply select_provider_type.
Qed.

(** ** The clients, against the interface *)

Lemma provider_available_ops (p : AnyProvider) : emits only_exists (rp_available (ap_obj p)).
Proof. apply law_available_ops. Qed.
Lemma provider_execute_ops (p : AnyProvider) cmd : emits only_exists (rp_execute (ap_obj p) cmd).
Proof. apply law_execute_ops. Qed.
#[export] Hint Resolve provider_available_ops provider_execute_ops : sys.

Definition provider_offers (provider : option AnyProvider) (c : Capability) (w : World) (h : trace)
    : bool :=
  match provider with
  | None => false
  | Some p => bool_decide ((rp_available (ap_obj p) w h).1 = Some true)
              && bool_decide (c ∈ rp_capabilities (ap_obj p))
  end.

(** The three capabilities that [capability_detect] sets last. *)
Ltac device_probes c :=
  destruct (decide (c = Cap_MODULE_RUNTIME)) as [->|?]; [by rewrite matrix_has_set_eq|];
  rewrite matrix_has_set_ne by congruence;
  destruct (decide (c = Cap_MOUNT_NAMESPACE)) as [->|?]; [by rewrite matrix_has_set_eq|];
  rewrite matrix_has_set_ne by congruence;
  destruct (decide (c = Cap_SELINUX_CONTROL)) as [->|?]; [by rewrite matrix_has_set_eq|];
  rewrite matrix_has_set_ne by congruence.

(** The detection throws exactly when one of its probes cannot be answered. *)
Lemma capability_detect_throws provider : throws_iff (capability_detect provider).
Proof.
  unfold capability_detect. apply throws_try_bind.
  - destruct provider as [p|]; [|apply throws_ret].
    apply throws_try_bind; [apply law_available_throws|]. intros a. apply throws_ret.
  - intros m. cbv zeta. throws_tac.
Qed.

(** the capability matrix of the device, for any backend that satisfies
    the provider interface, when no probe throws: SELINUX_CONTROL and
    MOUNT_NAMESPACE are what the device-side probes say, even against the
    provider; MODULE_RUNTIME always holds; every other capability holds
    exactly when the provider is available and lists it.  Without a backend
    (or with the NoRoot one) no other capability holds. *)
Theorem capability_detect_spec provider w h m h' :
  capability_detect provider w h = (Some m, h') ->
  exists h1,
    (forall c, matrix_has m c =
       if decide (c = Cap_MODULE_RUNTIME) then true
       else if decide (c = Cap_MOUNT_NAMESPACE)
         then w_exists w (h1 ++ [OpExists "/sys/fs/selinux/enforce"]) "/proc/self/ns/mnt"
       else if decide (c = Cap_SELINUX_CONTROL) then w_exists w h1 "/sys/fs/selinux/enforce"
       else provider_offers provider c w h) /\
    h' = h1 ++ [OpExists "/sys/fs/selinux/enforce"; OpExists "/proc/self/ns/mnt"].
Proof.
  unfold capability_detect, provider_offers, try_bind, bind, sys_fs_exists, ret.
  destruct provider as [p|].
  - destruct (rp_available (ap_obj p) w h) as [[a|] h1] eqn:Ha; cbn [fst snd]; [|done].
    do 2 (destruct (stat_error _ _ _); [done|]). intros [= <- <-].
    exists h1. split; [|by rewrite <-(assoc_L (++))]. intros c.
    device_probes c. destruct a; cbn [andb bool_decide]; [|apply matrix_has_empty].
    rewrite matrix_has_fold, matrix_has_set.
    case_decide as Hc; [|rewrite matrix_has_empty, orb_false_r; by apply bool_decide_ext]. subst c.
    rewrite orb_true_r. symmetry. apply bool_decide_eq_true_2, law_root. intros Hn.
    destruct (law_none (ap_obj p) w h Hn) as [_ Hf]. by rewrite Ha in Hf.
  - do 2 (destruct (stat_error _ _ _); [done|]). intros [= <- <-].
    exists h. split; [|by rewrite <-(assoc_L (++))]. intros c.
    device_probes c. apply matrix_has_empty.
Qed.

Lemma request_resolve_spec name c :
  request_resolve_capability name = Some c <-> capability_name c = name.
Proof.
  unfold request_resolve_capability. split.
  - intros [_ E]%List.find_some. by apply str_eqb_true in E.
  - intros <-. by destruct c.
Qed.

(** a text request CAPABILITY:COMMAND is dispatched only when the part
    before the first colon names a capability that the active, available
    provider lists; and for every backend behind the interface the whole
    handling performs nothing but existence checks: no backend runs the
    command (their [execute] methods return a placeholder), and no policy is
    asked. *)
Theorem request_handle_spec registry data w h :
  emits only_exists (request_handle registry data) /\
  ((request_handle registry data w h).1 = Some true ->
   exists cap command p, data = capability_name cap +:+ ":" +:+ command /\
     registry = Some (Some p) /\ provider_offers (Some p) cap w h = true /\
     rp_type (ap_obj p) <> ROOT_NONE).
Proof.
  split.
  { unfold request_handle, registry_resolve, pm_current. emits_tac. }
  unfold request_handle. destruct (str_size data <=? 0); [done|].
  destruct (str_find ":" data 0) as [sep|] eqn:Hsep; [|done].
  apply str_find_char_inv in Hsep as (Hdata & _ & _).
  destruct (request_resolve_capability (take_str sep data)) as [cap|] eqn:Hcap; [|done].
  apply request_resolve_spec in Hcap. unfold registry_resolve, pm_current.
  destruct registry as [[p|]|]; [|done|done].
  intros Hr. exists cap, (drop_str (S sep) data), p. rewrite Hcap.
  split; [exact Hdata|]. split; [done|]. cbn in *.
  unfold try_bind, bind at 1 2 in Hr. destruct (rp_available (ap_obj p) w h) as [[a|] h1] eqn:Ha;
    [|done]. destruct a; cbn [negb] in Hr; [|done]. cbn in Hr.
  destruct (bool_decide (cap ∈ rp_capabilities (ap_obj p))) eqn:Hb; [|done].
  split; [done|]. intros Hn. destruct (law_none (ap_obj p) w h Hn) as [_ Hf]. by rewrite Ha in Hf.
Qed.

Definition ksu_device : World :=
  {| w_exists _ p := str_eqb p "/data/adb/ksu"; w_read _ _ := None; w_popen _ _ := None;
     w_now _ := EmptyString; w_int _ _ := -1 |}.

Example request_handle_example :
  let m := default None (pm_initialize None ksu_device []).1 in
  pm_type m = ROOT_KERNELSU /\
  (request_handle (Some m) "KERNEL_INTERFACE:ls" ksu_device []).1 = Some true /\
  (request_handle (Some m) "OVERLAYFS:ls" ksu_device []).1 = Some false.
Proof. vm_compute. done. Qed.
