(* ===== verification/Services.v ===== *)
(** * Services: command execution, provider detection and device snapshots

    Models [daemon/src/executor/command_executor.cpp],
    [provider/provider_detector.cpp], [service/provider_service.cpp],
    [service/capability_service.cpp], [ipc/message_router.cpp],
    [ipc/protobuf_handler.cpp] and [execution/execution_handler.cpp]. *)

From Stdlib Require Import ZArith Ascii String Lia.
From stdpp Require Import base numbers list strings gmap.
From S2P Require Import Prelude Json Capability RootRuntime.

Open Scope Z_scope.

(** ** command_executor.cpp *)

Record ExecResult := { ex_exit_code : Z; ex_stdout : string; ex_stderr : string }.

(** [drain]: [fread] returns full buffers until the last one; the bytes of
    the pipe arrive complete and in order. *)
Definition drain_buf : nat := Z.to_nat 4096.
Fixpoint drain (fuel : nat) (stream : string) : string :=
  match fuel with
  | O => EmptyString
  | S fuel' =>
      let n := Nat.min drain_buf (String.length stream) in
      if (n =? 0)%nat then EmptyString
      else if (n <? drain_buf)%nat then take_str n stream
      else take_str n stream +:+ drain fuel' (drop_str n stream)
  end.

Definition exit_code_of (raw : Z) : Z :=
  if WIFEXITED raw then WEXITSTATUS raw
  else if WIFSIGNALED raw then 128 + WTERMSIG raw
  else -1.

(** [popen] is given [wrapped.c_str()], which ends at a NUL in the command. *)
Definition execute (cmd : string) : Sys ExecResult :=
  let wrapped := cmd +:+ " 2>&1" in
  let! pipe := sys_popen (c_str wrapped) in
  match pipe with
  | None => ret {| ex_exit_code := -1; ex_stdout := EmptyString; ex_stderr := EmptyString |}
  | Some (stream, raw) =>
      ret {| ex_exit_code := exit_code_of raw;
             ex_stdout := drain (S (String.length stream)) stream;
             ex_stderr := EmptyString |}
  end.

Definition execute_as_root (cmd : string) : ExecResult :=
  {| ex_exit_code := -1; ex_stdout := EmptyString;
     ex_stderr := "execute_as_root not yet implemented (no provider wired up)" |}.

(** ** provider_detector.cpp *)

Record ProviderDetect := {
  pd_id : string;
  pd_name : string;
  pd_detected : bool;
  pd_available : bool;
  pd_version : string;
  pd_source : string;
}.

Definition run_cmd (cmd : string) : Sys (bool * string) :=
  let! pipe := sys_popen cmd in
  match pipe with
  | None => ret (false, EmptyString)
  | Some (out, status) =>
      ret (WIFEXITED status && (WEXITSTATUS status =? 0), fgets_all 256 out)
  end.

Definition first_line (s : string) : string :=
  match str_find nl s 0 with
  | None => trim s
  | Some n => trim (take_str n s)
  end.

Fixpoint filter_exists (paths : list string) : Sys (list string) :=
  match paths with
  | [] => ret []
  | p :: paths' =>
      let! e := sys_exists p in
      let! found := filter_exists paths' in
      ret (if e then p :: found else found)
  end.

Definition check_paths (paths : list string) : Sys (bool * string) :=
  let! found := filter_exists paths in
  match found with
  | [] => ret (false, "checked: " +:+ join ", " paths +:+ " (none found)")
  | _ => ret (true, "found: " +:+ join ", " found)
  end.

(** The common body of [detect_magisk], [detect_kernelsu] and [detect_apatch]. *)
Definition detect_backend (id name : string) (paths : list string) (cmd tool : string)
    : Sys ProviderDetect :=
  let! '(detected, src) := check_paths paths in
  if detected then
    let! '(ok, out) := run_cmd cmd in
    let ver := first_line out in
    if ok && negb (is_empty ver) then
      ret {| pd_id := id; pd_name := name; pd_detected := detected; pd_available := true;
             pd_version := ver; pd_source := src +:+ "; exec '" +:+ tool +:+ "' -> " +:+ ver |}
    else
      ret {| pd_id := id; pd_name := name; pd_detected := detected; pd_available := false;
             pd_version := EmptyString;
             pd_source := src +:+ "; '" +:+ tool +:+ "' failed (binary present but not functional)" |}
  else
    ret {| pd_id := id; pd_name := name; pd_detected := detected; pd_available := false;
           pd_version := EmptyString; pd_source := src |}.

Definition detect_magisk : Sys ProviderDetect :=
  detect_backend "magisk" "Magisk"
    ["/data/adb/magisk/magisk"; "/data/adb/magisk"; "/system/bin/magisk"]
    "magisk -v 2>/dev/null || /data/adb/magisk/magisk -v 2>/dev/null" "magisk -v".

Definition detect_kernelsu : Sys ProviderDetect :=
  detect_backend "kernelsu" "KernelSU"
    ["/data/adb/ksu/bin/ksud"; "/data/adb/ksu"; "/sys/module/kernelsu"; "/proc/sys/kernel/ksu"]
    "ksud --version 2>/dev/null || /data/adb/ksu/bin/ksud --version 2>/dev/null" "ksud --version".

Definition detect_apatch : Sys ProviderDetect :=
  detect_backend "apatch" "APatch"
    ["/data/adb/ap/bin/apd"; "/data/adb/ap"; "/sys/module/apatch"]
    "apd --version 2>/dev/null || /data/adb/ap/bin/apd --version 2>/dev/null" "apd --version".

Definition detect_astraroot : ProviderDetect :=
  {| pd_id := "astraroot"; pd_name := "AstraRoot"; pd_detected := false; pd_available := false;
     pd_version := EmptyString; pd_source := "AstraRoot backend not implemented (Phase 1)" |}.

Definition provider_detect_all : Sys (list ProviderDetect) :=
  let! m := detect_magisk in
  let! k := detect_kernelsu in
  let! a := detect_apatch in
  ret [m; k; a; detect_astraroot].

(** ** provider_service.cpp *)

Definition detect_provider_name : Sys string :=
  let! astra := sys_exists "/data/adb/astraroot" in
  if astra then ret "astraroot"
  else let! magisk := sys_exists "/data/adb/magisk" in
  let! db := (if magisk then sys_exists "/data/adb/magisk.db" else ret false) in
  if db then ret "magisk"
  else let! ksu := sys_exists "/data/adb/ksu" in
  if ksu then ret "kernelsu"
  else let! ap := sys_exists "/data/adb/ap" in
  if ap then ret "apatch"
  else ret "none".

Definition version_from (path : string) : Sys string :=
  let! v := read_first_line path in
  ret (if negb (is_empty v) then v else "unknown").

Definition detect_provider : Sys string :=
  let! provider := detect_provider_name in
  let! version :=
    (if str_eqb provider "magisk" then version_from "/data/adb/magisk/MAGISK_VERSION"
     else if str_eqb provider "kernelsu" then version_from "/data/adb/ksu/version"
     else if str_eqb provider "apatch" then version_from "/data/adb/ap/version"
     else if str_eqb provider "astraroot" then version_from "/data/adb/astraroot/version"
     else ret "unknown") in
  ret ("{" +:+ «"provider"» +:+ ":" +:+ «provider_json_escape provider» +:+ ","
       +:+ «"version"» +:+ ":" +:+ «provider_json_escape version» +:+ "}").

(** ** capability_service.cpp *)

Definition read_file (path : string) : Sys string :=
  let! f := sys_read path in
  ret (match f with None => EmptyString | Some content => content end).

Definition kernel_version : Sys string :=
  let! raw := read_file "/proc/version" in
  if is_empty raw then ret "unknown"
  else
    let tok3 := nth 2 (words raw) EmptyString in
    if is_empty tok3 then ret "unknown"
    else ret (match str_find "-" tok3 0 with
              | None => tok3
              | Some dash => take_str dash tok3
              end).

Definition selinux_mode : Sys string :=
  let! there := sys_exists "/sys/fs/selinux" in
  if negb there then ret "disabled"
  else
    let! content := read_file "/sys/fs/selinux/enforce" in
    let enforce := trim content in
    if is_empty enforce then ret "permissive"
    else ret (if str_eqb enforce "1" then "enforcing" else "permissive").

Definition has_mount_namespace : Sys bool :=
  let! fs := read_file "/proc/filesystems" in
  ret (contains fs "namespace" || contains fs "nsfs").

Definition kSuPaths : list string :=
  ["/system/bin/su"; "/system/xbin/su"; "/sbin/su";
   "/data/adb/magisk"; "/data/adb/ksu"; "/data/adb/ap"].

Fixpoint any_exists (paths : list string) : Sys bool :=
  match paths with
  | [] => ret false
  | p :: paths' => let! e := sys_exists p in if e then ret true else any_exists paths'
  end.
Definition root_hint : Sys bool := any_exists kSuPaths.

(** The first line that contains [key], cut after it and trimmed. *)
Fixpoint prop_line (key : string) (lines : list string) : option string :=
  match lines with
  | [] => None
  | line :: lines' =>
      match str_find key line 0 with
      | Some pos => Some (trim (drop_str (pos + String.length key) line))
      | None => prop_line key lines'
      end
  end.

Definition android_api_level : Sys string :=
  let! build_prop := read_file "/system/build.prop" in
  if is_empty build_prop then ret "unknown"
  else ret (match prop_line "ro.build.version.sdk=" (getlines build_prop) with
            | Some val => val
            | None => "unknown"
            end).

Definition get_capability_json : Sys string :=
  let! android := android_api_level in
  let! kernel := kernel_version in
  let! selinux := selinux_mode in
  let! root := root_hint in
  let! ns := has_mount_namespace in
  ret ("{" +:+ «"android"» +:+ ":" +:+ «json_escape android» +:+ ","
       +:+ «"kernel"» +:+ ":" +:+ «json_escape kernel» +:+ ","
       +:+ «"selinux"» +:+ ":" +:+ «json_escape selinux» +:+ ","
       +:+ «"root"» +:+ ":" +:+ (if root then "true" else "false") +:+ ","
       +:+ «"namespace"» +:+ ":" +:+ (if ns then "true" else "false") +:+ "}").

(** ** message_router.cpp, protobuf_handler.cpp, execution_handler.cpp *)

Definition route (type : Z) : bool :=
  if (type =? 0x01) || (type =? 0x02) || (type =? 0x03) || (type =? 0x04) || (type =? 0x05)
     || (type =? 0x0B) then true
  else if type =? 0x10 then true
  else false.

(** [buffer] is [None] for a null pointer. *)
Definition protobuf_handle (buffer : option string) : bool :=
  match buffer with
  | None => false
  | Some EmptyString => false
  | Some (String b _) => route (byte_val b)
  end.

Definition execution_handler_execute (module capability : string) : bool := true.

(** ** Command execution *)

Lemma drain_all fuel s : (String.length s < fuel)%nat -> drain fuel s = s.
Proof.
  assert (0 < drain_buf)%nat as Hbuf by (unfold drain_buf; lia).
  revert s. induction fuel as [|fuel IH]; intros s Hf; [lia|]. cbn [drain].
  destruct (Nat.min drain_buf (String.length s) =? 0)%nat eqn:E0.
  { destruct s; [done|]. apply Nat.eqb_eq in E0. cbn [String.length] in E0. lia. }
  apply Nat.eqb_neq in E0. destruct (Nat.min drain_buf (String.length s) <? drain_buf)%nat eqn:E1.
  - apply Nat.ltb_lt in E1. replace (Nat.min drain_buf (String.length s)) with (String.length s) by lia.
    apply substring_all.
  - apply Nat.ltb_ge in E1. rewrite IH by (rewrite length_drop_str; lia).
    apply take_drop_str. lia.
Qed.

Lemma exit_code_bound raw : -1 <= exit_code_of raw <= 255.
Proof.
  unfold exit_code_of, WEXITSTATUS, WIFSIGNALED, WTERMSIG.
  change 255 with (Z.ones 8). change 127 with (Z.ones 7). rewrite !Z.land_ones by lia.
  pose proof (Z.mod_pos_bound (Z.shiftr raw 8) (2 ^ 8) ltac:(lia)).
  pose proof (Z.mod_pos_bound raw (2 ^ 7) ltac:(lia)).
  change (Z.ones 8) with 255. repeat case_match; lia.
Qed.

(** [CommandExecutor::execute] starts exactly one shell, with the
    command up to its first NUL and, when it has none, its standard error
    merged into the output; it returns everything
    the shell wrote, however long, and an exit code between -1 and 255 that
    is the shell's own when it exited, 128 plus the signal when it was killed,
    and -1 when it could not be started. *)
Theorem execute_spec cmd w h :
  (execute cmd w h).2 = h ++ [OpPopen (c_str (cmd +:+ " 2>&1"))] /\
  -1 <= ex_exit_code (execute cmd w h).1 <= 255 /\
  match w_popen w h (c_str (cmd +:+ " 2>&1")) with
  | None => (execute cmd w h).1
      = {| ex_exit_code := -1; ex_stdout := EmptyString; ex_stderr := EmptyString |}
  | Some (out, status) => ex_stdout (execute cmd w h).1 = out /\
      (forall n, 0 <= n <= 255 -> status = 256 * n -> ex_exit_code (execute cmd w h).1 = n) /\
      (forall s, 1 <= s <= 126 -> status = s -> ex_exit_code (execute cmd w h).1 = 128 + s)
  end.
Proof.
  unfold execute, bind, sys_popen. destruct (w_popen w h _) as [[out status]|]; [|done].
  rewrite drain_all by lia. cbn [fst snd ret ex_exit_code ex_stdout].
  split; [done|]. split; [apply exit_code_bound|]. split; [done|].
  unfold exit_code_of, WIFEXITED, WEXITSTATUS, WIFSIGNALED, WTERMSIG.
  change 255 with (Z.ones 8). change 127 with (Z.ones 7). rewrite !Z.land_ones by lia.
  rewrite Z.shiftr_div_pow2 by lia.
  split.
  - intros n Hn ->. change (Z.ones 8) with 255 in Hn.
    replace (256 * n) with (2 * n * 2 ^ 7) at 1 by lia. rewrite Z.mod_mul by lia. cbn.
    replace (256 * n / 2 ^ 8) with n by (rewrite Z.mul_comm, Z.div_mul; lia).
    rewrite Z.mod_small; lia.
  - intros s Hs ->. rewrite !Z.mod_small by lia.
    destruct (s =? 0) eqn:?; [lia|]. destruct (1 <=? s) eqn:?, (s <=? 126) eqn:?; cbn; lia.
Qed.

(** ** Provider detection *)

(** A detection result claims no more than what was checked. *)
Definition honest (p : ProviderDetect) : Prop :=
  (pd_available p = true -> pd_detected p = true /\ pd_version p <> EmptyString) /\
  (pd_available p = false -> pd_version p = EmptyString).

(** The shell commands of the detector: constants only. *)
Definition detector_cmds : list string :=
  ["magisk -v 2>/dev/null || /data/adb/magisk/magisk -v 2>/dev/null";
   "ksud --version 2>/dev/null || /data/adb/ksu/bin/ksud --version 2>/dev/null";
   "apd --version 2>/dev/null || /data/adb/ap/bin/apd --version 2>/dev/null"].
Definition detector_op (o : sysop) : Prop :=
  match o with OpExists _ => True | OpPopen cmd => In cmd detector_cmds | _ => False end.

Lemma filter_exists_spec paths w h :
  wp (filter_exists paths) (fun found h' =>
    sublist found paths /\ h' = h ++ (OpExists <$> paths)) w h.
Proof.
  revert h. induction paths as [|p paths IH]; intros h; cbn [filter_exists].
  - apply wp_ret. split; [done|]. by rewrite app_nil_r.
  - apply wp_bind, wp_exists, wp_bind. eapply wp_mono; [apply IH|].
    intros found h' [Hs ->]. apply wp_ret. split; [|by rewrite <-(assoc_L (++))].
    destruct (w_exists w h p); by constructor.
Qed.

Lemma filter_exists_ops paths : emits detector_op (filter_exists paths).
Proof. induction paths; cbn [filter_exists]; emits_tac. Qed.

Lemma detect_backend_spec id name paths cmd tool w h :
  wp (detect_backend id name paths cmd tool) (fun p h' =>
    honest p /\ pd_id p = id /\
    h' = h ++ (OpExists <$> paths) ++ (if pd_detected p then [OpPopen cmd] else [])) w h.
Proof.
  unfold detect_backend, check_paths, run_cmd. apply wp_bind, wp_bind.
  eapply wp_mono; [apply filter_exists_spec|]. intros found h' [Hs ->].
  destruct found as [|p found]; apply wp_ret.
  - apply wp_ret. cbn. rewrite app_nil_r. done.
  - apply wp_bind, wp_bind, wp_popen. destruct (w_popen w _ cmd) as [[out status]|]; apply wp_ret.
    + match goal with |- context [?ok && negb (is_empty ?v)] =>
        destruct ok; [destruct (is_empty v) eqn:Hv|] end; apply wp_ret; cbn;
        rewrite <-(assoc_L (++)); (split; [|done]); split; cbn; try done.
      intros _. split; [done|]. by apply is_empty_false.
    + apply wp_ret. cbn. rewrite <-(assoc_L (++)). done.
Qed.

(** the backend detector answers for magisk, kernelsu, apatch and
    astraroot in this order; a backend it calls available was found on disk
    and reported a non-empty version when it was run, one it does not call
    available has no version, AstraRoot is never claimed; and the only shell
    commands it runs are its three constants, each only after one of the
    backend's files was found. *)
Theorem provider_detect_honest w h :
  let r := provider_detect_all w h in
  pd_id <$> r.1 = ["magisk"; "kernelsu"; "apatch"; "astraroot"] /\
  Forall honest r.1 /\
  exists m k a, r.1 = [m; k; a; detect_astraroot] /\
    r.2 = h ++ (OpExists <$> ["/data/adb/magisk/magisk"; "/data/adb/magisk"; "/system/bin/magisk"])
      ++ (if pd_detected m then [OpPopen (nth 0 detector_cmds EmptyString)] else [])
      ++ (OpExists <$> ["/data/adb/ksu/bin/ksud"; "/data/adb/ksu"; "/sys/module/kernelsu";
                        "/proc/sys/kernel/ksu"])
      ++ (if pd_detected k then [OpPopen (nth 1 detector_cmds EmptyString)] else [])
      ++ (OpExists <$> ["/data/adb/ap/bin/apd"; "/data/adb/ap"; "/sys/module/apatch"])
      ++ (if pd_detected a then [OpPopen (nth 2 detector_cmds EmptyString)] else []).
Proof.
  cbn zeta.
  by_wp provider_detect_all w h.
  unfold provider_detect_all, detect_magisk, detect_kernelsu, detect_apatch.
  apply wp_bind. eapply wp_mono; [apply detect_backend_spec|]. intros m h1 (Hm & Im & ->).
  apply wp_bind. eapply wp_mono; [apply detect_backend_spec|]. intros k h2 (Hk & Ik & ->).
  apply wp_bind. eapply wp_mono; [apply detect_backend_spec|]. intros a h3 (Ha & Ia & ->).
  apply wp_ret. split; [by cbn; rewrite Im, Ik, Ia|]. split.
  - by repeat constructor; try apply Hm; try apply Hk; try apply Ha.
  - exists m, k, a. split; [done|]. by rewrite <-!(assoc_L (++)).
Qed.
