(* ===== verification/Policy.v ===== *)
(** * Policy: the bridge to the execution policy, and the pipeline behind it

    Models [daemon/src/security_bridge/policy_bridge.cpp], the policy engine
    it links against ([rust/src/ffi.rs], [rust/src/execution_policy.rs]) and
    [daemon/src/execution/execution_pipeline.cpp].

    The three C symbols are the class [PolicyFFI]; the weak definitions of the
    bridge and the Rust library are its two instances, of which the linker
    picks one. *)

From Stdlib Require Import ZArith Ascii String Lia.
From stdpp Require Import base numbers list strings gmap.
From S2P Require Import Prelude Capability RootRuntime Provider RustText.

Open Scope Z_scope.

Class PolicyFFI := {
  policy_is_available : Z;
  policy_check : Z;
  policy_check_with : string -> string -> Z -> bool -> Z;
}.

(** The weak defaults: not linked, and Deny. *)
Definition weak_engine : PolicyFFI :=
  {| policy_is_available := 0; policy_check := 1; policy_check_with _ _ _ _ := 1 |}.

(** ** execution_policy.rs, ffi.rs *)

Inductive PolicyDecision := Allow | Deny | RequireApproval.

Record ExecutionPolicy := {
  ep_module_id : string;
  ep_capability : string;
  ep_risk_level : Z;     (* u32 *)
  ep_approved : bool;
}.

Definition evaluate (policy : ExecutionPolicy) : PolicyDecision :=
  if 80 <=? ep_risk_level policy then RequireApproval
  else if negb (ep_approved policy) then Deny
  else Allow.

Definition decision_code (d : PolicyDecision) : Z :=
  match d with Allow => 0 | Deny => 1 | RequireApproval => 2 end.

(** The exported functions; [None] is a null pointer. *)
Definition ffi_string (p : option string) : string :=
  match p with None => "unknown" | Some s => to_string_lossy s end.

Definition ffi_policy_check_with (module_id capability : option string) (risk_level : Z)
    (approved : bool) : Z :=
  decision_code (evaluate {| ep_module_id := ffi_string module_id;
                             ep_capability := ffi_string capability;
                             ep_risk_level := risk_level; ep_approved := approved |}).

Definition rust_engine : PolicyFFI := {|
  policy_is_available := 1;
  policy_check :=
    decision_code (evaluate {| ep_module_id := "unknown"; ep_capability := "unknown";
                               ep_risk_level := 0; ep_approved := true |});
  policy_check_with module_id capability :=
    ffi_policy_check_with (Some module_id) (Some capability) |}.

(** ** policy_bridge.cpp *)

Inductive PolicyResult := ALLOW | DENY | APPROVAL.
#[global] Instance PolicyResult_eq_dec : EqDecision PolicyResult.
Proof. solve_decision. Defined.

Definition policy_decode (raw : Z) : PolicyResult :=
  if raw =? 0 then ALLOW else if raw =? 1 then DENY else APPROVAL.

Section bridge.
Context `{PolicyFFI}.

Definition bridge_check : PolicyResult :=
  if policy_is_available =? 0 then DENY else policy_decode policy_check.

Definition checkWith (moduleId capability : string) (riskLevel : Z) (approved : bool)
    : PolicyResult :=
  if policy_is_available =? 0 then DENY
  else policy_decode (policy_check_with moduleId capability (u32 riskLevel) approved).

(** ** execution_pipeline.cpp *)

Definition pipeline_run (manager : ProviderManager) (capability command : string) : Sys (option bool) :=
  match bridge_check with
  | ALLOW =>
      match pm_current manager with
      | None => ret (Some false)
      | Some provider =>
          let? a := rp_available (ap_obj provider) in
          if negb a then ret (Some false)
          else
            let? output := rp_execute (ap_obj provider) command in
            ret (Some (match output with Some _ => true | None => false end))
      end
  | _ => ret (Some false)
  end.
End bridge.

(** What the execution policy is meant to decide. *)
Definition policy_spec (risk : Z) (approved : bool) : PolicyResult :=
  if 80 <=? risk then APPROVAL else if approved then ALLOW else DENY.

Lemma policy_rust m c risk approved :
  0 <= risk < 2 ^ 32 -> @checkWith rust_engine m c risk approved = policy_spec risk approved.
Proof.
  intros Hr. unfold checkWith, policy_spec, rust_engine, ffi_policy_check_with. cbn.
  unfold u32. rewrite Z.mod_small by lia.
  unfold evaluate. cbn. destruct (80 <=? risk); [done|]. by destruct approved.
Qed.

(** Without the Rust library every check is denied (the weak symbols fail
    closed); with it, [checkWith] allows a request exactly when its risk is
    below 80 and it is approved, asks for approval from 80 on whatever the
    approval flag, and denies the rest, independent of module and capability
    names; the parameterless [check] used by [ExecutionPipeline::run] always
    allows. *)
Theorem policy_bridge_decision moduleId capability risk approved :
  @checkWith weak_engine moduleId capability risk approved = DENY /\
  @bridge_check weak_engine = DENY /\
  (0 <= risk < 2 ^ 32 ->
   @checkWith rust_engine moduleId capability risk approved = policy_spec risk approved) /\
  @bridge_check rust_engine = ALLOW.
Proof.
  split_and!; try done. apply policy_rust.
Qed.

(** The execution pipeline denies everything when the Rust library is not
    linked; when it is, its result depends on the provider alone: it is true
    exactly when a provider is active, says that it is available, and its
    [execute] then returns an output; and it never starts a process. *)
Theorem pipeline_run_spec manager capability command w h :
  (@pipeline_run weak_engine manager capability command w h) = (Some false, h) /\
  emits only_exists (@pipeline_run rust_engine manager capability command) /\
  ((@pipeline_run rust_engine manager capability command w h).1 = Some true <->
   exists p h1 output h2, manager = Some p /\ rp_available (ap_obj p) w h = (Some true, h1) /\
     rp_execute (ap_obj p) command w h1 = (Some (Some output), h2)).
Proof.
  split_and!; [done|..].
  - unfold pipeline_run, pm_current. cbn. emits_tac.
  - unfold pipeline_run, pm_current. cbn.
    destruct manager as [p|]; [|split; [done|by intros (p & h1 & o & h2 & ? & _)]].
    unfold try_bind, bind at 1. destruct (rp_available (ap_obj p) w h) as [[a|] h1] eqn:Ha;
      [|split; [done|intros (p' & h1' & o & h2 & [= <-] & E & _); congruence]].
    destruct a; cbn [negb]; [|split; [done|intros (p' & h1' & o & h2 & [= <-] & E & _); congruence]].
    unfold bind. destruct (rp_execute (ap_obj p) command w h1) as [[[o|]|] h2] eqn:He; cbn.
    + split; [intros _; by exists p, h1, o, h2|done].
    + split; [done|]. intros (p' & h1' & o & h2' & [= <-] & E & E'). congruence.
    + split; [done|]. intros (p' & h1' & o & h2' & [= <-] & E & E'). congruence.
Qed.
