(* ===== verification/Daemon.v ===== *)
(** * Daemon: the request handler of astrad and its start-up

    Models [daemon/src/main.cpp] (with [runtime/daemon_service.cpp] and
    [core/daemon_context.hpp]): the state the IPC handler captures as a
    record, one definition per request type, their dispatch on the type byte,
    and [main] up to the accept loop, which is [Frame.run] with this handler.
    [None] as the result of a handler is an exception that leaves it (of the
    JSON library or of [std::filesystem::exists]); nothing catches it, so it
    terminates the process. *)

From Stdlib Require Import ZArith Ascii String Lia.
From stdpp Require Import base numbers list strings gmap.
From S2P Require Import Prelude Json Capability Security RootRuntime Provider Services Policy Frame.

Open Scope Z_scope.

(** ** daemon_context.hpp, daemon_service.cpp *)

Record DaemonContext := {
  ctx_socket_path : string;
  ctx_version : string;
  ctx_running : bool;
  ctx_provider_online : bool;
  ctx_active_provider : string;
}.

Definition default_context : DaemonContext :=
  {| ctx_socket_path := "/dev/astra/astrad.sock"; ctx_version := "0.1.0"; ctx_running := false;
     ctx_provider_online := false; ctx_active_provider := "none" |}.

Definition service_start (running_ : bool) : bool * bool := (true, true).
Definition service_stop (running_ : bool) : bool := false.
Definition service_isRunning (running_ : bool) : bool := running_.

(** ** The state captured by the handler

    [d_matrix] is the one matrix the security engine and the module runtime
    hold references to. *)
Record Daemon := {
  d_ctx : DaemonContext;
  d_manager : ProviderManager;
  d_matrix : CapabilityMatrix;
  d_modules : list Module_;
  d_database : PermissionDatabase;
}.

Definition set_active (d : Daemon) (active : string) : Daemon :=
  {| d_ctx := {| ctx_socket_path := ctx_socket_path (d_ctx d); ctx_version := ctx_version (d_ctx d);
                 ctx_running := ctx_running (d_ctx d);
                 ctx_provider_online := negb (str_eqb active "none");
                 ctx_active_provider := active |};
     d_manager := d_manager d; d_matrix := d_matrix d; d_modules := d_modules d;
     d_database := d_database d |}.
Definition set_matrix (d : Daemon) (m : CapabilityMatrix) : Daemon :=
  {| d_ctx := d_ctx d; d_manager := d_manager d; d_matrix := m; d_modules := d_modules d;
     d_database := d_database d |}.
Definition set_modules (d : Daemon) (ms : list Module_) : Daemon :=
  {| d_ctx := d_ctx d; d_manager := d_manager d; d_matrix := d_matrix d; d_modules := ms;
     d_database := d_database d |}.
Definition set_database (d : Daemon) (db : PermissionDatabase) : Daemon :=
  {| d_ctx := d_ctx d; d_manager := d_manager d; d_matrix := d_matrix d; d_modules := d_modules d;
     d_database := db |}.

(** The audit logger is default constructed. *)
Definition audit_path : string := audit_log_path EmptyString.

(** [RequestType], by its byte. *)
Inductive RequestType :=
| GetCapability | GetProvider | Execute | Ping | GetCapabilityMatrix | InstallModule
| RemoveModule | StartModule | StopModule | ListModules | QueryPermission | GrantPermission
| RevokePermission | GetRiskScore | GetAuditLog.

Definition request_type (b : Z) : option RequestType :=
  match b with
  | 0x01 => Some GetCapability
  | 0x02 => Some GetProvider
  | 0x03 => Some Execute
  | 0x04 => Some Ping
  | 0x05 => Some GetCapabilityMatrix
  | 0x06 => Some InstallModule
  | 0x07 => Some RemoveModule
  | 0x08 => Some StartModule
  | 0x09 => Some StopModule
  | 0x0A => Some ListModules
  | 0x0B => Some QueryPermission
  | 0x0C => Some GrantPermission
  | 0x0D => Some RevokePermission
  | 0x0E => Some GetRiskScore
  | 0x0F => Some GetAuditLog
  | _ => None
  end.

(** A flat JSON object of literal members, as the handler writes them. *)
Definition lit_true (k : string) : string := "{" +:+ «k» +:+ ":true}".
Definition lit_false (k : string) : string := "{" +:+ «k» +:+ ":false}".
Definition lit_error (k e : string) : string :=
  "{" +:+ «k» +:+ ":false," +:+ «"error"» +:+ ":" +:+ «e» +:+ "}".
Definition lit_granted (b m : string) : string :=
  "{" +:+ «"granted"» +:+ ":" +:+ b +:+ "," +:+ «"message"» +:+ ":" +:+ «m» +:+ "}".

Section handler.
Context `{JsonLib} `{PolicyFFI}.

Abbreviation result := (Sys (option (Daemon * string))).
Definition reply (d : Daemon) (r : option string) : result :=
  ret (match r with Some s => Some (d, s) | None => None end).

Definition on_GetCapability (d : Daemon) : result :=
  let! probes := probe_detect_all in
  reply d (make_capability_response_with_source
    ((fun kp => (kp.1, {| ci_available := probe_available kp.2; ci_source := probe_source kp.2 |}))
      <$> probes)).

Definition provider_info (p : ProviderDetect) : ProviderInfo :=
  {| pi_id := pd_id p; pi_name := pd_name p; pi_detected := pd_detected p;
     pi_available := pd_available p; pi_version := pd_version p; pi_source := pd_source p |}.

(** The response is built first: when it throws the context is unchanged. *)
Definition on_GetProvider (d : Daemon) : result :=
  let! detects := provider_detect_all in
  match make_providers_response (provider_info <$> detects) with
  | None => ret None
  | Some r =>
      let active := match List.find pd_available detects with
                    | Some p => pd_id p
                    | None => "none"
                    end in
      reply (set_active d active) (Some r)
  end.

Definition bad_request_reason : string :=
  "malformed or incomplete execute request "
  +:+ "(need moduleId/capability/riskLevel/approved/" +:+ "caller/command)".

Definition on_Execute (d : Daemon) (body : string) : result :=
  match parse_execute_request body with
  | None => reply d (make_error_response "bad_request" bad_request_reason)
  | Some req =>
      let? can := can_execute (d_manager d) (er_command req) in
      if negb can then
        reply d (make_error_response "permission_denied" "no active root provider")
      else
        match checkWith (er_module_id req) (er_capability req) (er_risk_level req)
                (er_approved req) with
        | DENY =>
            reply d (make_error_response "policy_denied"
              ("Rust policy denied execution for module '" +:+ er_module_id req
               +:+ "' capability '" +:+ er_capability req +:+ "'"))
        | APPROVAL =>
            reply d (make_error_response "approval_required" "execution requires user approval")
        | ALLOW =>
            let! result := execute (er_command req) in
            reply d (make_exec_response (ex_exit_code result =? 0) (ex_exit_code result)
                       (ex_stdout result) (ex_stderr result))
        end
  end.

(** [uptimeMs] reads the steady clock. *)
Definition on_Ping (d : Daemon) : result :=
  let! uptime := sys_int (OpCall "uptime_ms" [] []) in
  reply d (make_ping_response (ctx_version (d_ctx d)) uptime).

Definition on_GetCapabilityMatrix (d : Daemon) : result :=
  let? matrix := capability_detect (pm_current (d_manager d)) in
  reply (set_matrix d matrix) (Some (matrix_json matrix)).

Definition on_InstallModule (d : Daemon) (body : string) : result :=
  let '(ok, ms) := mgr_install (d_modules d) body in
  reply (set_modules d ms)
    (Some (if ok then lit_true "installed" else lit_error "installed" "install_failed")).

Definition on_RemoveModule (d : Daemon) (body : string) : result :=
  let '(ok, ms) := mgr_remove (d_modules d) body in
  reply (set_modules d ms) (Some (if ok then lit_true "removed" else lit_error "removed" "not_found")).

Definition find_module (ms : list Module_) (id : string) : option Module_ :=
  List.find (fun m => str_eqb (mm_id (mod_manifest m)) id) ms.

Definition on_StartModule (d : Daemon) (body : string) : result :=
  let started := match find_module (mgr_list (d_modules d)) body with
                 | Some m => runtime_start (d_matrix d) m
                 | None => false
                 end in
  reply d (Some (if started then lit_true "started" else lit_error "started" "denied_or_not_found")).

Definition on_StopModule (d : Daemon) (body : string) : result :=
  reply d (Some (if runtime_stop body then lit_true "stopped" else lit_false "stopped")).

Definition module_entry (m : Module_) : string :=
  "{" +:+ «"id"» +:+ ":" +:+ «json_escape (mm_id (mod_manifest m))»
  +:+ "," +:+ «"name"» +:+ ":" +:+ «json_escape (mm_name (mod_manifest m))»
  +:+ "," +:+ «"version"» +:+ ":" +:+ «json_escape (mm_version (mod_manifest m))»
  +:+ "," +:+ «"path"» +:+ ":" +:+ «json_escape (mod_path m)» +:+ "}".

Definition on_ListModules (d : Daemon) : result :=
  reply d (Some ("[" +:+ join "," (module_entry <$> mgr_list (d_modules d)) +:+ "]")).

(** The body is [module:permission]; [None] when either part is wrong, with
    the flag telling which. *)
Definition split_permission (body : string) : option (string * string) :=
  match str_find ":" body 0 with
  | None => None
  | Some sep => Some (take_str sep body, drop_str (sep + 1) body)
  end.

Definition on_QueryPermission (d : Daemon) (body : string) : result :=
  match split_permission body with
  | None => reply d (Some (lit_granted "false" "bad request"))
  | Some (md, perm_name) =>
      match permission_from_name perm_name with
      | None => reply d (Some (lit_granted "false" "unknown permission"))
      | Some perm =>
          let ok := authorize (d_matrix d) (d_database d)
            {| pr_module_id := md; pr_permission := perm; pr_reason := EmptyString |} in
          audit_log audit_path md perm_name ok ;;;
          reply d (Some (if ok then lit_granted "true" "allow" else lit_granted "false" "denied"))
      end
  end.

Definition on_GrantPermission (d : Daemon) (body : string) : result :=
  match split_permission body with
  | None => reply d (Some (lit_false "granted"))
  | Some (md, perm_name) =>
      match permission_from_name perm_name with
      | None => reply d (Some (lit_false "granted"))
      | Some perm =>
          let '(ok, db) := engine_grant (d_database d) md perm in
          audit_log audit_path md ("GRANT:" +:+ perm_name) ok ;;;
          reply (set_database d db) (Some (if ok then lit_true "granted" else lit_false "granted"))
      end
  end.

Definition on_RevokePermission (d : Daemon) (body : string) : result :=
  match split_permission body with
  | None => reply d (Some (lit_false "revoked"))
  | Some (md, perm_name) =>
      match permission_from_name perm_name with
      | None => reply d (Some (lit_false "revoked"))
      | Some perm =>
          let '(ok, db) := engine_revoke (d_database d) md perm in
          audit_log audit_path md ("REVOKE:" +:+ perm_name) ok ;;;
          reply (set_database d db) (Some (if ok then lit_true "revoked" else lit_false "revoked"))
      end
  end.

Definition on_GetRiskScore (d : Daemon) (body : string) : result :=
  match find_module (mgr_list (d_modules d)) body with
  | None => reply d (Some ("{" +:+ «"error"» +:+ ":" +:+ «"not_found"» +:+ "}"))
  | Some m =>
      reply d (Some ("{" +:+ «"module"» +:+ ":" +:+ «json_escape body»
        +:+ "," +:+ «"risk"» +:+ ":" +:+ show_Z (risk_calculate (mod_manifest m))
        +:+ "," +:+ «"level"» +:+ ":" +:+ «risk_level (mod_manifest m)» +:+ "}"))
  end.

(** Every line is written back with a newline. *)
Definition on_GetAuditLog (d : Daemon) : result :=
  let! af := sys_read "/data/astra/log/security.log" in
  let lines := match af with None => [] | Some content => getlines content end in
  reply d (make_audit_array (concat_str ((fun l => l +:+ nl) <$> lines))).

Definition dispatch (d : Daemon) (type : Z) (body : string) : result :=
  match request_type type with
  | Some GetCapability => on_GetCapability d
  | Some GetProvider => on_GetProvider d
  | Some Execute => on_Execute d body
  | Some Ping => on_Ping d
  | Some GetCapabilityMatrix => on_GetCapabilityMatrix d
  | Some InstallModule => on_InstallModule d body
  | Some RemoveModule => on_RemoveModule d body
  | Some StartModule => on_StartModule d body
  | Some StopModule => on_StopModule d body
  | Some ListModules => on_ListModules d
  | Some QueryPermission => on_QueryPermission d body
  | Some GrantPermission => on_GrantPermission d body
  | Some RevokePermission => on_RevokePermission d body
  | Some GetRiskScore => on_GetRiskScore d body
  | Some GetAuditLog => on_GetAuditLog d
  | None => reply d (make_error_response "unknown_request_type" "unrecognized type byte")
  end.

(** The handler lambda: the response echoes the type byte. *)
Definition handler (d : Daemon) (req : string) : result :=
  match req with
  | EmptyString => ret (Some (d, EmptyString))
  | String b body =>
      let! r := dispatch d (byte_val b) body in
      ret (match r with
           | Some (d', response_json) => Some (d', String b response_json)
           | None => None
           end)
  end.

(** The handler as the socket server runs it, in a world: the state is the
    daemon and the trace of operations so far. *)
Definition server_handler (w : World) (st : Daemon * trace) (req : string)
    : option ((Daemon * trace) * string) :=
  match handler st.1 req w st.2 with
  | (Some (d', response), h') => Some ((d', h'), response)
  | (None, _) => None
  end.

(** ** main *)

Inductive cli_opt := OptSocket (arg : option string) | OptVersion | OptHelp | OptUnknown.

(** The [getopt_long] loop; [inr] is the exit status of an early return. *)
Fixpoint parse_opts (opts : list cli_opt) (socket_path : string) : string + Z :=
  match opts with
  | [] => inl socket_path
  | OptSocket arg :: opts' =>
      parse_opts opts' (match arg with Some a => a | None => EmptyString end)
  | OptVersion :: _ => inr 0
  | OptHelp :: _ => inr 0
  | OptUnknown :: _ => inr 1
  end.

(** [None] is an exception of one of the probes, which leaves [main]. *)
Definition daemon_init (socket : string) : Sys (option Daemon) :=
  let? manager := pm_initialize None in
  let? matrix := capability_detect (pm_current manager) in
  ret (Some {| d_ctx := {| ctx_socket_path := socket; ctx_version := "0.1.0"; ctx_running := false;
                     ctx_provider_online := false; ctx_active_provider := "none" |};
         d_manager := manager; d_matrix := matrix; d_modules := []; d_database := ∅ |}).

(** How the process ends up: it returned an exit status, it is blocked in
    [accept], it is blocked in a [write] to a client that does not read, or an
    exception terminated it. *)
Inductive main_end := Exited (code : Z) | Serving (d : Daemon) (served : list conn)
                    | Stalled (d : Daemon) (served : list conn) | Aborted (served : list conn).

(** [main] against a script of accept events; the trampoline's [stop] has
    already closed the socket when [run] returns, so the last [stop] does
    nothing. *)
Definition daemon_main (opts : list cli_opt) (evs : list acc_ev) : Sys main_end :=
  match parse_opts opts "/dev/astra/astrad.sock" with
  | inr code => ret (Exited code)
  | inl socket =>
      let! init := daemon_init socket in
      match init with
      | None => ret (Aborted [])
      | Some d =>
          let! '(ok, sv) := start_socket (parent_path socket) (Server socket (-1) false) in
          if negb ok then ret (Exited 1)
          else fun w h =>
            match server_run (Some (server_handler w)) evs sv (d, h) [] with
            | Stopped (d', h') served => (Exited 0, h')
            | Waiting (d', h') served => (Serving d' served, h')
            | Hung (d', h') served => (Stalled d' served, h')
            | Died served => (Aborted served, h)
            end
      end
  end.
End handler.

(** ** When a shell command runs *)

(** The only commands a request may start, in the state [d] and at the
    moment [w], [h] it arrives: the detector's constants for GetProvider, and
    for Execute the command of a well-formed request when a root provider is
    available and the policy allows it. *)
Definition may_run `{JsonLib} `{PolicyFFI} (d : Daemon) (req : string) (w : World) (h : trace)
    (cmd : string) : Prop :=
  match req with
  | EmptyString => False
  | String b body =>
      byte_val b = 0x02 /\ In cmd detector_cmds \/
      byte_val b = 0x03 /\ exists r p,
        parse_execute_request body = Some r /\ cmd = c_str (er_command r +:+ " 2>&1") /\
        d_manager d = Some p /\ (rp_available (ap_obj p) w h).1 = Some true /\
        rp_type (ap_obj p) <> ROOT_NONE /\
        checkWith (er_module_id r) (er_capability r) (er_risk_level r) (er_approved r) = ALLOW
  end.

Definition no_popen (o : sysop) : Prop := match o with OpPopen _ => False | _ => True end.

Lemma only_exists_no_popen o : only_exists o -> no_popen o.
Proof. by destruct o. Qed.

Lemma reply_ops `{JsonLib} d r P : emits P (reply d r).
Proof. unfold reply. emits_tac. Qed.
#[export] Hint Resolve reply_ops : sys.

Lemma audit_log_ops path m a r : emits no_popen (audit_log path m a r).
Proof. unfold audit_log. emits_tac. Qed.
#[export] Hint Resolve audit_log_ops : sys.

Lemma probe_detect_all_ops : emits no_popen probe_detect_all.
Proof.
  unfold probe_detect_all, probe_root, probe_overlayfs, read_file_contains, probe_mount_namespace,
    probe_pid_namespace, probe_net_namespace, probe_namespace, test_unshare, probe_selinux,
    read_first_line, probe_system_write, probe_zygisk. emits_tac.
Qed.

Lemma detect_backend_ops id name paths cmd tool :
  In cmd detector_cmds -> emits detector_op (detect_backend id name paths cmd tool).
Proof.
  intros Hc. unfold detect_backend, check_paths, run_cmd.
  pose proof (filter_exists_ops paths). emits_tac.
Qed.

Lemma provider_detect_all_ops : emits detector_op provider_detect_all.
Proof.
  unfold provider_detect_all, detect_magisk, detect_kernelsu, detect_apatch.
  emits_tac; apply detect_backend_ops; cbn; tauto.
Qed.

Lemma capability_detect_ops p : emits no_popen (capability_detect p).
Proof.
  unfold capability_detect. emits_tac.
  eapply emits_weaken; [apply only_exists_no_popen|apply provider_available_ops].
Qed.
#[export] Hint Resolve probe_detect_all_ops provider_detect_all_ops capability_detect_ops : sys.


Lemma parse_risk_bound `{JsonLib} body r :
  parse_execute_request body = Some r -> 0 <= er_risk_level r <= 100.
Proof.
  intros (kvs & risk & _ & _ & _ & _ & _ & _ & _ & _ & _ & _ & -> & _)%parse_execute_request_inv.
  unfold clamp_risk. byte_cases.
Qed.

Section gate.
Context `{JsonLib} {P : PolicyFFI}.

Definition popen_allowed (d : Daemon) (req : string) (w : World) (h : trace) (o : sysop) : Prop :=
  match o with OpPopen cmd => may_run d req w h cmd | _ => True end.

Lemma no_popen_allowed d req w h o : no_popen o -> popen_allowed d req w h o.
Proof. by destruct o. Qed.

(** Every request type other than GetProvider and Execute starts nothing. *)
Lemma dispatch_no_popen d type body :
  type <> 0x02 -> type <> 0x03 -> emits no_popen (dispatch d type body).
Proof.
  intros H2 H3. unfold dispatch.
  assert (request_type type <> Some GetProvider /\ request_type type <> Some Execute) as [N2 N3].
  { unfold request_type. repeat (case_match; try (split; congruence)); congruence. }
  destruct (request_type type) as [[]|]; try congruence;
    unfold on_GetCapability, on_Ping, on_GetCapabilityMatrix, on_InstallModule, on_RemoveModule,
      on_StartModule, on_StopModule, on_ListModules, on_QueryPermission, on_GrantPermission,
      on_RevokePermission, on_GetRiskScore, on_GetAuditLog; emits_tac.
Qed.

Lemma on_Execute_gate d b body w h :
  byte_val b = 0x03 ->
  wp (on_Execute d body) (fun _ h' =>
    exists t, h' = h ++ t /\ Forall (popen_allowed d (String b body) w h) t) w h.
Proof.
  intros Hb. unfold on_Execute.
  destruct (parse_execute_request body) as [r|] eqn:Hr; [|exists []; by rewrite app_nil_r].
  unfold can_execute, pm_current. destruct (d_manager d) as [p|] eqn:Hp.
  2: { apply wp_try_bind, wp_ret. cbn [negb]. exists []; by rewrite app_nil_r. }
  apply wp_try_bind. unfold wp at 1.
  destruct (provider_available_ops p w h) as (t & Et & Ht).
  destruct (rp_available (ap_obj p) w h) as [oa h1] eqn:Ha. cbn [fst snd] in *. subst h1.
  assert (Forall (popen_allowed d (String b body) w h) t) as Ht'
    by (eapply Forall_impl; [exact Ht|by intros []]).
  destruct oa as [[]|]; cbn [negb]; [|by exists t..].
  destruct (checkWith _ _ _ _) eqn:Hc; [|by exists t..].
  apply wp_bind. unfold execute. apply wp_bind, wp_popen.
  assert (may_run d (String b body) w h (c_str (er_command r +:+ " 2>&1"))) as Hm.
  { right. split; [done|]. exists r, p. rewrite Ha. split_and!; try done.
    intros Hn. destruct (law_none (ap_obj p) w h Hn) as [_ Hf]. by rewrite Ha in Hf. }
  assert (exists t', (h ++ t) ++ [OpPopen (c_str (er_command r +:+ " 2>&1"))] = h ++ t' /\
    Forall (popen_allowed d (String b body) w h) t') as Hgo.
  { exists (t ++ [OpPopen (c_str (er_command r +:+ " 2>&1"))]). rewrite (assoc_L (++)).
    split; [done|]. apply Forall_app. split; [done|]. by constructor. }
  destruct (w_popen _ _ _) as [[out status]|]; do 2 apply wp_ret;
    exact Hgo.
Qed.

Lemma handler_gate d req w h :
  wp (handler d req) (fun _ h' =>
    exists t, h' = h ++ t /\ Forall (popen_allowed d req w h) t) w h.
Proof.
  destruct req as [|b body]; cbn [handler].
  { apply wp_ret. exists []. by rewrite app_nil_r. }
  apply wp_bind.
  assert (forall r h', (exists t, h' = h ++ t /\ Forall (popen_allowed d (String b body) w h) t) ->
    wp (ret (match r with Some (d', response_json) => Some (d', String b response_json)
             | None => None end))
      (fun (_ : option (Daemon * string)) h' =>
         exists t, h' = h ++ t /\ Forall (popen_allowed d (String b body) w h) t) w h') as Hret.
  { intros r h' Ht. by apply wp_ret. }
  destruct (Z.eq_dec (byte_val b) 0x02) as [E2|N2]; [|destruct (Z.eq_dec (byte_val b) 0x03) as [E3|N3]].
  - unfold dispatch. rewrite E2. cbn [request_type]. unfold on_GetProvider. apply wp_bind.
    eapply wp_emits; [apply provider_detect_all_ops|]. intros l t Ht.
    assert (exists t', h ++ t = h ++ t' /\ Forall (popen_allowed d (String b body) w h) t') as Hgo.
    { exists t. split; [done|]. eapply Forall_impl; [exact Ht|]. intros []; cbn; auto. }
    unfold reply. destruct (make_providers_response _); do 2 apply wp_ret; exact Hgo.
  - unfold dispatch. rewrite E3. cbn [request_type].
    eapply wp_mono; [by apply on_Execute_gate|]. intros r h' Ht. by apply Hret.
  - eapply wp_emits; [by apply dispatch_no_popen|]. intros r t Ht. apply Hret.
    exists t. split; [done|]. eapply Forall_impl; [exact Ht|apply no_popen_allowed].
Qed.
End gate.

Definition started `{JsonLib} (P : PolicyFFI) (d : Daemon) (req : string) (w : World) (h : trace)
    (cmd : string) : Prop :=
  exists t, (handler d req w h).2 = h ++ t /\ In (OpPopen cmd) t.

(** C1: whatever the handler receives and whatever the system answers, the
    only shell commands a request starts are: for GetProvider the three
    constant version queries of the detector; for Execute the command (as
    [popen] sees it, up to its first NUL) of a body that parses with all its fields, when an available root provider is
    active at that moment and the policy bridge answers ALLOW.  With the Rust
    policy that means a risk level below 80 and an approved request; without
    the library no Execute request starts anything. *)
Theorem execute_gate `{JsonLib} d b body w h cmd :
  (forall P, started P d (String b body) w h cmd -> may_run d (String b body) w h cmd) /\
  (started rust_engine d (String b body) w h cmd -> byte_val b = 0x03 ->
   exists r p, parse_execute_request body = Some r /\ cmd = c_str (er_command r +:+ " 2>&1") /\
     d_manager d = Some p /\ (rp_available (ap_obj p) w h).1 = Some true /\
     er_risk_level r < 80 /\ er_approved r = true) /\
  (started weak_engine d (String b body) w h cmd -> byte_val b = 0x02 /\ In cmd detector_cmds).
Proof.
  assert (forall P, started P d (String b body) w h cmd -> may_run d (String b body) w h cmd) as Hgate.
  { intros P (t & Et & Hin).
    destruct (wp_run _ _ _ _ (handler_gate d (String b body) w h)) as (t' & E & Ht').
    rewrite Et in E. apply (inj (app h)) in E as ->. rewrite List.Forall_forall in Ht'.
    exact (Ht' _ Hin). }
  split_and!; [exact Hgate|..].
  - intros Hs Hb. apply Hgate in Hs as [[Hb' _]|[_ (r & p & Hr & -> & Hm & Ha & _ & Hc)]]; [lia|].
    exists r, p. pose proof (parse_risk_bound _ _ Hr). rewrite policy_rust in Hc by lia.
    unfold policy_spec in Hc.
    destruct (80 <=? er_risk_level r) eqn:?, (er_approved r); try done. split_and!; try done. lia.
  - intros Hs. by apply Hgate in Hs as [?|[_ (r & p & _ & _ & _ & _ & _ & Hc)]].
Qed.

(** A KernelSU device whose shell answers. *)
Definition ksu_shell (out : string) : World :=
  {| w_exists _ p := str_eqb p "/data/adb/ksu"; w_read _ _ := None;
     w_popen _ _ := Some (out, 0); w_now _ := EmptyString; w_int _ _ := -1 |}.
Definition ksu_daemon : Daemon :=
  {| d_ctx := default_context; d_manager := Some (pack MkKernelSU); d_matrix := ∅;
     d_modules := []; d_database := ∅ |}.

Lemma execute_gate_witness :
  @started sample_lib rust_engine ksu_daemon (String (byte_of 3) "low") (ksu_shell "uid=0") []
    "id 2>&1" /\
  exists r p, @parse_execute_request sample_lib "low" = Some r /\ "id 2>&1" = c_str (er_command r +:+ " 2>&1") /\
     d_manager ksu_daemon = Some p /\ (rp_available (ap_obj p) (ksu_shell "uid=0") []).1 = Some true /\
     er_risk_level r < 80 /\ er_approved r = true.
Proof.
  assert (@started sample_lib rust_engine ksu_daemon (String (byte_of 3) "low") (ksu_shell "uid=0") []
    "id 2>&1") as Hs.
  { eexists. split; [reflexivity|]. vm_compute. tauto. }
  split; [exact Hs|].
  exact (proj1 (proj2 (@execute_gate sample_lib ksu_daemon (byte_of 3) "low" (ksu_shell "uid=0") []
    "id 2>&1")) Hs eq_refl).
Defined.

(** ** Permissions across requests *)

(** The permission change a request asks for, if it is well formed. *)
Definition permission_request (body : string) : option (string * Permission) :=
  match split_permission body with
  | None => None
  | Some (m, name) => match permission_from_name name with
                      | None => None
                      | Some p => Some (m, p)
                      end
  end.
Definition permission_op (req : string) : list sec_op :=
  match req with
  | EmptyString => []
  | String b body =>
      match request_type (byte_val b), permission_request body with
      | Some GrantPermission, Some (m, p) => [OpGrant m p]
      | Some RevokePermission, Some (m, p) => [OpRevoke m p]
      | _, _ => []
      end
  end.

(** The handler applied to one request after the other. *)
Fixpoint serve_requests `{JsonLib} `{PolicyFFI} (d : Daemon) (reqs : list string)
    : Sys (option Daemon) :=
  match reqs with
  | [] => ret (Some d)
  | req :: reqs' =>
      let! r := handler d req in
      match r with
      | None => ret None
      | Some (d', _) => serve_requests d' reqs'
      end
  end.

(** [keeps P c]: if the program returns a daemon, that daemon satisfies [P]. *)
Definition keeps (P : Daemon -> Prop) (c : Sys (option (Daemon * string))) : Prop :=
  forall w h, match (c w h).1 with Some (d', _) => P d' | None => True end.

Lemma keeps_reply P d r : P d -> keeps P (reply d r).
Proof. intros HP w h. unfold reply, ret. by destruct r. Qed.
Lemma keeps_bind {A} P (c : Sys A) k : (forall a, keeps P (k a)) -> keeps P (bind c k).
Proof. intros Hk w h. unfold bind. destruct (c w h) as [a h']. apply Hk. Qed.
Lemma keeps_try_bind {A} P (c : Sys (option A)) k :
  (forall a, keeps P (k a)) -> keeps P (try_bind c k).
Proof. intros Hk w h. unfold try_bind, bind. destruct (c w h) as [[a|] h']; [apply Hk|done]. Qed.
Lemma keeps_none P : keeps P (ret None).
Proof. by intros w h. Qed.

Ltac keeps_tac :=
  repeat match goal with
  | |- keeps _ (bind _ _) => apply keeps_bind; intros
  | |- keeps _ (try_bind _ _) => apply keeps_try_bind; intros
  | |- keeps _ (reply _ _) => apply keeps_reply
  | |- keeps _ (ret None) => apply keeps_none
  | |- keeps _ (if ?b then _ else _) => destruct b
  | |- keeps _ (let '(_, _) := ?x in _) => destruct x eqn:?
  | |- keeps _ (match ?x with _ => _ end) => destruct x eqn:?
  end.

Section history.
Context `{JsonLib} `{PolicyFFI}.

(** A request changes the permission database by its operation alone. *)
Lemma dispatch_database d b body :
  keeps (fun d' => d_database d' = fold_left sec_step (permission_op (String b body)) (d_database d))
    (dispatch d (byte_val b) body).
Proof.
  unfold dispatch, permission_op.
  destruct (request_type (byte_val b)) as [[]|];
    unfold on_GetCapability, on_GetProvider, on_Execute, on_Ping, on_GetCapabilityMatrix,
      on_InstallModule, on_RemoveModule, on_StartModule, on_StopModule, on_ListModules,
      on_QueryPermission, on_GetRiskScore, on_GetAuditLog;
    try (keeps_tac; done).
  - unfold on_GrantPermission, permission_request. keeps_tac; try done.
    cbn [fold_left sec_step]. by match goal with E : engine_grant _ _ _ = _ |- _ => rewrite E end.
  - unfold on_RevokePermission, permission_request. keeps_tac; try done.
    cbn [fold_left sec_step]. by match goal with E : engine_revoke _ _ _ = _ |- _ => rewrite E end.
Qed.

Lemma handler_database d req :
  keeps (fun d' => d_database d' = fold_left sec_step (permission_op req) (d_database d))
    (handler d req).
Proof.
  destruct req as [|b body]; cbn [handler]; [by intros w h|].
  intros w h. pose proof (dispatch_database d b body w h) as Hd. unfold bind, ret.
  destruct (dispatch d (byte_val b) body w h) as [[[d' r]|] h']; [exact Hd|done].
Qed.

Lemma serve_requests_database reqs : forall d w h,
  match (serve_requests d reqs w h).1 with
  | Some d' => d_database d' = fold_left sec_step (concat (permission_op <$> reqs)) (d_database d)
  | None => True
  end.
Proof.
  induction reqs as [|req reqs IH]; intros d w h; cbn [serve_requests]; [done|].
  unfold bind. pose proof (handler_database d req w h) as Hd.
  destruct (handler d req w h) as [[[d' r]|] h']; [|done]. cbn in Hd.
  specialize (IH d' w h'). destruct (serve_requests d' reqs w h') as [[d''|] h'']; [|done].
  cbn in *. by rewrite fold_left_app, <-Hd.
Qed.
End history.

Definition query (m : string) (p : Permission) : string :=
  String (byte_of 0x0B) (m +:+ ":" +:+ permission_name p).

Lemma permission_request_query m p :
  no_char ":" m -> permission_request (m +:+ ":" +:+ permission_name p) = Some (m, p).
Proof.
  intros Hm. unfold permission_request, split_permission.
  change (":" +:+ permission_name p) with (String ":" (permission_name p)).
  rewrite str_find_char by done. rewrite take_str_app.
  replace (String.length m + 1)%nat with (String.length (m +:+ ":")) by (rewrite length_app_str; done).
  change (m +:+ String ":" (permission_name p)) with (m +:+ ":" +:+ permission_name p).
  rewrite <-app_str_assoc, drop_str_app, permission_from_name_ok. done.
Qed.

(** C2: after any sequence of requests to a freshly started daemon (none of
    which terminated it), a QueryPermission request for a module id without a
    colon answers granted:true exactly when the last well-formed Grant or
    Revoke request about that module and permission was a Grant and the
    current capability matrix offers the gating capability; the query changes
    nothing and appends its outcome to the audit log. *)
Theorem query_permission_history `{JsonLib} `{PolicyFFI} d reqs w h d' m p :
  d_database d = ∅ -> (serve_requests d reqs w h).1 = Some d' -> no_char ":" m ->
  let h' := (serve_requests d reqs w h).2 in
  let ok := granted (rev (concat (permission_op <$> reqs))) m p
            && match permission_to_capability p with
               | Some c => matrix_has (d_matrix d') c
               | None => true
               end in
  handler d' (query m p) w h' =
    (Some (d', String (byte_of 0x0B)
             (if ok then lit_granted "true" "allow" else lit_granted "false" "denied")),
     (audit_log audit_path m (permission_name p) ok w h').2).
Proof.
  intros Hdb Hs Hm h' ok. pose proof (serve_requests_database reqs d w h) as Hd.
  rewrite Hs, Hdb in Hd. unfold handler, query.
  unfold bind at 1. unfold dispatch. change (request_type (byte_val (byte_of 0x0B))) with (Some QueryPermission).
  cbn iota. unfold on_QueryPermission.
  pose proof (permission_request_query m p Hm) as Hq. unfold permission_request in Hq.
  destruct (split_permission (m +:+ ":" +:+ permission_name p)) as [[m1 n1]|]; [|done].
  destruct (permission_from_name n1) as [p1|] eqn:Hn; [|done]. injection Hq as -> ->.
  assert (n1 = permission_name p) as ->.
  { unfold permission_from_name in Hn. apply List.find_some in Hn as [_ Hn].
    by apply str_eqb_true in Hn. }
  assert (authorize (d_matrix d') (d_database d')
    {| pr_module_id := m; pr_permission := p; pr_reason := EmptyString |} = ok) as ->.
  { unfold ok. rewrite <-db_check_granted, <-Hd. unfold authorize. cbn.
    destruct (db_check _ _ _); cbn; [|done].
    destruct (permission_to_capability p) as [c|]; [|done]. by destruct (matrix_has _ c). }
  unfold bind. destruct (audit_log audit_path m (permission_name p) ok w h') as [[] h''].
  by destruct ok.
Qed.

Definition grant_request (m : string) (p : Permission) : string :=
  String (byte_of 0x0C) (m +:+ ":" +:+ permission_name p).

Definition started_daemon : Daemon :=
  match (daemon_init "/s" (ksu_shell EmptyString) []).1 with Some d => d | None => ksu_daemon end.
Definition two_grants : list string :=
  [grant_request "m1" Perm_BOOT_PATCH; grant_request "m2" Perm_NETWORK_ACCESS].
Definition granted_daemon : option Daemon * trace :=
  @serve_requests sample_lib rust_engine started_daemon
    two_grants (ksu_shell EmptyString) [].

Lemma query_permission_history_witness :
  exists d', granted_daemon.1 = Some d' /\
    (@handler sample_lib rust_engine d' (query "m2" Perm_NETWORK_ACCESS)
       (ksu_shell EmptyString) granted_daemon.2).1
    = Some (d', String (byte_of 0x0B) (lit_granted "false" "denied")).
Proof.
  assert (option_map (fun x => matrix_has (d_matrix x) Cap_NETWORK) granted_daemon.1 = Some false)
    as Hm by (vm_compute; reflexivity).
  destruct granted_daemon.1 as [d'|] eqn:E; [|discriminate Hm].
  exists d'. split; [reflexivity|].
  pose proof (@query_permission_history sample_lib rust_engine
    started_daemon two_grants
    (ksu_shell EmptyString) [] d' "m2" Perm_NETWORK_ACCESS eq_refl E
    ltac:(cbn; repeat split; discriminate)) as Hq.
  cbn zeta in Hq. fold granted_daemon in Hq. rewrite Hq. cbn [fst].
  injection Hm as Hm. cbn [permission_to_capability].
  rewrite Hm, andb_false_r. reflexivity.
Defined.

(** ** Exceptions that leave the handler *)

(** Constant strings are 7-bit. *)
Ltac const_ascii := unfold ascii7; cbn; repeat (apply Forall_cons_2; [done|]); apply Forall_nil_2.
Ltac const_utf8 := apply ascii7_utf8; const_ascii.
(** The members of a constant object, leaving the values. *)
Ltac dump_fields :=
  apply dump_obj_some; repeat (apply Forall_cons_2; [split; cbn [fst snd]; [const_utf8|]|]);
  [..|apply Forall_nil_2];
  repeat match goal with
  | |- is_Some (dump (JInt _)) => apply dump_int_some
  | |- is_Some (dump (JBool _)) => apply dump_bool_some
  | |- is_Some (dump (JString _)) => apply dump_string_some
  end; try done.

Lemma error_response_some `{JsonLib} e r : utf8 e -> utf8 r -> is_Some (make_error_response e r).
Proof. intros He Hr. dump_fields. Qed.

Lemma ping_response_some `{JsonLib} v u : utf8 v -> is_Some (make_ping_response v u).
Proof. intros Hv. dump_fields. const_utf8. Qed.

(** Every source the probes report is plain text. *)
Definition plain_probe (p : Probe) : Prop := ascii7 (probe_source p).
Definition plain_probes (m : list (string * Probe)) : Prop :=
  Forall (fun kp => ascii7 kp.1 /\ plain_probe kp.2) m.

Lemma probe_root_plain : gives plain_probe probe_root.
Proof.
  unfold probe_root. gives_tac. unfold plain_probe. cbn [probe_source].
  apply ascii7_app. split; [const_ascii|apply ascii7_show_Z].
Qed.
Lemma probe_namespace_plain path flag source :
  ascii7 source -> gives plain_probe (probe_namespace path flag source).
Proof. intros Hs. unfold probe_namespace. gives_tac. done. Qed.
Lemma probe_selinux_plain : gives plain_probe probe_selinux.
Proof.
  unfold probe_selinux. apply gives_bind; intros present.
  apply (gives_bind_val ascii7).
  - gives_tac; [destruct (str_eqb _ _)|]; const_ascii.
  - intros mode Hm. gives_tac. unfold plain_probe. cbn [probe_source].
    rewrite !ascii7_app. split_and!; try done; const_ascii.
Qed.

Lemma probe_detect_all_plain : gives plain_probes probe_detect_all.
Proof.
  unfold probe_detect_all.
  apply (gives_bind_val plain_probe); [apply probe_root_plain|intros root Hroot].
  apply (gives_bind_val plain_probe).
  { unfold probe_overlayfs. gives_tac. const_ascii. } intros ov Hov.
  apply (gives_bind_val plain_probe); [apply probe_namespace_plain; const_ascii|intros mnt Hmnt].
  apply (gives_bind_val plain_probe); [apply probe_namespace_plain; const_ascii|intros pid Hpid].
  apply (gives_bind_val plain_probe); [apply probe_namespace_plain; const_ascii|intros net Hnet].
  apply (gives_bind_val plain_probe); [apply probe_selinux_plain|intros se Hse].
  apply (gives_bind_val plain_probe).
  { unfold probe_system_write. gives_tac. const_ascii. } intros sw Hsw.
  apply (gives_bind_val plain_probe).
  { unfold probe_zygisk. gives_tac; const_ascii. } intros zy Hzy.
  apply gives_ret. unfold plain_probes.
  repeat (apply smap_set_Forall; [split; cbn [fst snd]; [const_ascii|try done; const_ascii]|]).
  apply Forall_nil_2.
Qed.

Section exceptions.
Context `{JsonLib} `{PolicyFFI}.

Definition answered {A} (r : option A) : Prop := is_Some r.

Lemma reply_answered d r : is_Some r -> gives answered (reply d r).
Proof. intros [s ->] w h. unfold reply, ret, answered. cbn. eauto. Qed.

Lemma on_GetCapability_answered d : gives answered (on_GetCapability d).
Proof.
  unfold on_GetCapability. apply (gives_bind_val plain_probes); [apply probe_detect_all_plain|].
  intros m Hm. apply reply_answered. unfold make_capability_response_with_source.
  dump_fields. apply dump_obj_some. apply Forall_fmap, Forall_fmap.
  eapply Forall_impl; [exact Hm|]. intros [k p] [Hk Hp]. unfold compose. cbn [fst snd] in *.
  split; [by apply ascii7_utf8|]. unfold capability_entry. dump_fields.
  by apply ascii7_utf8.
Qed.

(** The request types that probe no file with the throwing
    [std::filesystem::exists] and whose response carries only text that is
    under the daemon's control or escaped by hand. *)
Definition plain_request (b : ascii) : Prop :=
  byte_val b <> 0x02 /\ byte_val b <> 0x03 /\ byte_val b <> 0x05 /\ byte_val b <> 0x0F.

(** GetCapabilityMatrix: an answer exactly when every probe has one. *)
Lemma on_GetCapabilityMatrix_throws d : throws_iff (on_GetCapabilityMatrix d).
Proof.
  unfold on_GetCapabilityMatrix. apply throws_try_bind; [apply capability_detect_throws|].
  intros m. apply throws_ret.
Qed.

Lemma dispatch_answered d b body :
  plain_request b -> utf8 (ctx_version (d_ctx d)) -> gives answered (dispatch d (byte_val b) body).
Proof.
  intros (N2 & N3 & N5 & NF) Hv. unfold dispatch.
  destruct (request_type (byte_val b)) as [t|] eqn:Et.
  2: { apply reply_answered, error_response_some; const_utf8. }
  assert (t <> GetProvider /\ t <> Execute /\ t <> GetCapabilityMatrix /\ t <> GetAuditLog)
    as (M2 & M3 & M5 & MF).
  { unfold request_type in Et. repeat (case_match; simplify_eq); done. }
  destruct t; try congruence;
    unfold on_Ping, on_InstallModule, on_RemoveModule, on_StartModule,
      on_StopModule, on_ListModules, on_QueryPermission, on_GrantPermission,
      on_RevokePermission, on_GetRiskScore;
    try (gives_tac; apply reply_answered; eexists; reflexivity).
  - apply on_GetCapability_answered.
  - gives_tac. by apply reply_answered, ping_response_some.
Qed.

(** C5: for every request type except GetProvider, Execute, GetCapabilityMatrix
    and GetAuditLog the handler returns a response for every body and whatever
    the system answers: no exception can leave it.  For GetCapabilityMatrix an
    exception leaves it exactly when the [stat] behind one of its
    [std::filesystem::exists] fails with another error than a missing file.
    Whenever there is a response it starts with the type byte of the request,
    and the version in the context is never changed by any request. *)
Theorem handler_answers d b body w h :
  (plain_request b -> utf8 (ctx_version (d_ctx d)) ->
   exists d' r, (handler d (String b body) w h).1 = Some (d', String b r)) /\
  (byte_val b = 0x05 ->
   exists t, (handler d (String b body) w h).2 = h ++ t /\
     ((handler d (String b body) w h).1 = None <-> stat_failed w h t)) /\
  match (handler d (String b body) w h).1 with
  | Some (d', resp) => (exists r, resp = String b r) /\ ctx_version (d_ctx d') = ctx_version (d_ctx d)
  | None => True
  end.
Proof.
  split_and!.
  - intros Hb Hv. destruct (dispatch_answered d b body Hb Hv w h) as [[d' r] E].
    exists d', r. cbn [handler]. unfold bind.
    destruct (dispatch d (byte_val b) body w h) as [o h']. cbn in E. by subst o.
  - intros Hb. cbn [handler]. unfold dispatch. rewrite Hb. cbn [request_type]. unfold bind.
    destruct (on_GetCapabilityMatrix_throws d w h) as (t & Et & Hi). exists t.
    destruct (on_GetCapabilityMatrix d w h) as [[[d' r]|] h']; cbn in *; split; try done.
    rewrite <-Hi. split; [done|]. by intros [= _].
  - cbn [handler]. unfold bind.
    assert (keeps (fun d' => ctx_version (d_ctx d') = ctx_version (d_ctx d))
      (dispatch d (byte_val b) body)) as Hk.
    { unfold dispatch. destruct (request_type (byte_val b)) as [[]|];
        unfold on_GetCapability, on_GetProvider, on_Execute, on_Ping, on_GetCapabilityMatrix,
          on_InstallModule, on_RemoveModule, on_StartModule, on_StopModule, on_ListModules,
          on_QueryPermission, on_GrantPermission, on_RevokePermission, on_GetRiskScore,
          on_GetAuditLog; keeps_tac; done. }
    specialize (Hk w h). destruct (dispatch d (byte_val b) body w h) as [[[d' r]|] h']; [|done].
    cbn in *. eauto.
Qed.

(** an Execute request that the gate lets through is answered exactly when
    the command's output is well-formed UTF-8; on any other output the
    response builder's exception leaves the handler, which terminates the
    process. *)
Theorem execute_output_crash d body w h r p out status :
  parse_execute_request body = Some r -> d_manager d = Some p ->
  (rp_available (ap_obj p) w h).1 = Some true ->
  checkWith (er_module_id r) (er_capability r) (er_risk_level r) (er_approved r) = ALLOW ->
  w_popen w (rp_available (ap_obj p) w h).2 (c_str (er_command r +:+ " 2>&1")) = Some (out, status) ->
  is_Some (handler d (String (byte_of 3) body) w h).1 <-> utf8 out.
Proof.
  intros Hr Hm Ha Hc Hp. cbn [handler]. unfold dispatch.
  change (request_type (byte_val (byte_of 3))) with (Some Execute). cbn iota.
  unfold on_Execute. rewrite Hr. unfold can_execute, pm_current. rewrite Hm.
  unfold try_bind, bind. destruct (rp_available (ap_obj p) w h) as [a h1]. cbn in Ha, Hp. subst a.
  cbn [negb]. rewrite Hc. unfold execute, sys_popen, bind. rewrite Hp.
  rewrite drain_all by lia. unfold ret, reply. cbn [ex_exit_code ex_stdout ex_stderr].
  transitivity (utf8 out /\ utf8 EmptyString); [|split; [tauto|split; [done|constructor]]].
  rewrite <-(make_exec_response_some (exit_code_of status =? 0) (exit_code_of status)).
  destruct (make_exec_response _ _ _ _); cbn; split; intros [? ?]; eauto; done.
Qed.

End exceptions.

(** *** The audit log read back *)

Lemma getlines_no_newline s : Forall (no_char newline) (getlines s).
Proof.
  induction s as [|c s IH]; cbn [getlines]; [constructor|].
  destruct (Ascii.eqb_spec c newline) as [->|Hc]; [by constructor|].
  destruct (getlines s) as [|l ls]; [by repeat constructor|].
  apply Forall_cons in IH as [Hl Hls]. by repeat constructor.
Qed.

Lemma getlines_concat ls :
  Forall (no_char newline) ls -> getlines (concat_str ((fun l => l +:+ nl) <$> ls)) = ls.
Proof.
  induction 1 as [|l ls Hl Hls IH]; cbn [fmap list_fmap concat_str]; [done|].
  unfold nl at 1. rewrite app_str_assoc. cbn [String.append].
  rewrite getlines_line by done. by rewrite IH.
Qed.

(** Text between two 7-bit neighbours has to be well-formed on its own. *)
Lemma utf8_next_ascii st b : st <> 0 -> b < 128 -> utf8_next st b = 1.
Proof. intros Hst Hb. unfold utf8_next, between. byte_cases; reflexivity || lia. Qed.

Lemma accepts_before_ascii m c t : forall st,
  byte_val c < 128 -> accepts st (m +:+ String c t) = true -> accepts st m = true.
Proof.
  induction m as [|b m IH]; intros st Hc; cbn [accepts String.append].
  - destruct (Z.eqb_spec st 0) as [|Hst]; [done|]. by rewrite utf8_next_ascii.
  - destruct (utf8_next st (byte_val b) =? 1); [done|]. by apply IH.
Qed.

Lemma utf8_inner a m c t :
  ascii7 a -> byte_val c < 128 -> utf8 (a +:+ m +:+ String c t) -> utf8 m.
Proof.
  intros Ha Hc Hu. assert (utf8 (m +:+ String c t)) as Hm.
  { revert Hu. unfold ascii7 in Ha. induction a as [|b a IH]; cbn in *; [done|].
    apply Forall_cons in Ha as [Hb Ha]. intros Hu. apply (IH Ha).
    apply utf8_accepts, accepts_0_cons in Hu. unfold in_range in Hu.
    destruct_or! Hu; destruct Hu as [Hr Hu]; try lia.
    apply (accepts_utf8 (S (String.length (a +:+ m +:+ String c t)))); [lia|done]. }
  apply utf8_accepts, accepts_before_ascii in Hm; [|done].
  apply (accepts_utf8 (S (String.length m))); [lia|done].
Qed.

Lemma audit_line_not_utf8 now m a r : ascii7 now -> ~ utf8 m -> ~ utf8 (audit_line now m a r).
Proof.
  intros Hnow Hm Hu. apply Hm. eapply (utf8_inner (audit_prefix now) m (ascii_of_nat 34)).
  - unfold audit_prefix, quoted. rewrite !ascii7_app. split_and!; try done; const_ascii.
  - done.
  - unfold audit_line, quoted at 4 in Hu. unfold audit_prefix. rewrite !app_str_assoc in *.
    exact Hu.
Qed.

(** A line written to a log that only grows by whole lines is one of its lines. *)
Definition log_holds (content line : string) : Prop :=
  exists before after, content = before +:+ line +:+ nl +:+ after
    /\ (before = EmptyString \/ exists b, before = b +:+ nl).

Lemma getlines_after x y :
  exists ls, ls <> [] /\ getlines (x +:+ String newline y) = ls ++ getlines y.
Proof.
  induction x as [|c x (ls & Hne & IH)]; cbn [getlines String.append].
  - rewrite Ascii.eqb_refl. by exists [EmptyString].
  - rewrite IH. destruct (Ascii.eqb c newline); [by exists (EmptyString :: ls)|].
    destruct ls as [|l ls]; [done|]. by exists (String c l :: ls).
Qed.

Lemma log_holds_line content line :
  no_char newline line -> log_holds content line -> In line (getlines content).
Proof.
  intros Hl (before & after & -> & Hb).
  assert (In line (getlines (line +:+ nl +:+ after))) as Hin
    by (unfold nl; cbn [String.append]; rewrite getlines_line by done; by left).
  destruct Hb as [->|[b ->]]; [done|]. rewrite app_str_assoc.
  destruct (getlines_after b (line +:+ nl +:+ after)) as (ls & _ & E).
  change (nl +:+ ?x) with (String newline x). rewrite E. apply List.in_app_iff. by right.
Qed.

(** A permission query is written to the log before it is answered. *)
Lemma query_logged `{JsonLib} `{PolicyFFI} d w h m p :
  no_char ":" m ->
  In (OpAppend audit_path (audit_line (w_now w h) m (permission_name p)
        (authorize (d_matrix d) (d_database d)
           {| pr_module_id := m; pr_permission := p; pr_reason := EmptyString |}) +:+ nl))
     (handler d (query m p) w h).2.
Proof.
  intros Hm. unfold handler, query. unfold bind at 1. unfold dispatch.
  change (request_type (byte_val (byte_of 0x0B))) with (Some QueryPermission). cbn iota.
  unfold on_QueryPermission. pose proof (permission_request_query m p Hm) as Hq.
  unfold permission_request in Hq.
  destruct (split_permission (m +:+ ":" +:+ permission_name p)) as [[m1 n1]|]; [|done].
  destruct (permission_from_name n1) as [p1|] eqn:Hn; [|done]. injection Hq as -> ->.
  apply List.find_some in Hn as [_ Hn]. apply str_eqb_true in Hn as <-.
  unfold audit_log, bind, sys_now, sys_do, reply, ret. cbn [snd fst].
  destruct (is_empty (parent_path audit_path)); cbn [snd fst]; rewrite ?List.in_app_iff; cbn; auto.
Qed.

Lemma on_GetAuditLog_throws `{JsonLib} `{PolicyFFI} d w h content l :
  w_read w h "/data/astra/log/security.log" = Some content ->
  In l (getlines content) -> json_parse l = None -> ~ utf8 l ->
  (on_GetAuditLog d w h).1 = None.
Proof.
  intros Hr Hl Hp Hu. unfold on_GetAuditLog, bind, sys_read. rewrite Hr. unfold reply, ret.
  destruct (make_audit_array _) as [s|] eqn:E; [|done].
  assert (is_Some (make_audit_array (concat_str ((fun l => l +:+ nl) <$> getlines content)))) as Hs
    by by rewrite E.
  apply make_audit_array_some in Hs. rewrite getlines_concat in Hs by apply getlines_no_newline.
  rewrite List.Forall_forall in Hs. specialize (Hs l Hl).
  unfold audit_entry in Hs. rewrite Hp in Hs.
  exfalso. apply Hu, dump_string_utf8, Hs. intros ->. apply Hu. constructor.
Qed.

(** The module id made of the byte 255. *)
Definition bad_id : string := String (byte_of 255) EmptyString.

Lemma execute_output_crash_witness :
  (@parse_execute_request sample_lib "low" <> None) /\
  (@handler sample_lib rust_engine ksu_daemon (String (byte_of 3) "low")
     (ksu_shell bad_id) []).1 = None.
Proof.
  split; [vm_compute; discriminate|].
  destruct (@parse_execute_request sample_lib "low") as [r|] eqn:Hr; [|vm_compute in Hr; discriminate].
  destruct (@handler sample_lib rust_engine ksu_daemon (String (byte_of 3) "low")
     (ksu_shell bad_id) []).1 as [x|] eqn:E; [exfalso|reflexivity].
  assert (@checkWith rust_engine (er_module_id r) (er_capability r) (er_risk_level r) (er_approved r) = ALLOW) as Hc.
  { vm_compute in Hr. injection Hr as <-. reflexivity. }
  pose proof (@execute_output_crash sample_lib rust_engine ksu_daemon "low" (ksu_shell bad_id) []
    r (pack MkKernelSU) bad_id 0 Hr eq_refl eq_refl Hc eq_refl) as [Hi _].
  rewrite E in Hi. assert (utf8 bad_id) as Hu by (apply Hi; eauto).
  apply utf8_accepts in Hu. vm_compute in Hu. discriminate.
Defined.

Lemma handler_answers_witness :
  exists d' r, (@handler sample_lib rust_engine ksu_daemon (String (byte_of 4) EmptyString)
                  (ksu_shell EmptyString) []).1 = Some (d', String (byte_of 4) r).
Proof.
  refine (proj1 (@handler_answers sample_lib rust_engine ksu_daemon (byte_of 4) EmptyString
    (ksu_shell EmptyString) []) _ _).
  - vm_compute. repeat split; discriminate.
  - apply ascii7_utf8. const_ascii.
Defined.
