(* ===== verification/CapTree.v ===== *)
(** * CapTree: the capability delegation tree

    Models [daemon/src/security/capability_tree.cpp].  The two hash maps of
    the class are [gmap]s; the recursive walks take fuel, of which the depth
    of the tree is enough (the walks answer [None] when it runs out, and the
    theorems show that they do not).  The lock makes every operation atomic.
    Depths are unbounded integers: a chain of 2^31 delegations is needed to
    leave the range of [int]. *)

From Stdlib Require Import ZArith Ascii String Lia.
From stdpp Require Import base numbers list strings gmap.
From S2P Require Import Prelude.

Open Scope Z_scope.

Record CapabilityNode := {
  n_id : string;
  n_parent_id : string;
  n_capabilities : gset string;
  n_depth : Z;
}.

Record CapabilityTree := {
  t_nodes : gmap string CapabilityNode;
  t_children : gmap string (list string);
}.

Definition initRoot (allCapabilities : gset string) : CapabilityTree :=
  {| t_nodes := {[ "daemon" := {| n_id := "daemon"; n_parent_id := EmptyString;
                                  n_capabilities := allCapabilities; n_depth := 0 |} ]};
     t_children := {[ "daemon" := [] ]} |}.

Definition delegate (t : CapabilityTree) (parentId childId : string) (capabilities : gset string)
    : bool * CapabilityTree :=
  match t_nodes t !! parentId with
  | None => (false, t)
  | Some parent =>
      if bool_decide (is_Some (t_nodes t !! childId)) then (false, t)
      else if negb (bool_decide (capabilities ⊆ n_capabilities parent)) then (false, t)
      else
        let child := {| n_id := childId; n_parent_id := parentId;
                        n_capabilities := capabilities; n_depth := n_depth parent + 1 |} in
        (true,
         {| t_nodes := <[childId := child]> (t_nodes t);
            t_children := <[childId := []]>
              (<[parentId := default [] (t_children t !! parentId) ++ [childId]]> (t_children t)) |})
  end.

(** A loop whose body may run out of fuel. *)
Fixpoint loop {A B} (body : B -> A -> option A) (bs : list B) (a : A) : option A :=
  match bs with
  | [] => Some a
  | b :: bs' => match body b a with Some a' => loop body bs' a' | None => None end
  end.

Definition erase_cap (capability : string) (n : CapabilityNode) : CapabilityNode :=
  {| n_id := n_id n; n_parent_id := n_parent_id n;
     n_capabilities := n_capabilities n ∖ {[capability]}; n_depth := n_depth n |}.

Fixpoint revokeRecursive (fuel : nat) (capability nodeId : string) (st : CapabilityTree * Z)
    : option (CapabilityTree * Z) :=
  match fuel with
  | O => None
  | S fuel' =>
      let '(t, count) := st in
      match t_nodes t !! nodeId with
      | None => Some st
      | Some n =>
          let count' := if bool_decide (capability ∈ n_capabilities n) then count + 1 else count in
          let t' := {| t_nodes := <[nodeId := erase_cap capability n]> (t_nodes t);
                       t_children := t_children t |} in
          match t_children t !! nodeId with
          | None => Some (t', count')
          | Some cs => loop (revokeRecursive fuel' capability) cs (t', count')
          end
      end
  end.

(** [std::remove] and [erase] of one id. *)
Definition erase_id (id : string) (l : list string) : list string :=
  List.filter (fun x => negb (str_eqb x id)) l.

(** The last part of [removeRecursive]: unlink the node from its parent and
    erase it. *)
Definition remove_node (nodeId : string) (t : CapabilityTree) : CapabilityTree :=
  let children :=
    match t_nodes t !! nodeId with
    | Some n =>
        if negb (is_empty (n_parent_id n)) then
          match t_children t !! n_parent_id n with
          | Some siblings => <[n_parent_id n := erase_id nodeId siblings]> (t_children t)
          | None => t_children t
          end
        else t_children t
    | None => t_children t
    end in
  {| t_nodes := delete nodeId (t_nodes t); t_children := children |}.

Fixpoint removeRecursive (fuel : nat) (nodeId : string) (t : CapabilityTree)
    : option CapabilityTree :=
  match fuel with
  | O => None
  | S fuel' =>
      let t1 := match t_children t !! nodeId with
                | None => Some t
                | Some childIds =>
                    match loop (removeRecursive fuel') childIds t with
                    | Some t1 => Some {| t_nodes := t_nodes t1;
                                         t_children := delete nodeId (t_children t1) |}
                    | None => None
                    end
                end in
      match t1 with
      | Some t1 => Some (remove_node nodeId t1)
      | None => None
      end
  end.

Definition max_depth (t : CapabilityTree) : Z :=
  map_fold (fun _ n acc => Z.max (n_depth n) acc) 0 (t_nodes t).
Definition tree_fuel (t : CapabilityTree) : nat := S (S (Z.to_nat (max_depth t))).

Definition revoke (t : CapabilityTree) (nodeId capability : string) : option (CapabilityTree * Z) :=
  revokeRecursive (tree_fuel t) capability nodeId (t, 0).
Definition removeSubtree (t : CapabilityTree) (nodeId : string) : option CapabilityTree :=
  removeRecursive (tree_fuel t) nodeId t.

Definition hasCapability (t : CapabilityTree) (nodeId capability : string) : bool :=
  match t_nodes t !! nodeId with
  | None => false
  | Some n => bool_decide (capability ∈ n_capabilities n)
  end.
Definition capabilitiesOf (t : CapabilityTree) (nodeId : string) : gset string :=
  match t_nodes t !! nodeId with None => ∅ | Some n => n_capabilities n end.
Definition depthOf (t : CapabilityTree) (nodeId : string) : Z :=
  match t_nodes t !! nodeId with Some n => n_depth n | None => -1 end.
Definition tree_size (t : CapabilityTree) : nat := size (t_nodes t).

Definition validate_node (t : CapabilityTree) (node : CapabilityNode) : bool :=
  if is_empty (n_parent_id node) then true
  else match t_nodes t !! n_parent_id node with
       | None => false
       | Some parent => bool_decide (n_capabilities node ⊆ n_capabilities parent)
       end.
Definition validateInvariant (t : CapabilityTree) : bool :=
  forallb (fun p => validate_node t p.2) (map_to_list (t_nodes t)).

(** ** The invariant *)

Record tree_wf (t : CapabilityTree) : Prop := {
  wf_node i n : t_nodes t !! i = Some n ->
    n_id n = i /\ i <> EmptyString /\ 0 <= n_depth n /\ is_Some (t_children t !! i);
  wf_root i n : t_nodes t !! i = Some n -> n_parent_id n = EmptyString -> i = "daemon";
  wf_parent i n : t_nodes t !! i = Some n -> n_parent_id n <> EmptyString ->
    exists p cs, t_nodes t !! n_parent_id n = Some p /\ n_capabilities n ⊆ n_capabilities p /\
      n_depth n = n_depth p + 1 /\ t_children t !! n_parent_id n = Some cs /\ i ∈ cs;
  wf_children p cs : t_children t !! p = Some cs ->
    is_Some (t_nodes t !! p) /\ NoDup cs /\
    forall c, c ∈ cs -> exists n, t_nodes t !! c = Some n /\ n_parent_id n = p;
}.

(** [descends t a i]: [i] is [a] or below it. *)
Inductive descends (t : CapabilityTree) (a : string) : string -> Prop :=
| desc_self : descends t a a
| desc_step i n : t_nodes t !! i = Some n -> n_parent_id n <> EmptyString ->
    descends t a (n_parent_id n) -> descends t a i.

Lemma max_depth_ge t i n : t_nodes t !! i = Some n -> n_depth n <= max_depth t.
Proof.
  unfold max_depth. revert i n.
  apply (map_fold_weak_ind (fun r m => forall i n, m !! i = Some n -> n_depth n <= r)).
  - intros i n Hi. by rewrite lookup_empty in Hi.
  - intros j m nodes r Hj IH i n. destruct (decide (i = j)) as [->|Hn].
    + rewrite lookup_insert_eq. intros [= ->]. lia.
    + rewrite lookup_insert_ne by done. intros Hi. specialize (IH i n Hi). lia.
Qed.

Lemma init_wf caps : tree_wf (initRoot caps).
Proof.
  unfold initRoot. split; cbn.
  - intros i n [<- <-]%lookup_singleton_Some. cbn. rewrite lookup_singleton_eq. split_and!; by eauto.
  - intros i n [<- <-]%lookup_singleton_Some. done.
  - intros i n [<- <-]%lookup_singleton_Some. done.
  - intros p cs [<- <-]%lookup_singleton_Some. rewrite lookup_singleton_eq.
    split; [eauto|]. split; [constructor|]. intros c Hc. by apply not_elem_of_nil in Hc.
Qed.

(** The child list of [p] after [c] was appended to it and given its own. *)
Lemma delegate_children t p c np cs child :
  tree_wf t -> t_nodes t !! p = Some np -> t_children t !! p = Some cs -> t_nodes t !! c = None ->
  n_parent_id child = p ->
  forall q qs, <[c := []]> (<[p := cs ++ [c]]> (t_children t)) !! q = Some qs ->
  is_Some (<[c := child]> (t_nodes t) !! q) /\ NoDup qs /\
  forall x, x ∈ qs -> exists n, <[c := child]> (t_nodes t) !! x = Some n /\ n_parent_id n = q.
Proof.
  intros Hwf Hp Hcs Hex Hpar q qs.
  assert (c <> p) as Hcp by congruence.
  destruct (wf_children t Hwf _ _ Hcs) as (Hs & Hnd & Hall).
  assert (c ∉ cs) as Hcn by (intros Hin; destruct (Hall c Hin) as (n & Hn & _); congruence).
  destruct (decide (q = c)) as [->|Hqc].
  - rewrite !lookup_insert_eq. intros [= <-]. split; [eauto|]. split; [constructor|].
    intros x Hx. by apply not_elem_of_nil in Hx.
  - rewrite !(lookup_insert_ne _ c q) by done. destruct (decide (q = p)) as [->|Hqp].
    + rewrite lookup_insert_eq. intros [= <-].
      split; [done|]. split; [apply NoDup_app; split_and!; [done|set_solver|apply NoDup_singleton]|].
      intros x [Hx|Hx%list_elem_of_singleton]%elem_of_app.
      * destruct (Hall x Hx) as (n & Hn & E). exists n. by rewrite lookup_insert_ne by congruence.
      * subst x. rewrite lookup_insert_eq. eauto.
    + rewrite lookup_insert_ne by done. intros Hq.
      destruct (wf_children t Hwf _ _ Hq) as (Hs' & Hnd' & Hall'). split_and!; try done.
      intros x Hx. destruct (Hall' x Hx) as (n & Hn & E). exists n.
      by rewrite lookup_insert_ne by congruence.
Qed.

Lemma delegate_wf t p c caps : tree_wf t -> c <> EmptyString -> tree_wf (delegate t p c caps).2.
Proof.
  intros Hwf Hc. unfold delegate. destruct (t_nodes t !! p) as [np|] eqn:Hp; [|done].
  case_bool_decide as Hex; [done|]. apply eq_None_not_Some in Hex.
  case_bool_decide as Hsub; [|done]. cbn [negb snd].
  destruct (wf_node t Hwf p np Hp) as (Hid & Hpe & Hdp & cs & Hcs).
  assert (c <> p) as Hcp by congruence. rewrite Hcs. cbn [default].
  split; cbn [t_nodes t_children]; [..|by eapply delegate_children].
  - intros i n. destruct (decide (i = c)) as [->|Hi].
    + rewrite !lookup_insert_eq. intros [= <-]. cbn. split_and!; try done; try lia; eauto.
    + rewrite lookup_insert_ne by done. intros Hn.
      destruct (wf_node t Hwf i n Hn) as (? & ? & ? & Hs). split_and!; try done.
      rewrite lookup_insert_ne by done. destruct (decide (i = p)) as [->|].
      * rewrite lookup_insert_eq. eauto.
      * by rewrite lookup_insert_ne.
  - intros i n. destruct (decide (i = c)) as [->|Hi].
    + rewrite lookup_insert_eq. by intros [= <-].
    + rewrite lookup_insert_ne by done. apply (wf_root t Hwf).
  - intros i n. destruct (decide (i = c)) as [->|Hi].
    + rewrite lookup_insert_eq. intros [= <-] _. cbn.
      exists np, (cs ++ [c]). rewrite !(lookup_insert_ne _ c p) by done. rewrite lookup_insert_eq.
      split_and!; try done. set_solver.
    + rewrite lookup_insert_ne by done. intros Hn Hne.
      destruct (wf_parent t Hwf i n Hn Hne) as (pn & pcs & Hpn & Hs & Hd & Hpcs & Hin).
      assert (n_parent_id n <> c) as Hpc by congruence.
      rewrite !(lookup_insert_ne _ c (n_parent_id n)) by done.
      destruct (decide (n_parent_id n = p)) as [E|E].
      * rewrite E in *. rewrite lookup_insert_eq.
        exists pn, (cs ++ [c]). split_and!; try done. set_solver.
      * rewrite lookup_insert_ne by done. eauto 10.
Qed.

(** ** Revocation *)

(** The part of the invariant that the walks rely on; it does not look at the
    capabilities, which a revocation in progress has changed only in part. *)
Record links_wf (t : CapabilityTree) : Prop := {
  lk_node i n : t_nodes t !! i = Some n -> 0 <= n_depth n /\ is_Some (t_children t !! i);
  lk_children p cs c : t_children t !! p = Some cs -> c ∈ cs ->
    exists np nc, t_nodes t !! p = Some np /\ t_nodes t !! c = Some nc /\
      n_parent_id nc = p /\ p <> EmptyString /\ n_depth nc = n_depth np + 1;
  lk_parent i n : t_nodes t !! i = Some n -> n_parent_id n <> EmptyString ->
    exists cs, t_children t !! n_parent_id n = Some cs /\ i ∈ cs;
}.

Lemma tree_wf_links t : tree_wf t -> links_wf t.
Proof.
  intros Hwf. split.
  - intros i n Hn. by destruct (wf_node t Hwf i n Hn) as (_ & _ & ? & ?).
  - intros p cs c Hp Hc. destruct (wf_children t Hwf _ _ Hp) as ([np Hnp] & _ & Hall).
    destruct (Hall c Hc) as (nc & Hnc & E). exists np, nc.
    destruct (wf_node t Hwf p np Hnp) as (_ & Hpe & _).
    destruct (wf_parent t Hwf c nc Hnc) as (p' & cs' & Hp' & _ & Hd & _); [congruence|].
    rewrite E, Hnp in Hp'. injection Hp' as <-. done.
  - intros i n Hn Hne. destruct (wf_parent t Hwf i n Hn Hne) as (? & cs & _ & _ & _ & ? & ?). eauto.
Qed.

(** Two trees with the same links. *)
Definition same_node (n n' : CapabilityNode) : Prop :=
  n_id n = n_id n' /\ n_parent_id n = n_parent_id n' /\ n_depth n = n_depth n'.
Definition same_shape (t t' : CapabilityTree) : Prop :=
  t_children t = t_children t' /\
  forall i, option_Forall2 same_node (t_nodes t !! i) (t_nodes t' !! i).

#[global] Instance same_node_equiv : Equivalence same_node.
Proof. unfold same_node. split; repeat intro; intuition congruence. Qed.
#[global] Instance same_shape_equiv : Equivalence same_shape.
Proof.
  split.
  - intros t. split; [done|]. intros i. reflexivity.
  - intros t t' [E H]. split; [done|]. intros i. symmetry. apply H.
  - intros t1 t2 t3 [E1 H1] [E2 H2]. split; [congruence|]. intros i. etransitivity; [apply H1|apply H2].
Qed.

Lemma same_shape_lookup t t' i n :
  same_shape t t' -> t_nodes t !! i = Some n ->
  exists n', t_nodes t' !! i = Some n' /\ same_node n n'.
Proof. intros [_ H] Hn. specialize (H i). rewrite Hn in H. inversion H; subst; eauto. Qed.

Lemma same_shape_links t t' : same_shape t t' -> links_wf t -> links_wf t'.
Proof.
  intros Hs Hwf. assert (same_shape t' t) as Hs' by by symmetry. split.
  - intros i n Hn. destruct (same_shape_lookup _ _ _ _ Hs' Hn) as (m & Hm & _ & _ & Hd).
    destruct (lk_node t Hwf i m Hm). rewrite Hd, <-(proj1 Hs). done.
  - intros p cs c Hp Hc. rewrite <-(proj1 Hs) in Hp.
    destruct (lk_children t Hwf p cs c Hp Hc) as (np & nc & Hnp & Hnc & E & Hne & Hd).
    destruct (same_shape_lookup _ _ _ _ Hs Hnp) as (np' & ? & _ & _ & ?).
    destruct (same_shape_lookup _ _ _ _ Hs Hnc) as (nc' & ? & _ & ? & ?).
    exists np', nc'. split_and!; try done; [congruence|lia].
  - intros i n Hn Hne. destruct (same_shape_lookup _ _ _ _ Hs' Hn) as (m & Hm & _ & Hp & _).
    rewrite Hp in *. rewrite <-(proj1 Hs). by apply (lk_parent t Hwf).
Qed.

Lemma same_shape_descends t t' a i : same_shape t t' -> descends t a i -> descends t' a i.
Proof.
  intros Hs. induction 1 as [|i n Hn Hne _ IH]; [constructor|].
  destruct (same_shape_lookup _ _ _ _ Hs Hn) as (m & Hm & _ & E & _).
  eapply desc_step; [exact Hm|congruence|]. by rewrite <-E.
Qed.

(** A descendant is the node itself or below one of its children. *)
Lemma descends_child t a i :
  links_wf t -> descends t a i ->
  i = a \/ exists cs c, t_children t !! a = Some cs /\ c ∈ cs /\ descends t c i.
Proof.
  intros Hwf. induction 1 as [|i n Hn Hne _ IH]; [by left|]. right.
  destruct IH as [E|(cs & c & Hcs & Hc & Hd)].
  - destruct (lk_parent t Hwf i n Hn Hne) as (cs & Hcs & Hi). rewrite E in Hcs. exists cs, i.
    split_and!; try done. constructor.
  - exists cs, c. split_and!; try done. by eapply desc_step.
Qed.

Lemma descends_of_child t a cs c i :
  links_wf t -> t_children t !! a = Some cs -> c ∈ cs -> descends t c i -> descends t a i.
Proof.
  intros Hwf Hcs Hc. induction 1 as [|i n Hn Hne _ IH]; [|by eapply desc_step].
  destruct (lk_children t Hwf _ _ _ Hcs Hc) as (np & nc & _ & Hnc & E & Hne & _).
  eapply desc_step; [exact Hnc|congruence|]. rewrite E. constructor.
Qed.

(** How many nodes hold a capability. *)
Definition holders (t : CapabilityTree) (cap : string) : Z :=
  Z.of_nat (size (filter (fun p => cap ∈ n_capabilities p.2) (t_nodes t))).

(** What a revocation below [a] does to every node. *)
Definition revoked_below (cap : string) (below : string -> Prop) (t t' : CapabilityTree) : Prop :=
  same_shape t t' /\
  forall i n n', t_nodes t !! i = Some n -> t_nodes t' !! i = Some n' ->
    (n_capabilities n' = n_capabilities n \/ n_capabilities n' = n_capabilities n ∖ {[cap]}) /\
    (below i -> cap ∉ n_capabilities n') /\
    (~ below i -> n_capabilities n' = n_capabilities n).

Lemma erase_cap_holders t i n cap :
  t_nodes t !! i = Some n ->
  holders {| t_nodes := <[i := erase_cap cap n]> (t_nodes t); t_children := t_children t |} cap
  = if bool_decide (cap ∈ n_capabilities n) then holders t cap - 1 else holders t cap.
Proof.
  intros Hi. unfold holders. cbn [t_nodes].
  rewrite (map_filter_insert_False _ (t_nodes t)) by (cbn; set_solver).
  rewrite map_filter_delete. case_bool_decide as Hc.
  - rewrite map_size_delete_Some by (exists n; by apply map_lookup_filter_Some).
    assert (0 < size (filter (fun p : string * CapabilityNode => cap ∈ n_capabilities p.2) (t_nodes t)))%nat.
    { apply Nat.neq_0_lt_0. intros E. apply map_size_empty_inv in E.
      assert (filter (fun p : string * CapabilityNode => cap ∈ n_capabilities p.2) (t_nodes t) !! i = Some n)
        as Hf by by apply map_lookup_filter_Some.
      rewrite E, lookup_empty in Hf. done. }
    lia.
  - rewrite map_size_delete_None; [done|]. apply map_lookup_filter_None. right.
    intros m Hm. rewrite Hi in Hm. by injection Hm as <-.
Qed.

Lemma erase_cap_shape t i n cap :
  t_nodes t !! i = Some n ->
  same_shape t {| t_nodes := <[i := erase_cap cap n]> (t_nodes t); t_children := t_children t |}.
Proof.
  intros Hi. split; [done|]. intros j. cbn [t_nodes]. destruct (decide (j = i)) as [->|Hj].
  - rewrite lookup_insert_eq, Hi. by constructor.
  - by rewrite lookup_insert_ne.
Qed.

Lemma revoked_below_trans cap (P Q R : string -> Prop) t1 t2 t3 :
  (forall i, R i -> P i \/ Q i) -> (forall i, P i \/ Q i -> R i) ->
  revoked_below cap P t1 t2 -> revoked_below cap Q t2 t3 -> revoked_below cap R t1 t3.
Proof.
  intros HR1 HR2 [S1 H1] [S2 H2]. split; [by etransitivity|].
  intros i n n' Hn Hn'. destruct (same_shape_lookup _ _ _ _ S1 Hn) as (m & Hm & _).
  destruct (H1 i n m Hn Hm) as (A1 & B1 & C1). destruct (H2 i m n' Hm Hn') as (A2 & B2 & C2).
  split_and!.
  - destruct A2 as [->| ->], A1 as [->| ->]; auto. right. set_solver.
  - intros [HP|HQ]%HR1; [|by apply B2]. specialize (B1 HP). destruct A2 as [->| ->]; set_solver.
  - intros Hn0. rewrite C2, C1; auto.
Qed.

Definition depth_bound (M : Z) (t : CapabilityTree) : Prop :=
  forall i n, t_nodes t !! i = Some n -> n_depth n <= M.
(** Enough fuel to walk down from a node. *)
Definition fuel_for (M : Z) (t : CapabilityTree) (x : string) (fuel : nat) : Prop :=
  exists n, t_nodes t !! x = Some n /\ M - n_depth n < Z.of_nat fuel.

Lemma same_shape_depth_bound t t' M : same_shape t t' -> depth_bound M t -> depth_bound M t'.
Proof.
  intros Hs Hb i n Hn. symmetry in Hs.
  destruct (same_shape_lookup _ _ _ _ Hs Hn) as (m & Hm & _ & _ & E). rewrite E. by eapply Hb.
Qed.
Lemma same_shape_fuel t t' M x fuel : same_shape t t' -> fuel_for M t x fuel -> fuel_for M t' x fuel.
Proof.
  intros Hs (n & Hn & Hf). destruct (same_shape_lookup _ _ _ _ Hs Hn) as (m & Hm & _ & _ & E).
  exists m. rewrite <-E. done.
Qed.

Definition revoke_ok (M : Z) (fuel : nat) (cap x : string) : Prop :=
  forall t count, links_wf t -> depth_bound M t -> fuel_for M t x fuel ->
  exists t' count', revokeRecursive fuel cap x (t, count) = Some (t', count') /\
    revoked_below cap (descends t x) t t' /\ count' + holders t' cap = count + holders t cap.

Lemma revoke_loop M fuel cap : (forall x, revoke_ok M fuel cap x) ->
  forall cs t count, links_wf t -> depth_bound M t -> (forall c, c ∈ cs -> fuel_for M t c fuel) ->
  exists t' count', loop (revokeRecursive fuel cap) cs (t, count) = Some (t', count') /\
    revoked_below cap (fun i => exists c, c ∈ cs /\ descends t c i) t t' /\
    count' + holders t' cap = count + holders t cap.
Proof.
  intros Hok. induction cs as [|c cs IH]; intros t count Hwf Hb Hf; cbn [loop].
  { exists t, count. split_and!; try done. split; [done|]. intros i n n' Hn Hn'.
    rewrite Hn in Hn'. injection Hn' as <-. split_and!; auto.
    intros (c & Hc & _). by apply not_elem_of_nil in Hc. }
  destruct (Hok c t count Hwf Hb) as (t1 & count1 & -> & R1 & E1); [apply Hf; set_solver|].
  pose proof (proj1 R1) as S1.
  destruct (IH t1 count1) as (t2 & count2 & -> & R2 & E2).
  { by eapply same_shape_links. } { by eapply same_shape_depth_bound. }
  { intros d Hd. eapply same_shape_fuel; [exact S1|]. apply Hf. set_solver. }
  exists t2, count2. split; [done|]. split; [|lia].
  eapply revoked_below_trans; [..|exact R1|exact R2].
  - intros i (d & Hd & Hi). apply elem_of_cons in Hd as [->|Hd]; [by left|right].
    exists d. split; [done|]. by eapply same_shape_descends.
  - intros i [Hi|(d & Hd & Hi)].
    + exists c. split; [set_solver|done].
    + exists d. split; [set_solver|]. by eapply same_shape_descends; [symmetry; exact S1|].
Qed.

Lemma revokeRecursive_ok M fuel cap : forall x, revoke_ok M fuel cap x.
Proof.
  induction fuel as [|fuel IH]; intros x t count Hwf Hb (n & Hn & Hf).
  { specialize (Hb _ _ Hn). lia. }
  cbn [revokeRecursive]. rewrite Hn.
  set (t1 := {| t_nodes := <[x := erase_cap cap n]> (t_nodes t); t_children := t_children t |}).
  set (count1 := if bool_decide (cap ∈ n_capabilities n) then count + 1 else count).
  assert (same_shape t t1) as S1 by by apply erase_cap_shape.
  assert (revoked_below cap (eq x) t t1) as R1.
  { split; [done|]. intros i m m' Hm Hm'. unfold t1 in Hm'. cbn in Hm'.
    destruct (decide (x = i)) as [<-|Hi].
    - rewrite lookup_insert_eq in Hm'. injection Hm' as <-. rewrite Hn in Hm. injection Hm as <-.
      cbn. split_and!; [by right|set_solver|done].
    - rewrite lookup_insert_ne, Hm in Hm' by done. injection Hm' as <-. split_and!; auto. }
  assert (count1 + holders t1 cap = count + holders t cap) as E1.
  { unfold t1, count1. rewrite erase_cap_holders by done. case_bool_decide; lia. }
  destruct (t_children t !! x) as [cs|] eqn:Hcs.
  2: { destruct (lk_node t Hwf x n Hn) as [_ [? ?]]. congruence. }
  destruct (revoke_loop M fuel cap IH cs t1 count1) as (t2 & count2 & -> & R2 & E2).
  { by eapply same_shape_links. } { by eapply same_shape_depth_bound. }
  { intros c Hc. eapply same_shape_fuel; [exact S1|].
    destruct (lk_children t Hwf _ _ _ Hcs Hc) as (np & nc & Hnp & Hnc & _ & _ & Hd).
    exists nc. split; [done|]. rewrite Hn in Hnp. injection Hnp as <-. lia. }
  exists t2, count2. split; [done|]. split; [|lia].
  eapply revoked_below_trans; [..|exact R1|exact R2].
  - intros i Hi. destruct (descends_child t x i Hwf Hi) as [->|(cs' & c & Hcs' & Hc & Hd)]; [by left|].
    rewrite Hcs in Hcs'. injection Hcs' as <-. right. exists c. split; [done|].
    by eapply same_shape_descends.
  - intros i [<-|(c & Hc & Hd)]; [constructor|].
    eapply descends_of_child; [done|exact Hcs|exact Hc|].
    by eapply same_shape_descends; [symmetry; exact S1|].
Qed.

Lemma revoke_total t x n cap :
  links_wf t -> t_nodes t !! x = Some n ->
  exists t' count, revoke t x cap = Some (t', count) /\
    revoked_below cap (descends t x) t t' /\ count + holders t' cap = holders t cap.
Proof.
  intros Hwf Hn. unfold revoke.
  destruct (revokeRecursive_ok (max_depth t) (tree_fuel t) cap x t 0) as (t' & count & E & R & Hc);
    [done|intros i m; apply max_depth_ge| |].
  - exists n. split; [done|]. destruct (lk_node t Hwf x n Hn). pose proof (max_depth_ge _ _ _ Hn).
    unfold tree_fuel. lia.
  - exists t', count. done.
Qed.

(** Revoking keeps the whole invariant: if a parent lost the capability, so
    did the child. *)
Lemma revoke_wf t x cap t' :
  tree_wf t -> revoked_below cap (descends t x) t t' -> tree_wf t'.
Proof.
  intros Hwf [Hs HR]. assert (same_shape t' t) as Hs' by by symmetry.
  split.
  - intros i n Hn. destruct (same_shape_lookup _ _ _ _ Hs' Hn) as (m & Hm & E1 & E2 & E3).
    rewrite E1, E3, <-(proj1 Hs). by apply (wf_node t Hwf).
  - intros i n Hn. destruct (same_shape_lookup _ _ _ _ Hs' Hn) as (m & Hm & E1 & E2 & E3).
    rewrite E2. by apply (wf_root t Hwf).
  - intros i n Hn Hne. destruct (same_shape_lookup _ _ _ _ Hs' Hn) as (m & Hm & E1 & E2 & E3).
    rewrite E2, <-(proj1 Hs) in *.
    destruct (wf_parent t Hwf i m Hm Hne) as (p & cs & Hp & Hsub & Hd & Hcs & Hin).
    destruct (same_shape_lookup _ _ _ _ Hs Hp) as (p' & Hp' & _ & _ & Ed).
    exists p', cs. split_and!; try done; [|lia].
    destruct (HR _ _ _ Hp Hp') as (Ap & Bp & Cp). destruct (HR _ _ _ Hm Hn) as (Ai & Bi & Ci).
    destruct Ap as [->|Ep]; [destruct Ai as [->| ->]; set_solver|].
    intros z Hz. rewrite Ep. apply elem_of_difference. split; [destruct Ai as [Ai|Ai]; rewrite Ai in Hz; set_solver|].
    intros ->%elem_of_singleton.
    assert (~ descends t x (n_parent_id m)) as Hnd.
    { intros Hd'. apply Bi; [|done]. by eapply desc_step. }
    apply Cp in Hnd. assert (cap ∈ n_capabilities p) as Hcp
      by (destruct Ai as [Ai|Ai]; rewrite Ai in Hz; set_solver).
    rewrite <-Hnd, Ep in Hcp. set_solver.
  - intros q cs Hq. rewrite <-(proj1 Hs) in Hq.
    destruct (wf_children t Hwf q cs Hq) as ([nq Hnq] & Hnd & Hall).
    destruct (same_shape_lookup _ _ _ _ Hs Hnq) as (nq' & ? & _). split_and!; [eauto|done|].
    intros c Hc. destruct (Hall c Hc) as (n & Hn & E).
    destruct (same_shape_lookup _ _ _ _ Hs Hn) as (n' & ? & _ & ? & _). exists n'. split; congruence.
Qed.

(** ** Removal of a subtree *)

Lemma erase_id_elem x c l : c ∈ erase_id x l <-> c ∈ l /\ c <> x.
Proof.
  unfold erase_id. rewrite !list_elem_of_In, List.filter_In, negb_true_iff, str_eqb_false. done.
Qed.
Lemma erase_id_NoDup x l : NoDup l -> NoDup (erase_id x l).
Proof. intros Hl. unfold erase_id. apply NoDup_ListNoDup, List.NoDup_filter. by apply NoDup_ListNoDup. Qed.
Lemma erase_id_absent x l : x ∉ l -> erase_id x l = l.
Proof.
  induction l as [|y l IH]; intros Hx; [done|]. unfold erase_id in *. cbn.
  destruct (str_eqb y x) eqn:E; cbn; [apply str_eqb_true in E; set_solver|].
  f_equal. apply IH. set_solver.
Qed.
Lemma erase_id_head x l : x ∉ l -> erase_id x (x :: l) = l.
Proof.
  intros Hx. unfold erase_id. cbn. rewrite (proj2 (str_eqb_true x x) eq_refl). cbn.
  by apply erase_id_absent.
Qed.

Lemma descends_depth t a i na ni :
  links_wf t -> descends t a i -> t_nodes t !! a = Some na -> t_nodes t !! i = Some ni ->
  i = a \/ n_depth na < n_depth ni.
Proof.
  intros Hwf Hd Ha. revert ni. induction Hd as [|i n Hn Hne _ IH]; intros ni Hi; [by left|].
  right. rewrite Hn in Hi. injection Hi as <-.
  destruct (lk_parent t Hwf i n Hn Hne) as (cs & Hcs & Hin).
  destruct (lk_children t Hwf _ _ _ Hcs Hin) as (np & nc & Hnp & Hnc & _ & _ & Hd).
  rewrite Hn in Hnc. injection Hnc as <-.
  destruct (IH np Hnp) as [E|E]; [|lia]. rewrite E, Ha in Hnp. injection Hnp as <-. lia.
Qed.

(** Two nodes of the same depth have no common descendant. *)
Lemma descends_disjoint t c d i nc nd :
  links_wf t -> t_nodes t !! c = Some nc -> t_nodes t !! d = Some nd -> n_depth nc = n_depth nd ->
  descends t c i -> descends t d i -> c = d.
Proof.
  intros Hwf Hc Hd Hdep. induction 1 as [|i n Hn Hne Hci IH]; intros Hdi.
  - destruct (descends_depth t d c nd nc Hwf Hdi Hd Hc) as [?|?]; [done|lia].
  - inversion Hdi as [|? m Hm Hne' Hdm]; subst.
    + assert (descends t c i) as Hci' by by eapply desc_step.
      destruct (descends_depth t c i nc nd Hwf Hci' Hc Hd) as [?|?]; [done|lia].
    + apply IH. rewrite Hn in Hm. by injection Hm as <-.
Qed.

Definition removed_below (x : string) (t t' : CapabilityTree) : Prop :=
  forall i,
    (descends t x i -> t_nodes t' !! i = None /\ t_children t' !! i = None) /\
    (~ descends t x i -> t_nodes t' !! i = t_nodes t !! i /\
                         t_children t' !! i = erase_id x <$> t_children t !! i) /\
    (t_nodes t !! i = None -> t_nodes t' !! i = None) /\
    (t_children t !! i = None -> t_children t' !! i = None).

Lemma removed_survivor x t t' i n :
  removed_below x t t' -> t_nodes t' !! i = Some n ->
  ~ descends t x i /\ t_nodes t !! i = Some n.
Proof.
  intros HR Hn. destruct (HR i) as (A & B & _).
  assert (~ descends t x i) as Hd by (intros Hd; destruct (A Hd); congruence).
  split; [done|]. destruct (B Hd) as [E _]. congruence.
Qed.

Lemma remove_wf x t t' : tree_wf t -> removed_below x t t' -> tree_wf t'.
Proof.
  intros Hwf HR. split.
  - intros i n Hn. destruct (removed_survivor _ _ _ _ _ HR Hn) as [Hd Hn0].
    destruct (wf_node t Hwf i n Hn0) as (? & ? & ? & cs & Hcs).
    destruct (HR i) as (_ & B & _). destruct (B Hd) as [_ ->]. rewrite Hcs. cbn. eauto.
  - intros i n Hn. destruct (removed_survivor _ _ _ _ _ HR Hn) as [Hd Hn0].
    by apply (wf_root t Hwf).
  - intros i n Hn Hne. destruct (removed_survivor _ _ _ _ _ HR Hn) as [Hd Hn0].
    destruct (wf_parent t Hwf i n Hn0 Hne) as (p & cs & Hp & Hs & Hdep & Hcs & Hin).
    assert (~ descends t x (n_parent_id n)) as Hdp
      by (intros Hdp; apply Hd; by eapply desc_step).
    destruct (HR (n_parent_id n)) as (_ & B & _). destruct (B Hdp) as [E1 E2].
    exists p, (erase_id x cs). rewrite E1, E2, Hcs. split_and!; try done.
    apply erase_id_elem. split; [done|]. intros ->. apply Hd. constructor.
  - intros p cs' Hcs'. destruct (HR p) as (A & B & _).
    assert (~ descends t x p) as Hd by (intros Hd; destruct (A Hd); congruence).
    destruct (B Hd) as [E1 E2]. rewrite Hcs' in E2.
    destruct (t_children t !! p) as [cs|] eqn:Hcs; [|done]. injection E2 as ->.
    destruct (wf_children t Hwf p cs Hcs) as (Hs & Hnd & Hall). rewrite E1.
    split_and!; [done|by apply erase_id_NoDup|].
    intros c [Hc Hcx]%erase_id_elem. destruct (Hall c Hc) as (n & Hn & E). exists n. split; [|done].
    destruct (HR c) as (_ & Bc & _). rewrite <-Hn. apply Bc.
    intros Hdc. inversion Hdc as [|? m Hm _ Hdm]; [congruence|].
    rewrite Hn in Hm. injection Hm as <-. rewrite E in Hdm. done.
Qed.

(** Below the other nodes nothing moves. *)
Lemma removed_descends x t t' d i :
  removed_below x t t' -> descends t' d i -> descends t d i.
Proof.
  intros HR. induction 1 as [|i n Hn Hne _ IH]; [constructor|].
  apply (removed_survivor _ _ _ _ _ HR) in Hn as [_ Hn]. by eapply desc_step.
Qed.
Lemma survived_descends x t t' d i :
  removed_below x t t' -> ~ descends t x i -> descends t d i -> descends t' d i.
Proof.
  intros HR Hx. induction 1 as [|i n Hn Hne Hd IH]; [constructor|].
  eapply desc_step; [|exact Hne|].
  - destruct (HR i) as (_ & B & _). by rewrite (proj1 (B Hx)).
  - apply IH. intros Hp. apply Hx. by eapply desc_step.
Qed.

Definition remove_ok (M : Z) (fuel : nat) (x : string) : Prop :=
  forall t, tree_wf t -> depth_bound M t -> fuel_for M t x fuel ->
  exists t', removeRecursive fuel x t = Some t' /\ removed_below x t t'.

Lemma remove_loop M fuel x nx : (forall c, remove_ok M fuel c) ->
  forall cs t, tree_wf t -> depth_bound M t -> t_nodes t !! x = Some nx ->
  t_children t !! x = Some cs -> M - n_depth nx < Z.of_nat fuel + 1 ->
  exists t', loop (removeRecursive fuel) cs t = Some t' /\ tree_wf t' /\
    forall i,
      ((exists c, c ∈ cs /\ descends t c i) -> t_nodes t' !! i = None /\ t_children t' !! i = None) /\
      (~ (exists c, c ∈ cs /\ descends t c i) -> t_nodes t' !! i = t_nodes t !! i /\
         (i <> x -> t_children t' !! i = t_children t !! i)) /\
      (t_nodes t !! i = None -> t_nodes t' !! i = None) /\
      (t_children t !! i = None -> t_children t' !! i = None).
Proof.
  intros Hok. induction cs as [|c cs IH]; intros t Hwf Hb Hx Hcs Hf; cbn [loop].
  { exists t. split_and!; try done. intros i. split_and!; try done.
    intros (c & Hc & _). by apply not_elem_of_nil in Hc. }
  pose proof (tree_wf_links t Hwf) as Hlk.
  destruct (wf_children t Hwf _ _ Hcs) as (_ & [Hcn Hnd]%NoDup_cons & _).
  assert (forall d, d ∈ c :: cs -> exists nd, t_nodes t !! d = Some nd /\ n_parent_id nd = x /\
    n_depth nd = n_depth nx + 1) as Hkids.
  { intros d Hd. destruct (lk_children t Hlk _ _ _ Hcs Hd) as (np & nd & Hp & Hn & E & _ & Hdep).
    rewrite Hx in Hp. injection Hp as <-. eauto. }
  destruct (Hkids c) as (nc & Hnc & Ec & Hdc); [set_solver|].
  destruct (Hok c t Hwf Hb) as (t1 & -> & R1).
  { exists nc. split; [done|]. lia. }
  assert (tree_wf t1) as Hwf1 by by eapply remove_wf.
  assert (~ descends t c x) as Hcx.
  { intros Hd. destruct (descends_depth t c x nc nx Hlk Hd Hnc Hx) as [E|E]; [|lia].
    subst c. rewrite Hx in Hnc. injection Hnc as <-. lia. }
  destruct (R1 x) as (_ & Bx & _). destruct (Bx Hcx) as [E1 E2].
  rewrite Hcs in E2. cbn [fmap option_fmap option_map] in E2. rewrite erase_id_head in E2 by done.
  destruct (IH t1) as (t2 & -> & Hwf2 & H2); [done| |congruence|done|done|].
  { intros i n Hn. apply (removed_survivor _ _ _ _ _ R1) in Hn as [_ Hn]. by eapply Hb. }
  exists t2. split; [done|]. split; [done|]. intros i.
  destruct (H2 i) as (A2 & B2 & C2 & D2). destruct (R1 i) as (A1 & B1 & C1 & D1). split_and!.
  - intros (d & Hd & Hdi). apply elem_of_cons in Hd as [->|Hd].
    + destruct (A1 Hdi). auto.
    + apply A2. exists d. split; [done|]. eapply survived_descends; [exact R1| |done].
      intros Hci. destruct (Hkids d) as (nd & Hnd' & _ & Hdd); [set_solver|].
      assert (c = d) by (eapply (descends_disjoint t c d i nc nd); eauto; lia). set_solver.
  - intros Hno. assert (~ descends t c i) as Hnc' by (intros Hd; apply Hno; exists c; set_solver).
    assert (~ (exists d, d ∈ cs /\ descends t1 d i)) as Hno1.
    { intros (d & Hd & Hdi). apply Hno. exists d. split; [set_solver|].
      by eapply removed_descends. }
    destruct (B1 Hnc') as [Ea Eb]. destruct (B2 Hno1) as [-> E']. split; [done|]. intros Hix. rewrite (E' Hix), Eb.
    destruct (t_children t !! i) as [l|] eqn:Hl; cbn; [|done].
    f_equal. apply erase_id_absent. intros Hin.
    destruct (wf_children t Hwf _ _ Hl) as (_ & _ & Hall). destruct (Hall c Hin) as (n & Hn & Ep).
    congruence.
  - auto.
  - auto.
Qed.

(** Erasing a node whose own child list is gone unlinks it from every list. *)
Lemma remove_node_children t x n :
  tree_wf t -> t_nodes t !! x = Some n ->
  let ch := t_children (remove_node x {| t_nodes := t_nodes t; t_children := delete x (t_children t) |}) in
  ch !! x = None /\ forall j, j <> x -> ch !! j = erase_id x <$> t_children t !! j.
Proof.
  intros Hwf Hn. unfold remove_node. cbn [t_nodes t_children]. rewrite Hn.
  destruct (is_empty (n_parent_id n)) eqn:Ep; cbn [negb].
  - split; [apply lookup_delete_eq|]. intros j Hj. rewrite lookup_delete_ne by done.
    destruct (t_children t !! j) as [l|] eqn:Hl; cbn; [|done]. f_equal. symmetry.
    apply erase_id_absent. intros Hin. destruct (wf_children t Hwf _ _ Hl) as ([nj Hnj] & _ & Hall).
    destruct (Hall x Hin) as (n' & Hn' & E'). rewrite Hn in Hn'. injection Hn' as <-.
    apply is_empty_true in Ep. rewrite Ep in E'. subst j.
    by destruct (wf_node t Hwf _ _ Hnj) as (_ & ? & _).
  - apply is_empty_false in Ep.
    destruct (wf_parent t Hwf x n Hn Ep) as (p & s & Hp & _ & Hd & Hs & Hin).
    assert (n_parent_id n <> x) as Hpx.
    { intros E. rewrite E, Hn in Hp. injection Hp as <-. lia. }
    rewrite lookup_delete_ne by done. rewrite Hs. split.
    + rewrite lookup_insert_ne by done. apply lookup_delete_eq.
    + intros j Hj. destruct (decide (j = n_parent_id n)) as [->|Hjp].
      * rewrite lookup_insert_eq, Hs. done.
      * rewrite lookup_insert_ne, lookup_delete_ne by done.
        destruct (t_children t !! j) as [l|] eqn:Hl; cbn; [|done]. f_equal. symmetry.
        apply erase_id_absent. intros Hinl. destruct (wf_children t Hwf _ _ Hl) as (_ & _ & Hall).
        destruct (Hall x Hinl) as (n' & Hn' & E'). congruence.
Qed.

Lemma removeRecursive_ok M fuel : forall x, remove_ok M fuel x.
Proof.
  induction fuel as [|fuel IH]; intros x t Hwf Hb (n & Hn & Hf).
  { specialize (Hb _ _ Hn). lia. }
  pose proof (tree_wf_links t Hwf) as Hlk.
  destruct (wf_node t Hwf x n Hn) as (_ & Hxe & _ & cs & Hcs).
  cbn [removeRecursive]. rewrite Hcs.
  destruct (remove_loop M fuel x n IH cs t Hwf Hb Hn Hcs ltac:(lia)) as (t1 & -> & Hwf1 & H1).
  eexists. split; [reflexivity|].
  assert (forall i, descends t x i <-> i = x \/ exists c, c ∈ cs /\ descends t c i) as Hdesc.
  { intros i. split.
    - intros [->|(cs' & c & Hcs' & Hc & Hd)]%descends_child; [by left| |done].
      rewrite Hcs in Hcs'. injection Hcs' as <-. eauto.
    - intros [->|(c & Hc & Hd)]; [constructor|]. by eapply descends_of_child. }
  assert (forall c, c ∈ cs -> ~ descends t c x) as Hcx.
  { intros c Hc Hd. destruct (lk_children t Hlk _ _ _ Hcs Hc) as (np & nc & Hp & Hnc & _ & _ & Hdep).
    rewrite Hn in Hp. injection Hp as <-.
    destruct (descends_depth t c x nc n Hlk Hd Hnc Hn) as [E|E]; [|lia].
    subst c. rewrite Hn in Hnc. injection Hnc as <-. lia. }
  assert (t_nodes t1 !! x = Some n) as Hn1.
  { destruct (H1 x) as (_ & B & _). destruct B as [B _]; [|by rewrite B].
    intros (c & Hc & Hd). by apply (Hcx c). }
  destruct (remove_node_children t1 x n Hwf1 Hn1) as [Hchx Hch]. cbv zeta in Hchx, Hch.
  intros i. destruct (H1 i) as (A & B & C & D). cbn [remove_node t_nodes].
  set (ch := t_children (remove_node _ _)) in *.
  split_and!.
  - rewrite Hdesc. intros [->|Hd]; [by rewrite lookup_delete_eq|].
    assert (i <> x) as Hix by (intros ->; destruct Hd as (c & Hc & Hd); by apply (Hcx c)).
    rewrite lookup_delete_ne, Hch by done. destruct (A Hd) as [-> ->]. done.
  - rewrite Hdesc. intros Hno. apply Decidable.not_or in Hno as [Hix Hno].
    rewrite lookup_delete_ne, Hch by done. destruct (B Hno) as [-> E]. by rewrite E.
  - intros Hi. destruct (decide (i = x)) as [->|Hix]; [apply lookup_delete_eq|].
    rewrite lookup_delete_ne by done. auto.
  - intros Hi. destruct (decide (i = x)) as [->|Hix]; [done|]. rewrite Hch, D by done. done.
Qed.

Lemma remove_total t x n :
  tree_wf t -> t_nodes t !! x = Some n ->
  exists t', removeSubtree t x = Some t' /\ removed_below x t t' /\ tree_wf t'.
Proof.
  intros Hwf Hn. destruct (removeRecursive_ok (max_depth t) (tree_fuel t) x t Hwf) as (t' & E & R).
  - intros i m. apply max_depth_ge.
  - exists n. split; [done|]. destruct (wf_node t Hwf x n Hn) as (_ & _ & ? & _).
    pose proof (max_depth_ge _ _ _ Hn). unfold tree_fuel. lia.
  - exists t'. split_and!; try done. by eapply remove_wf.
Qed.

(** ** The tree as a transition system *)

Inductive tree_op :=
| TInit (caps : gset string)
| TDelegate (parent child : string) (caps : gset string)
| TRevoke (node cap : string)
| TRemove (node : string).

(** [None] is a walk that does not terminate. *)
Definition tree_step (t : CapabilityTree) (o : tree_op) : option CapabilityTree :=
  match o with
  | TInit caps => Some (initRoot caps)
  | TDelegate p c caps => Some (delegate t p c caps).2
  | TRevoke x cap => fst <$> revoke t x cap
  | TRemove x => removeSubtree t x
  end.

(** No child is named by the empty string. *)
Definition named (o : tree_op) : Prop :=
  match o with TDelegate _ c _ => c <> EmptyString | _ => True end.

Lemma revoke_missing t x cap : t_nodes t !! x = None -> revoke t x cap = Some (t, 0).
Proof. intros Hx. unfold revoke, tree_fuel. cbn [revokeRecursive]. by rewrite Hx. Qed.

Lemma remove_missing t x :
  tree_wf t -> t_nodes t !! x = None -> exists t', removeSubtree t x = Some t' /\ tree_wf t' /\
    t_nodes t' = t_nodes t.
Proof.
  intros Hwf Hx. unfold removeSubtree, tree_fuel. cbn [removeRecursive].
  destruct (t_children t !! x) as [cs|] eqn:Hcs.
  { destruct (wf_children t Hwf _ _ Hcs) as ([? ?] & _). congruence. }
  unfold remove_node. rewrite Hx. eexists. split; [done|].
  rewrite delete_id by done. split; [by destruct t|done].
Qed.

Lemma tree_step_wf t o : tree_wf t -> named o -> exists t', tree_step t o = Some t' /\ tree_wf t'.
Proof.
  intros Hwf Ho. destruct o as [caps|p c caps|x cap|x]; cbn [tree_step named] in *.
  - eexists. split; [done|]. apply init_wf.
  - eexists. split; [done|]. by apply delegate_wf.
  - destruct (t_nodes t !! x) as [n|] eqn:Hx.
    + destruct (revoke_total t x n cap (tree_wf_links t Hwf) Hx) as (t' & k & -> & R & _).
      exists t'. split; [done|]. by eapply revoke_wf.
    + rewrite revoke_missing by done. eauto.
  - destruct (t_nodes t !! x) as [n|] eqn:Hx.
    + destruct (remove_total t x n Hwf Hx) as (t' & ? & _ & ?). eauto.
    + destruct (remove_missing t x Hwf Hx) as (t' & ? & ? & _). eauto.
Qed.

Lemma validate_wf t : tree_wf t -> validateInvariant t = true.
Proof.
  intros Hwf. unfold validateInvariant. apply List.forallb_forall. intros [i n] Hin.
  apply list_elem_of_In, elem_of_map_to_list in Hin. unfold validate_node. cbn [snd].
  destruct (is_empty (n_parent_id n)) eqn:E; [done|]. apply is_empty_false in E.
  destruct (wf_parent t Hwf i n Hin E) as (p & cs & -> & Hs & _). by apply bool_decide_eq_true.
Qed.

(** C24: in every state that initRoot, delegate, revoke and removeSubtree reach
    (with non-empty child ids), every operation terminates and the class's own
    [validateInvariant] holds: no node holds a capability that its parent
    lacks, every parent exists one level up and lists the child once. *)
Theorem capability_tree_invariant caps ops :
  Forall named ops ->
  exists t, foldl (fun ot o => t ← ot; tree_step t o) (Some (initRoot caps)) ops = Some t /\
    tree_wf t /\ validateInvariant t = true.
Proof.
  assert (forall t, tree_wf t -> Forall named ops ->
    exists t', foldl (fun ot o => t ← ot; tree_step t o) (Some t) ops = Some t' /\ tree_wf t') as Hgo.
  { induction ops as [|o ops IH]; intros t Hwf Hops; cbn; [eauto|].
    apply Forall_cons in Hops as [Ho Hops].
    destruct (tree_step_wf t o Hwf Ho) as (t' & -> & Hwf'). by apply IH. }
  intros Hops. destruct (Hgo _ (init_wf caps) Hops) as (t & E & Hwf).
  exists t. split_and!; try done. by apply validate_wf.
Qed.

(** C25: on a well-formed tree revoking a capability at an existing node
    terminates and takes it from that node and all its descendants and from
    nobody else, leaving the other capabilities and all links as they are; the
    count returned is the number of nodes that lost it.  Removing a subtree
    terminates and erases exactly the node and its descendants; every other
    node keeps its entry and its children, except for the removed id. *)
Theorem revocation_cascades t x n cap :
  tree_wf t -> t_nodes t !! x = Some n ->
  (exists t' count, revoke t x cap = Some (t', count) /\ tree_wf t' /\
     count = holders t cap - holders t' cap /\
     revoked_below cap (descends t x) t t' /\
     (forall i, descends t x i -> hasCapability t' i cap = false) /\
     (forall i, ~ descends t x i -> capabilitiesOf t' i = capabilitiesOf t i)) /\
  (exists t', removeSubtree t x = Some t' /\ tree_wf t' /\ removed_below x t t').
Proof.
  intros Hwf Hn. split.
  - destruct (revoke_total t x n cap (tree_wf_links t Hwf) Hn) as (t' & k & E & R & Hk).
    exists t', k. split_and!; try done; [by eapply revoke_wf|lia|..].
    + intros i Hd. unfold hasCapability. destruct (t_nodes t' !! i) as [m|] eqn:Hm; [|done].
      destruct R as [S R]. symmetry in S. destruct (same_shape_lookup _ _ _ _ S Hm) as (m0 & Hm0 & _).
      apply bool_decide_eq_false. by eapply R.
    + intros i Hd. unfold capabilitiesOf. destruct R as [S R].
      destruct (t_nodes t !! i) as [m|] eqn:Hm.
      * destruct (same_shape_lookup _ _ _ _ S Hm) as (m' & Hm' & _). rewrite Hm'.
        by eapply R.
      * destruct S as [_ S]. specialize (S i). rewrite Hm in S. by inversion S.
  - destruct (remove_total t x n Hwf Hn) as (t' & ? & ? & ?). eauto.
Qed.

Definition sample_tree : CapabilityTree :=
  (delegate (delegate (initRoot {["ROOT"; "NET"]}) "daemon" "mod" {["ROOT"; "NET"]}).2
     "mod" "sub" {["NET"]}).2.

Lemma sample_tree_wf : tree_wf sample_tree.
Proof. apply delegate_wf; [apply delegate_wf; [apply init_wf|done]|done]. Qed.

Lemma capability_tree_invariant_witness :
  exists t, foldl (fun ot o => t ← ot; tree_step t o) (Some (initRoot {["ROOT"; "NET"]}))
      [TDelegate "daemon" "mod" {["ROOT"; "NET"]}; TDelegate "mod" "sub" {["NET"]};
       TRevoke "mod" "NET"] = Some t /\ tree_wf t /\ validateInvariant t = true.
Proof. apply capability_tree_invariant. repeat constructor; discriminate. Defined.

Lemma revocation_cascades_witness :
  exists n, t_nodes sample_tree !! "mod" = Some n /\
  exists t' count, revoke sample_tree "mod" "NET" = Some (t', count) /\
    hasCapability t' "sub" "NET" = false.
Proof.
  destruct (t_nodes sample_tree !! "mod") as [n|] eqn:Hn; [|vm_compute in Hn; discriminate].
  exists n. split; [reflexivity|].
  destruct (revocation_cascades sample_tree "mod" n "NET" sample_tree_wf Hn)
    as [(t' & count & E & _ & _ & _ & Hd & _) _].
  exists t', count. split; [exact E|]. apply Hd.
  eapply desc_step; [vm_compute; reflexivity|discriminate|constructor].
Defined.

(** The empty id is not rejected by [delegate]: what is delegated from it is
    never unlinked, so that removing it leaves a stale child behind. *)
Example empty_id_not_unlinked :
  let t := (delegate (delegate (initRoot {["NET"]}) "daemon" EmptyString {["NET"]}).2
              EmptyString "m" {["NET"]}).2 in
  match removeSubtree t "m" with
  | Some t' => t_nodes t' !! "m" = None /\ t_children t' !! EmptyString = Some ["m"]
  | None => False
  end.
Proof. vm_compute. done. Qed.
