(* ===== verification/Bus.v ===== *)
(** * Bus: the inter-module message bus and the lease tracker

    Models [daemon/src/ipc/module_bus.cpp] and
    [daemon/src/security/lease_tracker.cpp].  The lock makes every operation
    atomic; the clock reading an operation takes is its argument (milliseconds
    since the epoch, [uint64_t] in the bus and [int64_t] in the tracker).  The
    hash maps are [gmap]s, a [std::queue] is the list of its elements. *)

From Stdlib Require Import ZArith Ascii String Lia Sorted.
From stdpp Require Import base numbers list strings gmap.
From S2P Require Import Prelude.

Open Scope Z_scope.

(** ** module_bus.hpp, module_bus.cpp *)

Record ModuleMessage := {
  msg_sender_id : string;
  msg_recipient_id : string;
  msg_topic : string;
  msg_payload : string;
  msg_timestamp_ms : Z;
  msg_sequence : Z;
}.

Record BusStats := {
  total_sent : Z;
  total_delivered : Z;
  total_rejected : Z;
  total_rate_limited : Z;
}.

Definition MAX_PAYLOAD_BYTES : Z := 64 * 1024.
Definition MAX_MESSAGES_PER_SEC : Z := 100.

Record ModuleBus := {
  b_queues : gmap string (list ModuleMessage);
  b_subscriptions : gmap string (list string);
  b_rate_limits : gmap string (Z * Z);
  b_sequences : gmap string Z;
  b_stats : BusStats;
}.

Definition new_bus : ModuleBus :=
  {| b_queues := ∅; b_subscriptions := ∅; b_rate_limits := ∅; b_sequences := ∅;
     b_stats := {| total_sent := 0; total_delivered := 0; total_rejected := 0;
                   total_rate_limited := 0 |} |}.

Definition count_sent (s : BusStats) : BusStats :=
  {| total_sent := u64 (total_sent s + 1); total_delivered := total_delivered s;
     total_rejected := total_rejected s; total_rate_limited := total_rate_limited s |}.
Definition count_delivered (s : BusStats) : BusStats :=
  {| total_sent := total_sent s; total_delivered := u64 (total_delivered s + 1);
     total_rejected := total_rejected s; total_rate_limited := total_rate_limited s |}.
Definition count_rejected (s : BusStats) : BusStats :=
  {| total_sent := total_sent s; total_delivered := total_delivered s;
     total_rejected := u64 (total_rejected s + 1); total_rate_limited := total_rate_limited s |}.
Definition count_rate_limited (s : BusStats) : BusStats :=
  {| total_sent := total_sent s; total_delivered := total_delivered s;
     total_rejected := total_rejected s; total_rate_limited := u64 (total_rate_limited s + 1) |}.

Definition with_stats (b : ModuleBus) (s : BusStats) : ModuleBus :=
  {| b_queues := b_queues b; b_subscriptions := b_subscriptions b;
     b_rate_limits := b_rate_limits b; b_sequences := b_sequences b; b_stats := s |}.

(** One entry of [rate_limits_]: the window start and the count; the
    subtraction is unsigned. *)
Definition check_window (now : Z) (entry : Z * Z) : bool * (Z * Z) :=
  let '(windowStart, count) := entry in
  if 1000 <=? u64 (now - windowStart) then (true, (now, 1))
  else if MAX_MESSAGES_PER_SEC <=? count then (false, entry)
  else (true, (windowStart, u32 (count + 1))).

Definition checkRateLimit (b : ModuleBus) (moduleId : string) (now : Z) : bool * ModuleBus :=
  let '(ok, entry) := check_window now (default (0, 0) (b_rate_limits b !! moduleId)) in
  (ok, {| b_queues := b_queues b; b_subscriptions := b_subscriptions b;
          b_rate_limits := <[moduleId := entry]> (b_rate_limits b);
          b_sequences := b_sequences b; b_stats := b_stats b |}).

(** [queues_[id].push(msg)] and the delivery counter. *)
Definition push (b : ModuleBus) (id : string) (msg : ModuleMessage) : ModuleBus :=
  {| b_queues := <[id := default [] (b_queues b !! id) ++ [msg]]> (b_queues b);
     b_subscriptions := b_subscriptions b; b_rate_limits := b_rate_limits b;
     b_sequences := b_sequences b; b_stats := count_delivered (b_stats b) |}.

Fixpoint broadcast (b : ModuleBus) (sender : string) (msg : ModuleMessage) (subs : list string)
    : ModuleBus :=
  match subs with
  | [] => b
  | sub :: subs' =>
      if str_eqb sub sender then broadcast b sender msg subs'
      else broadcast (push b sub msg) sender msg subs'
  end.

Definition reject (b : ModuleBus) : bool * ModuleBus :=
  (false, with_stats b (count_rejected (b_stats b))).

(** [now1] is the reading of the rate limiter, [now2] the time stamp. *)
Definition bus_send (b : ModuleBus) (msg : ModuleMessage)
    (senderHasToken recipientHasToken recipientSubscribed : bool) (now1 now2 : Z)
    : bool * ModuleBus :=
  let b := with_stats b (count_sent (b_stats b)) in
  if MAX_PAYLOAD_BYTES <? str_size (msg_payload msg) then reject b
  else if negb senderHasToken then reject b
  else
    let '(ok, b) := checkRateLimit b (msg_sender_id msg) now1 in
    if negb ok then (false, with_stats b (count_rate_limited (b_stats b)))
    else
      let seq := u64 (default 0 (b_sequences b !! msg_sender_id msg) + 1) in
      let b := {| b_queues := b_queues b; b_subscriptions := b_subscriptions b;
                  b_rate_limits := b_rate_limits b;
                  b_sequences := <[msg_sender_id msg := seq]> (b_sequences b);
                  b_stats := b_stats b |} in
      let stamped := {| msg_sender_id := msg_sender_id msg; msg_recipient_id := msg_recipient_id msg;
                        msg_topic := msg_topic msg; msg_payload := msg_payload msg;
                        msg_timestamp_ms := now2; msg_sequence := seq |} in
      if is_empty (msg_recipient_id msg) then
        match b_subscriptions b !! msg_topic msg with
        | None => reject b
        | Some [] => reject b
        | Some subs => (true, broadcast b (msg_sender_id msg) stamped subs)
        end
      else if negb recipientHasToken then reject b
      else if negb recipientSubscribed then reject b
      else (true, push b (msg_recipient_id msg) stamped).

Definition bus_poll (b : ModuleBus) (moduleId : string) (maxMessages : nat)
    : list ModuleMessage * ModuleBus :=
  match b_queues b !! moduleId with
  | None => ([], b)
  | Some q => (take maxMessages q,
               {| b_queues := <[moduleId := drop maxMessages q]> (b_queues b);
                  b_subscriptions := b_subscriptions b; b_rate_limits := b_rate_limits b;
                  b_sequences := b_sequences b; b_stats := b_stats b |})
  end.

Definition set_subscriptions (b : ModuleBus) (topic : string) (subs : list string) : ModuleBus :=
  {| b_queues := b_queues b; b_subscriptions := <[topic := subs]> (b_subscriptions b);
     b_rate_limits := b_rate_limits b; b_sequences := b_sequences b; b_stats := b_stats b |}.

Definition subscribe (b : ModuleBus) (moduleId topic : string) : ModuleBus :=
  let subs := default [] (b_subscriptions b !! topic) in
  if existsb (fun s => str_eqb s moduleId) subs then set_subscriptions b topic subs
  else set_subscriptions b topic (subs ++ [moduleId]).

Definition unsubscribe (b : ModuleBus) (moduleId topic : string) : ModuleBus :=
  match b_subscriptions b !! topic with
  | None => b
  | Some subs => set_subscriptions b topic (List.filter (fun s => negb (str_eqb s moduleId)) subs)
  end.

Definition bus_stats (b : ModuleBus) : BusStats := b_stats b.

(** ** lease_tracker.cpp *)

Record LeaseEntry := {
  le_lease_id : string;
  le_module_id : string;
  le_capability : string;
  le_expires_at_ms : Z;
  le_revoked : bool;
}.

Abbreviation LeaseTracker := (gmap string LeaseEntry).
Definition INT64_MAX : Z := 2 ^ 63 - 1.

Definition lease_upsert (leases : LeaseTracker) (leaseId moduleId capability : string)
    (expiresAtMs : Z) (revoked : bool) : LeaseTracker :=
  <[leaseId := {| le_lease_id := leaseId; le_module_id := moduleId; le_capability := capability;
                  le_expires_at_ms := expiresAtMs; le_revoked := revoked |}]> leases.

Definition lease_remove (leases : LeaseTracker) (leaseId : string) : LeaseTracker :=
  delete leaseId leases.

Definition lease_active (now : Z) (entry : LeaseEntry) : bool :=
  negb (le_revoked entry)
  && ((le_expires_at_ms entry =? INT64_MAX) || (now <? le_expires_at_ms entry)).

Definition hasActiveLease (leases : LeaseTracker) (now : Z) (moduleId capability : string) : bool :=
  existsb (fun p => str_eqb (le_module_id p.2) moduleId && str_eqb (le_capability p.2) capability
                    && lease_active now p.2) (map_to_list leases).

Definition activeCount (leases : LeaseTracker) (now : Z) : nat :=
  length (List.filter (fun p => lease_active now p.2) (map_to_list leases)).

Definition sweep_entry (now : Z) (entry : LeaseEntry) : LeaseEntry :=
  if negb (le_revoked entry) && negb (le_expires_at_ms entry =? INT64_MAX)
     && (le_expires_at_ms entry <=? now)
  then {| le_lease_id := le_lease_id entry; le_module_id := le_module_id entry;
          le_capability := le_capability entry; le_expires_at_ms := le_expires_at_ms entry;
          le_revoked := true |}
  else entry.

Definition sweep (leases : LeaseTracker) (now : Z) : LeaseTracker := sweep_entry now <$> leases.

(** ** The rate limiter *)

(** Admission of a sequence of sends of one module at the given times. *)
Fixpoint admitted (entry : Z * Z) (times : list Z) : nat * (Z * Z) :=
  match times with
  | [] => (0%nat, entry)
  | now :: times' =>
      let '(ok, entry') := check_window now entry in
      let '(n, entry'') := admitted entry' times' in
      (if ok then S n else n, entry'')
  end.

(** The admissions of one fixed window. *)
Lemma admitted_window times : forall ws c,
  0 <= ws -> 1 <= c <= 100 -> (forall t, In t times -> ws <= t < ws + 1000) -> ws + 1000 < 2 ^ 64 ->
  Z.of_nat (admitted (ws, c) times).1 <= 100 - c.
Proof.
  induction times as [|now times IH]; intros ws c Hws Hc Ht Hmax; cbn [admitted]; [cbn; lia|].
  assert (ws <= now < ws + 1000) as Hnow by (apply Ht; by left).
  unfold check_window, u64, MAX_MESSAGES_PER_SEC. rewrite Z.mod_small by lia.
  destruct (1000 <=? now - ws) eqn:?; [lia|]. destruct (100 <=? c) eqn:E.
  - specialize (IH ws c Hws Hc). destruct (admitted (ws, c) times) as [n e]. cbn in *. apply IH; auto.
  - unfold u32. rewrite Z.mod_small by lia. specialize (IH ws (c + 1) Hws).
    destruct (admitted (ws, c + 1) times) as [n e]. cbn in *.
    specialize (IH ltac:(lia) ltac:(auto) Hmax). lia.
Qed.

Lemma admitted_second a times : forall ws c,
  0 <= ws -> 1 <= c <= 100 -> StronglySorted Z.le times -> a + 2000 < 2 ^ 64 ->
  (forall t, In t times -> ws <= t /\ a <= t < a + 1000) ->
  Z.of_nat (admitted (ws, c) times).1 <= 199.
Proof.
  assert (forall ws c, 0 <= ws -> 1 <= c <= 100 -> StronglySorted Z.le times -> a + 2000 < 2 ^ 64 ->
    (forall t, In t times -> ws <= t /\ a <= t < a + 1000) ->
    Z.of_nat (admitted (ws, c) times).1 <= 200 - c) as Hgo.
  { induction times as [|now times IH]; intros ws c Hws Hc Hs Ha Ht; cbn [admitted]; [cbn; lia|].
    apply StronglySorted_inv in Hs as [Hs Hle].
    assert (ws <= now /\ a <= now < a + 1000) as Hnow by (apply Ht; by left).
    unfold check_window, u64, MAX_MESSAGES_PER_SEC. rewrite Z.mod_small by lia.
    destruct (1000 <=? now - ws) eqn:?.
    - pose proof (admitted_window times now 1) as Hw. destruct (admitted (now, 1) times) as [n e].
      cbn in *. rewrite List.Forall_forall in Hle.
      assert (Z.of_nat n <= 99); [|lia]. apply Hw; try lia. intros t Hin.
      specialize (Ht t (or_intror Hin)). specialize (Hle t Hin). lia.
    - destruct (100 <=? c) eqn:E.
      + specialize (IH ws c). destruct (admitted (ws, c) times) as [n e]. cbn in *. auto.
      + unfold u32. rewrite Z.mod_small by lia. specialize (IH ws (c + 1)).
        destruct (admitted (ws, c + 1) times) as [n e]. cbn in *.
        specialize (IH Hws ltac:(lia) Hs Ha ltac:(auto)). lia. }
  intros ws c Hws Hc Hs Ha Ht. specialize (Hgo ws c Hws Hc Hs Ha Ht). lia.
Qed.

(** The sends that show that the bound is met. *)
Definition burst : list Z := replicate 99 1999 ++ replicate 100 2000.

(** C28: the rate limiter of the message bus.  While the clock does not go
    back, at most 100 sends of a module are admitted in the second after a
    window starts, but a window is not a sliding second: in an arbitrary second
    up to 199 sends are admitted, and 199 are when 99 come at the end of a
    window and 100 at the start of the next.  A clock that is set back always
    opens a new window. *)
Theorem rate_limit_bound ws c a times :
  0 <= ws -> 1 <= c <= 100 -> StronglySorted Z.le times -> ws + 1000 < 2 ^ 64 -> a + 2000 < 2 ^ 64 ->
  ((forall t, In t times -> ws <= t < ws + 1000) -> Z.of_nat (admitted (ws, c) times).1 <= 100 - c) /\
  ((forall t, In t times -> ws <= t /\ a <= t < a + 1000) ->
   Z.of_nat (admitted (ws, c) times).1 <= 199) /\
  ((admitted (admitted (0, 0) [1000]).2 burst).1 = 199%nat) /\
  (forall now, 0 <= now < ws -> ws < 2 ^ 63 -> check_window now (ws, c) = (true, (now, 1))).
Proof.
  intros Hws Hc Hs Hm Ha. split_and!.
  - intros Ht. by apply admitted_window.
  - intros Ht. by eapply admitted_second.
  - vm_compute. done.
  - intros now Hnow Hws'. unfold check_window, u64.
    replace (now - ws) with (now - ws + 2 ^ 64 + (-1) * 2 ^ 64) by lia.
    rewrite Z.mod_add, Z.mod_small by lia. by destruct (1000 <=? now - ws + 2 ^ 64) eqn:?; [|lia].
Qed.

Lemma rate_limit_bound_witness : Z.of_nat (admitted (1000, 1) [1001; 1002; 1003]).1 <= 99.
Proof.
  refine (proj1 (rate_limit_bound 1000 1 1000 [1001; 1002; 1003] _ _ _ _ _) _); try lia.
  - repeat (constructor; [|repeat constructor; lia]). constructor.
  - intros t [<-|[<-|[<-|[]]]]; lia.
Defined.

(** ** Order of delivery *)

Definition before (m1 m2 : ModuleMessage) : Prop :=
  msg_sender_id m1 = msg_sender_id m2 -> msg_sequence m1 < msg_sequence m2.
Definition ordered (q : list ModuleMessage) : Prop := StronglySorted before q.
(** Every queued message is numbered, within the numbers given out, and small. *)
Definition numbered (seqs : gmap string Z) (m : ModuleMessage) : Prop :=
  1 <= msg_sequence m <= default 0 (seqs !! msg_sender_id m) /\
  str_size (msg_payload m) <= MAX_PAYLOAD_BYTES.

Record bus_wf (n : Z) (b : ModuleBus) : Prop := {
  bw_queues id q : b_queues b !! id = Some q -> ordered q /\ Forall (numbered (b_sequences b)) q;
  bw_subs topic subs : b_subscriptions b !! topic = Some subs -> NoDup subs;
  bw_seqs s z : b_sequences b !! s = Some z -> 0 <= z <= n;
}.

Lemma ordered_snoc q m : ordered q -> Forall (fun x => before x m) q -> ordered (q ++ [m]).
Proof.
  unfold ordered. induction 1 as [|x q Hq IH Hx]; intros Hm; cbn; [repeat constructor|].
  apply Forall_cons in Hm as [Hxm Hm]. constructor; [by apply IH|].
  apply Forall_app. split; [done|by constructor].
Qed.

Lemma push_wf n b id m :
  bus_wf n b -> numbered (b_sequences b) m ->
  (forall q, b_queues b !! id = Some q -> Forall (fun x => before x m) q) ->
  bus_wf n (push b id m).
Proof.
  intros [Hq Hs Hz] Hm Hb. split; cbn; [|done|done].
  intros id' q. destruct (decide (id' = id)) as [->|Hid].
  - rewrite lookup_insert_eq. intros [= <-].
    destruct (b_queues b !! id) as [q|] eqn:E; cbn.
    + destruct (Hq _ _ E) as [Ho Hn]. split; [by apply ordered_snoc; [|apply Hb]|].
      apply Forall_app. split; [done|by constructor].
    + split; repeat constructor; apply Hm.
  - rewrite lookup_insert_ne by done. apply Hq.
Qed.

Lemma broadcast_wf n sender m subs : forall b,
  bus_wf n b -> numbered (b_sequences b) m -> NoDup subs ->
  (forall id q, id ∈ subs -> b_queues b !! id = Some q -> Forall (fun x => before x m) q) ->
  bus_wf n (broadcast b sender m subs).
Proof.
  induction subs as [|sub subs IH]; intros b Hwf Hm Hnd Hb; cbn [broadcast]; [done|].
  apply NoDup_cons in Hnd as [Hn Hnd].
  destruct (str_eqb sub sender).
  - apply IH; try done. intros id q Hid. apply Hb. set_solver.
  - apply IH; [apply push_wf; try done|done|done|].
    + intros q. apply Hb. set_solver.
    + intros id q Hid. cbn. rewrite lookup_insert_ne by (intros ->; done). apply Hb. set_solver.
Qed.

Lemma with_stats_wf n b s : bus_wf n b -> bus_wf n (with_stats b s).
Proof. intros [? ? ?]. by split. Qed.

Lemma bus_wf_weaken n n' b : n <= n' -> bus_wf n b -> bus_wf n' b.
Proof. intros Hn [Hq Hs Hz]. split; [done|done|]. intros s z E. specialize (Hz s z E). lia. Qed.

(** Giving a sender its next number keeps the queues below the numbers, and
    a message with that number may follow everything queued. *)
Lemma next_number_wf n b sender m :
  let z := default 0 (b_sequences b !! sender) in
  0 <= n -> bus_wf n b -> msg_sender_id m = sender -> msg_sequence m = z + 1 ->
  str_size (msg_payload m) <= MAX_PAYLOAD_BYTES ->
  let b' := {| b_queues := b_queues b; b_subscriptions := b_subscriptions b;
               b_rate_limits := b_rate_limits b; b_sequences := <[sender := z + 1]> (b_sequences b);
               b_stats := b_stats b |} in
  0 <= z <= n /\ bus_wf (n + 1) b' /\ numbered (b_sequences b') m /\
  forall id q, b_queues b' !! id = Some q -> Forall (fun x => before x m) q.
Proof.
  intros z Hn0 Hwf Hs Hq Hsz b'.
  assert (0 <= z <= n) as Hz.
  { unfold z. destruct (b_sequences b !! sender) as [y|] eqn:E; cbn; [|lia]. exact (bw_seqs n b Hwf _ _ E). }
  destruct Hwf as [Hqs Hsub Hsq]. split_and!; [lia|lia| | |].
  - split; cbn; [|done|].
    + intros id q E. destruct (Hqs id q E) as [Ho Hnum]. split; [done|].
      eapply Forall_impl; [exact Hnum|]. intros x [Hx Hp]. split; [|done].
      destruct (decide (msg_sender_id x = sender)) as [E'|E'].
      * rewrite E', lookup_insert_eq. cbn. rewrite E' in Hx. fold z in Hx. lia.
      * by rewrite lookup_insert_ne.
    + intros s y. destruct (decide (s = sender)) as [->|Hs'].
      * rewrite lookup_insert_eq. intros [= <-]. lia.
      * rewrite lookup_insert_ne by done. intros E. specialize (Hsq s y E). lia.
  - split; [cbn; rewrite Hs, lookup_insert_eq; cbn; lia|done].
  - intros id q E. destruct (Hqs id q E) as [_ Hnum]. eapply Forall_impl; [exact Hnum|].
    intros x [Hx _] Es'. rewrite Es', Hs in Hx. fold z in Hx. lia.
Qed.

Lemma send_wf n b msg st rt rs now1 now2 :
  0 <= n -> n + 1 < 2 ^ 64 -> bus_wf n b -> bus_wf (n + 1) (bus_send b msg st rt rs now1 now2).2.
Proof.
  intros Hn0 Hn Hwf. unfold bus_send, reject.
  set (b1 := with_stats b (count_sent (b_stats b))).
  assert (bus_wf n b1) as Hwf1 by by apply with_stats_wf.
  destruct (MAX_PAYLOAD_BYTES <? str_size (msg_payload msg)) eqn:Hsz.
  { apply with_stats_wf. eapply bus_wf_weaken; [|done]. lia. }
  destruct st; cbn [negb]; [|apply with_stats_wf; eapply bus_wf_weaken; [|done]; lia].
  destruct (checkRateLimit b1 (msg_sender_id msg) now1) as [ok b2] eqn:Hr.
  assert (bus_wf n b2) as Hwf2.
  { unfold checkRateLimit in Hr. destruct (check_window now1 _) as [o e]. injection Hr as _ <-.
    destruct Hwf1. by split. }
  destruct ok; cbn [negb]; [|apply with_stats_wf; eapply bus_wf_weaken; [|done]; lia].
  set (z := default 0 (b_sequences b2 !! msg_sender_id msg)).
  set (m := {| msg_sender_id := _; msg_sequence := u64 (z + 1) |}).
  assert (0 <= z <= n) as Hz.
  { unfold z. destruct (b_sequences b2 !! msg_sender_id msg) as [y|] eqn:E; cbn; [|lia].
    exact (bw_seqs n b2 Hwf2 _ _ E). }
  assert (u64 (z + 1) = z + 1) as Ez by (apply Z.mod_small; lia).
  destruct (next_number_wf n b2 (msg_sender_id msg) m) as (_ & Hwf3 & Hm & Hbef); [done..|cbn; lia|].
  fold z in Hwf3, Hm, Hbef. rewrite <- Ez in Hwf3, Hm, Hbef.
  set (b3 := {| b_queues := b_queues b2; b_sequences := <[_ := u64 (z + 1)]> _ |}) in *.
  destruct (is_empty (msg_recipient_id msg)).
  - destruct (b_subscriptions b3 !! msg_topic msg) as [[|s subs]|] eqn:E;
      [by apply with_stats_wf| |by apply with_stats_wf].
    apply broadcast_wf; try done; [by eapply bw_subs|]. intros id q _. apply Hbef.
  - destruct rt; cbn [negb]; [|by apply with_stats_wf].
    destruct rs; cbn [negb]; [|by apply with_stats_wf].
    apply push_wf; try done. intros q. apply Hbef.
Qed.

Lemma StronglySorted_drop {A} (R : A -> A -> Prop) k l :
  StronglySorted R l -> StronglySorted R (drop k l).
Proof.
  revert l. induction k as [|k IH]; intros [|x l] Hs; cbn; try done.
  apply StronglySorted_inv in Hs as [Hs _]. by apply IH.
Qed.

Lemma poll_wf n b id k : bus_wf n b -> bus_wf n (bus_poll b id k).2.
Proof.
  intros Hwf. unfold bus_poll. destruct (b_queues b !! id) as [q|] eqn:E; [|done].
  destruct Hwf as [Hq Hs Hz]. split; cbn; [|done|done].
  intros id' q'. destruct (decide (id' = id)) as [->|Hid].
  - rewrite lookup_insert_eq. intros [= <-]. destruct (Hq _ _ E) as [Ho Hn].
    split; [by apply StronglySorted_drop|by apply Forall_drop].
  - rewrite lookup_insert_ne by done. apply Hq.
Qed.

Lemma set_subscriptions_wf n b topic subs :
  bus_wf n b -> NoDup subs -> bus_wf n (set_subscriptions b topic subs).
Proof.
  intros [Hq Hs Hz] Hnd. split; cbn; [done| |done].
  intros t l. destruct (decide (t = topic)) as [->|Ht].
  - rewrite lookup_insert_eq. by intros [= <-].
  - rewrite lookup_insert_ne by done. apply Hs.
Qed.

Lemma subscribe_wf n b id topic : bus_wf n b -> bus_wf n (subscribe b id topic).
Proof.
  intros Hwf. unfold subscribe.
  assert (NoDup (default [] (b_subscriptions b !! topic))) as Hnd.
  { destruct (b_subscriptions b !! topic) eqn:E; cbn; [by eapply bw_subs|constructor]. }
  destruct (existsb _ _) eqn:E; apply set_subscriptions_wf; try done.
  apply NoDup_app. split_and!; [done| |apply NoDup_singleton].
  intros x Hx ->%list_elem_of_singleton. apply not_true_iff_false in E. apply E.
  apply List.existsb_exists. exists id. split; [by apply list_elem_of_In|by apply str_eqb_true].
Qed.

Lemma unsubscribe_wf n b id topic : bus_wf n b -> bus_wf n (unsubscribe b id topic).
Proof.
  intros Hwf. unfold unsubscribe. destruct (b_subscriptions b !! topic) as [subs|] eqn:E; [|done].
  apply set_subscriptions_wf; [done|]. apply NoDup_ListNoDup, List.NoDup_filter, NoDup_ListNoDup.
  by eapply bw_subs.
Qed.

Inductive bus_op :=
| BSend (msg : ModuleMessage) (senderToken recipientToken recipientSubscribed : bool) (now1 now2 : Z)
| BPoll (id : string) (maxMessages : nat)
| BSubscribe (id topic : string)
| BUnsubscribe (id topic : string).

Definition bus_step (b : ModuleBus) (o : bus_op) : ModuleBus :=
  match o with
  | BSend msg st rt rs now1 now2 => (bus_send b msg st rt rs now1 now2).2
  | BPoll id k => (bus_poll b id k).2
  | BSubscribe id topic => subscribe b id topic
  | BUnsubscribe id topic => unsubscribe b id topic
  end.

Lemma new_bus_wf : bus_wf 0 new_bus.
Proof. by split; cbn; intros ? ?; rewrite lookup_empty. Qed.

Lemma bus_reachable_wf ops :
  Z.of_nat (length ops) < 2 ^ 64 -> bus_wf (Z.of_nat (length ops)) (fold_left bus_step ops new_bus).
Proof.
  induction ops as [|o ops IH] using rev_ind; intros Hn; [apply new_bus_wf|].
  rewrite length_app in *. cbn [length] in *. rewrite fold_left_app. cbn [fold_left].
  specialize (IH ltac:(lia)). set (b := fold_left bus_step ops new_bus) in *.
  replace (Z.of_nat (length ops + 1)) with (Z.of_nat (length ops) + 1) by lia.
  assert (forall b', bus_wf (Z.of_nat (length ops)) b' -> bus_wf (Z.of_nat (length ops) + 1) b') as Hw
    by (intros b'; apply bus_wf_weaken; lia).
  destruct o; cbn [bus_step].
  - apply send_wf; try done; lia.
  - by apply Hw, poll_wf.
  - by apply Hw, subscribe_wf.
  - by apply Hw, unsubscribe_wf.
Qed.

(** The messages that a send adds to the queue of [id]. *)
Definition delivered (b b' : ModuleBus) (id : string) (ms : list ModuleMessage) : Prop :=
  default [] (b_queues b' !! id) = default [] (b_queues b !! id) ++ ms.

Lemma broadcast_queues sender m subs : forall b id,
  NoDup subs -> delivered b (broadcast b sender m subs) id
    (if bool_decide (id ∈ subs) && negb (str_eqb id sender) then [m] else []).
Proof.
  unfold delivered. induction subs as [|sub subs IH]; intros b id Hnd; cbn [broadcast].
  { rewrite bool_decide_eq_false_2 by apply not_elem_of_nil. by rewrite app_nil_r. }
  apply NoDup_cons in Hnd as [Hn Hnd]. destruct (str_eqb sub sender) eqn:Es.
  - rewrite IH by done. destruct (decide (id = sub)) as [->|Hid].
    + rewrite Es, !andb_false_r. done.
    + f_equal. rewrite (bool_decide_ext (id ∈ sub :: subs) (id ∈ subs)); [done|set_solver].
  - rewrite IH by done. destruct (decide (id = sub)) as [->|Hid].
    + rewrite (bool_decide_eq_false_2 (sub ∈ subs)) by done.
      rewrite (bool_decide_eq_true_2 (sub ∈ sub :: subs)) by set_solver. rewrite Es. cbn.
      rewrite lookup_insert_eq. cbn. by rewrite app_nil_r.
    + cbn. rewrite lookup_insert_ne by done. f_equal.
      rewrite (bool_decide_ext (id ∈ sub :: subs) (id ∈ subs)); [done|set_solver].
Qed.

(** When [send] may put [m] into the queue of [id]. *)
Definition may_deliver (b : ModuleBus) (msg : ModuleMessage) (st rt rs : bool) (now1 : Z)
    (id : string) (m : ModuleMessage) : Prop :=
  msg_sender_id m = msg_sender_id msg /\ msg_payload m = msg_payload msg /\
  str_size (msg_payload msg) <= MAX_PAYLOAD_BYTES /\ st = true /\
  (check_window now1 (default (0, 0) (b_rate_limits b !! msg_sender_id msg))).1 = true /\
  (if is_empty (msg_recipient_id msg)
   then exists subs, b_subscriptions b !! msg_topic msg = Some subs /\ id ∈ subs /\ id <> msg_sender_id msg
   else id = msg_recipient_id msg /\ rt = true /\ rs = true).

(** At most one message, of which [G] holds, and none after a refusal. *)
Definition delivers_if (G : ModuleMessage -> Prop) (b : ModuleBus) (id : string) (r : bool * ModuleBus)
    : Prop :=
  exists ms, delivered b r.2 id ms /\ (length ms <= 1)%nat /\ (r.1 = false -> ms = []) /\
    forall m, m ∈ ms -> G m.

Lemma delivers_nothing G b id r : b_queues r.2 = b_queues b -> delivers_if G b id r.
Proof.
  intros E. exists []. unfold delivered. rewrite E, app_nil_r.
  split_and!; [done|cbn; lia|done|]. intros m Hm. by apply not_elem_of_nil in Hm.
Qed.

Lemma push_delivers (G : ModuleMessage -> Prop) b b0 id rid m :
  b_queues b0 = b_queues b -> (id = rid -> G m) -> delivers_if G b id (true, push b0 rid m).
Proof.
  intros E HG. exists (if bool_decide (id = rid) then [m] else []). unfold delivered.
  cbn [snd fst push b_queues]. rewrite E. case_bool_decide as Hid.
  - rewrite Hid, lookup_insert_eq. split_and!; [done|done|done|].
    intros m' ->%list_elem_of_singleton. by apply HG.
  - rewrite lookup_insert_ne, app_nil_r by done. split_and!; [done|cbn; lia|done|].
    intros m' Hm. by apply not_elem_of_nil in Hm.
Qed.

Lemma broadcast_delivers (G : ModuleMessage -> Prop) b b0 id sender m subs :
  b_queues b0 = b_queues b -> NoDup subs -> (id ∈ subs -> id <> sender -> G m) ->
  delivers_if G b id (true, broadcast b0 sender m subs).
Proof.
  intros E Hnd HG. pose proof (broadcast_queues sender m subs b0 id Hnd) as Hd.
  unfold delivered in Hd. rewrite E in Hd. eexists. split; [exact Hd|].
  destruct (bool_decide (id ∈ subs)) eqn:Ei; [destruct (str_eqb id sender) eqn:Es|]; cbn;
    (split_and!; [lia|done|]); intros m' Hm; try (by apply not_elem_of_nil in Hm).
  apply list_elem_of_singleton in Hm as ->.
  apply HG; [by apply bool_decide_eq_true in Ei|by apply str_eqb_false].
Qed.

(** C26: a message reaches a queue only through the checks of the bus: [send]
    adds at most one copy to the queue of [id], with the sender's id and
    payload, and only when the payload has at most 64 KiB, the sender has its
    token and passed the rate limiter, and [id] is either the recipient, with
    token and subscription, or, for a broadcast, a subscriber of the topic
    other than the sender; when [send] returns false nothing is queued. *)
Theorem send_access_control n b msg st rt rs now1 now2 id :
  bus_wf n b ->
  delivers_if (may_deliver b msg st rt rs now1 id) b id (bus_send b msg st rt rs now1 now2).
Proof.
  intros Hwf. unfold bus_send, reject, checkRateLimit, may_deliver.
  destruct (MAX_PAYLOAD_BYTES <? str_size (msg_payload msg)) eqn:Hsz; [by apply delivers_nothing|].
  destruct st; cbn [negb]; [|by apply delivers_nothing]. cbn [b_rate_limits with_stats].
  destruct (check_window now1 _) as [ok entry]. destruct ok; cbn [negb]; [|by apply delivers_nothing].
  cbn [b_queues b_subscriptions b_sequences b_rate_limits b_stats with_stats].
  destruct (is_empty (msg_recipient_id msg)).
  - destruct (b_subscriptions b !! msg_topic msg) as [[|s subs]|] eqn:E; try by apply delivers_nothing.
    apply broadcast_delivers; [done|by eapply bw_subs|]. intros Hin Hne. cbn.
    split_and!; try done; [lia|]. by exists (s :: subs).
  - destruct rt; cbn [negb]; [|by apply delivers_nothing].
    destruct rs; cbn [negb]; [|by apply delivers_nothing].
    apply push_delivers; [done|]. intros ->. cbn. split_and!; try done. lia.
Qed.

(** C27: after any sequence of fewer than 2^64 operations every queue of the
    bus holds the messages of each sender in the order of their sequence
    numbers, without duplicates, none of them above the last number given to
    that sender and none larger than 64 KiB; [poll] takes a prefix of the
    queue, so every receiver sees each sender's messages in sending order. *)
Theorem bus_delivery_order ops id k :
  Z.of_nat (length ops) < 2 ^ 64 ->
  let b := fold_left bus_step ops new_bus in
  let q := default [] (b_queues b !! id) in
  ordered q /\ Forall (numbered (b_sequences b)) q /\
  (bus_poll b id k).1 = take k q /\ default [] (b_queues (bus_poll b id k).2 !! id) = drop k q.
Proof.
  intros Hn b q. pose proof (bus_reachable_wf ops Hn) as Hwf. fold b in Hwf.
  unfold q, bus_poll. destruct (b_queues b !! id) as [l|] eqn:E; cbn.
  - destruct (bw_queues _ b Hwf _ _ E). rewrite lookup_insert_eq. done.
  - rewrite E, take_nil, drop_nil. repeat constructor.
Qed.

Definition sample_msg (s r p : string) : ModuleMessage :=
  {| msg_sender_id := s; msg_recipient_id := r; msg_topic := "t"; msg_payload := p;
     msg_timestamp_ms := 0; msg_sequence := 0 |}.
Definition sample_ops : list bus_op :=
  [BSend (sample_msg "a" "b" "1") true true true 5000 5000;
   BSend (sample_msg "a" "b" "2") true true true 5001 5001].

Lemma bus_delivery_order_witness :
  msg_payload <$> (bus_poll (fold_left bus_step sample_ops new_bus) "b" 32).1 = ["1"; "2"].
Proof.
  destruct (bus_delivery_order sample_ops "b" 32) as (_ & _ & E & _); [cbn; lia|].
  rewrite E. vm_compute. reflexivity.
Defined.

Lemma send_access_control_witness :
  delivers_if (may_deliver new_bus (sample_msg "a" "b" "1") true true true 5000 "b") new_bus "b"
    (bus_send new_bus (sample_msg "a" "b" "1") true true true 5000 5000).
Proof.
  refine (send_access_control 0 new_bus (sample_msg "a" "b" "1") true true true 5000 5000 "b" _).
  exact new_bus_wf.
Defined.

(** ** Leases *)

Definition grants (now : Z) (m c : string) (e : LeaseEntry) : Prop :=
  le_module_id e = m /\ le_capability e = c /\ le_revoked e = false /\
  (le_expires_at_ms e = INT64_MAX \/ now < le_expires_at_ms e).

Lemma hasActiveLease_spec ls now m c :
  hasActiveLease ls now m c = true <-> exists id e, ls !! id = Some e /\ grants now m c e.
Proof.
  unfold hasActiveLease. rewrite List.existsb_exists. unfold grants, lease_active. split.
  - intros ([id e] & Hin & Ht). apply list_elem_of_In, elem_of_map_to_list in Hin. exists id, e.
    split; [done|]. cbn [snd] in Ht.
    apply andb_prop in Ht as [Ht Ha]. apply andb_prop in Ht as [Hm Hc].
    apply str_eqb_true in Hm, Hc. split_and!; [done|done|by destruct (le_revoked e)|].
    destruct (le_revoked e); [done|]. cbn in Ha. apply orb_prop in Ha as [Ha|Ha]; [left|right]; lia.
  - intros (id & e & Hin & Hm & Hc & Hr & Hx). exists (id, e). split.
    + by apply list_elem_of_In, elem_of_map_to_list.
    + cbn [snd]. rewrite Hm, Hc, Hr. rewrite !(proj2 (str_eqb_true _ _) eq_refl). cbn.
      destruct Hx as [->|Hx]; [by rewrite Z.eqb_refl|].
      destruct (now <? le_expires_at_ms e) eqn:?; [by rewrite orb_true_r|lia].
Qed.

Lemma sweep_entry_grants now0 now m c e :
  (grants now m c (sweep_entry now0 e) -> grants now m c e) /\
  (now0 <= now -> grants now m c e -> grants now m c (sweep_entry now0 e)).
Proof.
  unfold sweep_entry, grants. destruct (le_revoked e) eqn:Er; cbn [negb andb].
  { rewrite Er. done. }
  destruct (le_expires_at_ms e =? INT64_MAX) eqn:Ex; cbn [negb andb]; [by rewrite Er|].
  destruct (le_expires_at_ms e <=? now0) eqn:El; [|by rewrite Er]. cbn. split; [by intros (_ & _ & ? & _)|].
  intros Hn (_ & _ & _ & [E|E]); lia.
Qed.

(** a module has an active lease for a capability exactly when some stored
    lease names both, is not revoked and has not expired (the largest 64-bit
    value never expires).  Sweeping only revokes: it changes no answer at or
    after the time of the sweep, and if the clock is set back afterwards it can
    only turn a yes into a no. *)
Theorem lease_sweep_safe ls now0 now m c :
  (hasActiveLease ls now m c = true <-> exists id e, ls !! id = Some e /\ grants now m c e) /\
  (now0 <= now -> hasActiveLease (sweep ls now0) now m c = hasActiveLease ls now m c) /\
  (hasActiveLease (sweep ls now0) now m c = true -> hasActiveLease ls now m c = true).
Proof.
  assert (forall id e', sweep ls now0 !! id = Some e' <->
    exists e, ls !! id = Some e /\ e' = sweep_entry now0 e) as Hl.
  { intros id e'. unfold sweep. rewrite lookup_fmap, fmap_Some. done. }
  assert (hasActiveLease (sweep ls now0) now m c = true -> hasActiveLease ls now m c = true) as Hle.
  { rewrite !hasActiveLease_spec. intros (id & e' & He & Hg). apply Hl in He as (e & He & ->).
    exists id, e. split; [done|]. by apply sweep_entry_grants in Hg. }
  split_and!; [apply hasActiveLease_spec| |done].
  intros Hn. destruct (hasActiveLease ls now m c) eqn:E.
  - apply hasActiveLease_spec in E as (id & e & He & Hg). apply hasActiveLease_spec.
    exists id, (sweep_entry now0 e). split; [apply Hl; eauto|].
    by apply (proj2 (sweep_entry_grants now0 now m c e)).
  - destruct (hasActiveLease (sweep ls now0) now m c); [by discriminate (Hle eq_refl)|done].
Qed.

(** A broadcast asks for no token of its receivers: only the unicast branch
    looks at [recipientHasToken]. *)
Example broadcast_needs_no_token :
  let b := subscribe new_bus "b" "t" in
  let r := bus_send b (sample_msg "a" EmptyString "x") true false false 5000 5000 in
  r.1 = true /\ msg_payload <$> (bus_poll r.2 "b" 32).1 = ["x"].
Proof. split; vm_compute; reflexivity. Qed.

Definition sample_leases : LeaseTracker := lease_upsert ∅ "l" "m" "NETWORK" 5000 false.

Lemma lease_sweep_safe_witness :
  hasActiveLease sample_leases 4999 "m" "NETWORK" = true /\
  hasActiveLease (sweep sample_leases 5000) 5000 "m" "NETWORK" = false.
Proof.
  split; [vm_compute; reflexivity|].
  rewrite (proj1 (proj2 (lease_sweep_safe sample_leases 5000 5000 "m" "NETWORK")) (Z.le_refl _)).
  vm_compute. reflexivity.
Defined.
