(* ===== verification/Kernel.v ===== *)
(** * Kernel: the AstraRoot kernel module and its bridge in the daemon

    Models [kernel/astra_root.c] (the policy table and the ioctl handler),
    [daemon/src/kernel_bridge.cpp] (the calls of the daemon, with the byte
    layout of the structures they pass) and [daemon/src/policy_to_kernel.cpp]
    (capability names to Linux capability bits, and the start-up sync).  The
    table is only touched under its mutex, so one call is one step.  What the
    Linux kernel provides (user namespaces, fresh credentials) is the class
    [KernelApi] and the record [KEnv]. *)

From Stdlib Require Import ZArith Ascii String Lia.
From stdpp Require Import base numbers list strings gmap.
From S2P Require Import Prelude.

Open Scope Z_scope.

(** ** ioctl numbers (the macros of [asm-generic/ioctl.h]) *)

Definition IOC (dir type nr size : Z) : Z :=
  Z.lor (Z.shiftl dir 30) (Z.lor (Z.shiftl size 16) (Z.lor (Z.shiftl type 8) nr)).
Definition IO (type nr : Z) : Z := IOC 0 type nr 0.
Definition IOW (type nr size : Z) : Z := IOC 1 type nr size.
Definition IOR (type nr size : Z) : Z := IOC 2 type nr size.

Definition EPERM : Z := 1.
Definition ENOMEM : Z := 12.
Definition EFAULT : Z := 14.
Definition ENOTTY : Z := 25.
Definition ENOSPC : Z := 28.

(** ** Little-endian structures in user memory *)

Fixpoint le_bytes (n : nat) (z : Z) : list Z :=
  match n with
  | O => []
  | S n' => z mod 256 :: le_bytes n' (z / 256)
  end.
Fixpoint le_val (l : list Z) : Z :=
  match l with
  | [] => 0
  | b :: l' => b + 256 * le_val l'
  end.
Definition field (off n : nat) (l : list Z) : Z := le_val (take n (drop off l)).

(** The memory behind the [arg] pointer: the readable bytes from there on. *)
Record UserPtr := { up_bytes : list Z; up_writable : bool }.

Definition copy_from_user (n : nat) (arg : UserPtr) : option (list Z) :=
  if (n <=? length (up_bytes arg))%nat then Some (take n (up_bytes arg)) else None.
Definition copy_to_user (bs : list Z) (arg : UserPtr) : option UserPtr :=
  if up_writable arg && (length bs <=? length (up_bytes arg))%nat
  then Some {| up_bytes := bs ++ drop (length bs) (up_bytes arg); up_writable := true |}
  else None.

(** ** astra_root.c: data *)

Record astra_caps := {
  ac_effective : Z;
  ac_permitted : Z;
  ac_target_uid : Z;
  ac_target_gid : Z;
  ac_result : Z;
  ac_padding : Z;
}.
Definition sizeof_caps : nat := 32.
Definition encode_caps (c : astra_caps) : list Z :=
  le_bytes 8 (ac_effective c) ++ le_bytes 8 (ac_permitted c) ++ le_bytes 4 (ac_target_uid c)
  ++ le_bytes 4 (ac_target_gid c) ++ le_bytes 4 (u32 (ac_result c)) ++ le_bytes 4 (ac_padding c).
Definition decode_caps (l : list Z) : astra_caps :=
  {| ac_effective := field 0 8 l; ac_permitted := field 8 8 l; ac_target_uid := field 16 4 l;
     ac_target_gid := field 20 4 l; ac_result := i32 (field 24 4 l); ac_padding := field 28 4 l |}.

Record astra_policy_entry := {
  pe_uid : Z;
  pe_allowed_caps : Z;
  pe_allow_full_root : Z;
  pe_pad : Z;
}.
Definition sizeof_policy_entry : nat := 24.
Definition encode_policy (e : astra_policy_entry) : list Z :=
  le_bytes 4 (pe_uid e) ++ le_bytes 4 0 ++ le_bytes 8 (pe_allowed_caps e)
  ++ le_bytes 4 (pe_allow_full_root e) ++ le_bytes 4 (pe_pad e).
Definition decode_policy (l : list Z) : astra_policy_entry :=
  {| pe_uid := field 0 4 l; pe_allowed_caps := field 8 8 l;
     pe_allow_full_root := field 16 4 l; pe_pad := field 20 4 l |}.

Definition ASTRA_VERSION : Z := 2.
Definition ASTRA_MAGIC : Z := 65.
Definition ASTRA_GET_ROOT : Z := IO ASTRA_MAGIC 1.
Definition ASTRA_GET_CAPS : Z := IOW ASTRA_MAGIC 2 (Z.of_nat sizeof_caps).
Definition ASTRA_SET_POLICY : Z := IOW ASTRA_MAGIC 3 (Z.of_nat sizeof_policy_entry).
Definition ASTRA_GET_VERSION : Z := IOR ASTRA_MAGIC 4 4.
Definition ASTRA_MAX_POLICIES : nat := 128.

(** The first [policy_count] entries of [policy_table], and [enforce]. *)
Record AstraModule := {
  policy_table : list astra_policy_entry;
  enforce : Z;
}.

(** ** What the kernel provides *)

Class KernelApi := {
  user_namespace : Type;
  from_kuid : user_namespace -> Z -> Z;
  make_kuid : user_namespace -> Z -> Z;
  make_kgid : user_namespace -> Z -> Z;
  CAP_LAST_CAP : nat;
}.

(** The fields of [struct cred] that the module reads or writes. *)
Record Cred `{KernelApi} := {
  c_user_ns : user_namespace;
  c_uid : Z; c_euid : Z; c_suid : Z;
  c_gid : Z; c_egid : Z; c_sgid : Z;
  cap_effective : Z; cap_permitted : Z; cap_inheritable : Z; cap_bset : Z;
}.

(** The answers of the allocating kernel calls during one ioctl. *)
Record KEnv `{KernelApi} := {
  prepare_kernel_cred : option Cred;
  prepare_creds_ok : bool;
}.

(** ** astra_root.c: operations *)

Definition policy_for (uid : Z) (table : list astra_policy_entry) : option astra_policy_entry :=
  List.find (fun e => pe_uid e =? uid) table.

Definition check_policy (m : AstraModule) (uid requested_caps : Z) (want_full_root : bool) : Z :=
  if enforce m =? 0 then 0
  else
    match policy_table m with
    | [] => - EPERM
    | _ =>
        let allowed :=
          match policy_for uid (policy_table m) with
          | None => 0
          | Some e =>
              if want_full_root then i32 (pe_allow_full_root e)
              else Z.b2z (Z.land requested_caps (pe_allowed_caps e) =? requested_caps)
          end in
        if negb (allowed =? 0) then 0 else - EPERM
    end.

(** [for (cap = 0; cap <= CAP_LAST_CAP; cap++) if (req & (1ULL << cap))
    cap_raise(set, cap)], on a cleared set. *)
Definition raise_caps (last : nat) (requested : Z) : Z :=
  fold_left (fun set cap => if negb (Z.land requested (Z.shiftl 1 (Z.of_nat cap)) =? 0)
                            then Z.lor set (Z.shiftl 1 (Z.of_nat cap)) else set)
            (seq 0 (S last)) 0.

Section ioctl.
Context `{KernelApi}.

Definition new_caps_cred (cur : Cred) (caps : astra_caps) : Cred :=
  let kuid := make_kuid (c_user_ns cur) (ac_target_uid caps) in
  let kgid := make_kgid (c_user_ns cur) (ac_target_gid caps) in
  let set_uid := negb (ac_target_uid caps =? 0) in
  let set_gid := negb (ac_target_gid caps =? 0) in
  {| c_user_ns := c_user_ns cur;
     c_uid := if set_uid then kuid else c_uid cur;
     c_euid := if set_uid then kuid else c_euid cur;
     c_suid := if set_uid then kuid else c_suid cur;
     c_gid := if set_gid then kgid else c_gid cur;
     c_egid := if set_gid then kgid else c_egid cur;
     c_sgid := if set_gid then kgid else c_sgid cur;
     cap_effective := raise_caps CAP_LAST_CAP (ac_effective caps);
     cap_permitted := raise_caps CAP_LAST_CAP (ac_permitted caps);
     cap_inheritable := 0;
     cap_bset := 0 |}.

Definition with_result (caps : astra_caps) (result : Z) : astra_caps :=
  {| ac_effective := ac_effective caps; ac_permitted := ac_permitted caps;
     ac_target_uid := ac_target_uid caps; ac_target_gid := ac_target_gid caps;
     ac_result := result; ac_padding := ac_padding caps |}.

(** Return value, module, credentials of the caller, user memory. *)
Definition astra_ioctl (env : KEnv) (cmd : Z) (m : AstraModule) (cur : Cred) (arg : UserPtr)
    : Z * AstraModule * Cred * UserPtr :=
  let caller := from_kuid (c_user_ns cur) (c_uid cur) in
  if cmd =? ASTRA_GET_ROOT then
    let ret := check_policy m caller 0 true in
    if negb (ret =? 0) then (ret, m, cur, arg)
    else
      match prepare_kernel_cred env with
      | None => (- ENOMEM, m, cur, arg)
      | Some new => (0, m, new, arg)
      end
  else if cmd =? ASTRA_GET_CAPS then
    match copy_from_user sizeof_caps arg with
    | None => (- EFAULT, m, cur, arg)
    | Some bs =>
        let caps := decode_caps bs in
        let ret := check_policy m caller (ac_effective caps) false in
        if negb (ret =? 0) then
          match copy_to_user (encode_caps (with_result caps ret)) arg with
          | None => (- EFAULT, m, cur, arg)
          | Some arg' => (ret, m, cur, arg')
          end
        else if negb (prepare_creds_ok env) then (- ENOMEM, m, cur, arg)
        else
          let new := new_caps_cred cur caps in
          match copy_to_user (encode_caps (with_result caps 0)) arg with
          | None => (- EFAULT, m, new, arg)
          | Some arg' => (0, m, new, arg')
          end
    end
  else if cmd =? ASTRA_SET_POLICY then
    if negb (c_uid cur =? 0) then (- EPERM, m, cur, arg)
    else
      match copy_from_user sizeof_policy_entry arg with
      | None => (- EFAULT, m, cur, arg)
      | Some bs =>
          if (length (policy_table m) <? ASTRA_MAX_POLICIES)%nat then
            (0, {| policy_table := policy_table m ++ [decode_policy bs]; enforce := enforce m |},
             cur, arg)
          else (- ENOSPC, m, cur, arg)
      end
  else if cmd =? ASTRA_GET_VERSION then
    match copy_to_user (le_bytes 4 ASTRA_VERSION) arg with
    | None => (- EFAULT, m, cur, arg)
    | Some arg' => (0, m, cur, arg')
    end
  else (- ENOTTY, m, cur, arg).

(** [insmod astra_root.ko enforce=n]; [None] when registration fails. *)
Definition astra_root_init (enforce_param misc_register : Z) : option AstraModule :=
  if negb (misc_register =? 0) then None
  else Some {| policy_table := []; enforce := enforce_param |}.

End ioctl.

(** ** kernel_bridge.cpp *)

Definition ASTRA_IOCTL_MOUNT_HELPER : Z := IOW ASTRA_MAGIC 5 848.

(** The static members of [KernelBridge], the module behind the device and
    the credentials of the daemon. *)
Record KernelBridge `{KernelApi} := {
  kb_fd : Z;
  kb_rooted : bool;
  kb_module : AstraModule;
  kb_self : Cred;
}.

Section bridge.
Context `{KernelApi}.

Definition set_fd (kb : KernelBridge) (fd : Z) (rooted : bool) : KernelBridge :=
  {| kb_fd := fd; kb_rooted := rooted; kb_module := kb_module kb; kb_self := kb_self kb |}.

Definition getuid (kb : KernelBridge) : Z :=
  from_kuid (c_user_ns (kb_self kb)) (c_uid (kb_self kb)).

(** The system call: -1 for an error, and the bytes at [arg] afterwards. *)
Definition ioctl (env : KEnv) (cmd : Z) (bytes : list Z) (kb : KernelBridge)
    : Z * list Z * KernelBridge :=
  let '(r, m, cur, arg) :=
    astra_ioctl env cmd (kb_module kb) (kb_self kb) {| up_bytes := bytes; up_writable := true |} in
  (if r <? 0 then -1 else r, up_bytes arg,
   {| kb_fd := kb_fd kb; kb_rooted := kb_rooted kb; kb_module := m; kb_self := cur |}).

(** [open_ret] is what [::open] of the device returns. *)
Definition kb_open (open_ret : Z) (kb : KernelBridge) : bool * KernelBridge :=
  if 0 <=? kb_fd kb then (true, kb)
  else (negb (open_ret <? 0), set_fd kb open_ret (kb_rooted kb)).

Definition kb_close (kb : KernelBridge) : KernelBridge :=
  if 0 <=? kb_fd kb then set_fd kb (-1) false else kb.

Definition get_root (env : KEnv) (open_ret : Z) (kb : KernelBridge) : bool * KernelBridge :=
  if kb_rooted kb then (true, kb)
  else
    let '(ok, kb) := kb_open open_ret kb in
    if negb ok then (false, kb)
    else
      let '(ret, _, kb) := ioctl env ASTRA_GET_ROOT [] kb in
      if negb (ret =? 0) then (false, kb)
      else if negb (getuid kb =? 0) then (false, kb)
      else (true, set_fd kb (kb_fd kb) true).

Definition get_capabilities (env : KEnv) (open_ret caps uid : Z) (kb : KernelBridge)
    : bool * KernelBridge :=
  let '(ok, kb) := kb_open open_ret kb in
  if negb ok then (false, kb)
  else
    let c := {| ac_effective := caps; ac_permitted := caps; ac_target_uid := uid;
                ac_target_gid := uid; ac_result := -1; ac_padding := 0 |} in
    let '(ret, bytes, kb) := ioctl env ASTRA_GET_CAPS (encode_caps c) kb in
    (negb (negb (ret =? 0) || negb (ac_result (decode_caps bytes) =? 0)), kb).

Definition load_policy (env : KEnv) (open_ret uid caps : Z) (full_root : bool) (kb : KernelBridge)
    : bool * KernelBridge :=
  let '(ok, kb) := kb_open open_ret kb in
  if negb ok then (false, kb)
  else
    let e := {| pe_uid := uid; pe_allowed_caps := caps;
                pe_allow_full_root := Z.b2z full_root; pe_pad := 0 |} in
    let '(ret, _, kb) := ioctl env ASTRA_SET_POLICY (encode_policy e) kb in
    (ret =? 0, kb).

(** [strncpy(field, s.c_str(), n - 1)] into a zeroed array of [n] bytes. *)
Fixpoint until_nul (l : list Z) : list Z :=
  match l with
  | [] => []
  | b :: l' => if b =? 0 then [] else b :: until_nul l'
  end.
Definition char_array (n : nat) (s : string) : list Z :=
  let bs := take (n - 1) (until_nul (byte_val <$> list_ascii_of_string s)) in
  bs ++ repeat 0 (n - length bs).

Definition encode_mount_req (source target fstype : string) (flags : Z) (data : string) : list Z :=
  char_array 256 source ++ char_array 256 target ++ char_array 64 fstype ++ le_bytes 8 flags
  ++ char_array 256 data ++ le_bytes 4 (u32 (-1)) ++ le_bytes 4 0.

Definition kb_mount (env : KEnv) (open_ret : Z) (source target fstype : string) (flags : Z)
    (data : string) (kb : KernelBridge) : bool * KernelBridge :=
  let '(ok, kb) := kb_open open_ret kb in
  if negb ok then (false, kb)
  else
    let '(ret, bytes, kb) :=
      ioctl env ASTRA_IOCTL_MOUNT_HELPER (encode_mount_req source target fstype flags data) kb in
    (negb (negb (ret =? 0) || negb (i32 (field 840 4 bytes) =? 0)), kb).

(** [umount2_ret] is what the system call returns. *)
Definition kb_umount (umount2_ret : Z) : bool := umount2_ret =? 0.

Definition kb_get_version (env : KEnv) (open_ret : Z) (kb : KernelBridge) : Z * KernelBridge :=
  let '(ok, kb) := kb_open open_ret kb in
  if negb ok then (-1, kb)
  else
    let '(ret, bytes, kb) := ioctl env ASTRA_GET_VERSION (le_bytes 4 0) kb in
    if negb (ret =? 0) then (-1, kb) else (i32 (field 0 4 bytes), kb).

Definition is_root (kb : KernelBridge) : bool := getuid kb =? 0.

End bridge.

(** ** policy_to_kernel.cpp *)

Definition bit (n : Z) : Z := Z.shiftl 1 n.
Definition ALL_CAPS : Z := Z.shiftl 1 41 - 1.

Definition CAP_MAP : list (string * Z) :=
  [("su.shell", ALL_CAPS); ("su.full", ALL_CAPS);
   ("mount.bind", bit 21); ("mount.tmpfs", bit 21); ("mount.overlay", bit 21);
   ("filesystem.chown", Z.lor (Z.lor (bit 0) (bit 3)) (bit 4));
   ("filesystem.dac", Z.lor (bit 1) (bit 2));
   ("network.raw", bit 13); ("network.admin", bit 12); ("network.bind", bit 10);
   ("module.load", bit 16); ("system.reboot", bit 22); ("system.time", bit 25);
   ("system.nice", bit 23); ("system.chroot", bit 18); ("system.ptrace", bit 19);
   ("system.resource", bit 24); ("property.set", 0); ("property.read", 0);
   ("audit.write", bit 29); ("audit.control", Z.lor (bit 30) (bit 37));
   ("security.mac", Z.lor (bit 33) (bit 32)); ("security.selinux", bit 33)].

Definition astra_cap_to_linux (cap_name : string) : Z := default 0 (smap_find cap_name CAP_MAP).

Definition astra_caps_to_linux (cap_names : list string) : Z :=
  fold_left (fun result name => Z.lor result (astra_cap_to_linux name)) cap_names 0.

Definition sync_policies_to_kernel `{KernelApi} (available : bool) (env : KEnv) (open_ret : Z)
    (kb : KernelBridge) : KernelBridge :=
  if negb available then kb
  else
    let '(_, kb) := load_policy env open_ret 0 ALL_CAPS true kb in
    let '(_, kb) := load_policy env open_ret 2000 ALL_CAPS true kb in
    kb.

(** ** Structures and bit masks *)

Lemma length_le_bytes n : forall z, length (le_bytes n z) = n.
Proof. induction n as [|n IH]; intros z; cbn; [done|by rewrite IH]. Qed.

Lemma le_val_le_bytes n : forall z, le_val (le_bytes n z) = z mod 2 ^ (8 * Z.of_nat n).
Proof.
  induction n as [|n IH]; intros z; cbn [le_bytes le_val]; [by rewrite Z.mod_1_r|].
  rewrite IH. replace (8 * Z.of_nat (S n)) with (8 + 8 * Z.of_nat n) by lia.
  rewrite Z.pow_add_r by lia. change (2 ^ 8) with 256.
  rewrite Z.rem_mul_r; [done|lia|]. apply Z.pow_pos_nonneg; lia.
Qed.

Definition caps_in_range (c : astra_caps) : Prop :=
  0 <= ac_effective c < 2 ^ 64 /\ 0 <= ac_permitted c < 2 ^ 64 /\ 0 <= ac_target_uid c < 2 ^ 32 /\
  0 <= ac_target_gid c < 2 ^ 32 /\ - 2 ^ 31 <= ac_result c < 2 ^ 31 /\ 0 <= ac_padding c < 2 ^ 32.
Definition policy_in_range (e : astra_policy_entry) : Prop :=
  0 <= pe_uid e < 2 ^ 32 /\ 0 <= pe_allowed_caps e < 2 ^ 64 /\
  0 <= pe_allow_full_root e < 2 ^ 32 /\ 0 <= pe_pad e < 2 ^ 32.

Lemma length_encode_caps c : length (encode_caps c) = sizeof_caps.
Proof. done. Qed.
Lemma length_encode_policy e : length (encode_policy e) = sizeof_policy_entry.
Proof. done. Qed.

Lemma i32_u32 z : - 2 ^ 31 <= z < 2 ^ 31 -> i32 (u32 z) = z.
Proof.
  intros Hz. unfold i32, u32. rewrite Zplus_mod_idemp_l. rewrite Z.mod_small; lia.
Qed.

Lemma decode_encode_caps c : caps_in_range c -> decode_caps (encode_caps c) = c.
Proof.
  intros (He & Hp & Hu & Hg & Hr & Hq). destruct c as [ef pm u g r q]. cbn in *.
  unfold decode_caps, encode_caps. cbn [ac_effective ac_permitted ac_target_uid ac_target_gid
    ac_result ac_padding].
  change (field 0 8 _) with (le_val (le_bytes 8 ef)). change (field 8 8 _) with (le_val (le_bytes 8 pm)).
  change (field 16 4 _) with (le_val (le_bytes 4 u)). change (field 20 4 _) with (le_val (le_bytes 4 g)).
  change (field 24 4 _) with (le_val (le_bytes 4 (u32 r))). change (field 28 4 _) with (le_val (le_bytes 4 q)).
  rewrite !le_val_le_bytes. cbn [Z.of_nat Pos.of_succ_nat Pos.succ Z.mul Pos.mul Pos.add].
  rewrite !Z.mod_small; try lia; [by rewrite i32_u32|]. by apply Z.mod_pos_bound.
Qed.

Lemma decode_encode_policy e : policy_in_range e -> decode_policy (encode_policy e) = e.
Proof.
  intros (Hu & Ha & Hf & Hp). destruct e as [u a f p]. cbn in *.
  unfold decode_policy, encode_policy. cbn [pe_uid pe_allowed_caps pe_allow_full_root pe_pad].
  change (field 0 4 _) with (le_val (le_bytes 4 u)). change (field 8 8 _) with (le_val (le_bytes 8 a)).
  change (field 16 4 _) with (le_val (le_bytes 4 f)). change (field 20 4 _) with (le_val (le_bytes 4 p)).
  rewrite !le_val_le_bytes. cbn [Z.of_nat Pos.of_succ_nat Pos.succ Z.mul Pos.mul Pos.add].
  rewrite !Z.mod_small; done.
Qed.

Lemma testbit_bit c n : 0 <= c -> 0 <= n -> Z.testbit (Z.shiftl 1 c) n = (n =? c).
Proof.
  intros Hc Hn. rewrite Z.shiftl_1_l. destruct (n =? c) eqn:E.
  - assert (n = c) as -> by lia. by apply Z.pow2_bits_true.
  - apply Z.pow2_bits_false. lia.
Qed.

Lemma land_bit r c : 0 <= c -> negb (Z.land r (Z.shiftl 1 c) =? 0) = Z.testbit r c.
Proof.
  intros Hc. destruct (Z.testbit r c) eqn:E.
  - apply negb_true_iff, Z.eqb_neq. intros H.
    assert (Z.testbit (Z.land r (Z.shiftl 1 c)) c = true) as Hb
      by (rewrite Z.land_spec, E, testbit_bit, Z.eqb_refl; [done|lia|lia]).
    by rewrite H, Z.bits_0 in Hb.
  - apply negb_false_iff, Z.eqb_eq, Z.bits_inj'. intros n Hn.
    rewrite Z.land_spec, testbit_bit, Z.bits_0 by lia. destruct (n =? c) eqn:En; [|by rewrite andb_false_r].
    assert (n = c) as -> by lia. by rewrite E.
Qed.

Lemma raise_caps_spec last req n :
  0 <= n -> Z.testbit (raise_caps last req) n = Z.testbit req n && (n <=? Z.of_nat last).
Proof.
  intros Hn. unfold raise_caps.
  assert (forall k, Z.testbit (fold_left (fun set cap =>
    if negb (Z.land req (Z.shiftl 1 (Z.of_nat cap)) =? 0) then Z.lor set (Z.shiftl 1 (Z.of_nat cap))
    else set) (seq 0 k) 0) n = Z.testbit req n && (n <? Z.of_nat k)) as Hk.
  { induction k as [|k IH]; [cbn [seq fold_left]; rewrite Z.bits_0; destruct (Z.ltb_spec n (Z.of_nat 0)); [lia|by rewrite andb_false_r]|].
    rewrite seq_S, fold_left_app. cbn [fold_left Nat.add]. rewrite land_bit by lia.
    destruct (Z.testbit req (Z.of_nat k)) eqn:Eb.
    - rewrite Z.lor_spec, IH, testbit_bit by lia. destruct (n =? Z.of_nat k) eqn:E.
      + assert (n = Z.of_nat k) as -> by lia. rewrite Eb.
        destruct (Z.ltb_spec (Z.of_nat k) (Z.of_nat (S k))); [by rewrite orb_true_r|lia].
      + rewrite orb_false_r. f_equal. apply Bool.eq_iff_eq_true. rewrite !Z.ltb_lt. lia.
    - rewrite IH. destruct (decide (n = Z.of_nat k)) as [->|]; [by rewrite Eb|]. f_equal.
      apply Bool.eq_iff_eq_true. rewrite !Z.ltb_lt. lia. }
  rewrite Hk. f_equal. apply Bool.eq_iff_eq_true. rewrite Z.ltb_lt, Z.leb_le. lia.
Qed.

(** ** The policy table *)

Lemma policy_for_elem uid table e :
  policy_for uid table = Some e -> e ∈ table /\ pe_uid e = uid.
Proof.
  unfold policy_for. intros Hf. apply List.find_some in Hf as [Hin Hu].
  split; [by apply list_elem_of_In|lia].
Qed.

(** Later entries never change the decision about a uid that has one. *)
Lemma policy_for_app uid table rest e :
  policy_for uid table = Some e -> policy_for uid (table ++ rest) = Some e.
Proof.
  unfold policy_for. induction table as [|x table IH]; cbn; [done|].
  destruct (pe_uid x =? uid); [done|exact IH].
Qed.

Lemma check_policy_enforced m uid req full :
  enforce m <> 0 ->
  check_policy m uid req full = 0 <->
  exists e, policy_for uid (policy_table m) = Some e /\
    (if full then i32 (pe_allow_full_root e) <> 0 else Z.land req (pe_allowed_caps e) = req).
Proof.
  intros He. unfold check_policy. rewrite (proj2 (Z.eqb_neq _ _) He).
  destruct (policy_table m) as [|x l] eqn:El; [split; [done|by intros (e & ? & _)]|].
  destruct (policy_for uid (x :: l)) as [e|]; cbn [Z.eqb negb].
  - split.
    + intros Hc. exists e. split; [done|]. destruct full.
      * intros H0. by rewrite H0 in Hc.
      * destruct (Z.eqb_spec (Z.land req (pe_allowed_caps e)) req); [done|by cbn in Hc].
    + intros (e' & [= <-] & Hc). destruct full.
      * by rewrite (proj2 (Z.eqb_neq _ _) Hc).
      * by rewrite Hc, Z.eqb_refl.
  - split; [done|by intros (e & ? & _)].
Qed.

Section runs.
Context `{KernelApi}.

(** One ioctl of any process: its credentials and its buffer at the call. *)
Record kcall := {
  k_env : KEnv;
  k_cmd : Z;
  k_cred : Cred;
  k_arg : UserPtr;
}.

Definition kstep (m : AstraModule) (c : kcall) : AstraModule :=
  let '(_, m', _, _) := astra_ioctl (k_env c) (k_cmd c) m (k_cred c) (k_arg c) in m'.

(** [e] was passed to [ASTRA_SET_POLICY] by a caller whose global uid is 0. *)
Definition set_by_root (calls : list kcall) (e : astra_policy_entry) : Prop :=
  exists c bs, c ∈ calls /\ k_cmd c = ASTRA_SET_POLICY /\ c_uid (k_cred c) = 0 /\
    copy_from_user sizeof_policy_entry (k_arg c) = Some bs /\ decode_policy bs = e.

Lemma kstep_table m c :
  enforce (kstep m c) = enforce m /\
  (policy_table (kstep m c) = policy_table m \/
   exists e, policy_table (kstep m c) = policy_table m ++ [e] /\ set_by_root [c] e /\
     (length (policy_table m) < ASTRA_MAX_POLICIES)%nat).
Proof.
  unfold kstep, astra_ioctl. destruct (k_cmd c =? ASTRA_GET_ROOT).
  { destruct (negb _); [auto|]. destruct (prepare_kernel_cred _); auto. }
  destruct (k_cmd c =? ASTRA_GET_CAPS).
  { destruct (copy_from_user _ _) as [bs|]; [|auto]. cbv zeta. destruct (negb _).
    - destruct (copy_to_user _ _); auto.
    - destruct (negb _); [auto|]. destruct (copy_to_user _ _); auto. }
  destruct (Z.eqb_spec (k_cmd c) ASTRA_SET_POLICY) as [Ec|];
    [|destruct (k_cmd c =? _); [destruct (copy_to_user _ _)|]; auto].
  destruct (Z.eqb_spec (c_uid (k_cred c)) 0) as [Eu|]; cbn [negb]; [|auto].
  destruct (copy_from_user _ _) as [bs|] eqn:Eb; [|auto].
  destruct (Nat.ltb_spec (length (policy_table m)) ASTRA_MAX_POLICIES); [|auto].
  split; [done|right]. exists (decode_policy bs). split_and!; [done| |done].
  exists c, bs. split_and!; [by apply list_elem_of_singleton|done..].
Qed.

Lemma set_by_root_mono calls calls' e :
  calls ⊆ calls' -> set_by_root calls e -> set_by_root calls' e.
Proof. intros Hs (c & bs & Hc & Hr). exists c, bs. split; [by apply Hs|done]. Qed.

Lemma run_table m calls :
  policy_table m = [] ->
  let m' := fold_left kstep calls m in
  enforce m' = enforce m /\ (length (policy_table m') <= ASTRA_MAX_POLICIES)%nat /\
  Forall (set_by_root calls) (policy_table m').
Proof.
  intros Hm. induction calls as [|c calls IH] using rev_ind; cbn [fold_left].
  { rewrite Hm. split_and!; [done|cbn; lia|constructor]. }
  rewrite fold_left_app. cbn [fold_left]. destruct IH as (IHe & IHl & IHf).
  destruct (kstep_table (fold_left kstep calls m) c) as [He Ht]. rewrite He, IHe.
  assert (Forall (set_by_root (calls ++ [c])) (policy_table (fold_left kstep calls m))) as Hf.
  { eapply Forall_impl; [exact IHf|]. intros e. apply set_by_root_mono. set_solver. }
  destruct Ht as [->|(e & -> & Hs & Hl)]; [done|].
  rewrite length_app. cbn [length]. split_and!; [done|lia|].
  apply Forall_app. split; [done|]. apply Forall_singleton.
  eapply set_by_root_mono; [|exact Hs]. set_solver.
Qed.

Lemma ioctl_cred env cmd m cur arg :
  let '(_, _, cur', _) := astra_ioctl env cmd m cur arg in
  cur' <> cur ->
  let caller := from_kuid (c_user_ns cur) (c_uid cur) in
  (cmd = ASTRA_GET_ROOT /\ check_policy m caller 0 true = 0) \/
  (cmd = ASTRA_GET_CAPS /\ exists bs, copy_from_user sizeof_caps arg = Some bs /\
     check_policy m caller (ac_effective (decode_caps bs)) false = 0).
Proof.
  unfold astra_ioctl. destruct (Z.eqb_spec cmd ASTRA_GET_ROOT) as [->|].
  { destruct (Z.eqb_spec (check_policy m (from_kuid (c_user_ns cur) (c_uid cur)) 0 true) 0); cbn [negb];
      [|done]. destruct (prepare_kernel_cred _); [|done]. by left. }
  destruct (Z.eqb_spec cmd ASTRA_GET_CAPS) as [->|].
  { destruct (copy_from_user _ _) as [bs|]; [|done]. cbv zeta.
    destruct (Z.eqb_spec (check_policy m (from_kuid (c_user_ns cur) (c_uid cur))
      (ac_effective (decode_caps bs)) false) 0) as [Hc|]; cbn [negb].
    - destruct (negb _); [done|]. destruct (copy_to_user _ _); intros _; right; eauto.
    - destruct (copy_to_user _ _); done. }
  destruct (cmd =? ASTRA_SET_POLICY).
  { destruct (negb _); [done|]. destruct (copy_from_user _ _); [|done]. by destruct (_ <? _)%nat. }
  destruct (cmd =? ASTRA_GET_VERSION); [|done]. by destruct (copy_to_user _ _).
Qed.

(** C19: with [enforce] set, credentials change only by a policy that root
    loaded.  After any sequence of ioctls by any processes the table has at
    most 128 entries, each passed to SET_POLICY by a caller of global uid 0;
    if a further ioctl changes the caller's credentials, the first entry for
    the caller's uid (as its own user namespace shows it) allows full root
    (GET_ROOT) or all requested effective capabilities (GET_CAPS).  So a
    module into which root loaded nothing changes no credentials. *)
Theorem kernel_policy_enforced enforce_param m calls env cmd cur arg :
  astra_root_init enforce_param 0 = Some m -> enforce_param <> 0 ->
  let m1 := fold_left kstep calls m in
  (length (policy_table m1) <= ASTRA_MAX_POLICIES)%nat /\
  let '(_, _, cur', _) := astra_ioctl env cmd m1 cur arg in
  cur' <> cur ->
  exists e, set_by_root calls e /\
    policy_for (from_kuid (c_user_ns cur) (c_uid cur)) (policy_table m1) = Some e /\
    ((cmd = ASTRA_GET_ROOT /\ i32 (pe_allow_full_root e) <> 0) \/
     (cmd = ASTRA_GET_CAPS /\ exists bs, copy_from_user sizeof_caps arg = Some bs /\
        Z.land (ac_effective (decode_caps bs)) (pe_allowed_caps e) = ac_effective (decode_caps bs))).
Proof.
  intros [= <-] He. set (m0 := {| policy_table := []; enforce := enforce_param |}). intros m1.
  destruct (run_table m0 calls eq_refl) as (Hen & Hlen & Hset). fold m1 in Hen, Hlen, Hset.
  split; [done|]. pose proof (ioctl_cred env cmd m1 cur arg) as Hc.
  destruct (astra_ioctl env cmd m1 cur arg) as [[[r m'] cur'] arg']. intros Hne.
  assert (enforce m1 <> 0) as He1 by by rewrite Hen.
  destruct (Hc Hne) as [[-> Hk]|[-> (bs & Hb & Hk)]].
  - apply check_policy_enforced in Hk as (e & Hf & Ha); [|done]. exists e.
    split; [|auto]. apply policy_for_elem in Hf as [Hin _]. by rewrite Forall_forall in Hset; apply Hset.
  - apply check_policy_enforced in Hk as (e & Hf & Ha); [|done]. exists e.
    split; [|split; [done|right; eauto]].
    apply policy_for_elem in Hf as [Hin _]. by rewrite Forall_forall in Hset; apply Hset.
Qed.

End runs.

(** ** ASTRA_GET_CAPS *)

Definition caps_mask `{KernelApi} : Z := Z.ones (Z.of_nat (S CAP_LAST_CAP)).

Lemma raise_caps_mask `{KernelApi} req : raise_caps CAP_LAST_CAP req = Z.land req caps_mask.
Proof.
  apply Z.bits_inj'. intros n Hn. unfold caps_mask.
  rewrite raise_caps_spec, Z.land_spec, Z.testbit_ones_nonneg by lia. f_equal.
  apply Bool.eq_iff_eq_true. rewrite Z.leb_le, Z.ltb_lt. lia.
Qed.

(** What a granted request does to the caller's credentials. *)
Definition caps_granted `{KernelApi} (c : astra_caps) (cur cur' : Cred) : Prop :=
  cap_effective cur' = Z.land (ac_effective c) caps_mask /\
  cap_permitted cur' = Z.land (ac_permitted c) caps_mask /\
  cap_inheritable cur' = 0 /\ cap_bset cur' = 0 /\ c_user_ns cur' = c_user_ns cur /\
  (let u := if ac_target_uid c =? 0 then None else Some (make_kuid (c_user_ns cur) (ac_target_uid c)) in
   c_uid cur' = default (c_uid cur) u /\ c_euid cur' = default (c_euid cur) u /\
   c_suid cur' = default (c_suid cur) u) /\
  (let g := if ac_target_gid c =? 0 then None else Some (make_kgid (c_user_ns cur) (ac_target_gid c)) in
   c_gid cur' = default (c_gid cur) g /\ c_egid cur' = default (c_egid cur) g /\
   c_sgid cur' = default (c_sgid cur) g).

Lemma new_caps_cred_granted `{KernelApi} cur c : caps_granted c cur (new_caps_cred cur c).
Proof.
  unfold caps_granted, new_caps_cred. cbn [cap_effective cap_permitted].
  rewrite !raise_caps_mask.
  by destruct (ac_target_uid c =? 0), (ac_target_gid c =? 0).
Qed.

Lemma copy_to_user_writable bs arg n bs0 :
  copy_from_user n arg = Some bs0 -> length bs = n ->
  copy_to_user bs arg =
    if up_writable arg then Some {| up_bytes := bs ++ drop n (up_bytes arg); up_writable := true |}
    else None.
Proof.
  unfold copy_from_user, copy_to_user. intros Hc Hl. rewrite Hl.
  destruct (Nat.leb_spec n (length (up_bytes arg))); [|done]. by destruct (up_writable arg).
Qed.

(** C20: GET_CAPS on every branch.  An unreadable request gives -EFAULT and a
    denied one the policy's error, both without touching the credentials; a
    granted one sets the effective set to the request (the bits the kernel
    knows), which the caller's policy contains when [enforce] is set, and
    clears the inheritable and bounding sets.  The permitted set is set to the
    request's second word, which no policy bounds, and the credentials are
    committed even when writing the result back fails with -EFAULT. *)
Theorem get_caps_spec `{KernelApi} env m cur arg :
  let '(r, m', cur', arg') := astra_ioctl env ASTRA_GET_CAPS m cur arg in
  let caller := from_kuid (c_user_ns cur) (c_uid cur) in
  m' = m /\
  match copy_from_user sizeof_caps arg with
  | None => r = - EFAULT /\ cur' = cur
  | Some bs =>
      let c := decode_caps bs in
      let ret := check_policy m caller (ac_effective c) false in
      if negb (ret =? 0) then r = (if up_writable arg then ret else - EFAULT) /\ cur' = cur
      else if negb (prepare_creds_ok env) then r = - ENOMEM /\ cur' = cur
      else r = (if up_writable arg then 0 else - EFAULT) /\ caps_granted c cur cur' /\
        (enforce m <> 0 -> exists e, policy_for caller (policy_table m) = Some e /\
           Z.land (cap_effective cur') (pe_allowed_caps e) = cap_effective cur')
  end.
Proof.
  unfold astra_ioctl. change (ASTRA_GET_CAPS =? ASTRA_GET_ROOT) with false.
  rewrite Z.eqb_refl. cbv zeta.
  destruct (copy_from_user sizeof_caps arg) as [bs|] eqn:Eb; [|done].
  destruct (Z.eqb_spec (check_policy m (from_kuid (c_user_ns cur) (c_uid cur))
    (ac_effective (decode_caps bs)) false) 0) as [Hc|]; cbn [negb].
  - destruct (prepare_creds_ok env); cbn [negb]; [|done].
    rewrite (copy_to_user_writable _ _ _ _ Eb (length_encode_caps _)).
    assert (enforce m <> 0 -> exists e,
      policy_for (from_kuid (c_user_ns cur) (c_uid cur)) (policy_table m) = Some e /\
      Z.land (cap_effective (new_caps_cred cur (decode_caps bs))) (pe_allowed_caps e)
        = cap_effective (new_caps_cred cur (decode_caps bs))) as Hpol.
    { intros He. apply check_policy_enforced in Hc as (e & Hf & Ha); [|done]. exists e. split; [done|].
      unfold new_caps_cred. cbn [cap_effective]. rewrite raise_caps_mask.
      rewrite <- Z.land_assoc, (Z.land_comm caps_mask), Z.land_assoc. by rewrite Ha. }
    pose proof (new_caps_cred_granted cur (decode_caps bs)) as Hg.
    by destruct (up_writable arg).
  - rewrite (copy_to_user_writable _ _ _ _ Eb (length_encode_caps _)). by destruct (up_writable arg).
Qed.

(** A kernel with one user namespace, whose capabilities end at bit 40. *)
Definition sample_api : KernelApi :=
  {| user_namespace := unit; from_kuid := fun _ u => u; make_kuid := fun _ u => u;
     make_kgid := fun _ g => g; CAP_LAST_CAP := 40 |}.
Definition app_cred (uid : Z) : @Cred sample_api :=
  {| c_user_ns := (tt : @user_namespace sample_api); c_uid := uid; c_euid := uid; c_suid := uid;
     c_gid := uid; c_egid := uid; c_sgid := uid; cap_effective := 0; cap_permitted := 0;
     cap_inheritable := 0; cap_bset := ALL_CAPS |}.
Definition sample_env : @KEnv sample_api :=
  {| prepare_kernel_cred := Some (app_cred 0); prepare_creds_ok := true |}.
Definition caps_request (effective permitted : Z) : UserPtr :=
  {| up_bytes := encode_caps {| ac_effective := effective; ac_permitted := permitted;
       ac_target_uid := 0; ac_target_gid := 0; ac_result := 0; ac_padding := 0 |};
     up_writable := true |}.

(** A policy that allows no capability at all still lets its uid obtain every
    capability in the permitted set. *)
Example permitted_set_unchecked :
  let m := {| policy_table := [{| pe_uid := 10123; pe_allowed_caps := 0;
                                  pe_allow_full_root := 0; pe_pad := 0 |}]; enforce := 1 |} in
  let '(r, _, cur', _) :=
    @astra_ioctl sample_api sample_env ASTRA_GET_CAPS m (app_cred 10123) (caps_request 0 ALL_CAPS) in
  r = 0 /\ cap_permitted cur' = ALL_CAPS.
Proof. vm_compute. split; reflexivity. Qed.

(** ** The start-up sync *)

Definition entry_of (uid caps : Z) (full_root : bool) : astra_policy_entry :=
  {| pe_uid := uid; pe_allowed_caps := caps; pe_allow_full_root := Z.b2z full_root; pe_pad := 0 |}.

Section sync.
Context `{KernelApi}.

(** The bridge after the device is open, with the given table. *)
Definition synced (kb : KernelBridge) (fd : Z) (table : list astra_policy_entry) : KernelBridge :=
  {| kb_fd := fd; kb_rooted := kb_rooted kb;
     kb_module := {| policy_table := table; enforce := enforce (kb_module kb) |};
     kb_self := kb_self kb |}.

Lemma load_policy_spec env open_ret uid caps full kb :
  0 <= kb_fd kb \/ 0 <= open_ret ->
  c_uid (kb_self kb) = 0 -> 0 <= uid < 2 ^ 32 -> 0 <= caps < 2 ^ 64 ->
  let fd := if 0 <=? kb_fd kb then kb_fd kb else open_ret in
  let table := policy_table (kb_module kb) in
  load_policy env open_ret uid caps full kb =
    if (length table <? ASTRA_MAX_POLICIES)%nat
    then (true, synced kb fd (table ++ [entry_of uid caps full]))
    else (false, synced kb fd table).
Proof.
  intros Hfd Hroot Hu Hc fd table.
  assert (policy_in_range (entry_of uid caps full)) as Hr.
  { unfold policy_in_range. destruct full; cbn; lia. }
  unfold load_policy, kb_open, fd. destruct kb as [d rt [tb en] cur]. cbn in *.
  assert (forall d', (let '(ret, _, kb') := ioctl env ASTRA_SET_POLICY (encode_policy (entry_of uid caps full))
    {| kb_fd := d'; kb_rooted := rt; kb_module := {| policy_table := tb; enforce := en |}; kb_self := cur |}
    in (ret =? 0, kb')) = if (length tb <? ASTRA_MAX_POLICIES)%nat
      then (true, {| kb_fd := d'; kb_rooted := rt; kb_self := cur;
                     kb_module := {| policy_table := tb ++ [entry_of uid caps full]; enforce := en |} |})
      else (false, {| kb_fd := d'; kb_rooted := rt; kb_self := cur;
                      kb_module := {| policy_table := tb; enforce := en |} |})) as Hio.
  { intros d'. unfold ioctl, astra_ioctl. cbn [kb_module kb_self kb_fd kb_rooted policy_table enforce].
    change (ASTRA_SET_POLICY =? ASTRA_GET_ROOT) with false.
    change (ASTRA_SET_POLICY =? ASTRA_GET_CAPS) with false. rewrite Z.eqb_refl, Hroot, Z.eqb_refl.
    cbn [negb]. change (copy_from_user _ _) with (Some (encode_policy (entry_of uid caps full))).
    cbv iota beta. rewrite decode_encode_policy by done.
    by destruct (length tb <? ASTRA_MAX_POLICIES)%nat. }
  destruct (Z.leb_spec 0 d); cbn [negb].
  - exact (Hio d).
  - destruct (Z.ltb_spec open_ret 0); [lia|]. cbn [negb]. unfold set_fd. cbn [kb_rooted kb_module kb_self].
    exact (Hio open_ret).
Qed.

Definition sync_entries : list astra_policy_entry :=
  [entry_of 0 ALL_CAPS true; entry_of 2000 ALL_CAPS true].

Lemma ALL_CAPS_range : 0 <= ALL_CAPS < 2 ^ 64.
Proof. vm_compute. split; congruence. Qed.

Lemma sync_once env open_ret kb :
  0 <= kb_fd kb \/ 0 <= open_ret -> c_uid (kb_self kb) = 0 ->
  (S (length (policy_table (kb_module kb))) < ASTRA_MAX_POLICIES)%nat ->
  sync_policies_to_kernel true env open_ret kb =
    synced kb (if 0 <=? kb_fd kb then kb_fd kb else open_ret)
      (policy_table (kb_module kb) ++ sync_entries).
Proof.
  intros Hfd Hroot Hl. pose proof ALL_CAPS_range as Hc.
  unfold sync_policies_to_kernel. cbn [negb].
  rewrite (load_policy_spec env open_ret 0 ALL_CAPS true kb) by (done || lia).
  rewrite (proj2 (Nat.ltb_lt _ _)) by lia.
  set (fd := if 0 <=? kb_fd kb then kb_fd kb else open_ret).
  assert (0 <= fd) as Hfd' by (unfold fd; destruct (Z.leb_spec 0 (kb_fd kb)); lia).
  rewrite load_policy_spec by (cbn; (done || lia)).
  cbn [synced kb_fd kb_module policy_table]. rewrite length_app. cbn [length].
  rewrite (proj2 (Nat.ltb_lt _ _)) by lia. rewrite (proj2 (Z.leb_le _ _)) by done.
  rewrite <- app_assoc. done.
Qed.

Lemma sync_many env open_ret kb k :
  0 <= open_ret -> kb_fd kb = -1 -> c_uid (kb_self kb) = 0 -> policy_table (kb_module kb) = [] ->
  (1 <= k <= 64)%nat ->
  Nat.iter k (sync_policies_to_kernel true env open_ret) kb =
    synced kb open_ret (concat (repeat sync_entries k)).
Proof.
  intros Ho Hfd Hroot Ht Hk. destruct Hk as [H1 Hk]. induction H1 as [|k H1 IH].
  - change (Nat.iter 1 ?f kb) with (f kb). rewrite sync_once by (rewrite ?Ht; (done || lia || (unfold ASTRA_MAX_POLICIES; cbn; lia))).
    rewrite Ht, Hfd. done.
  - change (Nat.iter (S k) ?f kb) with (f (Nat.iter k f kb)). rewrite IH by lia.
    assert (length (concat (repeat sync_entries k)) = 2 * k)%nat as Hl.
    { clear. induction k as [|k IH]; [done|]. cbn [repeat concat]. rewrite length_app, IH. cbn. lia. }
    rewrite sync_once; [|by right|done|cbn [synced kb_module policy_table]; rewrite Hl; unfold ASTRA_MAX_POLICIES; lia].
    unfold synced. cbn [kb_fd kb_rooted kb_module kb_self policy_table enforce].
    rewrite (proj2 (Z.leb_le _ _)) by done. f_equal. f_equal.
    clear. induction k as [|k IH]; [done|]. cbn [repeat concat].
    rewrite <- app_assoc, IH. done.
Qed.

Lemma policy_for_synced caller k :
  (1 <= k)%nat ->
  policy_for caller (concat (repeat sync_entries k)) =
    if (caller =? 0) || (caller =? 2000) then Some (entry_of caller ALL_CAPS true) else None.
Proof.
  intros Hk. destruct k as [|k]; [lia|]. unfold policy_for, sync_entries.
  destruct (Z.eqb_spec caller 0) as [->|H0]; [done|].
  destruct (Z.eqb_spec caller 2000) as [->|H2]; [done|]. cbn [orb].
  clear Hk. induction (S k) as [|j IH]; [done|]. cbn [repeat concat app List.find entry_of pe_uid].
  destruct (Z.eqb_spec 0 caller); [lia|]. destruct (Z.eqb_spec 2000 caller); [lia|]. exact IH.
Qed.

(** After the start-up sync of an enforcing module, repeated by up to 64
    daemon starts, the table holds the two dev-phase entries once per start
    and exactly the callers whose namespace shows uid 0 or 2000 get root and
    capabilities: GET_ROOT gives them the kernel's fresh credentials, and
    every other caller is refused with -EPERM.  The mount helper always fails,
    because the module has no such command. *)
Theorem policy_sync_spec env open_ret kb k :
  0 <= open_ret -> kb_fd kb = -1 -> c_uid (kb_self kb) = 0 ->
  policy_table (kb_module kb) = [] -> enforce (kb_module kb) <> 0 -> (1 <= k <= 64)%nat ->
  let kb' := Nat.iter k (sync_policies_to_kernel true env open_ret) kb in
  let m := kb_module kb' in
  policy_table m = concat (repeat sync_entries k) /\
  (forall env' cur arg,
     let listed := let u := from_kuid (c_user_ns cur) (c_uid cur) in (u =? 0) || (u =? 2000) in
     astra_ioctl env' ASTRA_GET_ROOT m cur arg =
       (if negb listed then (- EPERM, m, cur, arg)
        else match prepare_kernel_cred env' with
             | None => (- ENOMEM, m, cur, arg)
             | Some new => (0, m, new, arg)
             end) /\
     (listed = false -> (astra_ioctl env' ASTRA_GET_CAPS m cur arg).1.2 = cur)) /\
  (forall s t f flags d, (kb_mount env open_ret s t f flags d kb').1 = false).
Proof.
  intros Ho Hfd Hroot Ht He Hk. rewrite (sync_many env open_ret kb k) by done. cbv zeta.
  cbn [synced kb_module policy_table]. set (m := {| policy_table := _; enforce := _ |}).
  split; [done|]. split.
  - intros env' cur arg. set (u := from_kuid (c_user_ns cur) (c_uid cur)).
    assert (forall req full, (u =? 0) || (u =? 2000) = false -> check_policy m u req full <> 0) as Hno.
    { intros req full Hl Hc. apply check_policy_enforced in Hc as (e & Hf & _); [|done].
      cbn [m policy_table] in Hf. by rewrite policy_for_synced, Hl in Hf by lia. }
    assert (check_policy m u 0 true = if negb ((u =? 0) || (u =? 2000)) then - EPERM else 0) as Hcp.
    { unfold check_policy. cbn [m policy_table enforce]. rewrite (proj2 (Z.eqb_neq _ _) He).
      rewrite policy_for_synced by lia. destruct k as [|k]; [lia|].
      destruct ((u =? 0) || (u =? 2000)); reflexivity. }
    split.
    + unfold astra_ioctl. rewrite Z.eqb_refl. fold u. rewrite Hcp.
      by destruct ((u =? 0) || (u =? 2000)).
    + intros Hl. pose proof (ioctl_cred env' ASTRA_GET_CAPS m cur arg) as Hc.
      unfold astra_ioctl in *. change (ASTRA_GET_CAPS =? ASTRA_GET_ROOT) with false in *.
      rewrite Z.eqb_refl in *. fold u in Hc |- *.
      destruct (copy_from_user _ _) as [bs|]; [|done]. cbv zeta in Hc |- *.
      rewrite (proj2 (Z.eqb_neq _ _) (Hno (ac_effective (decode_caps bs)) false Hl)).
      cbn [negb]. by destruct (copy_to_user _ _).
  - intros s t f flags d. unfold kb_mount, kb_open. cbn [kb_fd synced].
    rewrite (proj2 (Z.leb_le _ _)) by done. cbn [negb].
    unfold ioctl, astra_ioctl. reflexivity.
Qed.

End sync.

(** ** Capability names *)

Lemma smap_find_elem {A} key (m : list (string * A)) v : smap_find key m = Some v -> (key, v) ∈ m.
Proof.
  induction m as [|[k u] m IH]; cbn; [done|]. destruct (str_eqb key k) eqn:E.
  - apply str_eqb_true in E as ->. intros [= ->]. apply list_elem_of_here.
  - intros Hf. apply list_elem_of_further. by apply IH.
Qed.

Lemma caps_fold_testbit names n : forall acc,
  Z.testbit (fold_left (fun result name => Z.lor result (astra_cap_to_linux name)) names acc) n =
  Z.testbit acc n || existsb (fun name => Z.testbit (astra_cap_to_linux name) n) names.
Proof.
  induction names as [|x names IH]; intros acc; cbn [fold_left existsb]; [by rewrite orb_false_r|].
  by rewrite IH, Z.lor_spec, orb_assoc.
Qed.

Lemma caps_to_linux_testbit names n :
  Z.testbit (astra_caps_to_linux names) n = true <->
  exists name mask, name ∈ names /\ smap_find name CAP_MAP = Some mask /\ Z.testbit mask n = true.
Proof.
  unfold astra_caps_to_linux. rewrite caps_fold_testbit, Z.bits_0. cbn [orb].
  rewrite List.existsb_exists. unfold astra_cap_to_linux. split.
  - intros (name & Hin & Ht). destruct (smap_find name CAP_MAP) as [mask|] eqn:E; cbn in Ht;
      [|by rewrite Z.bits_0 in Ht].
    exists name, mask. split_and!; [by apply list_elem_of_In|done..].
  - intros (name & mask & Hin & E & Ht). exists name. rewrite E. split; [by apply list_elem_of_In|done].
Qed.

(** Every mask of the table is within the 41 bits; the masks of the names
    other than the two su names have neither SETGID, SETUID, SETPCAP nor
    SETFCAP. *)
Definition row_ok (row : string * Z) : bool :=
  (Z.land row.2 ALL_CAPS =? row.2)
  && (str_eqb row.1 "su.shell" || str_eqb row.1 "su.full"
      || forallb (fun n => negb (Z.testbit row.2 n)) [6; 7; 8; 31]).

Lemma cap_map_rows row : row ∈ CAP_MAP -> row_ok row = true.
Proof.
  assert (forallb row_ok CAP_MAP = true) as Hf by (vm_compute; reflexivity).
  rewrite List.forallb_forall in Hf. intros Hin. by apply Hf, list_elem_of_In.
Qed.

(** a list of capability names becomes exactly the Linux capability bits
    that some known name of the list stands for; unknown names add nothing and
    the result stays within the 41 known bits.  Only [su.shell] and [su.full]
    bring a capability to change identity (CAP_SETGID, CAP_SETUID,
    CAP_SETPCAP, CAP_SETFCAP): a module that declares neither gets none. *)
Theorem caps_to_linux_spec names :
  (forall n, Z.testbit (astra_caps_to_linux names) n = true <->
     exists name mask, name ∈ names /\ smap_find name CAP_MAP = Some mask /\ Z.testbit mask n = true) /\
  Z.land (astra_caps_to_linux names) ALL_CAPS = astra_caps_to_linux names /\
  ("su.shell" ∉ names -> "su.full" ∉ names ->
     Forall (fun n => Z.testbit (astra_caps_to_linux names) n = false) [6; 7; 8; 31]).
Proof.
  split; [intros n; apply caps_to_linux_testbit|]. split.
  - apply Z.bits_inj'. intros n Hn. rewrite Z.land_spec.
    destruct (Z.testbit (astra_caps_to_linux names) n) eqn:Et; [|done].
    apply caps_to_linux_testbit in Et as (name & mask & _ & Hf & Ht).
    apply smap_find_elem, cap_map_rows in Hf. unfold row_ok in Hf. cbn [fst snd] in Hf.
    apply andb_prop in Hf as [Hm%Z.eqb_eq _]. rewrite <- Hm, Z.land_spec in Ht.
    by apply andb_prop in Ht as [_ ->].
  - intros Hs Hf. apply Forall_forall. intros n Hn.
    destruct (Z.testbit (astra_caps_to_linux names) n) eqn:Et; [|done]. exfalso.
    apply caps_to_linux_testbit in Et as (name & mask & Hin & Hrow & Ht).
    apply smap_find_elem, cap_map_rows in Hrow. unfold row_ok in Hrow. cbn [fst snd] in Hrow.
    apply andb_prop in Hrow as [_ [[Hr|Hr]%orb_prop|Hr]%orb_prop].
    + apply str_eqb_true in Hr as ->. done.
    + apply str_eqb_true in Hr as ->. done.
    + rewrite List.forallb_forall in Hr. apply list_elem_of_In, Hr in Hn. by rewrite Ht in Hn.
Qed.

(** ** Concrete runs *)

Definition policy_call (uid caps : Z) : @kcall sample_api :=
  {| k_env := sample_env; k_cmd := ASTRA_SET_POLICY; k_cred := app_cred 0;
     k_arg := {| up_bytes := encode_policy (entry_of uid caps false); up_writable := true |} |}.
Definition enforcing : AstraModule := {| policy_table := []; enforce := 1 |}.

Lemma kernel_policy_enforced_witness :
  exists e, set_by_root [policy_call 10123 (bit 21)] e /\
    Z.land (bit 21) (pe_allowed_caps e) = bit 21.
Proof.
  pose proof (proj2 (kernel_policy_enforced 1 enforcing [policy_call 10123 (bit 21)] sample_env
    ASTRA_GET_CAPS (app_cred 10123) (caps_request (bit 21) (bit 21)) eq_refl ltac:(lia))) as Hk.
  cbv beta iota zeta delta [astra_ioctl] in Hk. destruct Hk as (e & Hs & _ & Ha).
  { intros E. apply (f_equal (@cap_effective sample_api)) in E. vm_compute in E. discriminate. }
  exists e. split; [exact Hs|]. destruct Ha as [[Hc _]|(_ & bs & Hb & Ha)]; [discriminate Hc|].
  assert (Some bs = Some (encode_caps {| ac_effective := bit 21; ac_permitted := bit 21;
    ac_target_uid := 0; ac_target_gid := 0; ac_result := 0; ac_padding := 0 |})) as [= ->]
    by (rewrite <- Hb; reflexivity).
  exact Ha.
Defined.

Lemma policy_sync_spec_witness :
  let kb := {| kb_fd := -1; kb_rooted := false; kb_module := enforcing; kb_self := app_cred 0 |} in
  let m := kb_module (Nat.iter 3 (sync_policies_to_kernel true sample_env 5) kb) in
  astra_ioctl sample_env ASTRA_GET_ROOT m (app_cred 10123) {| up_bytes := []; up_writable := false |}
    = (- EPERM, m, app_cred 10123, {| up_bytes := []; up_writable := false |}).
Proof.
  intros kb m.
  destruct (policy_sync_spec sample_env 5 kb 3 ltac:(lia) eq_refl eq_refl eq_refl ltac:(cbn; lia) ltac:(lia))
    as (_ & Hg & _).
  exact (proj1 (Hg sample_env (app_cred 10123) {| up_bytes := []; up_writable := false |})).
Defined.

Lemma caps_to_linux_spec_witness :
  Forall (fun n => Z.testbit (astra_caps_to_linux ["mount.bind"; "security.mac"; "nope"]) n = false)
    [6; 7; 8; 31].
Proof.
  destruct (caps_to_linux_spec ["mount.bind"; "security.mac"; "nope"]) as (_ & _ & Hi).
  apply Hi; set_solver.
Defined.
