(* ===== verification/Sandbox.v ===== *)
(** * Sandbox: isolation of a module process and its runner

    Models [daemon/src/sandbox/] (namespaces, mount propagation, the seccomp
    allow list, the landlock rules and the chain that applies them) and
    [daemon/src/module/module_runner.cpp] (the forked child and the table of
    running modules).  System calls are operations of the world; what the
    kernel does with a loaded seccomp filter is a hypothesis on its answers.
    [start] and [stop] release the lock of the table in between: what other
    threads have made of it by then is an argument. *)

From Stdlib Require Import ZArith Ascii String Lia.
From stdpp Require Import base numbers list strings gmap.
From S2P Require Import Prelude.

Open Scope Z_scope.

(** ** namespace_manager.cpp, mount_isolation.cpp *)

Definition CLONE_NEWNS : Z := 131072.
Definition CLONE_NEWPID : Z := 536870912.
Definition CLONE_NEWNET : Z := 1073741824.
Definition MS_NOSUID : Z := 2.
Definition MS_NODEV : Z := 4.
Definition MS_NOEXEC : Z := 8.
Definition MS_REC : Z := 16384.
Definition MS_PRIVATE : Z := 262144.
Definition MNT_DETACH : Z := 2.

Definition ns_flags (mountNs pidNs netNs : bool) : Z :=
  Z.lor (Z.lor (if mountNs then CLONE_NEWNS else 0) (if pidNs then CLONE_NEWPID else 0))
        (if netNs then CLONE_NEWNET else 0).

Definition mount_private : sysop :=
  OpMount EmptyString "/" EmptyString (Z.lor MS_REC MS_PRIVATE) EmptyString.
Definition mount_proc : sysop :=
  OpMount "proc" "/proc" "proc" (Z.lor (Z.lor MS_NOSUID MS_NOEXEC) MS_NODEV) EmptyString.

Definition remount_proc : Sys unit :=
  let! ok := sys_ok mount_proc in
  if ok then ret tt
  else
    let! detached := sys_ok (OpUmount "/proc" MNT_DETACH) in
    if detached then (let! _ok := sys_ok mount_proc in ret tt) else ret tt.

Definition sandbox_ns_create (mountNs pidNs netNs : bool) : Sys bool :=
  let flags := ns_flags mountNs pidNs netNs in
  if flags =? 0 then ret true
  else
    let! ok := sys_ok (OpUnshare flags) in
    if negb ok then ret false
    else
      let! _private := sys_ok mount_private in
      (if pidNs then remount_proc else ret tt) ;;;
      ret true.

Definition mount_isolate : Sys bool := sys_ok mount_private.

(** ** seccomp_manager.cpp *)

Definition allowed_base : list string :=
  ["read"; "write"; "open"; "openat"; "close"; "fstat"; "newfstatat"; "lstat"; "lseek";
   "readlink"; "readlinkat"; "access"; "faccessat"; "getdents"; "getdents64";
   "mmap"; "mmap2"; "munmap"; "mprotect"; "brk"; "madvise";
   "futex"; "set_tid_address"; "gettid";
   "getpid"; "getppid"; "getuid"; "geteuid"; "getgid"; "getegid"; "getgroups";
   "clock_gettime"; "clock_gettime64"; "nanosleep"; "time";
   "rt_sigaction"; "rt_sigprocmask"; "rt_sigreturn"; "sigaltstack";
   "poll"; "ppoll"; "select"; "pselect6"; "epoll_create1"; "epoll_ctl"; "epoll_wait"; "epoll_pwait";
   "ioctl"; "prctl"; "uname"; "getrandom";
   "exit"; "exit_group"].
Definition allowed_network : list string :=
  ["socket"; "connect"; "bind"; "listen"; "accept"; "accept4"; "sendto"; "recvfrom"; "sendmsg";
   "recvmsg"; "shutdown"; "getsockname"; "getpeername"; "setsockopt"; "getsockopt"; "socketpair"].

(** The build: is libseccomp linked, and is the target 32-bit ARM. *)
Record Build := { have_libseccomp : bool; arm : bool }.

Definition allow_list (bd : Build) (allowNetwork : bool) : list string :=
  allowed_base ++ (if allowNetwork then allowed_network else [])
  ++ (if arm bd then ["set_tls"] else []).

Fixpoint allow_all (syscalls : list string) : Sys unit :=
  match syscalls with
  | [] => ret tt
  | s :: rest => let! _rc := sys_int (OpSeccompAllow s) in allow_all rest
  end.

Definition seccomp_apply (bd : Build) (allowNetwork : bool) : Sys bool :=
  if negb (have_libseccomp bd) then ret true
  else
    let! ctx := sys_int (OpCall "seccomp_init" [] [1]) in
    if ctx =? 0 then ret false
    else
      allow_all (allow_list bd allowNetwork) ;;;
      let! rc := sys_int OpSeccompLoad in
      sys_do (OpCall "seccomp_release" [] []) ;;;
      if negb (rc =? 0) then ret false else ret true.

(** ** landlock_manager.cpp *)

Definition FS (n : Z) : Z := Z.shiftl 1 n.
Definition FS_EXECUTE := FS 0.
Definition FS_WRITE_FILE := FS 1.
Definition FS_READ_FILE := FS 2.
Definition FS_READ_DIR := FS 3.
Definition FS_REMOVE_DIR := FS 4.
Definition FS_REMOVE_FILE := FS 5.
Definition FS_MAKE_CHAR := FS 6.
Definition FS_MAKE_DIR := FS 7.
Definition FS_MAKE_REG := FS 8.
Definition FS_MAKE_SOCK := FS 9.
Definition FS_MAKE_FIFO := FS 10.
Definition FS_MAKE_BLOCK := FS 11.
Definition FS_MAKE_SYM := FS 12.
Definition FS_REFER := FS 13.
Definition FS_TRUNCATE := FS 14.

Definition access_of (bits : list Z) : Z := foldr Z.lor 0 bits.
Definition handled_access_fs : Z :=
  access_of [FS_EXECUTE; FS_WRITE_FILE; FS_READ_FILE; FS_READ_DIR; FS_REMOVE_DIR; FS_REMOVE_FILE;
             FS_MAKE_CHAR; FS_MAKE_DIR; FS_MAKE_REG; FS_MAKE_SOCK; FS_MAKE_FIFO; FS_MAKE_BLOCK;
             FS_MAKE_SYM; FS_REFER; FS_TRUNCATE].
Definition read_access : Z := access_of [FS_READ_FILE; FS_READ_DIR].
Definition write_access : Z :=
  access_of [FS_WRITE_FILE; FS_REMOVE_FILE; FS_MAKE_REG; FS_MAKE_DIR; FS_REMOVE_DIR; FS_TRUNCATE].

Definition landlock_version : sysop := OpLandlock "landlock_create_ruleset" "version" 1.
Definition landlock_create : sysop := OpLandlock "landlock_create_ruleset" EmptyString handled_access_fs.
Definition landlock_add (path : string) (access : Z) : sysop := OpLandlock "landlock_add_rule" path access.
Definition landlock_restrict (fd : Z) : sysop := OpLandlock "landlock_restrict_self" EmptyString fd.

(** One loop over the paths: open each, add a rule for it, close it. *)
Fixpoint bind_paths (access : Z) (paths : list string) : Sys unit :=
  match paths with
  | [] => ret tt
  | path :: rest =>
      if is_empty path then bind_paths access rest
      else
        let! fd := sys_int (OpCall "open" [path] []) in
        if fd <? 0 then bind_paths access rest
        else
          let! _rc := sys_int (landlock_add path access) in
          sys_do (OpCall "close" [] [fd]) ;;;
          bind_paths access rest
  end.

Definition landlock_apply (readPaths writePaths : list string) : Sys bool :=
  let! abi_version := sys_int landlock_version in
  if abi_version <? 0 then ret true
  else
    let! rc := sys_int (OpCall "prctl" ["PR_SET_NO_NEW_PRIVS"] [1]) in
    if negb (rc =? 0) then ret false
    else
      let! ruleset_fd := sys_int landlock_create in
      if ruleset_fd <? 0 then ret true
      else
        bind_paths read_access readPaths ;;;
        bind_paths write_access writePaths ;;;
        let! rc := sys_int (landlock_restrict ruleset_fd) in
        sys_do (OpCall "close" [] [ruleset_fd]) ;;;
        if negb (rc =? 0) then ret false else ret true.

(** ** sandbox_manager.cpp *)

Record SandboxPolicy := {
  sp_mountNamespace : bool;
  sp_pidNamespace : bool;
  sp_networkNamespace : bool;
  sp_seccomp : bool;
  sp_landlock : bool;
  sp_allowNetwork : bool;
  sp_moduleId : string;
}.

Definition sandbox_policy (moduleId : string) : SandboxPolicy :=
  {| sp_mountNamespace := true; sp_pidNamespace := true; sp_networkNamespace := false;
     sp_seccomp := true; sp_landlock := true; sp_allowNetwork := false; sp_moduleId := moduleId |}.

Definition module_dir (moduleId : string) : string := "/data/astra/modules/" +:+ moduleId.
Definition read_paths (moduleId : string) : list string :=
  ["/system"; "/vendor"; "/product"; module_dir moduleId].
Definition write_paths (moduleId : string) : list string := [module_dir moduleId; "/data/local/tmp"].

Definition sandbox_create (bd : Build) (moduleId : string) : Sys bool :=
  let policy := sandbox_policy moduleId in
  let! ok := sandbox_ns_create (sp_mountNamespace policy) (sp_pidNamespace policy) (sp_networkNamespace policy) in
  if negb ok then ret false
  else
    let! _isolated := mount_isolate in
    (if sp_seccomp policy then (let! _ok := seccomp_apply bd (sp_allowNetwork policy) in ret tt)
     else ret tt) ;;;
    (if sp_landlock policy
     then (let! _ok := landlock_apply (read_paths moduleId) (write_paths moduleId) in ret tt)
     else ret tt) ;;;
    ret true.

Definition sandbox_destroy (moduleId : string) : bool := true.

(** ** module_runner.cpp *)

Definition SIGTERM : Z := 15.
Definition SIGKILL : Z := 9.
Abbreviation Running := (gmap string Z).

Definition so_path (moduleId : string) : string := module_dir moduleId +:+ "/lib/module.so".

Definition exit_with (code : Z) : Sys Z := sys_do (OpExit code) ;;; ret code.

(** The child, up to its exit code. *)
Definition runner_child (bd : Build) (moduleId : string) : Sys Z :=
  let! isolated := sandbox_create bd moduleId in
  if negb isolated then exit_with 127
  else
    let! handle := sys_int (OpDlopen (so_path moduleId)) in
    if handle =? 0 then exit_with 126
    else
      let! entry := sys_int (OpDlsym "avm_on_load") in
      if entry =? 0 then (sys_do (OpCall "dlclose" [] [handle]) ;;; exit_with 125)
      else
        let! rc := sys_int OpCallEntry in
        sys_do (OpCall "dlclose" [] [handle]) ;;;
        exit_with rc.

(** [start] returns in the parent and never in the child.  The lock is
    released between the check and the record: [g_later] is the table when it
    is taken again, which differs from [g_running] when other threads ran. *)
Inductive Started :=
| InParent (launched : bool) (g_running : Running)
| InChild (exit_code : Z).

Definition runner_start (bd : Build) (g_running g_later : Running) (moduleId : string) : Sys Started :=
  match g_running !! moduleId with
  | Some _ => ret (InParent false g_later)
  | None =>
      let! child := sys_int (OpCall "fork" [] []) in
      if child <? 0 then ret (InParent false g_later)
      else if child =? 0 then (let! code := runner_child bd moduleId in ret (InChild code))
      else ret (InParent true (<[moduleId := child]> g_later))
  end.

(** The wait loop of [stop]: was the child reaped within [n] rounds. *)
Fixpoint wait_loop (n : nat) (pid : Z) : Sys bool :=
  match n with
  | O => ret false
  | S n' =>
      let! w := sys_int (OpWaitpid pid true) in
      if w =? pid then ret true
      else (sys_do (OpCall "usleep" [] [100 * 1000]) ;;; wait_loop n' pid)
  end.

(** [stop] releases the lock as soon as it knows the process, and takes it
    again to erase the entry: [g_later] is the table then.  The last [waitpid]
    returns when the process has ended; its result is not looked at. *)
Definition runner_stop (g_running g_later : Running) (moduleId : string) : Sys (bool * Running) :=
  match g_running !! moduleId with
  | None => ret (false, g_running)
  | Some pid =>
      let! _rc := sys_int (OpKill pid SIGTERM) in
      let! reaped := wait_loop 30 pid in
      (if reaped then ret tt
       else
         let! _rc := sys_int (OpKill pid SIGKILL) in
         let! _pid := sys_int (OpWaitpid pid false) in
         ret tt) ;;;
      let _destroyed := sandbox_destroy moduleId in
      ret (true, delete moduleId g_later)
  end.

(** ** What the sandbox chain does *)

Definition sandbox_flags : Z := ns_flags true true false.

(** A rule of the landlock rule set gives read access below the system
    partitions and the module's directory, write access below the module's
    directory and [/data/local/tmp]. *)
Definition rule_ok (moduleId path : string) (access : Z) : Prop :=
  (path ∈ read_paths moduleId /\ access = read_access) \/
  (path ∈ write_paths moduleId /\ access = write_access).

Definition seccomp_op (bd : Build) (o : sysop) : Prop :=
  match o with
  | OpSeccompAllow s => s ∈ allow_list bd false
  | OpSeccompLoad => have_libseccomp bd = true
  | OpCall _ _ _ => True
  | _ => False
  end.
Definition landlock_op (moduleId : string) (o : sysop) : Prop :=
  match o with
  | OpLandlock name path access => name = "landlock_add_rule" -> rule_ok moduleId path access
  | OpCall _ _ _ => True
  | _ => False
  end.
Definition mount_op (o : sysop) : Prop :=
  match o with
  | OpMount _ _ _ _ _ => o = mount_private \/ o = mount_proc
  | OpUmount target _ => target = "/proc"
  | _ => False
  end.

Lemma allow_all_emits bd ss :
  ss ⊆ allow_list bd false -> emits (seccomp_op bd) (allow_all ss).
Proof.
  induction ss as [|s ss IH]; cbn [allow_all]; intros Hs; [apply emits_ret|].
  apply emits_bind; [apply emits_int; cbn; apply Hs, list_elem_of_here|].
  intros _. apply IH. intros x Hx. by apply Hs, list_elem_of_further.
Qed.

Lemma seccomp_apply_emits bd : emits (seccomp_op bd) (seccomp_apply bd false).
Proof.
  unfold seccomp_apply. destruct (have_libseccomp bd) eqn:E; cbn [negb]; [|apply emits_ret].
  apply emits_bind; [by apply emits_int|]. intros ctx. destruct (ctx =? 0); [apply emits_ret|].
  apply emits_bind; [by apply allow_all_emits|]. intros _. emits_tac.
Qed.

Lemma bind_paths_emits moduleId access paths :
  (forall p, p ∈ paths -> rule_ok moduleId p access) ->
  emits (landlock_op moduleId) (bind_paths access paths).
Proof.
  induction paths as [|p paths IH]; cbn [bind_paths]; intros Hp; [apply emits_ret|].
  assert (emits (landlock_op moduleId) (bind_paths access paths)) as Hr
    by (apply IH; intros q Hq; by apply Hp, list_elem_of_further).
  destruct (is_empty p); [done|]. apply emits_bind; [by apply emits_int|]. intros fd.
  destruct (fd <? 0); [done|]. apply emits_bind; [apply emits_int; intros _; apply Hp, list_elem_of_here|].
  intros _. apply emits_bind; [by apply emits_do|]. intros _. exact Hr.
Qed.

Lemma landlock_apply_emits moduleId :
  emits (landlock_op moduleId) (landlock_apply (read_paths moduleId) (write_paths moduleId)).
Proof.
  unfold landlock_apply. apply emits_bind; [by apply emits_int|]. intros abi.
  destruct (abi <? 0); [apply emits_ret|]. apply emits_bind; [by apply emits_int|]. intros rc.
  destruct (negb (rc =? 0)); [apply emits_ret|]. apply emits_bind; [by apply emits_int|]. intros fd.
  destruct (fd <? 0); [apply emits_ret|].
  apply emits_bind; [apply bind_paths_emits; by left|]. intros _.
  apply emits_bind; [apply bind_paths_emits; by right|]. intros _. emits_tac.
Qed.

Lemma mount_isolate_emits : emits mount_op mount_isolate.
Proof. apply emits_ok. by left. Qed.

Lemma remount_proc_emits : emits mount_op remount_proc.
Proof.
  unfold remount_proc. apply emits_bind; [apply emits_ok; by right|]. intros [|]; [apply emits_ret|].
  apply emits_bind; [by apply emits_ok|]. intros [|]; [|apply emits_ret].
  apply emits_bind; [apply emits_ok; by right|]. intros _. apply emits_ret.
Qed.

(** The chain in its three stages: mounts, filter, rules. *)
Lemma sandbox_create_stages bd moduleId w h :
  let unshare := OpUnshare sandbox_flags in
  let r := sandbox_create bd moduleId w h in
  if w_int w h unshare =? 0
  then r.1 = true /\ exists t1 t2 t3,
         Forall mount_op t1 /\ Forall (seccomp_op bd) t2 /\ Forall (landlock_op moduleId) t3 /\
         r.2 = h ++ unshare :: t1 ++ t2 ++ t3 /\
         (landlock_apply (read_paths moduleId) (write_paths moduleId) w
            (h ++ unshare :: t1 ++ t2)).2 = h ++ unshare :: t1 ++ t2 ++ t3
  else r = (false, h ++ [unshare]).
Proof.
  intros unshare r. pattern r. rewrite (surjective_pairing r).
  set (h2 := r.2). set (ok := r.1).
  change ((fun ok h' => if w_int w h unshare =? 0 then ok = true /\ exists t1 t2 t3,
         Forall mount_op t1 /\ Forall (seccomp_op bd) t2 /\ Forall (landlock_op moduleId) t3 /\
         h' = h ++ unshare :: t1 ++ t2 ++ t3 /\
         (landlock_apply (read_paths moduleId) (write_paths moduleId) w
            (h ++ unshare :: t1 ++ t2)).2 = h ++ unshare :: t1 ++ t2 ++ t3
     else (ok, h') = (false, h ++ [unshare])) ok h2).
  subst ok h2 r. apply wp_run.
  unfold sandbox_create, sandbox_policy, sandbox_ns_create.
  cbn [sp_mountNamespace sp_pidNamespace sp_networkNamespace sp_seccomp sp_landlock sp_allowNetwork].
  change (ns_flags true true false) with sandbox_flags.
  change (sandbox_flags =? 0) with false. cbv iota zeta. fold unshare.
  do 2 apply wp_bind. apply wp_ok.
  destruct (w_int w h unshare =? 0); cbn [negb]; [|reflexivity].
  apply wp_bind, (wp_emits mount_op); [by apply emits_ok; left|]. intros _ ta Ha.
  apply wp_bind, (wp_emits mount_op); [apply remount_proc_emits|]. intros _ tb Hb.
  apply wp_ret. cbn [negb]. 
  apply wp_bind, (wp_emits mount_op); [apply mount_isolate_emits|]. intros _ tc Hc.
  do 2 apply wp_bind. apply (wp_emits (seccomp_op bd)); [apply seccomp_apply_emits|]. intros _ t2 H2.
  apply wp_ret. do 2 apply wp_bind. unfold wp.
  destruct (landlock_apply_emits moduleId w (((((h ++ [unshare]) ++ ta) ++ tb) ++ tc) ++ t2)) as (t3 & E & H3).
  rewrite E. split; [done|]. exists (ta ++ tb ++ tc), t2, t3.
  assert (((((h ++ [unshare]) ++ ta) ++ tb) ++ tc) ++ t2 = h ++ unshare :: (ta ++ tb ++ tc) ++ t2) as Eh
    by (by rewrite <- !app_assoc).
  rewrite Eh in E |- *. rewrite E. rewrite !Forall_app. split_and!; try done; unfold ret; cbn [snd];
    rewrite <- !app_assoc; cbn [app]; by rewrite <- !app_assoc.
Qed.

(** ** The filter and the rules *)

(** The system call behind an operation that comes after the filter. *)
Definition syscall_name (o : sysop) : option string :=
  match o with
  | OpUnshare _ => Some "unshare"
  | OpMount _ _ _ _ _ => Some "mount"
  | OpUmount _ _ => Some "umount2"
  | OpKill _ _ => Some "kill"
  | OpLandlock name _ _ => Some name
  | _ => None
  end.
Definition filter_loaded (w : World) (h : trace) : Prop :=
  exists h1 h2, h = h1 ++ OpSeccompLoad :: h2 /\ w_int w h1 OpSeccompLoad = 0.

(** What seccomp documents: once a filter with the default action
    [SCMP_ACT_ERRNO] is loaded, a system call without a rule fails. *)
Definition seccomp_enforced (w : World) : Prop :=
  forall h o s, filter_loaded w h -> syscall_name o = Some s -> OpSeccompAllow s ∉ h ->
    w_int w h o = -1.

Lemma split_before {A} (x : A) l1 l2 a b :
  l1 ++ x :: l2 = a ++ b -> x ∉ b -> exists l2', a = l1 ++ x :: l2'.
Proof.
  intros E Hx. apply app_eq_inv in E as [(k & -> & ->)|(k & -> & E)]; [set_solver|].
  destruct k as [|y k]; [cbn in E; subst b; set_solver|]. cbn in E. injection E as -> ->. by exists k.
Qed.

Lemma landlock_denied rs ws w h :
  w_int w h landlock_version < 0 -> landlock_apply rs ws w h = (true, h ++ [landlock_version]).
Proof.
  intros Hv. unfold landlock_apply, bind at 1, sys_int at 1. cbv beta iota.
  by rewrite (proj2 (Z.ltb_lt _ _) Hv).
Qed.

Lemma landlock_not_allowed bd : "landlock_create_ruleset" ∉ allow_list bd false.
Proof.
  assert (existsb (str_eqb "landlock_create_ruleset") (allow_list bd false) = false) as Hf
    by (destruct bd as [? []]; vm_compute; reflexivity).
  intros Hin. apply not_true_iff_false in Hf. apply Hf, List.existsb_exists.
  exists "landlock_create_ruleset". split; [by apply list_elem_of_In|by apply str_eqb_true].
Qed.

Lemma Forall_not_elem {A} (P : A -> Prop) l x : Forall P l -> ~ P x -> x ∉ l.
Proof. rewrite Forall_forall. intros Hf Hn Hin. by apply Hn, Hf. Qed.

Ltac not_in P := apply (Forall_not_elem P); [done|by intros []].

(** C22: The two last stages of the sandbox exclude each other.  When the
    seccomp filter is in force, the allow list contains no landlock call, so
    the first one fails, is taken for a kernel without landlock, and the
    module runs with no file-system rules although [create] reports success. *)
Theorem seccomp_disables_landlock bd moduleId w h :
  seccomp_enforced w -> OpSeccompAllow "landlock_create_ruleset" ∉ h ->
  let r := sandbox_create bd moduleId w h in
  r.1 = true -> filter_loaded w r.2 ->
  exists t, r.2 = h ++ t ++ [landlock_version] /\ forall fd, landlock_restrict fd ∉ t.
Proof.
  intros Hsec Hh r Hok Hload. pose proof (sandbox_create_stages bd moduleId w h) as Hst.
  cbv zeta in Hst. fold r in Hst. destruct (w_int w h (OpUnshare sandbox_flags) =? 0).
  2: { rewrite Hst in Hok. done. }
  destruct Hst as (_ & t1 & t2 & t3 & H1 & H2 & H3 & E & El).
  set (A := h ++ OpUnshare sandbox_flags :: t1 ++ t2) in *.
  assert (r.2 = A ++ t3) as EA by (unfold A; rewrite E, <- app_assoc; cbn [app]; by rewrite <- app_assoc).
  assert (filter_loaded w A) as HA.
  { destruct Hload as (h1 & h2 & Eh & Hl). rewrite EA in Eh. symmetry in Eh.
    apply split_before in Eh as (h2' & ->); [by exists h1, h2'|].
    not_in (landlock_op moduleId). }
  assert (OpSeccompAllow "landlock_create_ruleset" ∉ t1) as Hn1 by (not_in mount_op).
  assert (OpSeccompAllow "landlock_create_ruleset" ∉ t2) as Hn2
    by (apply (Forall_not_elem (seccomp_op bd)); [done|apply landlock_not_allowed]).
  assert (w_int w A landlock_version = -1) as Hv.
  { apply (Hsec A _ "landlock_create_ruleset"); [done|done|]. unfold A. set_solver. }
  rewrite landlock_denied in El by lia. cbn [snd] in El. rewrite <- E, EA in El.
  apply app_inv_head in El. exists (OpUnshare sandbox_flags :: t1 ++ t2). split.
  - rewrite EA, <- El. unfold A. by rewrite <- app_assoc.
  - intros fd. assert (landlock_restrict fd ∉ t1) by (not_in mount_op).
    assert (landlock_restrict fd ∉ t2) by (not_in (seccomp_op bd)).
    set_solver.
Qed.

(** A rule set as [landlock_apply] asks for it needs the third version of the
    landlock interface: the accesses of the two first ones end at bit 13. *)
Example handled_access_above_abi_2 : Z.land handled_access_fs (Z.lnot (Z.ones 14)) = FS_TRUNCATE.
Proof. reflexivity. Qed.

(** ** The module process *)

(** *** What each stage has to do, in literals

    [mounts_done w h], [filter_done bd w h] and [rules_done moduleId w h] are
    what the three stages have to perform in the world [w] after [h]. *)

(** All mounts are made private (before anything else, and once more at the
    end), and [/proc] is mounted anew, after detaching the old one if need be. *)
Definition mounts_done (w : World) (h : trace) : trace :=
  let private := OpMount EmptyString "/" EmptyString 278528 EmptyString in
  let proc := OpMount "proc" "/proc" "proc" 14 EmptyString in
  let detach := OpUmount "/proc" 2 in
  let again :=
    if w_int w (h ++ [private]) proc =? 0 then []
    else if w_int w (h ++ [private; proc]) detach =? 0 then [detach; proc] else [detach] in
  private :: proc :: again ++ [private].

(** What a filter may not let through, and what a module cannot do without. *)
Definition forbidden_syscalls : list string :=
  ["execve"; "execveat"; "fork"; "vfork"; "clone"; "clone3"; "ptrace"; "process_vm_readv";
   "process_vm_writev"; "kill"; "tkill"; "tgkill"; "mount"; "umount2"; "pivot_root"; "chroot";
   "unshare"; "setns"; "socket"; "connect"; "bind"; "listen"; "accept"; "accept4"; "sendto";
   "recvfrom"; "sendmsg"; "recvmsg"; "setuid"; "setgid"; "setresuid"; "setresgid"; "capset";
   "init_module"; "finit_module"; "delete_module"; "bpf"; "reboot"; "seccomp"; "unlink";
   "unlinkat"; "rename"; "renameat2"; "chmod"; "fchmodat"; "chown"; "fchownat"; "mknod"].
Definition needed_syscalls : list string :=
  ["read"; "write"; "openat"; "close"; "mmap"; "munmap"; "mprotect"; "futex"; "rt_sigreturn";
   "exit"; "exit_group"].
Definition filter_rules (rules : list string) : Prop :=
  Forall (fun s => s ∉ rules) forbidden_syscalls /\ Forall (fun s => s ∈ rules) needed_syscalls.

(** With libseccomp: a filter that refuses by default gets its rules, is loaded
    and released, unless there is no memory for it. *)
Definition filter_done (bd : Build) (w : World) (h t : trace) : Prop :=
  let init := OpCall "seccomp_init" [] [1] in
  if negb (have_libseccomp bd) then t = []
  else if w_int w h init =? 0 then t = [init]
  else exists rules, filter_rules rules /\
    t = init :: (OpSeccompAllow <$> rules) ++ [OpSeccompLoad; OpCall "seccomp_release" [] []].

(** Each path that can be opened gets its rule. *)
Fixpoint path_rules (w : World) (h : trace) (ps : list (string * Z)) : trace :=
  match ps with
  | [] => []
  | (path, access) :: ps' =>
      let fd := w_int w h (OpCall "open" [path] []) in
      let t := OpCall "open" [path] [] ::
        (if fd <? 0 then []
         else [OpLandlock "landlock_add_rule" path access; OpCall "close" [] [fd]]) in
      t ++ path_rules w (h ++ t) ps'
  end.

(** Reading (12) below the system partitions and the module's directory,
    writing (16818) below that directory and [/data/local/tmp]. *)
Definition wanted_rules (moduleId : string) : list (string * Z) :=
  let dir := "/data/astra/modules/" +:+ moduleId in
  [("/system", 12); ("/vendor", 12); ("/product", 12); (dir, 12); (dir, 16818);
   ("/data/local/tmp", 16818)].

Definition rules_done (moduleId : string) (w : World) (h : trace) : trace :=
  let version := OpLandlock "landlock_create_ruleset" "version" 1 in
  let no_new_privs := OpCall "prctl" ["PR_SET_NO_NEW_PRIVS"] [1] in
  let create := OpLandlock "landlock_create_ruleset" EmptyString 32767 in
  if w_int w h version <? 0 then [version]
  else if negb (w_int w (h ++ [version]) no_new_privs =? 0) then [version; no_new_privs]
  else
    let fd := w_int w (h ++ [version; no_new_privs]) create in
    if fd <? 0 then [version; no_new_privs; create]
    else [version; no_new_privs; create]
         ++ path_rules w (h ++ [version; no_new_privs; create]) (wanted_rules moduleId)
         ++ [OpLandlock "landlock_restrict_self" EmptyString fd; OpCall "close" [] [fd]].

Lemma ns_create_done w h :
  let unshare := OpUnshare 537001984 in
  wp (sandbox_ns_create true true false) (fun ok h' =>
    if w_int w h unshare =? 0
    then ok = true /\ h' ++ [OpMount EmptyString "/" EmptyString 278528 EmptyString]
                     = (h ++ [unshare]) ++ mounts_done w (h ++ [unshare])
    else ok = false /\ h' = h ++ [unshare]) w h.
Proof.
  intros unshare. unfold sandbox_ns_create. change (ns_flags true true false) with 537001984.
  change (537001984 =? 0) with false. cbv iota zeta. fold unshare. apply wp_bind, wp_ok.
  destruct (w_int w h unshare =? 0); cbn [negb]; [|by apply wp_ret].
  apply wp_bind, wp_ok, wp_bind. unfold remount_proc, mounts_done.
  change mount_private with (OpMount EmptyString "/" EmptyString 278528 EmptyString).
  change mount_proc with (OpMount "proc" "/proc" "proc" 14 EmptyString).
  set (private := OpMount EmptyString "/" _ _ _). set (proc := OpMount "proc" _ _ _ _).
  change MNT_DETACH with 2.
  apply wp_bind, wp_ok. destruct (w_int w ((h ++ [unshare]) ++ [private]) proc =? 0).
  { do 2 apply wp_ret. split; [done|]. cbn. by rewrite <-!(assoc_L (++)). }
  apply wp_bind, wp_ok. rewrite <-(assoc_L (++) (h ++ [unshare])). cbn [app].
  destruct (w_int w ((h ++ [unshare]) ++ [private; proc]) (OpUmount "/proc" 2) =? 0).
  - apply wp_bind, wp_ok. do 2 apply wp_ret. split; [done|]. cbn. by rewrite <-!(assoc_L (++)).
  - do 2 apply wp_ret. split; [done|]. cbn. by rewrite <-!(assoc_L (++)).
Qed.

Lemma allow_all_trace ss : forall w h, (allow_all ss w h).2 = h ++ (OpSeccompAllow <$> ss).
Proof.
  induction ss as [|s ss IH]; intros w h; cbn [allow_all]; [cbn; by rewrite app_nil_r|].
  unfold bind, sys_int. rewrite IH. by rewrite <-(assoc_L (++)).
Qed.

Lemma allow_list_rules bd : filter_rules (allow_list bd false).
Proof.
  split; apply Forall_forall; intros s Hs.
  - assert (forallb (fun s => negb (existsb (str_eqb s) (allow_list bd false))) forbidden_syscalls
      = true) as Hf by (destruct bd as [? []]; vm_compute; reflexivity).
    rewrite forallb_forall in Hf. specialize (Hf s (proj1 (list_elem_of_In _ _) Hs)).
    apply negb_true_iff, not_true_iff_false in Hf. intros Hin. apply Hf, List.existsb_exists.
    exists s. split; [by apply list_elem_of_In|apply str_eqb_refl].
  - assert (forallb (fun s => existsb (str_eqb s) (allow_list bd false)) needed_syscalls
      = true) as Hf by (destruct bd as [? []]; vm_compute; reflexivity).
    rewrite forallb_forall in Hf. specialize (Hf s (proj1 (list_elem_of_In _ _) Hs)).
    apply List.existsb_exists in Hf as (s' & Hin & ->%str_eqb_true). by apply list_elem_of_In.
Qed.

Lemma seccomp_apply_done bd w h :
  exists t, (seccomp_apply bd false w h).2 = h ++ t /\ filter_done bd w h t.
Proof.
  unfold seccomp_apply, filter_done. destruct (have_libseccomp bd); cbn [negb].
  2: { exists []. by rewrite app_nil_r. }
  set (init := OpCall "seccomp_init" [] [1]). unfold bind at 1, sys_int at 1.
  destruct (w_int w h init =? 0); [by exists [init]|].
  exists (init :: (OpSeccompAllow <$> allow_list bd false) ++ [OpSeccompLoad; OpCall "seccomp_release" [] []]).
  split; [|exists (allow_list bd false); split; [apply allow_list_rules|done]].
  unfold bind at 1. pose proof (allow_all_trace (allow_list bd false) w (h ++ [init])) as Ht.
  destruct (allow_all _ w (h ++ [init])) as [[] h']. cbn [snd] in Ht. subst h'.
  unfold bind, sys_int, sys_do, ret. destruct (negb _); cbn [snd]; by rewrite <-!(assoc_L (++)).
Qed.

Lemma path_rules_app w ps qs : forall h,
  path_rules w h (ps ++ qs) = path_rules w h ps ++ path_rules w (h ++ path_rules w h ps) qs.
Proof.
  induction ps as [|[p a] ps IH]; intros h; cbn [path_rules app]; [by rewrite app_nil_r|].
  rewrite IH. by rewrite <-!(assoc_L (++)).
Qed.

Lemma bind_paths_trace a ps : Forall (fun p => is_empty p = false) ps -> forall w h,
  (bind_paths a ps w h).2 = h ++ path_rules w h ((fun p => (p, a)) <$> ps).
Proof.
  induction 1 as [|p ps Hp _ IH]; intros w h; [cbn; by rewrite app_nil_r|].
  rewrite fmap_cons. cbn [bind_paths path_rules]. rewrite Hp. unfold bind at 1, sys_int at 1.
  set (fd := w_int w h (OpCall "open" [p] [])). destruct (fd <? 0).
  - rewrite IH. by rewrite <-(assoc_L (++)).
  - unfold bind, sys_int, sys_do. rewrite IH. unfold landlock_add. by rewrite <-!(assoc_L (++)).
Qed.

Lemma landlock_apply_done moduleId w h :
  (landlock_apply (read_paths moduleId) (write_paths moduleId) w h).2
  = h ++ rules_done moduleId w h.
Proof.
  unfold landlock_apply, rules_done.
  change landlock_version with (OpLandlock "landlock_create_ruleset" "version" 1).
  change landlock_create with (OpLandlock "landlock_create_ruleset" EmptyString 32767).
  set (version := OpLandlock _ "version" _). set (create := OpLandlock _ EmptyString 32767).
  set (nnp := OpCall "prctl" _ _). unfold bind at 1, sys_int at 1.
  destruct (w_int w h version <? 0); [done|]. unfold bind at 1, sys_int at 1.
  destruct (negb (w_int w (h ++ [version]) nnp =? 0)); [by unfold ret; rewrite <-(assoc_L (++))|].
  unfold bind at 1, sys_int at 1. rewrite <-!(assoc_L (++)). cbn [app].
  set (fd := w_int w (h ++ [version; nnp]) create). destruct (fd <? 0); [done|].
  set (h3 := h ++ [version; nnp; create]).
  assert (forall p, p ∈ read_paths moduleId ++ write_paths moduleId -> is_empty p = false) as Hne.
  { intros p Hp. unfold read_paths, write_paths, module_dir in Hp. set_solver. }
  change (wanted_rules moduleId) with (((fun p => (p, read_access)) <$> read_paths moduleId)
    ++ ((fun p => (p, write_access)) <$> write_paths moduleId)).
  rewrite path_rules_app. unfold bind at 1.
  pose proof (bind_paths_trace read_access (read_paths moduleId)
    ltac:(apply Forall_forall; intros; apply Hne; set_solver) w h3) as E1.
  destruct (bind_paths read_access _ w h3) as [[] h4]. cbn [snd] in E1. subst h4. unfold bind at 1.
  set (h4 := h3 ++ path_rules w h3 _).
  pose proof (bind_paths_trace write_access (write_paths moduleId)
    ltac:(apply Forall_forall; intros; apply Hne; set_solver) w h4) as E2.
  destruct (bind_paths write_access _ w h4) as [[] h5]. cbn [snd] in E2. subst h5.
  unfold bind, sys_int, sys_do, ret. unfold landlock_restrict, h4, h3.
  destruct (negb _); cbn [snd]; rewrite <-!(assoc_L (++)); cbn [app]; by rewrite <-?(assoc_L (++)).
Qed.

(** The whole chain. *)
Lemma sandbox_create_done bd moduleId w h :
  let unshare := OpUnshare 537001984 in
  let h1 := h ++ [unshare] in
  let r := sandbox_create bd moduleId w h in
  if w_int w h unshare =? 0
  then r.1 = true /\ exists filter, let h2 := h1 ++ mounts_done w h1 in
         filter_done bd w h2 filter /\
         r.2 = (h2 ++ filter) ++ rules_done moduleId w (h2 ++ filter)
  else r = (false, h1).
Proof.
  intros unshare h1 r. unfold r, sandbox_create, sandbox_policy.
  cbn [sp_mountNamespace sp_pidNamespace sp_networkNamespace sp_seccomp sp_landlock sp_allowNetwork].
  pose proof (ns_create_done w h) as Hn. cbv zeta in Hn. fold unshare in Hn.
  unfold wp in Hn. fold h1 in Hn. clear r. unfold mount_isolate, sys_ok, bind, sys_int, ret.
  destruct (sandbox_ns_create true true false w h) as [ok h'] eqn:E. cbn [fst snd] in Hn.
  destruct (w_int w h unshare =? 0); [|by destruct Hn as [-> ->]].
  destruct Hn as [-> Em]. cbn [negb].
  change mount_private with (OpMount EmptyString "/" EmptyString 278528 EmptyString).
  rewrite Em. set (h2 := h1 ++ mounts_done w h1).
  destruct (seccomp_apply_done bd w h2) as (filter & Ef & Hf).
  destruct (seccomp_apply bd false w h2) as [b h3]. cbn [snd] in Ef. subst h3.
  pose proof (landlock_apply_done moduleId w (h2 ++ filter)) as El.
  destruct (landlock_apply _ _ w (h2 ++ filter)) as [b' h4]. cbn [snd] in El. subst h4.
  split; [done|]. by exists filter.
Qed.

(** Ends the process: the last operation is [_exit] with the result. *)
Definition exits (c : Sys Z) : Prop :=
  forall w h, exists t, (c w h).2 = h ++ t ++ [OpExit (c w h).1].

Lemma exits_bind {A} P (c : Sys A) k : emits P c -> (forall a, exits (k a)) -> exits (bind c k).
Proof.
  intros Hc Hk w h. unfold bind. destruct (Hc w h) as (t & E & _).
  destruct (c w h) as [a h']. cbn in E. subst h'. destruct (Hk a w (h ++ t)) as (t' & E').
  exists (t ++ t'). rewrite E'. by rewrite <- !app_assoc.
Qed.
Lemma exits_exit code : exits (exit_with code).
Proof. intros w h. by exists []. Qed.

Lemma sandbox_create_emits bd moduleId : emits (fun _ => True) (sandbox_create bd moduleId).
Proof.
  intros w h. pose proof (sandbox_create_stages bd moduleId w h) as Hs. cbv zeta in Hs.
  destruct (w_int w h _ =? 0).
  - destruct Hs as (_ & t1 & t2 & t3 & _ & _ & _ & E & _). eexists. split; [exact E|by apply Forall_true].
  - rewrite Hs. eexists. split; [reflexivity|by apply Forall_true].
Qed.

Lemma runner_child_exits bd moduleId : exits (runner_child bd moduleId).
Proof.
  unfold runner_child. apply (exits_bind _ _ _ (sandbox_create_emits bd moduleId)).
  intros [|]; cbn [negb]; [|apply exits_exit].
  repeat first [apply exits_exit
               | eapply (exits_bind (fun _ => True)); [first [by apply emits_int|by apply emits_do]|intros ?]
               | match goal with |- exits (if ?b then _ else _) => destruct b end].
Qed.

(** C21: Untrusted module code runs only in a child whose isolation has been
    set up before.  If the namespaces cannot be created the child exits with
    127 and does nothing else.  Otherwise, before the library is loaded: the
    mounts are made private and [/proc] is mounted anew; with libseccomp a
    filter is loaded that lets through none of the listed system calls for
    starting programs, tracing, signals, mounts, namespaces, sockets, users,
    modules and files, and those a module needs; and landlock is asked to
    confine the process to the listed paths.  A failure in one of these three
    stages does not keep the library from being loaded.  The child always
    ends in [_exit]: with the value of the module's entry, with 126 if the
    library and with 125 if the entry is missing. *)
Theorem runner_child_isolated bd moduleId w h :
  let unshare := OpUnshare 537001984 in
  let load := OpDlopen ("/data/astra/modules/" +:+ moduleId +:+ "/lib/module.so") in
  let entry := OpDlsym "avm_on_load" in
  let r := runner_child bd moduleId w h in
  (exists t, r.2 = h ++ t ++ [OpExit r.1]) /\
  if w_int w h unshare =? 0 then
    exists filter rest,
      let h1 := h ++ [unshare] in
      let h2 := h1 ++ mounts_done w h1 in
      let h3 := (h2 ++ filter) ++ rules_done moduleId w (h2 ++ filter) in
      filter_done bd w h2 filter /\ r.2 = h3 ++ load :: rest /\
      r.1 = (if w_int w h3 load =? 0 then 126
             else if w_int w (h3 ++ [load]) entry =? 0 then 125
             else w_int w (h3 ++ [load; entry]) OpCallEntry)
  else r = (127, h ++ [unshare; OpExit 127]).
Proof.
  intros unshare load entry r. split; [apply runner_child_exits|].
  pose proof (sandbox_create_done bd moduleId w h) as Hs. cbv zeta in Hs. fold unshare in Hs.
  unfold r, runner_child, exit_with, bind. clear r.
  destruct (w_int w h unshare =? 0); [|rewrite Hs; cbn; by rewrite <- app_assoc].
  destruct Hs as (Hok & filter & Hf & E). exists filter. cbv zeta.
  destruct (sandbox_create bd moduleId w h) as [ok h3]. cbn [fst snd] in Hok, E. rewrite <-E.
  subst ok. cbn [negb]. unfold sys_int, sys_do, ret. cbv beta iota.
  change (so_path moduleId) with (("/data/astra/modules/" +:+ moduleId) +:+ "/lib/module.so").
  rewrite app_str_assoc. fold load entry.
  destruct (w_int w h3 load =? 0); [|destruct (w_int w (h3 ++ [load]) entry =? 0)];
    eexists; (split; [exact Hf|]); cbn [fst snd]; rewrite <-!(assoc_L (++)); cbn [app]; done.
Qed.

(** ** The table of running modules *)

Definition about_pid (pid : Z) (o : sysop) : Prop :=
  match o with
  | OpKill p _ | OpWaitpid p _ => p = pid
  | OpCall name _ _ => name = "usleep"
  | _ => False
  end.

Lemma wait_loop_emits n pid : emits (about_pid pid) (wait_loop n pid).
Proof. induction n as [|n IH]; cbn [wait_loop]; emits_tac. Qed.
#[local] Hint Resolve wait_loop_emits : sys.

(** [stop] of a known module asks its process, and no other, to end, and
    forgets it; [stop] of an unknown one does nothing and fails. *)
Lemma runner_stop_spec g g_later moduleId w h :
  let r := runner_stop g g_later moduleId w h in
  match g !! moduleId with
  | None => r = ((false, g), h)
  | Some pid => r.1 = (true, delete moduleId g_later) /\
      exists t, r.2 = h ++ OpKill pid SIGTERM :: t /\ Forall (about_pid pid) t
  end.
Proof.
  unfold runner_stop. destruct (g !! moduleId) as [pid|]; [|done]. split.
  - apply (wp_run _ (fun a _ => a = (true, delete moduleId g_later))).
    apply wp_bind, wp_int, wp_bind, (wp_emits (about_pid pid)); [apply wait_loop_emits|].
    intros [|] t _; by wp_tac.
  - apply (wp_run _ (fun _ h' => exists t, h' = h ++ OpKill pid SIGTERM :: t /\ Forall (about_pid pid) t)).
    apply wp_bind, wp_int, wp_bind, (wp_emits (about_pid pid)); [apply wait_loop_emits|].
    intros reaped t Ht. apply wp_bind. apply (wp_emits (about_pid pid)); [emits_tac|]. intros _ t' Ht'.
    apply wp_ret. exists (t ++ t'). split; [by rewrite <- !app_assoc|by apply Forall_app].
Qed.

(** ** Stopping a module ends *)

(** The polls of [stop] that found the process alive. *)
Fixpoint polls (k : nat) (pid : Z) : trace :=
  match k with
  | O => []
  | S k' => [OpWaitpid pid true; OpCall "usleep" [] [100 * 1000]] ++ polls k' pid
  end.
(** What the poll after [k] such rounds answers, from the trace [h] on. *)
Definition poll_answer (w : World) (h : trace) (k : nat) (pid : Z) : Z :=
  w_int w (h ++ polls k pid) (OpWaitpid pid true).

Lemma polls_S k pid h :
  h ++ polls (S k) pid
  = ((h ++ [OpWaitpid pid true]) ++ [OpCall "usleep" [] [100 * 1000]]) ++ polls k pid.
Proof. cbn. by rewrite <-!(assoc_L (++)). Qed.

Lemma wait_loop_ends n pid w : forall h,
  let '(reaped, h') := wait_loop n pid w h in
  if reaped then exists k, (k < n)%nat /\ poll_answer w h k pid = pid
                           /\ h' = (h ++ polls k pid) ++ [OpWaitpid pid true]
  else (forall k, (k < n)%nat -> poll_answer w h k pid <> pid) /\ h' = h ++ polls n pid.
Proof.
  induction n as [|n IH]; intros h; cbn [wait_loop].
  { unfold ret. split; [lia|]. cbn. by rewrite app_nil_r. }
  unfold bind at 1, sys_int.
  destruct (Z.eqb_spec (w_int w h (OpWaitpid pid true)) pid) as [E|E].
  { exists 0%nat. unfold poll_answer. cbn. rewrite app_nil_r. split; [lia|]. done. }
  unfold bind, sys_do.
  specialize (IH ((h ++ [OpWaitpid pid true]) ++ [OpCall "usleep" [] [100 * 1000]])).
  destruct (wait_loop n pid w _) as [reaped h']. destruct reaped.
  - destruct IH as (k & Hk & Ha & ->). exists (S k). unfold poll_answer in *.
    rewrite polls_S. split; [lia|done].
  - destruct IH as [Ha ->]. split; [|by rewrite polls_S].
    intros [|k] Hk; unfold poll_answer in *; [cbn; by rewrite app_nil_r|].
    rewrite polls_S. apply Ha. lia.
Qed.

(** C38: What stopping a running module does.  Only the process that was found
    in the table is signalled: after SIGTERM it is polled at most thirty times;
    at the first poll that reports it, it has been reaped and nothing more is
    sent; if none does, SIGKILL is sent, and a [waitpid] without a time limit
    follows, which returns once the process has ended.  Then the module is
    erased from the table as it is by now, whatever process it names there, and
    the other entries stay.  [stop] of a module that is not listed does nothing. *)
Theorem runner_stop_signals g g_later moduleId w h :
  match g !! moduleId with
  | None => runner_stop g g_later moduleId w h = ((false, g), h)
  | Some pid =>
      let '((ok, g'), h') := runner_stop g g_later moduleId w h in
      let h1 := h ++ [OpKill pid 15] in
      ok = true
      /\ (forall id, g' !! id = if str_eqb id moduleId then None else g_later !! id)
      /\ ((exists k, (k < 30)%nat /\ poll_answer w h1 k pid = pid
                     /\ h' = (h1 ++ polls k pid) ++ [OpWaitpid pid true])
          \/ ((forall k, (k < 30)%nat -> poll_answer w h1 k pid <> pid)
              /\ h' = ((h1 ++ polls 30 pid) ++ [OpKill pid 9]) ++ [OpWaitpid pid false]))
  end.
Proof.
  unfold runner_stop. destruct (g !! moduleId) as [pid|]; [|done].
  unfold bind at 1, sys_int. unfold bind at 1. change SIGTERM with 15.
  pose proof (wait_loop_ends 30 pid w (h ++ [OpKill pid 15])) as Hw.
  assert (forall id, delete moduleId g_later !! id
    = if str_eqb id moduleId then None else g_later !! id) as Hd.
  { intros id. destruct (str_eqb id moduleId) eqn:E.
    - apply str_eqb_true in E as ->. apply lookup_delete_eq.
    - apply str_eqb_false in E. by rewrite lookup_delete_ne by congruence. }
  destruct (wait_loop 30 pid w _) as [[] h2].
  - unfold bind, ret. split; [done|]. split; [exact Hd|]. by left.
  - destruct Hw as [Ha ->]. unfold bind, ret. split; [done|]. split; [exact Hd|]. by right.
Qed.

(** ** Concrete runs *)

Fixpoint has_op (o : sysop) (h : trace) : bool :=
  match h with [] => false | x :: h' => bool_decide (x = o) || has_op o h' end.

Lemma has_op_elem o h : has_op o h = true <-> o ∈ h.
Proof.
  induction h as [|x h IH]; cbn; [split; [done|by intros ?%not_elem_of_nil]|].
  rewrite orb_true_iff, bool_decide_eq_true, IH, elem_of_cons. naive_solver.
Qed.

(** A kernel that accepts every call but those a loaded filter denies. *)
Definition filtering_world : World :=
  {| w_exists := fun _ _ => true; w_read := fun _ _ => None; w_popen := fun _ _ => None;
     w_now := fun _ => EmptyString;
     w_int := fun h o =>
       match o with
       | OpDlopen _ | OpDlsym _ => 7
       | OpCall name _ _ => if str_eqb name "seccomp_init" then 1 else 0
       | _ =>
           match syscall_name o with
           | Some s => if has_op OpSeccompLoad h && negb (has_op (OpSeccompAllow s) h) then -1 else 0
           | None => 0
           end
       end |}.

Lemma filtering_world_enforces : seccomp_enforced filtering_world.
Proof.
  intros h o s (h1 & h2 & -> & _) Hs Hn.
  assert (has_op OpSeccompLoad (h1 ++ OpSeccompLoad :: h2) = true) as HL
    by (apply has_op_elem; set_solver).
  assert (has_op (OpSeccompAllow s) (h1 ++ OpSeccompLoad :: h2) = false) as HA
    by (apply not_true_iff_false; by rewrite has_op_elem).
  destruct o; cbn [syscall_name] in Hs; try discriminate Hs; injection Hs as <-;
    cbn [filtering_world w_int syscall_name]; by rewrite HL, HA.
Qed.

Definition linux_build : Build := {| have_libseccomp := true; arm := false |}.

Lemma seccomp_disables_landlock_witness :
  exists t, (sandbox_create linux_build "m" filtering_world []).2 = t ++ [landlock_version] /\
    forall fd, landlock_restrict fd ∉ t.
Proof.
  refine (seccomp_disables_landlock linux_build "m" filtering_world [] filtering_world_enforces _ _ _).
  - intros H. apply not_elem_of_nil in H. exact H.
  - vm_compute. reflexivity.
  - assert (has_op OpSeccompLoad (sandbox_create linux_build "m" filtering_world []).2 = true) as HL
      by (vm_compute; reflexivity).
    apply has_op_elem, list_elem_of_split in HL as (h1 & h2 & E). exists h1, h2. split; [exact E|].
    cbn [filtering_world w_int syscall_name]. reflexivity.
Defined.

(** Two threads that start the same module both pass the check before either
    records its child: two processes run, and [stop] knows only the second. *)
Definition fork_world (pid : Z) : World :=
  {| w_exists := fun _ _ => true; w_read := fun _ _ => None; w_popen := fun _ _ => None;
     w_now := fun _ => EmptyString; w_int := fun _ _ => pid |}.
Example double_start :
  let t1 := (runner_start linux_build ∅ ∅ "m" (fork_world 100) []).1 in
  let g1 := <["m" := 100]> ∅ in
  let t2 := (runner_start linux_build ∅ g1 "m" (fork_world 200) []).1 in
  t1 = InParent true g1 /\ t2 = InParent true (<["m" := 200]> ∅).
Proof. split; reflexivity. Qed.

(** While [stop] waits for the process 41 another thread stops the module and
    starts it again as 77: the new process gets no signal, and it is no longer
    listed, so that nothing can stop it. *)
Example restart_lost :
  let w := fork_world (-1) in
  let r := runner_stop {["m" := 41]} {["m" := 77]} "m" w [] in
  r.1 = (true, ∅) /\ (forall s, OpKill 77 s ∉ r.2) /\
  (runner_stop r.1.2 ∅ "m" w r.2).1 = (false, ∅).
Proof.
  cbv zeta. pose proof (runner_stop_spec {["m" := 41]} {["m" := 77]} "m" (fork_world (-1)) []) as Hs.
  cbv zeta in Hs. change ({["m" := 41]} !! "m") with (Some 41) in Hs. destruct Hs as (E & t & Et & Ht).
  split; [by vm_compute|]. split; [|by vm_compute]. intros s Hin. rewrite Et in Hin. cbn in Hin.
  apply elem_of_cons in Hin as [[=]|Hin]. rewrite Forall_forall in Ht. by apply Ht in Hin.
Qed.
