(* ===== verification/Platform.v ===== *)
(** * Platform: logger, boot image, platform version, recovery, update

    Models [daemon/src/logger/logger.cpp], [boot/boot_parser.cpp],
    [boot/android_boot_provider.cpp], [platform/android_platform.cpp],
    [recovery/] and [update/update_manager.cpp].  The [printf] formatting of a
    record is the formatted text itself ([None] when [vsnprintf] fails). *)

From Stdlib Require Import ZArith Ascii String Lia.
From stdpp Require Import base numbers list strings gmap.
From S2P Require Import Prelude.

Open Scope Z_scope.

(** ** logger.cpp *)

Inductive Level := LDebug | LInfo | LWarn | LError.

Definition level_str (l : Level) : string :=
  match l with LDebug => "D" | LInfo => "I" | LWarn => "W" | LError => "E" end.

Definition kRingCapacity : nat := 1024.

Definition format_line (now : string) (level : Level) (tag msg : string) : string :=
  now +:+ " " +:+ level_str level +:+ "/" +:+ tag +:+ ": " +:+ msg.

(** [pop_front] until the capacity is respected. *)
Fixpoint pop_excess (fuel : nat) (ring : list string) : list string :=
  match fuel with
  | O => ring
  | S fuel' => if (kRingCapacity <? length ring)%nat then pop_excess fuel' (tail ring) else ring
  end.
Definition push_ring (ring : list string) (line : string) : list string :=
  let ring := ring ++ [line] in pop_excess (length ring) ring.

Definition log (stderr_enabled : bool) (level : Level) (tag msg : string) (ring : list string)
    : Sys (list string) :=
  let! now := sys_now in
  let line := format_line now level tag msg in
  (if stderr_enabled then sys_do (OpCall "fprintf" [line] []) else ret tt) ;;;
  ret (push_ring ring line).

Definition vlogf (stderr_enabled : bool) (level : Level) (tag : option string)
    (formatted : option string) (ring : list string) : Sys (list string) :=
  let msg := match formatted with None => "<log format error>" | Some text => text end in
  log stderr_enabled level (default "astrad" tag) msg ring.

Definition recent (ring : list string) (n : nat) : list string :=
  if (n =? 0)%nat || (length ring <=? n)%nat then ring else drop (length ring - n) ring.

(** ** boot_parser.cpp, android_boot_provider.cpp *)

Record BootInfo := { bi_valid : bool; bi_android_version : Z; bi_has_ramdisk : bool }.
Definition no_boot_info : BootInfo :=
  {| bi_valid := false; bi_android_version := 0; bi_has_ramdisk := false |}.

Definition boot_parse (path : string) : Sys BootInfo :=
  let! f := sys_read path in
  ret match f with
      | None => no_boot_info
      | Some content =>
          let magic := take_str 8 content in
          if negb (String.length magic =? 8)%nat then no_boot_info
          else if negb (str_eqb magic "ANDROID!") then
            if str_eqb magic "VNDRBOOT"
            then {| bi_valid := true; bi_android_version := 0; bi_has_ramdisk := true |}
            else no_boot_info
          else {| bi_valid := true; bi_android_version := 0; bi_has_ramdisk := true |}
      end.

Definition kBootPaths : list string :=
  ["/dev/block/by-name/init_boot"; "/dev/block/by-name/vendor_boot"; "/dev/block/by-name/boot"].

(** The state is [boot_path_]; an exception of [std::filesystem::exists]
    ([None]) leaves it as it was. *)
Fixpoint detect_path (paths : list string) (boot_path : string) : Sys (option (bool * string)) :=
  match paths with
  | [] => ret (Some (false, boot_path))
  | p :: rest =>
      let? found := sys_fs_exists p in
      if found then ret (Some (true, p)) else detect_path rest boot_path
  end.
Definition boot_provider_detect (boot_path : string) : Sys (option (bool * string)) :=
  detect_path kBootPaths boot_path.

Definition boot_unpack (boot_path : string) : Sys (option (bool * string)) :=
  let? found := (if is_empty boot_path then boot_provider_detect boot_path
                 else ret (Some (true, boot_path))) in
  let '(ok, boot_path) := found in
  if negb ok then ret (Some (false, boot_path))
  else
    let! info := boot_parse boot_path in
    ret (Some (bi_valid info, boot_path)).

Definition boot_provider_patch (boot_path : string) : Sys (option (bool * string)) :=
  let? unpacked := boot_unpack boot_path in
  let '(ok, boot_path) := unpacked in
  if negb ok then ret (Some (false, boot_path)) else ret (Some (true, boot_path)).

(** ** android_platform.cpp *)

Inductive AndroidVersion :=
  UNKNOWN | ANDROID_10 | ANDROID_11 | ANDROID_12 | ANDROID_13 | ANDROID_14 | ANDROID_15 | ANDROID_16.

Definition platform_label (v : AndroidVersion) : string :=
  match v with
  | ANDROID_10 => "Android 10" | ANDROID_11 => "Android 11" | ANDROID_12 => "Android 12"
  | ANDROID_13 => "Android 13" | ANDROID_14 => "Android 14" | ANDROID_15 => "Android 15"
  | ANDROID_16 => "Android 16" | UNKNOWN => "Android (unknown)"
  end.

Definition api_level_from_version (v : AndroidVersion) : Z :=
  match v with
  | ANDROID_10 => 29 | ANDROID_11 => 30 | ANDROID_12 => 31 | ANDROID_13 => 33
  | ANDROID_14 => 34 | ANDROID_15 => 35 | ANDROID_16 => 36 | UNKNOWN => 0
  end.

Definition version_of_release (release : Z) : AndroidVersion :=
  if release =? 10 then ANDROID_10 else if release =? 11 then ANDROID_11
  else if release =? 12 then ANDROID_12 else if release =? 13 then ANDROID_13
  else if release =? 14 then ANDROID_14 else if release =? 15 then ANDROID_15
  else if release =? 16 then ANDROID_16 else UNKNOWN.

Definition release_key : string := "ro.build.version.release=".

(** The loop over the lines of build.prop. *)
Fixpoint release_from_lines (lines : list string) : Z :=
  match lines with
  | [] => 0
  | line :: rest =>
      match str_find release_key line 0 with
      | Some pos => scan_int (drop_str (pos + 24) line)
      | None => release_from_lines rest
      end
  end.

(** The two builds: on Android the property's value is an argument. *)
Inductive PlatformBuild := OnAndroid (property : option string) | OffAndroid.

Definition detect_android_version (build : PlatformBuild) : Sys AndroidVersion :=
  match build with
  | OnAndroid property =>
      ret (version_of_release (match property with Some v => scan_int v | None => 0 end))
  | OffAndroid =>
      let! f := sys_read "/system/build.prop" in
      ret (version_of_release
             (match f with Some content => release_from_lines (getlines content) | None => 0 end))
  end.

Definition make_android_platform (build : PlatformBuild) : Sys (option AndroidVersion) :=
  let! v := detect_android_version build in
  ret (match v with UNKNOWN => None | _ => Some v end).

(** ** recovery/ *)

Definition kCrashThreshold : Z := 3.
Abbreviation CrashGuard := (gmap string Z).

Definition registerModule (g : CrashGuard) (id : string) : CrashGuard := <[id := 0]> g.
Definition reportCrash (g : CrashGuard) (id : string) : bool * CrashGuard :=
  let count := default 0 (g !! id) + 1 in
  (kCrashThreshold <=? count, <[id := count]> g).
Definition shouldDisable (g : CrashGuard) (id : string) : bool :=
  match g !! id with Some count => kCrashThreshold <=? count | None => false end.

Definition snapshot_path (id : string) : string := "/data/astra/recovery/" +:+ id +:+ ".snap".

Definition createSnapshot (id : string) : Sys bool :=
  sys_do (OpMkdirs (parent_path (snapshot_path id))) ;;;
  sys_ok (OpWrite (snapshot_path id) ("astra-snapshot:" +:+ id +:+ nl)).
(** [None] is the exception of [std::filesystem::exists]. *)
Definition rollback_restore (id : string) : Sys (option bool) := sys_fs_exists (snapshot_path id).

(** ** update_manager.cpp *)

Definition update_check : bool := false.
Definition update_verify : bool := true.
Definition update_install : bool := true.
Definition update_rollback : bool := true.

(** ** android/, recovery_manager.cpp, sandbox.cpp

    Of these only the property store does anything yet; the others log and
    report success.  [sysget] and [sysset] are bionic's property functions:
    the value of a name, and 0 for success. *)

Definition property_get (android : bool) (sysget : string -> string) (key : string) : string :=
  if android then
    let buf := sysget key in
    if 0 <? str_size buf then buf else EmptyString
  else EmptyString.
Definition property_set (android : bool) (sysset : string -> string -> Z) (key value : string)
    : bool :=
  if android then sysset key value =? 0 else true.

Definition system_server_connect : bool := true.
Definition system_server_registerService : bool := true.
Definition zygote_connect : bool := true.
Definition zygote_registerHook : bool := true.
Definition zygote_removeHook : bool := true.

Definition boot_provider_restore : bool := true.

(** What [onDaemonCrash] logs, which is all it does. *)
Definition recovery_cleanup : list (Level * string) :=
  [(LInfo, "RecoveryManager: cleanup - terminating module processes")].
Definition recovery_restore : list (Level * string) :=
  [(LInfo, "RecoveryManager: restore - re-initialising daemon service")].
Definition onDaemonCrash : list (Level * string) :=
  [(LError, "RecoveryManager: daemon crash detected - cleaning up")]
  ++ recovery_cleanup ++ recovery_restore.

Record SandboxConfig := { sb_root : string; sb_network : bool; sb_write_paths : list string }.
Definition sandbox_setup (config : SandboxConfig) : bool := true.
Definition sandbox_teardown (config : SandboxConfig) : bool := true.

(** ** Theorems *)

Definition last_n {A} (n : nat) (l : list A) : list A := drop (length l - n) l.

Lemma pop_excess_last fuel : forall ring,
  (length ring <= kRingCapacity + fuel)%nat -> pop_excess fuel ring = last_n kRingCapacity ring.
Proof.
  unfold last_n. induction fuel as [|fuel IH]; intros ring Hl; cbn [pop_excess].
  { replace (length ring - kRingCapacity)%nat with 0%nat by lia. done. }
  destruct (Nat.ltb_spec kRingCapacity (length ring)) as [Hc|Hc].
  - destruct ring as [|x ring]; [cbn in Hc; lia|]. cbn [tail length] in *. rewrite IH by lia.
    replace (S (length ring) - kRingCapacity)%nat with (S (length ring - kRingCapacity)) by lia. done.
  - by replace (length ring - kRingCapacity)%nat with 0%nat by lia.
Qed.

Lemma last_n_snoc {A} n (l : list A) x : (0 < n)%nat -> last_n n (last_n n l ++ [x]) = last_n n (l ++ [x]).
Proof.
  intros Hn. unfold last_n. rewrite !length_app, length_drop. cbn [length].
  rewrite <- (drop_app_le l) by lia. rewrite drop_drop. f_equal. lia.
Qed.

(** The ring holds the last 1024 lines in the order in which they were logged,
    and [recent] gives the last of those. *)
Theorem logger_ring lines n :
  fold_left push_ring lines [] = last_n kRingCapacity lines /\
  recent (fold_left push_ring lines []) n =
    last_n (if (n =? 0)%nat then kRingCapacity else n `min` kRingCapacity) lines.
Proof.
  assert (fold_left push_ring lines [] = last_n kRingCapacity lines) as E.
  { induction lines as [|line lines IH] using rev_ind; [done|].
    rewrite fold_left_app, IH. cbn [fold_left]. unfold push_ring.
    rewrite pop_excess_last by lia. apply last_n_snoc. unfold kRingCapacity. lia. }
  split; [exact E|]. rewrite E. unfold recent, last_n. rewrite length_drop.
  destruct (Nat.eqb_spec n 0); [done|]. cbn [orb].
  destruct (Nat.leb_spec (length lines - (length lines - kRingCapacity)) n) as [Hl|Hl].
  - f_equal. lia.
  - rewrite drop_drop. f_equal. lia.
Qed.

(** A line is cut at the character before the end of the key, its equals
    sign, from which no number can be read. *)
Lemma release_key_cut line pos :
  str_find release_key line 0 = Some pos -> exists rest, drop_str (pos + 24) line = String "=" rest.
Proof.
  intros Hf. apply String.index_correct1 in Hf.
  assert (String.get (24 + pos) line = Some "="%char) as Hg.
  { rewrite <- (String.substring_correct1 line pos (String.length release_key) 24) by (cbn; lia).
    by rewrite Hf. }
  assert (pos + 24 < String.length line)%nat as Hl.
  { clear Hf. revert Hg. replace (pos + 24)%nat with (24 + pos)%nat by lia. generalize (24 + pos)%nat.
    induction line as [|c line IH]; intros k; [by destruct k|]. destruct k as [|k]; cbn; [lia|].
    intros Hk%IH. lia. }
  clear Hf. unfold drop_str. destruct (String.substring _ _ _) as [|c rest] eqn:E.
  - apply (f_equal (String.get 0)) in E. rewrite String.substring_correct1 in E by lia.
    replace (0 + (pos + 24))%nat with (24 + pos)%nat in E by lia. by rewrite Hg in E.
  - exists rest. f_equal. apply (f_equal (String.get 0)) in E.
    rewrite String.substring_correct1 in E by lia.
    replace (0 + (pos + 24))%nat with (24 + pos)%nat in E by lia. rewrite Hg in E. by injection E.
Qed.

Lemma release_from_lines_zero lines : release_from_lines lines = 0.
Proof.
  induction lines as [|line lines IH]; cbn [release_from_lines]; [done|].
  destruct (str_find release_key line 0) as [pos|] eqn:E; [|done].
  by apply release_key_cut in E as (rest & ->).
Qed.

(** on Android the platform is the one that the leading number of the
    release property names, for the releases 10 to 16, and there is none for
    anything else; in the build for other hosts no platform is ever created,
    whatever the build.prop file says, because the version is read from the
    equals sign of the line. *)
Theorem platform_detection w h :
  (forall n, 10 <= n <= 16 -> exists v,
     (make_android_platform (OnAndroid (Some (show_Z n))) w h).1 = Some v /\
     platform_label v = "Android " +:+ show_Z n /\ 29 <= api_level_from_version v) /\
  (forall property v, (make_android_platform (OnAndroid property) w h).1 = Some v ->
     exists s, property = Some s /\ 10 <= scan_int s <= 16 /\
       platform_label v = "Android " +:+ show_Z (scan_int s)) /\
  (make_android_platform OffAndroid w h).1 = None.
Proof.
  assert (forall r v, version_of_release r = v -> v <> UNKNOWN ->
    10 <= r <= 16 /\ platform_label v = "Android " +:+ show_Z r /\ 29 <= api_level_from_version v) as Hv.
  { intros r v <-. unfold version_of_release.
    repeat match goal with |- context [r =? ?k] => destruct (Z.eqb_spec r k) as [->|] end;
      intros Hu; try done; (split_and!; [lia|vm_compute; reflexivity|cbn; lia]). }
  split_and!.
  - intros n Hn. cbn. exists (version_of_release n).
    assert (n = 10 \/ n = 11 \/ n = 12 \/ n = 13 \/ n = 14 \/ n = 15 \/ n = 16) as Hc by lia.
    destruct Hc as [->|[->|[->|[->|[->|[->| ->]]]]]]; (split_and!; [reflexivity|reflexivity|vm_compute; congruence]).
  - intros property v. cbn. destruct property as [s|]; [|done]. set (u := version_of_release (scan_int s)).
    intros Hm. assert (u = v /\ u <> UNKNOWN) as [<- Hu] by (destruct u; split; congruence).
    exists s. by destruct (Hv (scan_int s) u eq_refl Hu) as (? & ? & _).
  - unfold make_android_platform, detect_android_version, bind, sys_read, ret. cbn.
    destruct (w_read w h "/system/build.prop"); [by rewrite release_from_lines_zero|done].
Qed.

(** ** Crashes *)

Inductive crash_op := CRegister (id : string) | CReport (id : string).
Definition crash_step (g : CrashGuard) (o : crash_op) : CrashGuard :=
  match o with CRegister id => registerModule g id | CReport id => (reportCrash g id).2 end.

(** The crashes of a module since it was last registered. *)
Fixpoint crashes (id : string) (history : list crash_op) : Z :=
  match history with
  | [] => 0
  | CRegister id' :: earlier => if str_eqb id' id then 0 else crashes id earlier
  | CReport id' :: earlier => if str_eqb id' id then crashes id earlier + 1 else crashes id earlier
  end.

(** A module is disabled exactly from its third crash since it was last
    registered. *)
Theorem crash_guard_spec ops id :
  shouldDisable (fold_left crash_step ops ∅) id = (kCrashThreshold <=? crashes id (rev ops)).
Proof.
  assert (default 0 (fold_left crash_step ops ∅ !! id) = crashes id (rev ops)) as E.
  { induction ops as [|o ops IH] using rev_ind; [done|].
    rewrite fold_left_app, rev_app_distr. cbn [fold_left rev app].
    set (g := fold_left crash_step ops ∅) in *.
    destruct o as [id'|id']; unfold crash_step, registerModule, reportCrash; cbn [crash_step crashes registerModule reportCrash snd];
      (destruct (str_eqb id' id) eqn:Ei;
        [apply str_eqb_true in Ei as ->; rewrite lookup_insert_eq; cbn; by rewrite ?IH
        |apply str_eqb_false in Ei; by rewrite lookup_insert_ne]). }
  rewrite <- E. unfold shouldDisable. by destruct (fold_left crash_step ops ∅ !! id).
Qed.

Lemma length_take_le n (s : string) : (String.length (take_str n s) <= String.length s)%nat.
Proof.
  unfold take_str. revert n. induction s as [|c s IH]; intros [|n]; cbn; [lia..|].
  specialize (IH n). lia.
Qed.

(** A boot image is accepted exactly by its magic. *)
Theorem boot_parse_spec path w h :
  bi_valid (boot_parse path w h).1 = true <->
  exists rest, w_read w h path = Some ("ANDROID!" +:+ rest) \/ w_read w h path = Some ("VNDRBOOT" +:+ rest).
Proof.
  unfold boot_parse, bind, sys_read, ret. cbn [fst].
  destruct (w_read w h path) as [content|]; [|split; [done|by intros (? & [?|?])]].
  assert (forall m, String.length m = 8%nat -> take_str 8 content = m <-> exists rest, content = m +:+ rest) as Ht.
  { intros m Hm. split.
    - intros <-. exists (drop_str 8 content). symmetry. apply take_drop_str.
      pose proof (length_take_le 8 content). lia.
    - intros (rest & ->). rewrite <- Hm. apply take_str_app. }
  destruct (Nat.eqb_spec (String.length (take_str 8 content)) 8) as [Hl|Hl]; cbn [negb].
  - destruct (str_eqb (take_str 8 content) "ANDROID!") eqn:Ea; cbn [negb].
    + apply str_eqb_true in Ea. apply Ht in Ea as (rest & ->); [|done]. split; [intros _; eauto|done].
    + apply str_eqb_false in Ea. destruct (str_eqb (take_str 8 content) "VNDRBOOT") eqn:Ev.
      * apply str_eqb_true in Ev. apply Ht in Ev as (rest & ->); [|done]. split; [intros _; eauto|done].
      * apply str_eqb_false in Ev. split; [done|]. intros (rest & [[= ->]|[= ->]]); exfalso.
        -- apply Ea, Ht; eauto.
        -- apply Ev, Ht; eauto.
  - split; [done|]. intros (rest & [[= ->]|[= ->]]); destruct Hl.
    + exact (f_equal String.length (take_str_app "ANDROID!" rest)).
    + exact (f_equal String.length (take_str_app "VNDRBOOT" rest)).
Qed.
