(* ===== verification/Zygisk.v ===== *)
(** * Zygisk: the interface between the framework and a module

    [module-spoof/jni/include/zygisk.hpp]: the table of functions the
    framework hands to a module, every one but [registerModule] optional, the
    [Api] methods over it, the [module_abi] through which the framework calls
    back into the module, and [entry_impl], which ties the two together.

    The framework itself is not part of the repository: its functions are the
    fields of [api_table], computations of any kind. *)

From Stdlib Require Import ZArith String.
From stdpp Require Import base list strings.
From S2P Require Import Prelude.

Open Scope Z_scope.

(** ** Constants and arguments *)

Definition ZYGISK_API_VERSION : Z := 4.

(** [enum Option]. *)
Inductive ApiOption := FORCE_DENYLIST_UNMOUNT | DLCLOSE_MODULE_LIBRARY.
Definition option_code (o : ApiOption) : Z :=
  match o with FORCE_DENYLIST_UNMOUNT => 0 | DLCLOSE_MODULE_LIBRARY => 1 end.

(** [enum StateFlag]: bits of what [getFlags] returns. *)
Definition PROCESS_GRANTED_ROOT : Z := Z.shiftl 1 0.
Definition PROCESS_ON_DENYLIST : Z := Z.shiftl 1 1.

(** References to Java objects: a string is null or its characters, an array
    of integers null or its elements, other arrays are handles. *)
Definition jstring : Type := option string.
Definition jintArray : Type := option (list Z).
Definition jobjectArray : Type := Z.

(** The values the references and pointers of [AppSpecializeArgs] lead to;
    the optional ones are null pointers on some versions. *)
Record AppSpecializeArgs := {
  app_uid : Z;
  app_gid : Z;
  app_gids : jintArray;
  app_runtime_flags : Z;
  rlimits : jobjectArray;
  mount_external : Z;
  se_info : jstring;
  nice_name : jstring;
  instruction_set : jstring;
  app_data_dir : jstring;
  fds_to_ignore : option jintArray;
  is_child_zygote : option bool;
  is_top_app : option bool;
  pkg_data_info_list : option jobjectArray;
  whitelisted_data_info_list : option jobjectArray;
  mount_data_dirs : option bool;
  mount_storage_dirs : option bool;
}.

Record ServerSpecializeArgs := {
  srv_uid : Z;
  srv_gid : Z;
  srv_gids : jintArray;
  srv_runtime_flags : Z;
  permitted_capabilities : Z;
  effective_capabilities : Z;
}.

(** ** The table of the framework and the [Api] methods *)

Record JNINativeMethod := { jm_name : string; jm_signature : string; jm_fnPtr : Z }.

(** [registerModule] sees the version the module was compiled for; the other
    functions may be null. *)
Record api_table := {
  tbl_impl : Z;
  registerModule : Z -> Sys bool;
  tbl_hookJniNativeMethods : option (option string -> list JNINativeMethod -> Sys (list JNINativeMethod));
  tbl_pltHookRegister : option (Z -> Z -> string -> Z -> Z -> Sys unit);
  tbl_exemptFd : option (Z -> Sys bool);
  tbl_pltHookCommit : option (Sys bool);
  tbl_connectCompanion : option (Z -> Sys Z);
  tbl_setOption : option (Z -> ApiOption -> Sys unit);
  tbl_getModuleDir : option (Z -> Sys Z);
  tbl_getFlags : option (Z -> Sys Z);
}.

Definition connectCompanion (tbl : api_table) : Sys Z :=
  match tbl_connectCompanion tbl with Some f => f (tbl_impl tbl) | None => ret (-1) end.
Definition getModuleDir (tbl : api_table) : Sys Z :=
  match tbl_getModuleDir tbl with Some f => f (tbl_impl tbl) | None => ret (-1) end.
Definition setOption (tbl : api_table) (opt : ApiOption) : Sys unit :=
  match tbl_setOption tbl with Some f => f (tbl_impl tbl) opt | None => ret tt end.
Definition getFlags (tbl : api_table) : Sys Z :=
  match tbl_getFlags tbl with Some f => f (tbl_impl tbl) | None => ret 0 end.
Definition exemptFd (tbl : api_table) (fd : Z) : Sys bool :=
  match tbl_exemptFd tbl with Some f => f fd | None => ret false end.
(** The methods are replaced in place. *)
Definition hookJniNativeMethods (tbl : api_table) (className : option string)
    (methods : list JNINativeMethod) : Sys (list JNINativeMethod) :=
  match tbl_hookJniNativeMethods tbl with Some f => f className methods | None => ret methods end.
Definition pltHookRegister (tbl : api_table) (dev inode : Z) (symbol : string)
    (newFunc oldFunc : Z) : Sys unit :=
  match tbl_pltHookRegister tbl with
  | Some f => f dev inode symbol newFunc oldFunc
  | None => ret tt
  end.
Definition pltHookCommit (tbl : api_table) : Sys bool :=
  match tbl_pltHookCommit tbl with Some f => f | None => ret false end.

(** ** Modules *)

(** What a module does may end in the access through a null pointer
    ([None]).  The [Api] object is static; a module holds its address, and
    its methods find there the table that the last [entry_impl] stored. *)
Definition Run (A : Type) : Type := Sys (option A).
Definition done {A} (a : A) : Run A := ret (Some a).
Definition run_bind {A B} (c : Run A) (k : A -> Run B) : Run B :=
  let! r := c in match r with Some a => k a | None => ret None end.

(** [ModuleBase], with the module's own state [S]: the virtual methods. *)
Record ModuleBase (S : Type) := {
  onLoad : Z -> S -> Run S;
  preApp : option api_table -> AppSpecializeArgs -> S -> Run (S * AppSpecializeArgs);
  postApp : option api_table -> AppSpecializeArgs -> S -> Run S;
  preServer : option api_table -> ServerSpecializeArgs -> S -> Run (S * ServerSpecializeArgs);
  postServer : option api_table -> ServerSpecializeArgs -> S -> Run S;
}.
Arguments onLoad {S} _. Arguments preApp {S} _. Arguments postApp {S} _.
Arguments preServer {S} _. Arguments postServer {S} _.

(** The methods of [ModuleBase] that a class does not override. *)
Definition module_base (S : Type) : ModuleBase S := {|
  onLoad := fun _ m => done m;
  preApp := fun _ args m => done (m, args);
  postApp := fun _ _ m => done m;
  preServer := fun _ args m => done (m, args);
  postServer := fun _ _ m => done m |}.

Section module.
Context {S : Type} (T : ModuleBase S) (construct : S).

(** [module_abi]: the version and the functions that forward to the virtual
    methods. *)
Record module_abi := {
  api_version : Z;
  abi_preAppSpecialize : option api_table -> AppSpecializeArgs -> S -> Run (S * AppSpecializeArgs);
  abi_postAppSpecialize : option api_table -> AppSpecializeArgs -> S -> Run S;
  abi_preServerSpecialize :
    option api_table -> ServerSpecializeArgs -> S -> Run (S * ServerSpecializeArgs);
  abi_postServerSpecialize : option api_table -> ServerSpecializeArgs -> S -> Run S;
}.
Definition make_abi : module_abi := {|
  api_version := ZYGISK_API_VERSION;
  abi_preAppSpecialize := fun api args m => preApp T api args m;
  abi_postAppSpecialize := fun api args m => postApp T api args m;
  abi_preServerSpecialize := fun api args m => preServer T api args m;
  abi_postServerSpecialize := fun api args m => postServer T api args m |}.

(** The static variables of [entry_impl]: [api.tbl], and the module and its
    [abi] once they are constructed. *)
Record statics := {
  st_tbl : option api_table;
  st_module : option S;
  st_abi : option module_abi;
}.
Definition no_statics : statics := {| st_tbl := None; st_module := None; st_abi := None |}.

(** [entry_impl]; the result also says whether [onLoad] was reached. *)
Definition entry_impl (table : api_table) (env : Z) (st : statics) : Run (statics * bool) :=
  let module := default construct (st_module st) in
  let abi := default make_abi (st_abi st) in
  let loaded m := {| st_tbl := Some table; st_module := Some m; st_abi := Some abi |} in
  let! ok := registerModule table (api_version abi) in
  if negb ok then done (loaded module, false)
  else run_bind (onLoad T env module) (fun m => done (loaded m, true)).

(** The order of calls the header documents for a process forked for an
    application: the module is loaded, and called before and after the process
    is specialized, unless the framework refused it. *)
Definition app_process (table : api_table) (env : Z) (args : AppSpecializeArgs) : Run (option S) :=
  run_bind (entry_impl table env no_statics) (fun '(st, registered) =>
    match registered, st_module st, st_abi st with
    | true, Some m, Some abi =>
        run_bind (abi_preAppSpecialize abi (st_tbl st) args m) (fun '(m, args) =>
        run_bind (abi_postAppSpecialize abi (st_tbl st) args m) (fun m => done (Some m)))
    | _, _, _ => done None
    end).
End module.

(** ** The defaults *)

Lemma run_bind_done {A B} (a : A) (k : A -> Run B) w h : run_bind (done a) k w h = k a w h.
Proof. reflexivity. Qed.

(** A table whose optional functions are null makes every method a no-op
    that reports failure. *)
Definition bare_table (register : Z -> Sys bool) : api_table := {|
  tbl_impl := 0; registerModule := register; tbl_hookJniNativeMethods := None;
  tbl_pltHookRegister := None; tbl_exemptFd := None; tbl_pltHookCommit := None;
  tbl_connectCompanion := None; tbl_setOption := None; tbl_getModuleDir := None;
  tbl_getFlags := None |}.

(** A module that overrides nothing leaves the process as it found it: after
    registering there is no call and no change. *)
Lemma base_module_inert {S} (construct : S) table env args w h :
  let '(r, h') := registerModule table ZYGISK_API_VERSION w h in
  app_process (module_base S) construct table env args w h
  = (Some (if r then Some construct else None), h').
Proof.
  unfold app_process, entry_impl, run_bind, bind. cbn.
  by destruct (registerModule _ _ w h) as [[] h'].
Qed.
