(* ===== verification/Shield.v ===== *)
(** * Shield: the environment shield of the zygisk module

    [module-spoof/jni/src/env_shield.cpp], loaded into application processes:
    hooks on libc's [openat] and [syscall] that hide some paths and serve
    filtered copies of some files of [/proc].  The hooked functions' originals
    and the other calls are operations of the system; the Dobby hooking
    library is the call [DobbyHook], which answers 0 when the hook is in place
    and the address of the original has been stored. *)

From Stdlib Require Import ZArith Ascii String Lia.
From stdpp Require Import base numbers list strings pretty.
From S2P Require Import Prelude Lines.

Open Scope Z_scope.

(** ** Configuration and state *)

Record ShieldConfig := {
  hide_root : bool;
  hide_magisk : bool;
  hide_xposed : bool;
  hide_mounts : bool;
  hide_maps : bool;
  hide_selinux : bool;
  hide_debugger : bool;
  hide_frida : bool;
  hide_net_unix : bool;
  momo_bypass : bool;
  ruru_bypass : bool;
  chunqiu_bypass : bool;
  hunter_bypass : bool;
}.

(** The initialisers of the structure. *)
Definition default_shield : ShieldConfig := {|
  hide_root := true; hide_magisk := true; hide_xposed := true; hide_mounts := true;
  hide_maps := true; hide_selinux := true; hide_debugger := true; hide_frida := true;
  hide_net_unix := true; momo_bypass := false; ruru_bypass := false;
  chunqiu_bypass := false; hunter_bypass := false |}.

(** The static variables of the file: [g_config], and whether [orig_openat]
    and [orig_syscall] are set. *)
Record shield_state := {
  g_config : ShieldConfig;
  orig_openat_set : bool;
  orig_syscall_set : bool;
}.
Definition shield_init : shield_state :=
  {| g_config := default_shield; orig_openat_set := false; orig_syscall_set := false |}.

Definition HIDDEN_PREFIXES : list string :=
  ["/data/adb/magisk"; "/data/adb/modules"; "/data/adb/lspd"; "/data/adb/lsposed";
   "/data/adb/astraveil"; "/data/adb/post-fs-data.d"; "/data/adb/service.d";
   "/sbin/su"; "/system/bin/su"; "/system/xbin/su"; "/system/sbin/su";
   "/vendor/bin/su"; "/odm/bin/su"; "/data/local/su"; "/data/local/bin/su";
   "/data/local/xbin/su"; "/system/etc/.installed_su_daemon";
   "/data/misc/riru"; "/system/lib/libxposed"; "/system/lib64/libxposed";
   "/data/data/de.robv.android.xposed"; "/data/data/org.lsposed";
   "/data/data/org.meowcat.edxposed";
   "/data/local/tmp/frida"; "/data/local/tmp/re.frida"; "/tmp/frida";
   "/system/app/Superuser.apk"; "/system/app/SuperSU"; "/system/app/KingRoot"].

Definition MOUNT_SIGNATURES : list string :=
  ["magisk"; "worker"; "/data/adb"; "tmpfs /system"; "tmpfs /vendor"; "tmpfs /product";
   "mirror"].

Definition UNIX_SOCKET_SIGNATURES : list string :=
  ["magisk"; "zygisk"; "lsposed"; "riru"; "astraveil"].

(** ** The filters *)

(** The loop the filters share: the rest of the text from [pos] on is cut
    after its first newline, or at its end, and [emit] says what the line
    adds to [out]. *)
Fixpoint line_loop (emit : string -> string) (fuel : nat) (raw : string) (pos : nat)
    (out : string) : string :=
  match fuel with
  | O => out
  | S fuel' =>
      if (pos <? String.length raw)%nat then
        let nlp := match str_find nl raw pos with Some n => n | None => String.length raw end in
        let line := String.substring pos (nlp - pos + 1) raw in
        line_loop emit fuel' raw (nlp + 1) (out +:+ emit line)
      else out
  end.
Definition edit_lines (emit : string -> string) (raw : string) : string :=
  line_loop emit (S (String.length raw)) raw 0 EmptyString.

(** [if (!hide) out += line]. *)
Definition unless (hide : string -> bool) (line : string) : string :=
  if hide line then EmptyString else line.
(** The loop over an array of signatures. *)
Fixpoint has_signature (sigs : list string) (line : string) : bool :=
  match sigs with
  | [] => false
  | sig :: sigs' => if contains line sig then true else has_signature sigs' line
  end.

Definition filter_mounts (raw : string) : string :=
  edit_lines (unless (has_signature MOUNT_SIGNATURES)) raw.

Definition tracer_line : string := "TracerPid:" +:+ String (ascii_of_nat 9) ("0" +:+ nl).
Definition status_line (line : string) : string :=
  if contains line "TracerPid:" then tracer_line else line.
Definition filter_status (raw : string) : string := edit_lines status_line raw.

Definition filter_unix (raw : string) : string :=
  edit_lines (unless (has_signature UNIX_SOCKET_SIGNATURES)) raw.

Definition tcp_hidden (cfg : ShieldConfig) (line : string) : bool :=
  if hide_frida cfg then contains line ":69A2" || contains line ":69A3" else false.
Definition filter_tcp (cfg : ShieldConfig) (raw : string) : string :=
  edit_lines (unless (tcp_hidden cfg)) raw.

Definition maps_hidden (line : string) : bool :=
  contains line "astraveil" || contains line "dobby" || contains line "zygisk"
  || contains line "lsposed" || contains line "riru" || contains line "xposed"
  || contains line "magisk" || contains line "frida".
Definition filter_maps (raw : string) : string := edit_lines (unless maps_hidden) raw.

(** ** The hooks *)

Definition O_CREAT : Z := 64.
Definition ENOENT : Z := 2.
(** [__NR_openat] of arm64. *)
Definition NR_openat : Z := 56.
Definition MFD_CLOEXEC : Z := 1.

(** [memfd_with]: an anonymous file with the given content, [-1] when there
    is none.  The results of [write] and [lseek] are ignored. *)
Definition memfd_with (content : string) : Sys Z :=
  let! r := sys_int (OpCall "memfd_create" ["shield"] [MFD_CLOEXEC]) in
  let fd := i32 r in
  if fd <? 0 then ret (-1)
  else
    sys_do (OpCall "write" [content] [fd; str_size content]) ;;;
    sys_do (OpCall "lseek" [] [fd; 0; 0]) ;;;
    ret fd.

(** The function behind [orig_openat]; without [O_CREAT] no mode is passed. *)
Definition orig_openat (dirfd : Z) (path : option string) (flags : Z) (mode : option Z) : Sys Z :=
  sys_int (OpCall "openat" (match path with Some p => [p] | None => [] end)
             ([dirfd; flags] ++ match mode with Some m => [m] | None => [] end)).

(** [read_real]: the read loop is one operation, which answers what was read
    until end of file or an error. *)
Definition read_real (dirfd : Z) (path : string) (flags : Z) : Sys string :=
  let! fd := orig_openat dirfd (Some path) flags None in
  if fd <? 0 then ret EmptyString
  else
    let! content := sys_read path in
    sys_do (OpCall "close" [] [fd]) ;;;
    ret (default EmptyString content).

Definition should_hide_path (cfg : ShieldConfig) (path : string) : bool :=
  if existsb (fun prefix => starts_with prefix path) HIDDEN_PREFIXES then true
  else if hide_magisk cfg && starts_with "/data/adb" path then true
  else false.

(** One of the blocks of [hooked_openat]: with the switch on and one of the
    names given, the filtered content is served, unless nothing was read. *)
Definition serve_filtered (switch : bool) (names : list string) (f : string -> string)
    (dirfd : Z) (pathname : string) (flags : Z) (rest : Sys (Z * option Z)) : Sys (Z * option Z) :=
  if switch then
    if existsb (str_eqb pathname) names then
      let! raw := read_real dirfd pathname flags in
      if negb (is_empty raw) then let! fd := memfd_with (f raw) in ret (fd, None)
      else rest
    else rest
  else rest.

(** [hooked_openat]: the result, and the value [errno] is set to by the hook
    itself.  [mode] is the variadic argument, read only with [O_CREAT]. *)
Definition hooked_openat (cfg : ShieldConfig) (dirfd : Z) (pathname : option string)
    (flags mode : Z) : Sys (Z * option Z) :=
  let passthrough : Sys (Z * option Z) :=
    if negb (Z.land flags O_CREAT =? 0)
    then let! fd := orig_openat dirfd pathname flags (Some mode) in ret (fd, None)
    else let! fd := orig_openat dirfd pathname flags None in ret (fd, None) in
  match pathname with
  | Some path =>
      if should_hide_path cfg path then ret (-1, Some ENOENT)
      else
        serve_filtered (hide_mounts cfg)
          ["/proc/self/mountinfo"; "/proc/mounts"; "/proc/self/mounts"] filter_mounts
          dirfd path flags
        (serve_filtered (hide_debugger cfg) ["/proc/self/status"] filter_status
          dirfd path flags
        (serve_filtered (hide_net_unix cfg) ["/proc/net/unix"] filter_unix
          dirfd path flags
        (serve_filtered (hide_frida cfg) ["/proc/net/tcp"; "/proc/net/tcp6"] (filter_tcp cfg)
          dirfd path flags
        (let maps := serve_filtered (hide_maps cfg) ["/proc/self/maps"; "/proc/self/smaps"]
                       filter_maps dirfd path flags passthrough in
         if hide_selinux cfg then
           if str_eqb path "/sys/fs/selinux/enforce"
           then let! fd := memfd_with "1" in ret (fd, None)
           else maps
         else maps))))
  | None => passthrough
  end.

(** [hooked_syscall]: the arguments are machine words; [mem] gives the string
    a non-null pointer refers to. *)
Definition hooked_syscall (cfg : ShieldConfig) (mem : Z -> string)
    (number a1 a2 a3 a4 a5 a6 : Z) : Sys (Z * option Z) :=
  if number =? NR_openat then
    let dirfd := i32 a1 in
    let pathname := a2 in
    let flags := i32 a3 in
    if negb (pathname =? 0) && should_hide_path cfg (mem pathname) then ret (-1, Some ENOENT)
    else let! r := sys_int (OpCall "syscall" [] [number; dirfd; pathname; flags]) in ret (r, None)
  else let! r := sys_int (OpCall "syscall" [] [number; a1; a2; a3; a4; a5; a6]) in ret (r, None).

(** One hook of [EnvShield::install]: [set] says whether the original is
    already known. *)
Definition install_hook (symbol : string) (set : bool) : Sys bool :=
  let! addr := sys_int (OpDlsym symbol) in
  if negb (addr =? 0) && negb set then sys_ok (OpCall "DobbyHook" [symbol] []) else ret set.

Definition install (config : ShieldConfig) (st : shield_state) : Sys shield_state :=
  let! o := install_hook "openat" (orig_openat_set st) in
  let! s := (if momo_bypass config then install_hook "syscall" (orig_syscall_set st)
             else ret (orig_syscall_set st)) in
  ret {| g_config := config; orig_openat_set := o; orig_syscall_set := s |}.

(** ** What the filters produce *)

Lemma line_loop_spec emit fuel pre rest out :
  (String.length rest < fuel)%nat ->
  line_loop emit fuel (pre +:+ rest) (String.length pre) out
  = out +:+ concat_str (map emit (lines_keep rest)).
Proof.
  revert pre rest out. induction fuel as [|fuel IH]; intros pre rest out Hf; [lia|].
  cbn [line_loop]. rewrite length_app_str, str_find_at.
  destruct (Nat.ltb_spec (String.length pre) (String.length pre + String.length rest)) as [Hl|Hl].
  2:{ destruct rest; [|cbn in Hl; lia]. cbn. by rewrite app_str_nil_r. }
  destruct (line_split rest) as [Hr|(a & b & Ha & ->)].
  - rewrite (str_find_char_none newline rest Hr : str_find nl rest 0 = None). cbn [option_map].
    assert (Hne : rest <> EmptyString) by (intros ->; cbn in Hl; lia).
    rewrite substring_at, substring_over by lia. rewrite lines_keep_last by done.
    destruct fuel as [|fuel]; [destruct rest; [done|cbn in Hf; lia]|].
    cbn [line_loop map concat_str].
    rewrite (proj2 (Nat.ltb_ge _ _)) by (rewrite length_app_str; lia). by rewrite app_str_nil_r.
  - rewrite (str_find_char newline a b Ha : str_find nl _ 0 = _). cbn [option_map].
    rewrite substring_at, lines_keep_line by done. cbn [map concat_str].
    replace (String.length pre + String.length a - String.length pre + 1)%nat
      with (String.length (a +:+ nl)) by (rewrite length_app_str; cbn; lia).
    rewrite <-(app_nl a b), (take_str_app (a +:+ nl) b : String.substring 0 _ _ = _).
    rewrite <-app_str_assoc.
    replace (String.length pre + String.length a + 1)%nat
      with (String.length (pre +:+ a +:+ nl)) by (rewrite !length_app_str; cbn; lia).
    rewrite IH; [by rewrite app_str_assoc|]. rewrite length_app_str in Hf. cbn in Hf. lia.
Qed.

Lemma edit_lines_spec emit raw :
  edit_lines emit raw = concat_str (map emit (lines_keep raw)).
Proof. unfold edit_lines. apply (line_loop_spec emit _ EmptyString). lia. Qed.

(** The lines of [raw] without any of [sigs]. *)
Definition kept_lines (sigs : list string) (raw : string) : list string :=
  List.filter (fun l => negb (has_signature sigs l)) (lines_keep raw).

Lemma unless_kept sigs raw :
  concat_str (map (unless (has_signature sigs)) (lines_keep raw))
  = concat_str (kept_lines sigs raw).
Proof.
  unfold kept_lines. induction (lines_keep raw) as [|l ls IH]; [done|]. cbn.
  unfold unless at 1. destruct (has_signature sigs l); cbn; by rewrite IH.
Qed.

Lemma line_seq_filter P ls : line_seq ls -> line_seq (List.filter P ls).
Proof.
  induction 1; cbn; try (destruct (P _)); try done; by constructor.
Qed.

Lemma has_signature_existsb sigs l : has_signature sigs l = existsb (contains l) sigs.
Proof. induction sigs as [|s sigs IH]; [done|]. cbn. by destruct (contains l s). Qed.

Lemma kept_clean sigs raw sig :
  sig ∈ sigs -> no_char newline sig -> sig <> EmptyString ->
  contains (concat_str (kept_lines sigs raw)) sig = false.
Proof.
  intros Hin Hn Hne.
  rewrite contains_lines by (done || apply line_seq_filter, lines_keep_seq).
  apply not_true_is_false. rewrite existsb_exists. intros (l & Hl & Hc).
  apply filter_In in Hl as [_ Hl]. rewrite has_signature_existsb in Hl.
  apply negb_true_iff in Hl. apply not_true_iff_false in Hl. apply Hl, existsb_exists.
  exists sig. split; [by apply list_elem_of_In|done].
Qed.

Lemma kept_idempotent sigs raw :
  concat_str (kept_lines sigs (concat_str (kept_lines sigs raw)))
  = concat_str (kept_lines sigs raw).
Proof.
  f_equal. unfold kept_lines at 1.
  rewrite line_seq_lines by (apply line_seq_filter, lines_keep_seq).
  unfold kept_lines. induction (lines_keep raw) as [|l ls IH]; [done|]. cbn.
  destruct (negb (has_signature sigs l)) eqn:E; [|done]. cbn. rewrite E. by f_equal.
Qed.

(** The signatures of the two filters that test them one by one. *)
Definition FRIDA_PORTS : list string := [":69A2"; ":69A3"].
Definition MAPS_SIGNATURES : list string :=
  ["astraveil"; "dobby"; "zygisk"; "lsposed"; "riru"; "xposed"; "magisk"; "frida"].

Lemma edit_lines_ext e1 e2 raw : (forall l, e1 l = e2 l) -> edit_lines e1 raw = edit_lines e2 raw.
Proof. intros E. rewrite !edit_lines_spec. f_equal. by apply map_ext. Qed.

Lemma unless_ext h1 h2 l : h1 l = h2 l -> unless h1 l = unless h2 l.
Proof. unfold unless. by intros ->. Qed.

Lemma filter_kept sigs hide raw :
  (forall l, hide l = has_signature sigs l) ->
  edit_lines (unless hide) raw = concat_str (kept_lines sigs raw).
Proof.
  intros E. rewrite <-unless_kept, <-edit_lines_spec. apply edit_lines_ext.
  intros l. by apply unless_ext.
Qed.

Lemma filter_none_kept raw : edit_lines (unless (fun _ => false)) raw = raw.
Proof. rewrite edit_lines_spec, (map_ext _ id) by done. rewrite map_id. apply concat_lines. Qed.

(** Each of the five filters of the shield, a loop of [find] and
    [substr], is the obvious function of the lines of its input: the lines
    without a signature in order ([filter_tcp] only with [hide_frida]), and
    for [filter_status] every line with TracerPid replaced. *)
Theorem filters_spec cfg raw :
  filter_mounts raw = concat_str (kept_lines MOUNT_SIGNATURES raw)
  /\ filter_unix raw = concat_str (kept_lines UNIX_SOCKET_SIGNATURES raw)
  /\ filter_maps raw = concat_str (kept_lines MAPS_SIGNATURES raw)
  /\ filter_tcp cfg raw
     = (if hide_frida cfg then concat_str (kept_lines FRIDA_PORTS raw) else raw)
  /\ filter_status raw = concat_str (map status_line (lines_keep raw))
  /\ lines_keep (filter_status raw) = map status_line (lines_keep raw).
Proof.
  split_and!.
  - by apply filter_kept.
  - by apply filter_kept.
  - apply filter_kept. intros l. unfold maps_hidden. cbn.
    by repeat destruct (contains l _).
  - unfold filter_tcp, tcp_hidden. destruct (hide_frida cfg); [|apply filter_none_kept].
    apply filter_kept. intros l. cbn. by repeat destruct (contains l _).
  - apply edit_lines_spec.
  - unfold filter_status. rewrite edit_lines_spec. apply line_seq_lines.
    induction (lines_keep_seq raw) as [|a Ha Hne|a ls Ha Hls IH]; cbn; [constructor| |].
    + unfold status_line. destruct (contains a _); [|by constructor].
      apply (ls_cons (String.substring 0 12 tracer_line)); [|constructor].
      repeat split; by vm_compute.
    + unfold status_line at 1. destruct (contains _ _); [|by constructor].
      apply (ls_cons (String.substring 0 12 tracer_line)); [|done].
      repeat split; by vm_compute.
Qed.

(** ** The blocks of the hook as views of a path

    The path does not exist, has a fixed content, has its content edited, or is
    left alone. *)
Inductive view :=
| Absent
| Fixed (content : string)
| Edited (f : string -> string)
| AsIs.

Definition mem_str (p : string) (l : list string) : bool := existsb (str_eqb p) l.
Definition mount_files : list string :=
  ["/proc/self/mountinfo"; "/proc/mounts"; "/proc/self/mounts"].
Definition tcp_files : list string := ["/proc/net/tcp"; "/proc/net/tcp6"].
Definition maps_files : list string := ["/proc/self/maps"; "/proc/self/smaps"].

Definition path_view (cfg : ShieldConfig) (path : string) : view :=
  if should_hide_path cfg path then Absent
  else if hide_mounts cfg && mem_str path mount_files then Edited filter_mounts
  else if hide_debugger cfg && mem_str path ["/proc/self/status"] then Edited filter_status
  else if hide_net_unix cfg && mem_str path ["/proc/net/unix"] then Edited filter_unix
  else if hide_frida cfg && mem_str path tcp_files then Edited (filter_tcp cfg)
  else if hide_selinux cfg && str_eqb path "/sys/fs/selinux/enforce" then Fixed "1"
  else if hide_maps cfg && mem_str path maps_files then Edited filter_maps
  else AsIs.

Definition passthrough (dirfd : Z) (path : string) (flags mode : Z) : Sys (Z * option Z) :=
  let! fd := orig_openat dirfd (Some path) flags
               (if Z.land flags O_CREAT =? 0 then None else Some mode) in ret (fd, None).

Definition served (content : string) : Sys (Z * option Z) :=
  let! fd := memfd_with content in ret (fd, None).

Definition present (v : view) (dirfd : Z) (path : string) (flags mode : Z) : Sys (Z * option Z) :=
  match v with
  | Absent => ret (-1, Some ENOENT)
  | Fixed c => served c
  | Edited f => let! raw := read_real dirfd path flags in
                if is_empty raw then passthrough dirfd path flags mode else served (f raw)
  | AsIs => passthrough dirfd path flags mode
  end.

Lemma serve_filtered_miss sw names f dirfd path flags rest :
  sw && mem_str path names = false ->
  serve_filtered sw names f dirfd path flags rest = rest.
Proof. unfold serve_filtered, mem_str. by destruct sw, (existsb _ _). Qed.

Lemma serve_filtered_hit sw names f dirfd path flags mode rest w h :
  sw && mem_str path names = true ->
  (forall w h, rest w h = passthrough dirfd path flags mode w h) ->
  serve_filtered sw names f dirfd path flags rest w h
  = present (Edited f) dirfd path flags mode w h.
Proof.
  unfold serve_filtered, mem_str, present, served.
  intros [-> ->]%andb_true_iff Hr. unfold bind.
  destruct (read_real _ _ _ _ _) as [raw h1]. destruct raw; cbn; [|done]. apply Hr.
Qed.

(** The names of the blocks are pairwise different. *)
Lemma mem_str_disjoint p l1 l2 :
  forallb (fun x => negb (mem_str x l2)) l1 = true -> mem_str p l1 = true -> mem_str p l2 = false.
Proof.
  rewrite forallb_forall. intros Hd Hp. unfold mem_str in Hp.
  apply existsb_exists in Hp as (x & Hx & ->%str_eqb_true).
  apply Hd in Hx. by apply negb_true_iff in Hx.
Qed.

Lemma andb_false_of (b c : bool) : c = false -> b && c = false.
Proof. by intros ->; rewrite andb_false_r. Qed.

(** [Hm : mem_str path l = true]: the block of other names is passed over. *)
Ltac shield_miss Hm :=
  apply andb_false_of; refine (mem_str_disjoint _ _ _ _ Hm); by vm_compute.
Lemma mem_str_one p x : str_eqb p x = mem_str p [x].
Proof. cbn. by rewrite orb_false_r. Qed.
Lemma selinux_miss (b : bool) p l :
  mem_str p l = true ->
  forallb (fun x => negb (mem_str x ["/sys/fs/selinux/enforce"])) l = true ->
  b && mem_str p ["/sys/fs/selinux/enforce"] = false.
Proof. intros Hm Hd. by apply andb_false_of, (mem_str_disjoint p l). Qed.
Ltac shield_hit H :=
  apply serve_filtered_hit; [done|]; apply andb_true_iff in H as [_ H];
  rewrite !serve_filtered_miss by shield_miss H;
  try (rewrite (selinux_miss _ _ _ H) by (by vm_compute)); done.

Lemma if_andb {A} (b c : bool) (x y : A) :
  (if b then if c then x else y else y) = if b && c then x else y.
Proof. by destruct b, c. Qed.

Lemma hooked_openat_present cfg dirfd path flags mode w h :
  hooked_openat cfg dirfd (Some path) flags mode w h
  = present (path_view cfg path) dirfd path flags mode w h.
Proof.
  unfold hooked_openat, path_view. cbv zeta. rewrite !mem_str_one, if_andb.
  set (pt := if negb (Z.land flags O_CREAT =? 0) then _ else _).
  assert (Hpt : forall w h, pt w h = passthrough dirfd path flags mode w h)
    by (intros; subst pt; unfold passthrough; by destruct (Z.land _ _ =? 0)).
  destruct (should_hide_path cfg path); [done|].
  destruct (hide_mounts cfg && _) eqn:H1; [shield_hit H1|rewrite serve_filtered_miss by done].
  destruct (hide_debugger cfg && _) eqn:H2; [shield_hit H2|rewrite serve_filtered_miss by done].
  destruct (hide_net_unix cfg && _) eqn:H3; [shield_hit H3|rewrite serve_filtered_miss by done].
  destruct (hide_frida cfg && _) eqn:H4; [shield_hit H4|rewrite serve_filtered_miss by done].
  destruct (hide_selinux cfg && _) eqn:H5; [done|].
  destruct (hide_maps cfg && _) eqn:H6; [by apply serve_filtered_hit|].
  rewrite serve_filtered_miss by done. apply Hpt.
Qed.

(** ** What the application is meant to see

    The contract of the [openat] hook, written down without the functions of
    the code: which paths do not exist, which files are edited and how, and the
    calls that each answer takes. *)

Definition su_binaries : list string :=
  ["/sbin/su"; "/system/bin/su"; "/system/xbin/su"; "/system/sbin/su"; "/vendor/bin/su";
   "/odm/bin/su"; "/data/local/su"; "/data/local/bin/su"; "/data/local/xbin/su";
   "/system/etc/.installed_su_daemon"].
Definition root_apps : list string :=
  ["/system/app/Superuser.apk"; "/system/app/SuperSU"; "/system/app/KingRoot"].
Definition module_dirs : list string :=
  ["/data/adb/astraveil"; "/data/adb/lspd"; "/data/adb/lsposed"; "/data/adb/magisk";
   "/data/adb/modules"; "/data/adb/post-fs-data.d"; "/data/adb/service.d"].
Definition xposed_files : list string :=
  ["/data/data/de.robv.android.xposed"; "/data/data/org.lsposed";
   "/data/data/org.meowcat.edxposed"; "/data/misc/riru"; "/system/lib/libxposed";
   "/system/lib64/libxposed"].
Definition frida_files : list string :=
  ["/data/local/tmp/frida"; "/data/local/tmp/re.frida"; "/tmp/frida"].

(** A path is hidden if it begins with one of these names. *)
Definition hidden_names (cfg : ShieldConfig) : list string :=
  su_binaries ++ root_apps ++ module_dirs ++ xposed_files ++ frida_files
  ++ (if hide_magisk cfg then ["/data/adb"] else []).
Definition hidden (cfg : ShieldConfig) (path : string) : bool :=
  existsb (fun name => String.prefix name path) (hidden_names cfg).

(** The text without the lines that hold one of [traces]. *)
Definition drop_lines (traces : list string) (text : string) : string :=
  concat_str (List.filter (fun line => negb (existsb (fun t => contains line t) traces))
                (lines_keep text)).
(** The text of a process that nobody traces. *)
Definition untraced (text : string) : string :=
  concat_str (map (fun line =>
      if contains line "TracerPid:"
      then "TracerPid:" +:+ String (ascii_of_nat 9) (String (ascii_of_nat 48) nl) else line)
    (lines_keep text)).

Definition mount_traces : list string :=
  ["/data/adb"; "magisk"; "mirror"; "tmpfs /product"; "tmpfs /system"; "tmpfs /vendor"; "worker"].
Definition socket_traces : list string := ["astraveil"; "lsposed"; "magisk"; "riru"; "zygisk"].
(** The ports 27042 and 27043 in hexadecimal. *)
Definition port_traces : list string := [":69A2"; ":69A3"].
Definition map_traces : list string :=
  ["astraveil"; "dobby"; "frida"; "lsposed"; "magisk"; "riru"; "xposed"; "zygisk"].

(** The files whose text is edited, each with its switch. *)
Definition edited_files : list (string * (ShieldConfig -> bool) * (string -> string)) :=
  [("/proc/self/mountinfo", hide_mounts, drop_lines mount_traces);
   ("/proc/mounts", hide_mounts, drop_lines mount_traces);
   ("/proc/self/mounts", hide_mounts, drop_lines mount_traces);
   ("/proc/self/status", hide_debugger, untraced);
   ("/proc/net/unix", hide_net_unix, drop_lines socket_traces);
   ("/proc/net/tcp", hide_frida, drop_lines port_traces);
   ("/proc/net/tcp6", hide_frida, drop_lines port_traces);
   ("/proc/self/maps", hide_maps, drop_lines map_traces);
   ("/proc/self/smaps", hide_maps, drop_lines map_traces)].
Fixpoint edit_of (cfg : ShieldConfig) (path : string)
    (files : list (string * (ShieldConfig -> bool) * (string -> string)))
    : option (string -> string) :=
  match files with
  | [] => None
  | (name, switch, edit) :: files' =>
      if str_eqb path name && switch cfg then Some edit else edit_of cfg path files'
  end.

(** The file as it is: one [openat], with a mode only to create it (64). *)
Definition opened (w : World) (h : trace) (path : option string) (dirfd flags mode : Z)
    : (Z * option Z) * trace :=
  let o := OpCall "openat" (match path with Some p => [p] | None => [] end)
             (if Z.land flags 64 =? 0 then [dirfd; flags] else [dirfd; flags; mode]) in
  ((w_int w h o, None), h ++ [o]).

(** An anonymous file that holds [content], rewound; no file if it cannot be made. *)
Definition anonymous (w : World) (h : trace) (content : string) : (Z * option Z) * trace :=
  let create := OpCall "memfd_create" ["shield"] [1] in
  let fd := i32 (w_int w h create) in
  if fd <? 0 then ((-1, None), h ++ [create])
  else ((fd, None), h ++ [create; OpCall "write" [content] [fd; str_size content];
                          OpCall "lseek" [] [fd; 0; 0]]).

(** What can be read of the file; its descriptor is closed again. *)
Definition real_text (w : World) (h : trace) (path : string) (dirfd flags : Z) : string * trace :=
  let o := OpCall "openat" [path] [dirfd; flags] in
  let fd := w_int w h o in
  if fd <? 0 then (EmptyString, h ++ [o])
  else (default EmptyString (w_read w (h ++ [o]) path), h ++ [o; OpRead path; OpCall "close" [] [fd]]).

(** The answer to [openat], the value [errno] is set to, and the calls made. *)
Definition shown (cfg : ShieldConfig) (w : World) (h : trace) (path : string)
    (dirfd flags mode : Z) : (Z * option Z) * trace :=
  if hidden cfg path then ((-1, Some 2), h)
  else if hide_selinux cfg && str_eqb path "/sys/fs/selinux/enforce" then anonymous w h "1"
  else
    match edit_of cfg path edited_files with
    | Some edit =>
        let '(text, h') := real_text w h path dirfd flags in
        if is_empty text then opened w h' (Some path) dirfd flags mode
        else anonymous w h' (edit text)
    | None => opened w h (Some path) dirfd flags mode
    end.

(** *** The hook meets it *)

Lemma existsb_same {A} (f : A -> bool) `{EqDecision A} l1 l2 :
  forallb (fun x => bool_decide (x ∈ l2)) l1 = true ->
  forallb (fun x => bool_decide (x ∈ l1)) l2 = true -> existsb f l1 = existsb f l2.
Proof.
  rewrite !forallb_forall. intros H1 H2. apply eq_bool_prop_intro.
  rewrite !Is_true_true, !existsb_exists.
  split; intros (x & Hx & Hf); exists x; (split; [|done]); apply list_elem_of_In;
    [apply H1 in Hx|apply H2 in Hx]; by apply bool_decide_eq_true in Hx.
Qed.

Lemma should_hide_hidden cfg path : should_hide_path cfg path = hidden cfg path.
Proof.
  unfold should_hide_path, hidden, hidden_names, starts_with.
  rewrite !(assoc_L (++)), existsb_app.
  rewrite (existsb_same _ HIDDEN_PREFIXES
    ((((su_binaries ++ root_apps) ++ module_dirs) ++ xposed_files) ++ frida_files))
    by (by vm_compute).
  destruct (existsb _ _); [done|]. cbn [orb]. destruct (hide_magisk cfg); cbn [andb]; [|done].
  cbn [existsb]. by destruct (String.prefix "/data/adb" path).
Qed.

Lemma kept_drop sigs traces raw :
  forallb (fun x => bool_decide (x ∈ traces)) sigs = true ->
  forallb (fun x => bool_decide (x ∈ sigs)) traces = true ->
  concat_str (kept_lines sigs raw) = drop_lines traces raw.
Proof.
  intros H1 H2. unfold kept_lines, drop_lines. f_equal. apply List.filter_ext. intros l.
  by rewrite has_signature_existsb, (existsb_same (contains l) sigs traces H1 H2).
Qed.

Lemma filters_drop cfg raw :
  filter_mounts raw = drop_lines mount_traces raw
  /\ filter_unix raw = drop_lines socket_traces raw
  /\ filter_maps raw = drop_lines map_traces raw
  /\ (hide_frida cfg = true -> filter_tcp cfg raw = drop_lines port_traces raw)
  /\ filter_status raw = untraced raw.
Proof.
  destruct (filters_spec cfg raw) as (-> & -> & -> & -> & -> & _).
  split_and!; [by apply kept_drop..| |done]. intros ->. by apply kept_drop.
Qed.

Definition edit_agrees (v : view) (selinux : bool) (o : option (string -> string)) : Prop :=
  match v with
  | Absent => False
  | Fixed c => selinux = true /\ c = "1"
  | Edited f => selinux = false /\ exists g, o = Some g /\ forall raw, f raw = g raw
  | AsIs => selinux = false /\ o = None
  end.

(** Compare closed strings. *)
Ltac eval_eqb :=
  repeat match goal with |- context [str_eqb ?a ?b] =>
    let v := eval vm_compute in (str_eqb a b) in
    lazymatch v with true => idtac | false => idtac end; change (str_eqb a b) with v end.

(** One name of a file: if the path is that, decide the switches. *)
Ltac edit_case cfg path name :=
  destruct (str_eqb path name) eqn:?;
  [match goal with E : str_eqb path _ = true |- _ => apply str_eqb_true in E; subst path end;
   eval_eqb; rewrite ?andb_false_r, ?orb_false_r, ?andb_true_r; cbn [andb orb];
   repeat match goal with |- context [if ?s cfg then _ else _] => destruct (s cfg) eqn:? end;
   cbn [edit_agrees];
   (split; [done|]); try done; eexists; (split; [done|]); intros raw; by apply (filters_drop cfg)
  |].

Lemma path_view_edits cfg path : should_hide_path cfg path = false ->
  edit_agrees (path_view cfg path)
    (hide_selinux cfg && str_eqb path "/sys/fs/selinux/enforce") (edit_of cfg path edited_files).
Proof.
  intros Hh. unfold path_view. rewrite Hh. clear Hh.
  unfold mem_str, mount_files, tcp_files, maps_files, edited_files. cbn [existsb edit_of].
  edit_case cfg path "/proc/self/mountinfo". edit_case cfg path "/proc/mounts".
  edit_case cfg path "/proc/self/mounts". edit_case cfg path "/proc/self/status".
  edit_case cfg path "/proc/net/unix". edit_case cfg path "/proc/net/tcp".
  edit_case cfg path "/proc/net/tcp6". edit_case cfg path "/proc/self/maps".
  edit_case cfg path "/proc/self/smaps". edit_case cfg path "/sys/fs/selinux/enforce".
  cbn [orb andb]. rewrite ?andb_false_r. done.
Qed.

Lemma memfd_anonymous content w h : served content w h = anonymous w h content.
Proof.
  unfold served, memfd_with, anonymous, bind, sys_int, sys_do, ret, MFD_CLOEXEC. cbv zeta.
  destruct (_ <? 0); [done|]. by rewrite <-!(assoc_L (++)).
Qed.

Lemma passthrough_opened dirfd path flags mode w h :
  passthrough dirfd path flags mode w h = opened w h (Some path) dirfd flags mode.
Proof. unfold passthrough, opened, orig_openat, bind, sys_int, ret, O_CREAT. by destruct (_ =? 0). Qed.

Lemma read_real_text dirfd path flags w h :
  read_real dirfd path flags w h = real_text w h path dirfd flags.
Proof.
  unfold read_real, real_text, orig_openat, bind, sys_int, sys_read, sys_do, ret. cbn [app].
  destruct (_ <? 0); [done|]. by rewrite <-!(assoc_L (++)).
Qed.

(** C29: The [openat] hook shows an application exactly what it is meant to
    see, on every path, flag word and mode, whatever the system answers.  A
    path that begins with a hidden name does not exist (ENOENT, without a
    call); the SELinux status reads as enforcing; a listed file reads, from an
    anonymous file, as its text without the lines that hold a trace (or with
    TracerPid 0), its own descriptor being closed, and is opened as it is when
    no text could be read; every other path, and a null one, goes to the
    original with its arguments unchanged, the mode only to create a file. *)
Theorem hooked_openat_refines cfg dirfd pathname flags mode w h :
  hooked_openat cfg dirfd pathname flags mode w h
  = match pathname with
    | Some path => shown cfg w h path dirfd flags mode
    | None => opened w h None dirfd flags mode
    end.
Proof.
  destruct pathname as [path|].
  2: { unfold hooked_openat, opened, orig_openat, bind, sys_int, ret, O_CREAT.
       by destruct (Z.land flags 64 =? 0). }
  rewrite hooked_openat_present. unfold shown. rewrite <-should_hide_hidden.
  destruct (should_hide_path cfg path) eqn:Eh; [unfold path_view; by rewrite Eh|].
  pose proof (path_view_edits cfg path Eh) as Ha.
  destruct (path_view cfg path) as [|c|f|]; cbn [edit_agrees present] in *; [done|..].
  - destruct Ha as [-> ->]. apply memfd_anonymous.
  - destruct Ha as [-> (g & -> & Hg)]. unfold bind at 1. rewrite read_real_text.
    destruct (real_text w h path dirfd flags) as [text h'].
    destruct (is_empty text); [apply passthrough_opened|]. by rewrite Hg, memfd_anonymous.
  - destruct Ha as [-> ->]. apply passthrough_opened.
Qed.

(** The texts that must not occur in what is served for a path. *)
Definition secrets (path : string) : list string :=
  if mem_str path mount_files then MOUNT_SIGNATURES
  else if mem_str path ["/proc/net/unix"] then UNIX_SOCKET_SIGNATURES
  else if mem_str path tcp_files then FRIDA_PORTS
  else if mem_str path maps_files then MAPS_SIGNATURES
  else [].

Definition clean (path content : string) : Prop :=
  (forall sig, sig ∈ secrets path -> contains content sig = false)
  /\ (mem_str path ["/proc/self/status"] = true ->
      forall l, l ∈ lines_keep content -> contains l "TracerPid:" = true -> l = tracer_line).

(** The operations of the hook on [path]. *)
Definition hook_op (dirfd : Z) (path : string) (flags mode : Z)
    (o : sysop) : Prop :=
  o = OpCall "openat" [path] [dirfd; flags]
  \/ (o = OpCall "openat" [path] [dirfd; flags; mode] /\ Z.land flags O_CREAT <> 0)
  \/ o = OpRead path
  \/ o = OpCall "memfd_create" ["shield"] [MFD_CLOEXEC]
  \/ (exists fd, o = OpCall "close" [] [fd] \/ o = OpCall "lseek" [] [fd; 0; 0])
  \/ (exists fd c, o = OpCall "write" [c] [fd; str_size c] /\ clean path c).

Definition plain (sig : string) : bool :=
  negb (is_empty sig) && negb (contains sig nl).

Lemma contains_newline_no_char s : contains s nl = false -> no_char newline s.
Proof.
  destruct (line_split s) as [H|(a & b & Ha & ->)]; [done|].
  intros Hc. exfalso. apply not_true_iff_false in Hc. apply Hc, contains_spec.
  by exists a, b.
Qed.

Lemma kept_clean_all sigs raw sig :
  forallb plain sigs = true -> sig ∈ sigs ->
  contains (concat_str (kept_lines sigs raw)) sig = false.
Proof.
  rewrite forallb_forall. intros Hp Hin.
  specialize (Hp sig (proj1 (list_elem_of_In _ _) Hin)).
  apply andb_true_iff in Hp as [H1%negb_true_iff H2%negb_true_iff].
  apply kept_clean; [done|by apply contains_newline_no_char|by apply is_empty_false].
Qed.

Lemma secrets_plain path : forallb plain (secrets path) = true.
Proof. unfold secrets. by repeat destruct (mem_str path _). Qed.

Lemma status_tracer raw l :
  l ∈ lines_keep (filter_status raw) -> contains l "TracerPid:" = true -> l = tracer_line.
Proof.
  destruct (filters_spec default_shield raw) as (_ & _ & _ & _ & _ & ->).
  rewrite list_elem_of_In, in_map_iff. intros (x & <- & _). unfold status_line.
  destruct (contains x "TracerPid:") eqn:E; [done|by rewrite E].
Qed.

Lemma kept_clean_path path raw :
  mem_str path ["/proc/self/status"] = false ->
  clean path (concat_str (kept_lines (secrets path) raw)).
Proof.
  intros Hs. split; [|by rewrite Hs]. intros sig. apply kept_clean_all, secrets_plain.
Qed.

(** The path is in [l]; it is in no list disjoint from [l]. *)
Ltac not_in H l2 :=
  lazymatch type of H with mem_str ?p _ = true =>
    let E := fresh in
    assert (E : mem_str p l2 = false)
      by (refine (mem_str_disjoint _ _ _ _ H); by vm_compute);
    rewrite E; clear E
  end.

Lemma path_view_clean cfg path f raw : path_view cfg path = Edited f -> clean path (f raw).
Proof.
  pose proof (filters_spec cfg raw) as (Em & Eu & Ex & Et & _).
  pose proof (kept_clean_path path raw) as Hc. revert Hc. unfold secrets at 1, path_view.
  destruct (should_hide_path cfg path); [done|].
  destruct (hide_mounts cfg && _) eqn:H1.
  { apply andb_true_iff in H1 as [_ H1]. rewrite H1. not_in H1 ["/proc/self/status"].
    intros Hc [= <-]. rewrite Em. by apply Hc. }
  destruct (hide_debugger cfg && _) eqn:H2.
  { apply andb_true_iff in H2 as [_ H2]. intros _ [= <-]. split; [|intros _ l; apply status_tracer].
    unfold secrets. not_in H2 mount_files. not_in H2 ["/proc/net/unix"]. not_in H2 tcp_files.
    not_in H2 maps_files. by intros sig ?%not_elem_of_nil. }
  destruct (hide_net_unix cfg && _) eqn:H3.
  { apply andb_true_iff in H3 as [_ H3]. rewrite H3. not_in H3 ["/proc/self/status"].
    not_in H3 mount_files. intros Hc [= <-]. rewrite Eu. by apply Hc. }
  destruct (hide_frida cfg && _) eqn:H4.
  { apply andb_true_iff in H4 as [Hf H4]. rewrite H4. not_in H4 ["/proc/self/status"].
    not_in H4 mount_files. not_in H4 ["/proc/net/unix"]. intros Hc [= <-].
    rewrite Et, Hf. by apply Hc. }
  destruct (hide_selinux cfg && _); [done|].
  destruct (hide_maps cfg && _) eqn:H6; [|done].
  apply andb_true_iff in H6 as [_ H6]. rewrite H6. not_in H6 ["/proc/self/status"].
  not_in H6 mount_files. not_in H6 ["/proc/net/unix"]. not_in H6 tcp_files.
  intros Hc [= <-]. rewrite Ex. by apply Hc.
Qed.

Lemma path_view_fixed cfg path c : path_view cfg path = Fixed c -> clean path c.
Proof.
  unfold path_view. destruct (should_hide_path cfg path); [done|].
  do 4 (destruct (_ && mem_str _ _); [done|]). rewrite mem_str_one.
  destruct (hide_selinux cfg && _) eqn:H.
  2:{ by destruct (hide_maps cfg && _). }
  intros [= <-]. apply andb_true_iff in H as [_ H]. split.
  - unfold secrets. not_in H mount_files. not_in H ["/proc/net/unix"]. not_in H tcp_files.
    not_in H maps_files. by intros sig ?%not_elem_of_nil.
  - by not_in H ["/proc/self/status"].
Qed.

Section ops.
Context (dirfd : Z) (path : string) (flags mode : Z).
Let P := hook_op dirfd path flags mode.

Lemma hook_op_memfd c : clean path c -> emits P (served c).
Proof.
  intros Hc. unfold served, memfd_with. emits_tac; unfold P, hook_op; naive_solver.
Qed.
Lemma hook_op_open m :
  m = None \/ (m = Some mode /\ Z.land flags O_CREAT <> 0) ->
  emits P (orig_openat dirfd (Some path) flags m).
Proof.
  intros [->|[-> Hf]]; unfold orig_openat; cbn; emits_tac; unfold P, hook_op; naive_solver.
Qed.
Lemma hook_op_read : emits P (read_real dirfd path flags).
Proof.
  unfold read_real. apply emits_bind; [apply hook_op_open; by left|intros fd].
  emits_tac; unfold P, hook_op; naive_solver.
Qed.
Lemma hook_op_pass : emits P (passthrough dirfd path flags mode).
Proof.
  unfold passthrough. apply emits_bind; [|intros; apply emits_ret].
  apply hook_op_open. destruct (Z.eqb_spec (Z.land flags O_CREAT) 0); [by left|by right].
Qed.
End ops.

(** Whatever the system answers, the [openat] hook only opens and reads
    the path it was called with, and what it writes into the anonymous file
    it returns holds none of the signatures of that file: no signature of the
    mount table, the sockets, the ports or the mapped modules occurs
    anywhere in the text, not even across lines, and a status file shows no
    tracer but 0. *)
Theorem hooked_openat_clean cfg dirfd path flags mode :
  emits (hook_op dirfd path flags mode) (hooked_openat cfg dirfd (Some path) flags mode).
Proof.
  intros w h. rewrite hooked_openat_present. revert w h.
  change (emits (hook_op dirfd path flags mode)
            (present (path_view cfg path) dirfd path flags mode)).
  destruct (path_view cfg path) as [|c|f|] eqn:E; cbn [present].
  - apply emits_ret.
  - by eapply hook_op_memfd, path_view_fixed.
  - apply emits_bind; [apply hook_op_read|intros raw].
    destruct (is_empty raw); [apply hook_op_pass|]. by eapply hook_op_memfd, path_view_clean.
  - apply hook_op_pass.
Qed.

(** The [syscall] hook refuses an [openat] of a hidden path with ENOENT
    before any call; any other [openat] is passed on with its first three
    arguments only, so that the mode of a file created through it is lost;
    every other system call is passed on with its six arguments. *)
Theorem hooked_syscall_spec cfg mem number a1 a2 a3 a4 a5 a6 w h :
  let r := hooked_syscall cfg mem number a1 a2 a3 a4 a5 a6 w h in
  (number = NR_openat -> a2 <> 0 -> path_view cfg (mem a2) = Absent ->
     r = ((-1, Some ENOENT), h))
  /\ (number = NR_openat -> a2 = 0 \/ path_view cfg (mem a2) <> Absent ->
     r.2 = h ++ [OpCall "syscall" [] [NR_openat; i32 a1; a2; i32 a3]] /\ r.1.2 = None)
  /\ (number <> NR_openat ->
     r.2 = h ++ [OpCall "syscall" [] [number; a1; a2; a3; a4; a5; a6]] /\ r.1.2 = None).
Proof.
  assert (Ha : forall p, path_view cfg p = Absent <-> should_hide_path cfg p = true).
  { intros p. unfold path_view. destruct (should_hide_path cfg p); [done|].
    split; [|done]. do 6 (destruct (_ && _); [done|]). done. }
  unfold hooked_syscall. cbv zeta. split_and!.
  - intros -> Hz ->%Ha. by rewrite Z.eqb_refl, (proj2 (Z.eqb_neq a2 0) Hz).
  - intros -> H. rewrite Z.eqb_refl.
    destruct (negb (a2 =? 0) && should_hide_path cfg (mem a2)) eqn:E; [|done].
    apply andb_true_iff in E as [E1%negb_true_iff%Z.eqb_neq E2%Ha]. naive_solver.
  - intros Hn. by rewrite (proj2 (Z.eqb_neq _ _) Hn).
Qed.

(** ** Installation *)

(** Installing the shield replaces the configuration and hooks each
    function at most once: the function [openat] always, [syscall] only with
    the MOMO switch; a hook once in place stays, and a failed lookup or a
    failed hook leaves it absent. *)
Theorem shield_install_spec config st w h :
  let '(st', h') := install config st w h in
  g_config st' = config
  /\ (orig_openat_set st = true -> orig_openat_set st' = true)
  /\ (orig_syscall_set st = true -> orig_syscall_set st' = true)
  /\ (momo_bypass config = false -> orig_syscall_set st' = orig_syscall_set st)
  /\ (exists t, h' = h ++ t /\
        Forall (fun o => match o with
          | OpDlsym s => s = "openat" \/ (s = "syscall" /\ momo_bypass config = true)
          | OpCall "DobbyHook" [s] [] =>
              (s = "openat" /\ orig_openat_set st = false)
              \/ (s = "syscall" /\ momo_bypass config = true /\ orig_syscall_set st = false)
          | _ => False end) t).
Proof.
  unfold install, install_hook, sys_ok, bind, sys_int, ret.
  destruct (momo_bypass config) eqn:Em, (orig_openat_set st) eqn:Eo, (orig_syscall_set st) eqn:Es;
    repeat (destruct (negb (_ =? 0)); cbn [negb andb]); cbn; split_and!; try done;
    rewrite <-?(assoc_L (++)); (eexists; split; [reflexivity|]);
    repeat (apply Forall_cons; split); try apply Forall_nil; naive_solver.
Qed.

(** The switches for root, Xposed and the per-tool bypasses do not change
    what [openat] answers, and the listed prefixes are hidden whatever the
    configuration says. *)
Lemma hooked_openat_switches cfg cfg' dirfd pathname flags mode w h :
  hide_magisk cfg = hide_magisk cfg' -> hide_mounts cfg = hide_mounts cfg' ->
  hide_maps cfg = hide_maps cfg' -> hide_selinux cfg = hide_selinux cfg' ->
  hide_debugger cfg = hide_debugger cfg' -> hide_frida cfg = hide_frida cfg' ->
  hide_net_unix cfg = hide_net_unix cfg' ->
  hooked_openat cfg dirfd pathname flags mode w h
  = hooked_openat cfg' dirfd pathname flags mode w h.
Proof. destruct cfg, cfg'; cbn. by intros -> -> -> -> -> -> ->. Qed.

Lemma hidden_prefix_always cfg prefix rest :
  prefix ∈ HIDDEN_PREFIXES -> path_view cfg (prefix +:+ rest) = Absent.
Proof.
  intros Hp. unfold path_view, should_hide_path.
  replace (existsb _ _) with true; [done|]. symmetry. apply existsb_exists.
  exists prefix. split; [by apply list_elem_of_In|]. apply starts_with_spec. by exists rest.
Qed.

(** A listed prefix need not end at a path component, and a name that is
    written differently is not recognised. *)
Lemma surfaceflinger_hidden cfg : path_view cfg "/system/bin/surfaceflinger" = Absent.
Proof. apply (hidden_prefix_always cfg "/system/bin/su" "rfaceflinger"). apply list_elem_of_In. cbn. tauto. Qed.
Lemma alias_not_hidden cfg : path_view cfg "/data/./adb/magisk" = AsIs.
Proof.
  unfold path_view, should_hide_path.
  replace (existsb _ _) with false by by vm_compute.
  replace (starts_with _ _) with false by by vm_compute. rewrite !andb_false_r.
  by destruct (hide_mounts cfg), (hide_debugger cfg), (hide_net_unix cfg), (hide_frida cfg),
    (hide_selinux cfg), (hide_maps cfg).
Qed.
