(* ===== verification/Spoof.v ===== *)
(** * Spoof: the zygisk module that answers for the device

    [module-spoof/jni/src/]: the module's entry point ([entry.cpp]), its
    configuration files ([config_reader.cpp]), the hooks on the system
    properties ([property_hook.cpp]) and on the GL driver ([gl_spoof.cpp]).
    The entry decides, for every application process, which of the hooks and
    whether the environment shield (file Shield) are installed.  The JSON
    parser is the parameter [JsonLib].  The hooks are run by one thread of the
    application; a [strcpy] that leaves the caller's buffer has no result. *)

From Stdlib Require Import ZArith Ascii String Lia.
From stdpp Require Import base numbers list sets strings pretty.
From S2P Require Import Prelude Lines Json Zygisk Shield.

Open Scope Z_scope.

(** ** Configuration *)

Record SpoofConfig := {
  enabled : bool;
  profile_name : string;
  props : list (string * string);     (* a std::map *)
  gl_renderer : string;
  gl_vendor : string;
}.
Definition default_spoof : SpoofConfig :=
  {| enabled := false; profile_name := EmptyString; props := [];
     gl_renderer := EmptyString; gl_vendor := EmptyString |}.

Definition set_enabled (b : bool) (c : SpoofConfig) : SpoofConfig :=
  {| enabled := b; profile_name := profile_name c; props := props c;
     gl_renderer := gl_renderer c; gl_vendor := gl_vendor c |}.
Definition set_profile (s : string) (c : SpoofConfig) : SpoofConfig :=
  {| enabled := enabled c; profile_name := s; props := props c;
     gl_renderer := gl_renderer c; gl_vendor := gl_vendor c |}.
Definition set_props (m : list (string * string)) (c : SpoofConfig) : SpoofConfig :=
  {| enabled := enabled c; profile_name := profile_name c; props := m;
     gl_renderer := gl_renderer c; gl_vendor := gl_vendor c |}.
Definition set_renderer (s : string) (c : SpoofConfig) : SpoofConfig :=
  {| enabled := enabled c; profile_name := profile_name c; props := props c;
     gl_renderer := s; gl_vendor := gl_vendor c |}.
Definition set_vendor (s : string) (c : SpoofConfig) : SpoofConfig :=
  {| enabled := enabled c; profile_name := profile_name c; props := props c;
     gl_renderer := gl_renderer c; gl_vendor := s |}.

(** The body of a [try] that assigns one field after the other: when a step
    throws, what was assigned before stays. *)
Fixpoint try_steps {A} (steps : list (A -> option A)) (a : A) : A :=
  match steps with
  | [] => a
  | s :: steps' => match s a with Some a' => try_steps steps' a' | None => a end
  end.
Definition assign {A B} (set : B -> A -> A) (v : option B) (a : A) : option A :=
  option_map (fun b => set b a) v.

(** [j.contains(key) && j[key].is_object()]. *)
Definition member_object (j : json) (key : string) : option (list (string * json)) :=
  match j with
  | JObject kvs => match obj_find key kvs with Some (JObject o) => Some o | _ => None end
  | _ => None
  end.

(** The loop over [j["props"].items()]. *)
Fixpoint read_props (items : list (string * json)) (m : list (string * string))
    : list (string * string) :=
  match items with
  | [] => m
  | (k, v) :: items' =>
      read_props items' (match v with JString s => smap_set k s m | _ => m end)
  end.

(** The block under [j["gl"]]. *)
Definition gl_steps (j : json) : list (SpoofConfig -> option SpoofConfig) :=
  match member_object j "gl" with
  | Some o => [ assign set_renderer (json_value get_string (JObject o) "renderer" EmptyString);
                assign set_vendor (json_value get_string (JObject o) "vendor" EmptyString) ]
  | None => []
  end.
Definition parse_steps (j : json) : list (SpoofConfig -> option SpoofConfig) :=
  [ assign set_enabled (json_value get_bool j "enabled" false);
    assign set_profile (json_value get_string j "profile" EmptyString);
    (fun c => Some (match member_object j "props" with
                    | Some items => set_props (read_props items (props c)) c
                    | None => c end)) ]
  ++ gl_steps j.

Section config.
Context `{JsonLib}.

Definition parse_spoof (path : string) : Sys SpoofConfig :=
  let! f := sys_read path in
  ret match f with
      | Some text => match json_parse text with
                     | Some j => try_steps (parse_steps j) default_spoof
                     | None => default_spoof
                     end
      | None => default_spoof
      end.

Definition DIR : string := "/data/adb/astraveil/spoof".

Definition load_spoof (pkg : string) : Sys SpoofConfig :=
  let perApp := DIR +:+ "/" +:+ pkg +:+ ".json" in
  let! e := sys_exists perApp in
  if e then parse_spoof perApp
  else
    let global := DIR +:+ "/global.json" in
    let! e := sys_exists global in
    if e then parse_spoof global else ret default_spoof.

(** The local variables of [preAppSpecialize] set from [shield.json]. *)
Record shield_file := {
  shield : ShieldConfig;
  shieldEnabled : bool;
  spoofEnabled : bool;
}.
Definition default_file : shield_file :=
  {| shield := default_shield; shieldEnabled := true; spoofEnabled := true |}.

Definition with_shield (f : ShieldConfig -> ShieldConfig) (s : shield_file) : shield_file :=
  {| shield := f (shield s); shieldEnabled := shieldEnabled s; spoofEnabled := spoofEnabled s |}.
Definition set_shieldEnabled (b : bool) (s : shield_file) : shield_file :=
  {| shield := shield s; shieldEnabled := b; spoofEnabled := spoofEnabled s |}.
Definition set_spoofEnabled (b : bool) (s : shield_file) : shield_file :=
  {| shield := shield s; shieldEnabled := shieldEnabled s; spoofEnabled := b |}.

(** Assignment to one field of the shield's configuration. *)
Definition set_hide_root (b : bool) (c : ShieldConfig) : ShieldConfig :=
  {| hide_root := b; hide_magisk := hide_magisk c; hide_xposed := hide_xposed c;
     hide_mounts := hide_mounts c; hide_maps := hide_maps c;
     hide_selinux := hide_selinux c; hide_debugger := hide_debugger c;
     hide_frida := hide_frida c; hide_net_unix := hide_net_unix c;
     momo_bypass := momo_bypass c; ruru_bypass := ruru_bypass c;
     chunqiu_bypass := chunqiu_bypass c; hunter_bypass := hunter_bypass c |}.
Definition set_hide_magisk (b : bool) (c : ShieldConfig) : ShieldConfig :=
  {| hide_root := hide_root c; hide_magisk := b; hide_xposed := hide_xposed c;
     hide_mounts := hide_mounts c; hide_maps := hide_maps c;
     hide_selinux := hide_selinux c; hide_debugger := hide_debugger c;
     hide_frida := hide_frida c; hide_net_unix := hide_net_unix c;
     momo_bypass := momo_bypass c; ruru_bypass := ruru_bypass c;
     chunqiu_bypass := chunqiu_bypass c; hunter_bypass := hunter_bypass c |}.
Definition set_hide_xposed (b : bool) (c : ShieldConfig) : ShieldConfig :=
  {| hide_root := hide_root c; hide_magisk := hide_magisk c; hide_xposed := b;
     hide_mounts := hide_mounts c; hide_maps := hide_maps c;
     hide_selinux := hide_selinux c; hide_debugger := hide_debugger c;
     hide_frida := hide_frida c; hide_net_unix := hide_net_unix c;
     momo_bypass := momo_bypass c; ruru_bypass := ruru_bypass c;
     chunqiu_bypass := chunqiu_bypass c; hunter_bypass := hunter_bypass c |}.
Definition set_hide_mounts (b : bool) (c : ShieldConfig) : ShieldConfig :=
  {| hide_root := hide_root c; hide_magisk := hide_magisk c; hide_xposed := hide_xposed c;
     hide_mounts := b; hide_maps := hide_maps c; hide_selinux := hide_selinux c;
     hide_debugger := hide_debugger c; hide_frida := hide_frida c;
     hide_net_unix := hide_net_unix c; momo_bypass := momo_bypass c;
     ruru_bypass := ruru_bypass c; chunqiu_bypass := chunqiu_bypass c;
     hunter_bypass := hunter_bypass c |}.
Definition set_hide_maps (b : bool) (c : ShieldConfig) : ShieldConfig :=
  {| hide_root := hide_root c; hide_magisk := hide_magisk c; hide_xposed := hide_xposed c;
     hide_mounts := hide_mounts c; hide_maps := b; hide_selinux := hide_selinux c;
     hide_debugger := hide_debugger c; hide_frida := hide_frida c;
     hide_net_unix := hide_net_unix c; momo_bypass := momo_bypass c;
     ruru_bypass := ruru_bypass c; chunqiu_bypass := chunqiu_bypass c;
     hunter_bypass := hunter_bypass c |}.
Definition set_hide_selinux (b : bool) (c : ShieldConfig) : ShieldConfig :=
  {| hide_root := hide_root c; hide_magisk := hide_magisk c; hide_xposed := hide_xposed c;
     hide_mounts := hide_mounts c; hide_maps := hide_maps c; hide_selinux := b;
     hide_debugger := hide_debugger c; hide_frida := hide_frida c;
     hide_net_unix := hide_net_unix c; momo_bypass := momo_bypass c;
     ruru_bypass := ruru_bypass c; chunqiu_bypass := chunqiu_bypass c;
     hunter_bypass := hunter_bypass c |}.
Definition set_hide_debugger (b : bool) (c : ShieldConfig) : ShieldConfig :=
  {| hide_root := hide_root c; hide_magisk := hide_magisk c; hide_xposed := hide_xposed c;
     hide_mounts := hide_mounts c; hide_maps := hide_maps c;
     hide_selinux := hide_selinux c; hide_debugger := b; hide_frida := hide_frida c;
     hide_net_unix := hide_net_unix c; momo_bypass := momo_bypass c;
     ruru_bypass := ruru_bypass c; chunqiu_bypass := chunqiu_bypass c;
     hunter_bypass := hunter_bypass c |}.
Definition set_hide_frida (b : bool) (c : ShieldConfig) : ShieldConfig :=
  {| hide_root := hide_root c; hide_magisk := hide_magisk c; hide_xposed := hide_xposed c;
     hide_mounts := hide_mounts c; hide_maps := hide_maps c;
     hide_selinux := hide_selinux c; hide_debugger := hide_debugger c; hide_frida := b;
     hide_net_unix := hide_net_unix c; momo_bypass := momo_bypass c;
     ruru_bypass := ruru_bypass c; chunqiu_bypass := chunqiu_bypass c;
     hunter_bypass := hunter_bypass c |}.
Definition set_hide_net_unix (b : bool) (c : ShieldConfig) : ShieldConfig :=
  {| hide_root := hide_root c; hide_magisk := hide_magisk c; hide_xposed := hide_xposed c;
     hide_mounts := hide_mounts c; hide_maps := hide_maps c;
     hide_selinux := hide_selinux c; hide_debugger := hide_debugger c;
     hide_frida := hide_frida c; hide_net_unix := b; momo_bypass := momo_bypass c;
     ruru_bypass := ruru_bypass c; chunqiu_bypass := chunqiu_bypass c;
     hunter_bypass := hunter_bypass c |}.
Definition set_momo_bypass (b : bool) (c : ShieldConfig) : ShieldConfig :=
  {| hide_root := hide_root c; hide_magisk := hide_magisk c; hide_xposed := hide_xposed c;
     hide_mounts := hide_mounts c; hide_maps := hide_maps c;
     hide_selinux := hide_selinux c; hide_debugger := hide_debugger c;
     hide_frida := hide_frida c; hide_net_unix := hide_net_unix c; momo_bypass := b;
     ruru_bypass := ruru_bypass c; chunqiu_bypass := chunqiu_bypass c;
     hunter_bypass := hunter_bypass c |}.
Definition set_ruru_bypass (b : bool) (c : ShieldConfig) : ShieldConfig :=
  {| hide_root := hide_root c; hide_magisk := hide_magisk c; hide_xposed := hide_xposed c;
     hide_mounts := hide_mounts c; hide_maps := hide_maps c;
     hide_selinux := hide_selinux c; hide_debugger := hide_debugger c;
     hide_frida := hide_frida c; hide_net_unix := hide_net_unix c;
     momo_bypass := momo_bypass c; ruru_bypass := b; chunqiu_bypass := chunqiu_bypass c;
     hunter_bypass := hunter_bypass c |}.
Definition set_chunqiu_bypass (b : bool) (c : ShieldConfig) : ShieldConfig :=
  {| hide_root := hide_root c; hide_magisk := hide_magisk c; hide_xposed := hide_xposed c;
     hide_mounts := hide_mounts c; hide_maps := hide_maps c;
     hide_selinux := hide_selinux c; hide_debugger := hide_debugger c;
     hide_frida := hide_frida c; hide_net_unix := hide_net_unix c;
     momo_bypass := momo_bypass c; ruru_bypass := ruru_bypass c; chunqiu_bypass := b;
     hunter_bypass := hunter_bypass c |}.
Definition set_hunter_bypass (b : bool) (c : ShieldConfig) : ShieldConfig :=
  {| hide_root := hide_root c; hide_magisk := hide_magisk c; hide_xposed := hide_xposed c;
     hide_mounts := hide_mounts c; hide_maps := hide_maps c;
     hide_selinux := hide_selinux c; hide_debugger := hide_debugger c;
     hide_frida := hide_frida c; hide_net_unix := hide_net_unix c;
     momo_bypass := momo_bypass c; ruru_bypass := ruru_bypass c;
     chunqiu_bypass := chunqiu_bypass c; hunter_bypass := b |}.

Definition switch (j : json) (key : string) (set : bool -> ShieldConfig -> ShieldConfig)
    : shield_file -> option shield_file :=
  assign (fun b => with_shield (set b)) (json_value get_bool j key true).
(** A per-tool switch is the string [true] or another. *)
Definition tool_switch (j : json) (key : string) (set : bool -> ShieldConfig -> ShieldConfig)
    : shield_file -> option shield_file :=
  assign (fun s => with_shield (set (str_eqb s "true"))) (json_value get_string j key "false").

Definition shield_steps (j : json) : list (shield_file -> option shield_file) :=
  [ assign set_shieldEnabled (json_value get_bool j "enabled" true);
    assign set_spoofEnabled (json_value get_bool j "spoof_enabled" true);
    switch j "hide_root" set_hide_root;
    switch j "hide_magisk" set_hide_magisk;
    switch j "hide_xposed" set_hide_xposed;
    switch j "hide_mounts" set_hide_mounts;
    switch j "hide_maps" set_hide_maps;
    switch j "hide_selinux" set_hide_selinux;
    switch j "hide_debugger" set_hide_debugger;
    switch j "hide_frida" set_hide_frida;
    switch j "hide_net_unix" set_hide_net_unix;
    tool_switch j "shield_momo" set_momo_bypass;
    tool_switch j "shield_ruru" set_ruru_bypass;
    tool_switch j "shield_chunqiu" set_chunqiu_bypass;
    tool_switch j "shield_hunter" set_hunter_bypass ].

Definition read_shield : Sys shield_file :=
  let! sf := sys_read "/data/adb/astraveil/shield.json" in
  ret match sf with
      | Some text => match json_parse text with
                     | Some sj => try_steps (shield_steps sj) default_file
                     | None => default_file
                     end
      | None => default_file
      end.
End config.

(** ** Hooked property reads *)

(** The static variables of [property_hook.cpp]. *)
Record prop_state := {
  g_props : list (string * string);
  orig_prop_get_set : bool;
  orig_prop_read_cb_set : bool;
}.

(** The device behind the originals: the value [__system_property_get] gives
    for a name, and name, value and serial of a [prop_info]. *)
Record device := {
  prop_value : option string -> string;
  pi_name : Z -> option string;
  pi_value : Z -> string;
  pi_serial : Z -> Z;
}.

(** [g_props.find(name)], for a name that is not null. *)
Definition spoofed (m : list (string * string)) (name : option string) : option string :=
  match name with Some n => smap_find n m | None => None end.

(** The size of the buffer callers of [__system_property_get] provide, and
    whether [strcpy] of [bytes] leaves it. *)
Definition PROP_VALUE_MAX : Z := 92.
Definition strcpy_overflows (cap : Z) (bytes : string) : bool := cap <? str_size bytes + 1.

(** [hooked_prop_get]: the bytes put into the caller's buffer, without the
    terminating NUL, and the result; [None] when [strcpy] writes past the
    caller's buffer, after which nothing can be said of the process.  The
    device's own value fits: the buffer is made for it. *)
Definition hooked_prop_get (d : device) (m : list (string * string)) (name : option string)
    : option (string * Z) :=
  match spoofed m name with
  | Some v => if strcpy_overflows PROP_VALUE_MAX (c_str v) then None
              else Some (c_str v, i32 (str_size v))
  | None => let v := prop_value d name in Some (v, str_size v)
  end.

(** A thread of the application, as the hooks see it: it reads properties by
    name, or by [__system_property_read_callback] with a callback that may
    itself read properties. *)
Inductive thread :=
| Done
| PropGet (name : option string) (next : thread)
| ReadCb (pi : Z) (callback next : thread).

Inductive event :=
| Got (name : option string) (value : string) (len : Z)
| CalledBack (name : option string) (value : string) (serial : Z).

(** How such a thread ends: its reads have all returned, with what it has
    seen; it waits for a lock that it holds itself; or a copy has left the
    caller's buffer. *)
Inductive reads_end :=
| Ran (es : list event)
| Deadlock
| Overrun.
Definition and_then (o : reads_end) (k : list event -> reads_end) : reads_end :=
  match o with Ran es => k es | Deadlock => Deadlock | Overrun => Overrun end.

(** Running a thread over the hooks; other threads, which hold the mutex only
    for the time of a lookup or of a callback of theirs, are not modelled.
    [held] says that this thread holds [g_mutex], which is not recursive:
    locking it again never returns.  [hooked_read_cb] makes the original call [trampoline], which
    keeps the lock while it runs the callback for a spoofed name and has left
    the locked block otherwise; a null name locks nothing. *)
Fixpoint run_thread (d : device) (m : list (string * string)) (held : bool) (t : thread)
    : reads_end :=
  match t with
  | Done => Ran []
  | PropGet name next =>
      match name, held with
      | Some _, true => Deadlock
      | _, _ =>
          match hooked_prop_get d m name with
          | Some (v, len) =>
              and_then (run_thread d m held next) (fun es => Ran (Got name v len :: es))
          | None => Overrun
          end
      end
  | ReadCb pi callback next =>
      let name := pi_name d pi in
      match name, held with
      | Some _, true => Deadlock
      | _, _ =>
          let '(v, inner) := match spoofed m name with
                             | Some v => (c_str v, true)
                             | None => (pi_value d pi, held)
                             end in
          and_then (run_thread d m inner callback) (fun es1 =>
          and_then (run_thread d m held next) (fun es2 =>
          Ran (CalledBack name v (pi_serial d pi) :: es1 ++ es2)))
      end
  end.

(** [PropertyHook::install]. *)
Definition install_props (m : list (string * string)) (st : prop_state) : Sys prop_state :=
  let! g := install_hook "__system_property_get" (orig_prop_get_set st) in
  let! r := install_hook "__system_property_read_callback" (orig_prop_read_cb_set st) in
  ret {| g_props := m; orig_prop_get_set := g; orig_prop_read_cb_set := r |}.

(** ** The GL driver *)

Record gl_state := {
  g_renderer : string;
  g_vendor : string;
  orig_glGetString_set : bool;
  orig_dlsym_set : bool;
}.

Definition GL_VENDOR : Z := 7936.
Definition GL_RENDERER : Z := 7937.

(** [hooked_glGetString], over the driver's own answer. *)
Definition hooked_glGetString (st : gl_state) (driver : Z -> string) (name : Z) : string :=
  if (name =? GL_RENDERER) && negb (is_empty (g_renderer st)) then c_str (g_renderer st)
  else if (name =? GL_VENDOR) && negb (is_empty (g_vendor st)) then c_str (g_vendor st)
  else driver name.

(** [hooked_dlsym], over the original's answer; [hooked] is the address of
    [hooked_glGetString]. *)
Definition hooked_dlsym (st : gl_state) (hooked : Z) (orig : option string -> Z)
    (symbol : option string) : Z :=
  let r := orig symbol in
  match symbol with
  | Some s => if str_eqb s "glGetString" && orig_glGetString_set st then hooked else r
  | None => r
  end.

(** [GlSpoof::install]. *)
Definition install_gl (renderer vendor : string) (st : gl_state) : Sys gl_state :=
  let! g := install_hook "glGetString" (orig_glGetString_set st) in
  let! d := install_hook "dlsym" (orig_dlsym_set st) in
  ret {| g_renderer := renderer; g_vendor := vendor; orig_glGetString_set := g;
         orig_dlsym_set := d |}.

(** ** The entry point *)

(** What the module has installed in the process. *)
Record process := {
  p_props : prop_state;
  p_gl : gl_state;
  p_shield : shield_state;
}.
Definition process_init : process := {|
  p_props := {| g_props := []; orig_prop_get_set := false; orig_prop_read_cb_set := false |};
  p_gl := {| g_renderer := EmptyString; g_vendor := EmptyString;
             orig_glGetString_set := false; orig_dlsym_set := false |};
  p_shield := shield_init |}.

(** [api_->setOption(zygisk::DLCLOSE_MODULE_LIBRARY)]. *)
Definition unload (api : option api_table) : Run unit :=
  match api with
  | Some tbl => let! _ := setOption tbl DLCLOSE_MODULE_LIBRARY in done tt
  | None => ret None
  end.

Definition excluded_process (packageName : string) : bool :=
  str_eqb packageName "android" || str_eqb packageName "com.astraveil.app"
  || str_eqb packageName "com.astraveil.xposed"
  || match str_find "com.android." packageName 0 with Some p => (p =? 0)%nat | None => false end.

(** The block of the spoof engine, for the profile [config]. *)
Definition install_spoof (spoofEnabled : bool) (config : SpoofConfig) (p : process)
    : Sys process :=
  if spoofEnabled && enabled config then
    let! ps := install_props (props config) (p_props p) in
    let! gs := (if negb (is_empty (gl_renderer config))
                then install_gl (gl_renderer config) (gl_vendor config) (p_gl p)
                else ret (p_gl p)) in
    ret {| p_props := ps; p_gl := gs; p_shield := p_shield p |}
  else ret p.

(** The block of the environment shield. *)
Definition install_shield (sf : shield_file) (p : process) : Sys process :=
  if shieldEnabled sf then
    let! ss := install (shield sf) (p_shield p) in
    ret {| p_props := p_props p; p_gl := p_gl p; p_shield := ss |}
  else ret p.

(** [api] is what the member [api_] leads to, [None] for a null pointer. *)
Definition preAppSpecialize `{JsonLib} (api : option api_table) (nice_name : option string)
    (p : process) : Run process :=
  let unloaded := run_bind (unload api) (fun _ => done p) in
  match nice_name with
  | None => unloaded
  | Some packageName =>
      if excluded_process packageName then unloaded
      else
        let! sf := read_shield in
        if negb (shieldEnabled sf) && negb (spoofEnabled sf) then unloaded
        else
          let! config := load_spoof packageName in
          let! p := install_spoof (spoofEnabled sf) config p in
          let! p := install_shield sf p in
          done p
  end.

(** ** Property reads return *)

(** A thread that locks nothing: every name it reads is null. *)
Fixpoint lock_free (d : device) (t : thread) : bool :=
  match t with
  | Done => true
  | PropGet name next => match name with None => lock_free d next | Some _ => false end
  | ReadCb pi callback next =>
      match pi_name d pi with
      | None => lock_free d callback && lock_free d next
      | Some _ => false
      end
  end.

(** No callback for a spoofed property reads a property. *)
Fixpoint callbacks_ok (d : device) (m : list (string * string)) (t : thread) : bool :=
  match t with
  | Done => true
  | PropGet _ next => callbacks_ok d m next
  | ReadCb pi callback next =>
      match spoofed m (pi_name d pi) with
      | Some _ => lock_free d callback
      | None => callbacks_ok d m callback
      end && callbacks_ok d m next
  end.

(** Every value the profile has for a name the thread reads with
    [__system_property_get] is short enough for the caller's buffer, its
    terminating NUL included. *)
Fixpoint copies_fit (m : list (string * string)) (t : thread) : bool :=
  match t with
  | Done => true
  | PropGet name next =>
      match spoofed m name with Some v => str_size (c_str v) <? 92 | None => true end
      && copies_fit m next
  | ReadCb _ callback next => copies_fit m callback && copies_fit m next
  end.

(** What the thread sees if nothing ever blocked: the spoofed values where
    there are some, the device's otherwise. *)
Fixpoint seen (d : device) (m : list (string * string)) (t : thread) : list event :=
  match t with
  | Done => []
  | PropGet name next =>
      let v := from_option c_str (prop_value d name) (spoofed m name) in
      let len := from_option (fun s => i32 (str_size s)) (str_size (prop_value d name))
                   (spoofed m name) in
      Got name v len :: seen d m next
  | ReadCb pi callback next =>
      CalledBack (pi_name d pi) (from_option c_str (pi_value d pi) (spoofed m (pi_name d pi)))
        (pi_serial d pi) :: seen d m callback ++ seen d m next
  end.

(** The end [o] of a thread, given whether its locks are free when it
    takes them and whether its copies fit. *)
Definition ends_as (free fit : bool) (es : list event) (o : reads_end) : Prop :=
  match o with
  | Ran es' => es' = es /\ free = true /\ fit = true
  | Deadlock => free = false
  | Overrun => fit = false
  end.

Lemma copy_fits v : strcpy_overflows PROP_VALUE_MAX (c_str v) = negb (str_size (c_str v) <? 92).
Proof.
  unfold strcpy_overflows, PROP_VALUE_MAX.
  destruct (Z.ltb_spec 92 (str_size (c_str v) + 1)), (Z.ltb_spec (str_size (c_str v)) 92); lia || done.
Qed.

Lemma ends_as_and free1 free2 fit1 fit2 es1 es2 o1 o2 k :
  ends_as free1 fit1 es1 o1 -> ends_as free2 fit2 es2 o2 ->
  ends_as (free1 && free2) (fit1 && fit2) (k es1 es2)
    (and_then o1 (fun a => and_then o2 (fun b => Ran (k a b)))).
Proof. destruct o1, o2; cbn; intros; destruct_and?; subst; rewrite ?andb_false_r; auto. Qed.

Lemma ends_as_after free fit es o e :
  ends_as free fit es o ->
  ends_as free fit (e :: es) (and_then o (fun a => Ran (e :: a))).
Proof. destruct o; cbn; naive_solver. Qed.

Lemma run_held d m t :
  ends_as (lock_free d t) (copies_fit m t) (seen d m t) (run_thread d m true t).
Proof.
  induction t as [|[n|] next IH|pi cb IHc next IHn]; cbn; try done.
  - by apply ends_as_after.
  - destruct (pi_name d pi); cbn; [done|].
    by apply (ends_as_and _ _ _ _ _ _ _ _ (fun a b => _ :: a ++ b)).
Qed.

Lemma run_thread_false d m t :
  ends_as (callbacks_ok d m t) (copies_fit m t) (seen d m t) (run_thread d m false t).
Proof.
  induction t as [|n next IH|pi cb IHc next IHn]; cbn; [done| |].
  - unfold hooked_prop_get.
    destruct n as [n|]; cbn; [destruct (smap_find n m) as [v|]; cbn|]; try by apply ends_as_after.
    rewrite copy_fits. by destruct (_ <? 92); cbn; [apply ends_as_after|].
  - pose proof (run_held d m cb) as Hh. destruct (pi_name d pi) as [n|]; cbn;
      [destruct (smap_find n m); cbn|];
      by apply (ends_as_and _ _ _ _ _ _ _ _ (fun a b => _ :: a ++ b)).
Qed.

(** C31: A thread's property reads all return, with the profile's values for
    the properties it names and the device's for the others, exactly when no
    callback passed for a spoofed property reads a property itself and every
    value it has copied fits the caller's buffer of 92 bytes.  Otherwise the
    thread either locks the hook's mutex twice and never gets on, which takes
    such a callback, or has [strcpy] write past the buffer, which takes a
    value of 92 bytes or more. *)
Theorem property_reads_return d m t :
  match run_thread d m false t with
  | Ran es => es = seen d m t /\ callbacks_ok d m t = true /\ copies_fit m t = true
  | Deadlock => callbacks_ok d m t = false
  | Overrun => copies_fit m t = false
  end.
Proof. apply run_thread_false. Qed.

(** ** What the configuration files decide *)

Lemma try_steps_inv {A} (I : A -> Prop) steps a :
  Forall (fun s => forall x y, I x -> s x = Some y -> I y) steps ->
  I a -> I (try_steps steps a).
Proof.
  intros Hs. revert a. induction Hs as [|s steps Hs _ IH]; intros a Ha; cbn; [done|].
  destruct (s a) as [b|] eqn:E; [|done]. eauto.
Qed.

Lemma read_props_find k items m :
  NoDup items.*1 ->
  smap_find k (read_props items m)
  = match obj_find k items with Some (JString v) => Some v | _ => smap_find k m end.
Proof.
  revert m. induction items as [|[k0 v0] items IH]; intros m Hd; [done|].
  apply NoDup_cons in Hd as [Hni Hd]. cbn [read_props]. rewrite IH by done. cbn [smap_find].
  destruct (str_eqb k k0) eqn:E.
  - apply str_eqb_true in E as ->.
    assert (obj_find k0 items = None) as ->.
    { clear -Hni. induction items as [|[k1 v1] items IH]; [done|]. cbn in *.
      apply not_elem_of_cons in Hni as [Hn Hni].
      rewrite (proj2 (str_eqb_false k0 k1) Hn). by apply IH. }
    destruct v0; try done. by rewrite smap_find_set, str_eqb_refl.
  - destruct v0; try done. by rewrite smap_find_set, E.
Qed.

Definition well_typed (j : json) : bool :=
  match json_value get_bool j "enabled" false, json_value get_string j "profile" EmptyString with
  | Some _, Some _ => true
  | _, _ => false
  end.

Definition file_value (j : json) (k : string) : option string :=
  match member_object j "props" with
  | Some items => match obj_find k items with Some (JString v) => Some v | _ => None end
  | None => None
  end.

Lemma parse_steps_spec j k :
  (forall items, member_object j "props" = Some items -> NoDup items.*1) ->
  let c := try_steps (parse_steps j) default_spoof in
  enabled c = default false (json_value get_bool j "enabled" false)
  /\ smap_find k (props c) = if well_typed j then file_value j k else None.
Proof.
  intros Hd. cbv zeta. unfold parse_steps, well_typed, file_value. cbn [try_steps app].
  unfold assign. destruct (json_value get_bool j "enabled" false) as [b|]; [|done].
  cbn [option_map].
  destruct (json_value get_string j "profile" EmptyString) as [s|]; [|done]. cbn [option_map].
  set (c1 := set_profile s _).
  assert (Hk : forall c, let c' := try_steps (gl_steps j) c in
                         props c' = props c /\ enabled c' = enabled c).
  { intros c. unfold gl_steps. destruct (member_object j "gl") as [o|]; [|done].
    cbn [try_steps]. unfold assign.
    destruct (json_value _ _ "renderer" _), (json_value _ _ "vendor" _); done. }
  cbv zeta in Hk. cbn [try_steps]. destruct (member_object j "props") as [items|] eqn:E.
  - rewrite (proj1 (Hk _)), (proj2 (Hk _)). split; [done|].
    cbn [props set_props]. rewrite read_props_find by auto. by destruct (obj_find k items) as [[]|].
  - by rewrite (proj1 (Hk _)), (proj2 (Hk _)).
Qed.

(** What [json_parse] made of the file. *)
Definition file_object `{JsonLib} (text : option string) : option json :=
  match text with Some s => json_parse s | None => None end.

Lemma parse_spoof_eq `{JsonLib} path w h :
  parse_spoof path w h
  = (match file_object (w_read w h path) with
     | Some j => try_steps (parse_steps j) default_spoof
     | None => default_spoof end, h ++ [OpRead path]).
Proof. unfold parse_spoof, file_object. cbn. by destruct (w_read w h path). Qed.

(** The objects of a parsed file have each key once, as [std::map]s have. *)
Definition unique_props (j : json) : Prop :=
  forall items, member_object j "props" = Some items -> NoDup items.*1.

(** Loading a profile reads one file, the application's own if it exists,
    otherwise the global one, otherwise none.  Spoofing is enabled only by a
    file whose [enabled] is the boolean [true]; unless [enabled] and
    [profile] have their types no property is spoofed, and otherwise exactly
    the string members of [props] are, with their values. *)
Theorem load_spoof_spec `{JsonLib} pkg w h :
  (forall text j, json_parse text = Some j -> unique_props j) ->
  let perApp := DIR +:+ "/" +:+ pkg +:+ ".json" in
  let global := DIR +:+ "/global.json" in
  let h1 := h ++ [OpExists perApp] in
  let h2 := h1 ++ [OpExists global] in
  let '(c, h') := load_spoof pkg w h in
  exists j : option json,
    (if w_exists w h perApp
     then h' = h1 ++ [OpRead perApp] /\ j = file_object (w_read w h1 perApp)
     else if w_exists w h1 global
     then h' = h2 ++ [OpRead global] /\ j = file_object (w_read w h2 global)
     else h' = h2 /\ j = None)
    /\ (enabled c = true <->
        exists kvs, j = Some (JObject kvs) /\ obj_find "enabled" kvs = Some (JBool true))
    /\ (forall k, smap_find k (props c)
                  = match j with
                    | Some j => if well_typed j then file_value j k else None
                    | None => None
                    end).
Proof.
  intros Hu. cbv zeta. set (perApp := _ +:+ _). set (global := _ +:+ "/global.json").
  assert (Hj : forall text c,
    c = match file_object text with
        | Some j => try_steps (parse_steps j) default_spoof | None => default_spoof end ->
    (enabled c = true <-> exists kvs, file_object text = Some (JObject kvs)
                                      /\ obj_find "enabled" kvs = Some (JBool true))
    /\ (forall k, smap_find k (props c)
                  = match file_object text with
                    | Some j => if well_typed j then file_value j k else None
                    | None => None end)).
  { intros text c ->. destruct (file_object text) as [j|] eqn:E; [|naive_solver].
    assert (Hj : unique_props j) by (destruct text; [by eapply Hu|done]).
    split; [|intros k; apply (parse_steps_spec j k Hj)].
    rewrite (proj1 (parse_steps_spec j EmptyString Hj)). unfold json_value.
    destruct j as [| | | | | |kvs]; cbn; [naive_solver..|].
    destruct (obj_find "enabled" kvs) as [[]|] eqn:Ee; cbn; naive_solver. }
  unfold load_spoof. cbv zeta. fold perApp global. unfold bind, sys_exists, ret.
  destruct (w_exists w h perApp).
  - rewrite parse_spoof_eq. eexists. split; [done|]. by apply Hj.
  - destruct (w_exists w _ global).
    + rewrite parse_spoof_eq. eexists. split; [done|]. by apply Hj.
    + exists None. split; [done|]. naive_solver.
Qed.

(** What a hooked read gives for a profile's value or, without one, for the
    device's. *)
Definition answer (d : device) (k : string) (v : option string) : option (string * Z) :=
  match v with
  | Some v => if 92 <=? str_size (c_str v) then None else Some (c_str v, i32 (str_size v))
  | None => Some (prop_value d (Some k), str_size (prop_value d (Some k)))
  end.

Lemma hooked_answer d m k : hooked_prop_get d m (Some k) = answer d k (smap_find k m).
Proof.
  unfold hooked_prop_get, spoofed, answer. destruct (smap_find k m) as [v|]; [|done].
  by rewrite copy_fits, Z.leb_antisym.
Qed.

(** [__system_property_get] as the application reaches it once the module has
    run: through the hook if that was placed. *)
Definition app_prop_get (d : device) (p : process) (name : option string) : option (string * Z) :=
  if orig_prop_get_set (p_props p) then hooked_prop_get d (g_props (p_props p)) name
  else Some (prop_value d name, str_size (prop_value d name)).

(** ** The shield's switches *)

(** The shield file can keep the profiles from being used: by a
    [spoof_enabled] that is [false], in an object whose [enabled], if there is
    one, is a boolean. *)
Definition spoofing_off (j : option json) : bool :=
  match j with
  | Some (JObject kvs) =>
      match obj_find "enabled" kvs, obj_find "spoof_enabled" kvs with
      | (None | Some (JBool _)), Some (JBool false) => true
      | _, _ => false
      end
  | _ => false
  end.

Lemma later_steps_spoof b j :
  Forall (fun s => forall x y, spoofEnabled x = b -> s x = Some y -> spoofEnabled y = b)
    (drop 2 (shield_steps j)).
Proof.
  unfold shield_steps, switch, tool_switch, assign. cbn [drop].
  repeat apply Forall_cons_2; try apply Forall_nil_2; intros x y Hx;
    destruct (json_value _ j _ _); cbn; by intros [= <-].
Qed.

Lemma read_shield_spoof `{JsonLib} w h :
  spoofEnabled (read_shield w h).1
  = negb (spoofing_off (file_object (w_read w h "/data/adb/astraveil/shield.json"))).
Proof.
  unfold read_shield, file_object, bind, sys_read, ret.
  destruct (w_read w h _) as [text|]; [|done]. destruct (json_parse text) as [j|]; [|done].
  cbn [fst]. assert (Hs : forall a,
    spoofEnabled (try_steps (drop 2 (shield_steps j)) a) = spoofEnabled a)
    by (intros a; apply (try_steps_inv (fun x => spoofEnabled x = spoofEnabled a));
          [apply later_steps_spoof|done]).
  change (shield_steps j) with (take 2 (shield_steps j) ++ drop 2 (shield_steps j)).
  revert Hs. generalize (drop 2 (shield_steps j)). intros rest Hs.
  unfold shield_steps, assign, json_value. cbn [take app try_steps].
  destruct j as [| | | | | |kvs]; try done. cbn [spoofing_off].
  destruct (obj_find "enabled" kvs) as [[]|]; cbn; try done;
    destruct (obj_find "spoof_enabled" kvs) as [[| [] | | | | |]|]; cbn; try done; by rewrite Hs.
Qed.

(** The protections, with the keys of [shield.json] they are read from; the
    per-tool bypasses likewise. *)
Definition hide_switches : list (string * (ShieldConfig -> bool)) :=
  [ ("hide_root", hide_root); ("hide_magisk", hide_magisk); ("hide_xposed", hide_xposed);
    ("hide_mounts", hide_mounts); ("hide_maps", hide_maps); ("hide_selinux", hide_selinux);
    ("hide_debugger", hide_debugger); ("hide_frida", hide_frida);
    ("hide_net_unix", hide_net_unix) ].
Definition tool_switches : list (string * (ShieldConfig -> bool)) :=
  [ ("shield_momo", momo_bypass); ("shield_ruru", ruru_bypass);
    ("shield_chunqiu", chunqiu_bypass); ("shield_hunter", hunter_bypass) ].

Definition has_member (j : json) (key : string) (v : json) : Prop :=
  exists kvs, j = JObject kvs /\ obj_find key kvs = Some v.

(** What the file has to say for a switch to differ from its default. *)
Definition asked_for (j : json) (sf : shield_file) : Prop :=
  (shieldEnabled sf = false -> has_member j "enabled" (JBool false))
  /\ (spoofEnabled sf = false -> has_member j "spoof_enabled" (JBool false))
  /\ Forall (fun kg => kg.2 (shield sf) = false -> has_member j kg.1 (JBool false)) hide_switches
  /\ Forall (fun kg => kg.2 (shield sf) = true -> has_member j kg.1 (JString "true"))
       tool_switches.

Lemma value_bool j key v : json_value get_bool j key true = Some v -> v = false ->
  has_member j key (JBool false).
Proof.
  unfold json_value, has_member. destruct j as [| | | | | |kvs]; try done.
  destruct (obj_find key kvs) as [[]|] eqn:E; try done; cbn; intros [= <-]; [|done].
  intros ->. eauto.
Qed.
Lemma value_tool j key v : json_value get_string j key "false" = Some v ->
  str_eqb v "true" = true -> has_member j key (JString "true").
Proof.
  unfold json_value, has_member. destruct j as [| | | | | |kvs]; try done.
  destruct (obj_find key kvs) as [[]|] eqn:E; try done; cbn; intros [= <-]; [|done].
  intros ->%str_eqb_true. eauto.
Qed.

Lemma shield_steps_asked j :
  Forall (fun s => forall x y, asked_for j x -> s x = Some y -> asked_for j y) (shield_steps j).
Proof.
  unfold shield_steps, switch, tool_switch, assign.
  repeat apply Forall_cons_2; try apply Forall_nil_2; intros x y Hx Hy;
    (destruct (json_value _ j _ _) as [v|] eqn:E in Hy; [|done]); injection Hy as <-;
    unfold asked_for, hide_switches, tool_switches in *;
    destruct Hx as (H1 & H2 & H3 & H4);
    repeat match goal with H : Forall _ (_ :: _) |- _ => apply Forall_cons_1 in H as [? H] end;
    split_and!; repeat apply Forall_cons_2; try apply Forall_nil_2; cbn in *;
    eauto using value_bool, value_tool.
Qed.

Lemma default_asked_for j : asked_for j default_file.
Proof.
  unfold asked_for. split_and!; try done; repeat apply Forall_cons_2; try done;
    apply Forall_nil_2.
Qed.

(** C32: The shield file can only switch a protection off, or a bypass on, by
    saying so under its key: whatever the file holds, even if it cannot be
    parsed or a member has the wrong type, a protection is off only if its
    member is [false], and a per-tool bypass on only if its member is the
    string [true].  Without a readable JSON file the defaults stand. *)
Theorem shield_file_fail_safe `{JsonLib} w h :
  let '(sf, h') := read_shield w h in
  let j := file_object (w_read w h "/data/adb/astraveil/shield.json") in
  h' = h ++ [OpRead "/data/adb/astraveil/shield.json"]
  /\ match j with Some j => asked_for j sf | None => sf = default_file end.
Proof.
  unfold read_shield, file_object, bind, sys_read, ret. split; [done|].
  destruct (w_read w h _) as [text|]; [|done]. destruct (json_parse text) as [j|]; [|done].
  apply (try_steps_inv (asked_for j)); [apply shield_steps_asked|apply default_asked_for].
Qed.

(** ** The entry point *)

(** The calls that look up and hook [symbols]. *)
Definition hook_op_of (symbols : list string) (o : sysop) : Prop :=
  match o with
  | OpDlsym s => s ∈ symbols
  | OpCall name [s] [] => name = "DobbyHook" /\ s ∈ symbols
  | _ => False
  end.
Definition prop_symbols : list string :=
  ["__system_property_get"; "__system_property_read_callback"].
Definition gl_symbols : list string := ["glGetString"; "dlsym"].
Definition shield_symbols (cfg : ShieldConfig) : list string :=
  "openat" :: if momo_bypass cfg then ["syscall"] else [].

Lemma install_hook_emits symbols s b :
  s ∈ symbols -> emits (hook_op_of symbols) (install_hook s b).
Proof. intros Hs. unfold install_hook. emits_tac. Qed.

Lemma hook_op_mono l1 l2 o :
  (forall s, s ∈ l1 -> s ∈ l2) -> hook_op_of l1 o -> hook_op_of l2 o.
Proof.
  intros Hl. destruct o; cbn; try done; [by apply Hl|].
  destruct sargs as [|s []], zargs; naive_solver.
Qed.
Lemma hook_op_of_weaken l1 l2 {A} (c : Sys A) :
  (forall s, s ∈ l1 -> s ∈ l2) -> emits (hook_op_of l1) c -> emits (hook_op_of l2) c.
Proof. intros Hl. apply emits_weaken. intros o. by apply hook_op_mono. Qed.

Lemma install_props_emits m st : emits (hook_op_of prop_symbols) (install_props m st).
Proof.
  unfold install_props.
  repeat (apply emits_bind; [apply install_hook_emits; unfold prop_symbols; set_unfold; tauto|intros]).
  apply emits_ret.
Qed.
Lemma install_gl_emits r v st : emits (hook_op_of gl_symbols) (install_gl r v st).
Proof.
  unfold install_gl.
  repeat (apply emits_bind; [apply install_hook_emits; unfold gl_symbols; set_unfold; tauto|intros]).
  apply emits_ret.
Qed.
Lemma install_shield_emits cfg st : emits (hook_op_of (shield_symbols cfg)) (install cfg st).
Proof.
  unfold install, shield_symbols.
  apply emits_bind; [apply install_hook_emits; set_unfold; tauto|intros].
  apply emits_bind; [|intros; apply emits_ret].
  destruct (momo_bypass cfg); [apply install_hook_emits; set_unfold; tauto|apply emits_ret].
Qed.

Lemma wp_call {A} (P : sysop -> Prop) (V : A -> Prop) (c : Sys A) (Q : A -> trace -> Prop) w h :
  emits P c -> gives V c -> (forall a t, V a -> Forall P t -> Q a (h ++ t)) -> wp c Q w h.
Proof.
  intros Hc Hv HQ. destruct (Hc w h) as (t & E & Ht). unfold wp. rewrite E. apply HQ; [|done].
  apply Hv.
Qed.

Section entry.
Context `{JsonLib}.

(** What is installed for a profile and the shield's switches. *)
Definition spoofs (sf : shield_file) (c : SpoofConfig) : bool := spoofEnabled sf && enabled c.
Definition spoofs_gl (sf : shield_file) (c : SpoofConfig) : bool :=
  spoofs sf c && negb (is_empty (gl_renderer c)).
Definition hooked_symbols (sf : shield_file) (c : SpoofConfig) : list string :=
  (if spoofs sf c then prop_symbols else []) ++ (if spoofs_gl sf c then gl_symbols else [])
  ++ (if shieldEnabled sf then shield_symbols (shield sf) else []).

Definition installed (sf : shield_file) (c : SpoofConfig) (p p' : process) : Prop :=
  (if spoofs sf c then g_props (p_props p') = props c else p_props p' = p_props p)
  /\ (if spoofs_gl sf c
      then g_renderer (p_gl p') = gl_renderer c /\ g_vendor (p_gl p') = gl_vendor c
      else p_gl p' = p_gl p)
  /\ (if shieldEnabled sf then g_config (p_shield p') = shield sf else p_shield p' = p_shield p).

Lemma install_spoof_spec b c p :
  let V p' :=
    (if b && enabled c then g_props (p_props p') = props c else p_props p' = p_props p)
    /\ (if b && enabled c && negb (is_empty (gl_renderer c))
        then g_renderer (p_gl p') = gl_renderer c /\ g_vendor (p_gl p') = gl_vendor c
        else p_gl p' = p_gl p)
    /\ p_shield p' = p_shield p in
  gives V (install_spoof b c p)
  /\ emits (hook_op_of ((if b && enabled c then prop_symbols else [])
      ++ (if b && enabled c && negb (is_empty (gl_renderer c)) then gl_symbols else [])))
      (install_spoof b c p).
Proof.
  unfold install_spoof. cbv zeta.
  destruct (b && enabled c); cbn [andb]; [|split; [by apply gives_ret|apply emits_ret]]. split.
  - apply (gives_bind_val (fun ps => g_props ps = props c)).
    { unfold install_props. do 2 (apply gives_bind; intros). by apply gives_ret. }
    intros ps Hps. destruct (negb _); [|by intros w h].
    apply (gives_bind_val (fun gs => g_renderer gs = gl_renderer c /\ g_vendor gs = gl_vendor c)).
    { unfold install_gl. do 2 (apply gives_bind; intros). by apply gives_ret. }
    intros gs Hgs. by apply gives_ret.
  - apply emits_bind; [|intros ps; apply emits_bind; [|intros; apply emits_ret]].
    + eapply hook_op_of_weaken, install_props_emits. set_solver.
    + destruct (negb _); [|apply emits_ret].
      eapply hook_op_of_weaken, install_gl_emits. set_solver.
Qed.

Lemma install_spoof_hook b c p w h :
  orig_prop_get_set (p_props p) = false ->
  orig_prop_get_set (p_props (install_spoof b c p w h).1)
  = b && enabled c && negb (w_int w h (OpDlsym "__system_property_get") =? 0)
    && (w_int w (h ++ [OpDlsym "__system_property_get"])
          (OpCall "DobbyHook" ["__system_property_get"] []) =? 0).
Proof.
  intros Hp. unfold install_spoof. destruct (b && enabled c); [|done]. cbn [andb].
  unfold bind. destruct (install_props (props c) (p_props p) w h) as [ps h1] eqn:E.
  transitivity (orig_prop_get_set ps); [destruct (negb _); [by destruct (install_gl _ _ _ w h1)|done]|].
  revert E. unfold install_props, install_hook. rewrite Hp. cbn [negb].
  unfold sys_ok, sys_int, bind, ret. cbn. rewrite andb_true_r.
  destruct (negb (w_int w h _ =? 0)); cbn;
    destruct (negb _ && negb _); by intros [= <- _].
Qed.

Lemma install_shield_spec sf p :
  gives (fun p' => p_props p' = p_props p /\ p_gl p' = p_gl p /\
    (if shieldEnabled sf then g_config (p_shield p') = shield sf else p_shield p' = p_shield p))
    (install_shield sf p)
  /\ emits (hook_op_of (if shieldEnabled sf then shield_symbols (shield sf) else []))
      (install_shield sf p).
Proof.
  unfold install_shield.
  destruct (shieldEnabled sf); [|split; [by apply gives_ret|apply emits_ret]]. split.
  - apply (gives_bind_val (fun ss => g_config ss = shield sf)); [|intros; by apply gives_ret].
    unfold install. apply gives_bind; intros; apply gives_bind; intros. by apply gives_ret.
  - apply emits_bind; [apply install_shield_emits|intros; apply emits_ret].
Qed.

(** The module never touches the framework's or its own processes: for
    those, for a process without a name and when both engines are switched
    off all it does is ask, once, to be unloaded.  In every other process it
    hooks the property reads only for an enabled profile with spoofing on, the
    GL driver only if that profile names a renderer, and the file accesses
    exactly with the shield on, with the configuration of [shield.json]; it
    performs no other call. *)
Lemma preAppSpecialize_cases api nice_name p w h :
  let '(r, h') := preAppSpecialize (Some api) nice_name p w h in
  let unloaded h := r = Some p /\ h' = (setOption api DLCLOSE_MODULE_LIBRARY w h).2 in
  match nice_name with
  | Some pkg =>
      if excluded_process pkg then unloaded h else
      let '(sf, h1) := read_shield w h in
      if shieldEnabled sf || spoofEnabled sf then
        let '(config, h2) := load_spoof pkg w h1 in
        exists p' t, r = Some p' /\ installed sf config p p'
          /\ h' = h2 ++ t /\ Forall (hook_op_of (hooked_symbols sf config)) t
      else unloaded h1
  | None => unloaded h
  end.
Proof.
  assert (Hu : forall h, run_bind (unload (Some api)) (fun _ => done p) w h
                         = (Some p, (setOption api DLCLOSE_MODULE_LIBRARY w h).2)).
  { intros h0. unfold unload, run_bind, done, bind, ret. by destruct (setOption _ _ w h0). }
  unfold preAppSpecialize. cbv zeta.
  destruct nice_name as [pkg|]; [|by rewrite Hu].
  destruct (excluded_process pkg); [by rewrite Hu|]. unfold bind at 1.
  destruct (read_shield w h) as [sf h1]. rewrite <-negb_orb.
  destruct (shieldEnabled sf || spoofEnabled sf); cbn [negb]; [|by rewrite Hu]. unfold bind at 1.
  destruct (load_spoof pkg w h1) as [config h2].
  unfold bind at 1.
  destruct (install_spoof_spec (spoofEnabled sf) config p) as [Hv He].
  specialize (Hv w h2). destruct (He w h2) as (t1 & E1 & Ht1).
  destruct (install_spoof _ _ _ w h2) as [p1 h3]. cbn in Hv, E1. subst h3. unfold bind at 1.
  destruct (install_shield_spec sf p1) as [Hv2 He2].
  specialize (Hv2 w (h2 ++ t1)). destruct (He2 w (h2 ++ t1)) as (t2 & E2 & Ht2).
  destruct (install_shield sf p1 w _) as [p' h']. cbn in Hv2, E2. subst h'.
  destruct Hv as (Ha & Hb & Hc), Hv2 as (Ea & Eb & Hd). rewrite Hc in Hd.
  exists p', (t1 ++ t2). split; [done|]. split.
  - unfold installed, spoofs_gl, spoofs. by rewrite Ea, Eb.
  - split; [by rewrite (assoc_L (++))|]. unfold hooked_symbols, spoofs_gl, spoofs.
    rewrite (assoc_L (++)). apply Forall_app. split.
    + eapply Forall_impl; [exact Ht1|]. intros o. apply hook_op_mono. set_solver.
    + eapply Forall_impl; [exact Ht2|]. intros o. apply hook_op_mono. set_solver.
Qed.

(** What the entry makes of the property hooks. *)
Lemma preAppSpecialize_props api pkg p w h :
  exists p', (preAppSpecialize (Some api) (Some pkg) p w h).1 = Some p' /\
  p_props p' = p_props (if excluded_process pkg then p else
    let '(sf, h1) := read_shield w h in
    let '(c, h2) := load_spoof pkg w h1 in
    (install_spoof (spoofEnabled sf) c p w h2).1).
Proof.
  unfold preAppSpecialize. cbv zeta.
  assert (Hu : forall h, (run_bind (unload (Some api)) (fun _ => done p) w h).1 = Some p).
  { intros h0. unfold unload, run_bind, done, bind, ret. by destruct (setOption _ _ w h0). }
  destruct (excluded_process pkg); [by exists p|]. unfold bind at 1.
  destruct (read_shield w h) as [sf h1].
  destruct (shieldEnabled sf) eqn:Es, (spoofEnabled sf) eqn:Ep; cbn [negb andb]; cycle -1.
  { exists p. rewrite Hu. by destruct (load_spoof pkg w h1). }
  all: unfold bind; destruct (load_spoof pkg w h1) as [c h2];
    destruct (install_spoof _ c p w h2) as [p1 h3];
    pose proof (proj1 (install_shield_spec sf p1) w h3) as Hs;
    destruct (install_shield sf p1 w h3) as [p2 h4]; exists p2; split; [done|]; apply Hs.
Qed.

End entry.

(** ** The shield in a fresh process *)

Lemma install_openat_set cfg st w h :
  (forall h, w_int w h (OpDlsym "openat") <> 0) ->
  (forall h, w_int w h (OpCall "DobbyHook" ["openat"] []) = 0) ->
  orig_openat_set (install cfg st w h).1 = true.
Proof.
  intros Hs Hd. unfold install, bind, ret.
  assert (E : (install_hook "openat" (orig_openat_set st) w h).1 = true).
  { unfold install_hook, sys_ok, bind, sys_int, ret.
    rewrite (proj2 (Z.eqb_neq _ _) (Hs h)). cbn [negb andb].
    destruct (orig_openat_set st); cbn [negb]; rewrite ?Hd; done. }
  destruct (install_hook "openat" _ w h) as [o h1]. cbn in E. subst o.
  destruct (momo_bypass cfg); [|done]. by destruct (install_hook _ _ _ _).
Qed.

Lemma mount_file_view path :
  path ∈ mount_files -> path_view default_shield path = Edited filter_mounts.
Proof.
  unfold mount_files. rewrite !elem_of_cons, elem_of_nil.
  by intros [->|[->|[->|[]]]]; vm_compute.
Qed.

(** In a fresh application process, without a shield file and where the
    hook on [openat] can be placed, the entry leaves the shield working: from
    then on nothing below /data/adb opens, and each of the mount tables is
    served without any line that holds a signature, in whatever state the
    system is by then. *)
Theorem shield_on_by_default `{JsonLib} api pkg w h :
  excluded_process pkg = false ->
  w_read w h "/data/adb/astraveil/shield.json" = None ->
  (forall h, w_int w h (OpDlsym "openat") <> 0) ->
  (forall h, w_int w h (OpCall "DobbyHook" ["openat"] []) = 0) ->
  exists p', (preAppSpecialize api (Some pkg) process_init w h).1 = Some p' /\
  let s := p_shield p' in
  orig_openat_set s = true
  /\ forall dirfd flags mode w' h',
    (forall rest, hooked_openat (g_config s) dirfd (Some ("/data/adb" +:+ rest)) flags mode w' h'
                  = ((-1, Some ENOENT), h'))
    /\ (forall path raw h2, path ∈ mount_files ->
          read_real dirfd path flags w' h' = (raw, h2) -> raw <> EmptyString ->
          hooked_openat (g_config s) dirfd (Some path) flags mode w' h'
          = served (concat_str (kept_lines MOUNT_SIGNATURES raw)) w' h2).
Proof.
  intros Hp Hr Hs Hd. cbv zeta.
  assert (E : exists p' h', (preAppSpecialize api (Some pkg) process_init w h).1 = Some p' /\
      p_shield p' = (install default_shield shield_init w h').1).
  { unfold preAppSpecialize. rewrite Hp. unfold bind at 1, read_shield, bind at 1, sys_read, ret at 1.
    rewrite Hr. cbn [default_file shieldEnabled spoofEnabled negb andb]. unfold bind at 1.
    destruct (load_spoof pkg w _) as [config h2]. unfold bind at 1.
    destruct (install_spoof_spec true config process_init) as [Hv _].
    specialize (Hv w h2). destruct (install_spoof _ _ _ w h2) as [p1 h3]. cbn in Hv.
    destruct Hv as (_ & _ & Es). unfold bind at 1, install_shield. cbn. rewrite Es.
    unfold bind, ret, done.
    destruct (install default_shield shield_init w h3) as [ss h4] eqn:Ei.
    eexists _, h3. split; [done|]. cbn. by rewrite Ei. }
  destruct E as (p' & h' & Ep & Es). exists p'. split; [done|]. rewrite Es.
  set (st := shield_init).
  split; [by apply install_openat_set|].
  assert (g_config (install default_shield st w h').1 = default_shield) as ->.
  { unfold install, bind, ret. by destruct (install_hook _ _ _ _). }
  intros dirfd flags mode w1 h1. split.
  - intros rest. rewrite hooked_openat_present. unfold path_view, should_hide_path.
    assert (starts_with "/data/adb" ("/data/adb" +:+ rest) = true) as ->
      by (apply starts_with_spec; by exists rest).
    by destruct (existsb _ _).
  - intros path raw h2 Hin Hraw Hne. rewrite hooked_openat_present, mount_file_view by done.
    unfold present, bind. rewrite Hraw, (proj2 (is_empty_false raw) Hne).
    by rewrite <-(filter_kept MOUNT_SIGNATURES (has_signature MOUNT_SIGNATURES)).
Qed.

(** ** Concrete inputs *)

Definition sample_profile : json :=
  JObject [("enabled", JBool true);
           ("props", JObject [("ro.product.brand", JString "google");
                              ("ro.product.model", JString "Pixel 8")])].
Definition sample_json : JsonLib := {|
  json_parse := fun s => if str_eqb s "profile" then Some sample_profile else None;
  dump_float := fun _ => "0.0";
  float_to_i32 := fun _ => 0 |}.
(** A device with a global profile only, where hooks can be placed. *)
Definition sample_device : World := {|
  w_exists := fun _ p => str_eqb p "/data/adb/astraveil/spoof/global.json";
  w_read := fun _ p => if str_eqb p "/data/adb/astraveil/spoof/global.json"
                       then Some "profile" else None;
  w_popen := fun _ _ => None;
  w_now := fun _ => EmptyString;
  w_int := fun _ o => match o with OpDlsym _ => 4096 | _ => 0 end |}.

Lemma sample_unique text j :
  @json_parse sample_json text = Some j -> unique_props j.
Proof.
  cbn. destruct (str_eqb text "profile"); [|done]. intros [= <-] items [= <-]. cbn.
  apply NoDup_cons. split; [by intros [=]%list_elem_of_singleton|apply NoDup_singleton].
Qed.

Lemma load_spoof_spec_witness :
  let c := (@load_spoof sample_json "com.bank" sample_device []).1 in
  enabled c = true /\ smap_find "ro.product.model" (props c) = Some "Pixel 8".
Proof.
  pose proof (@load_spoof_spec sample_json "com.bank" sample_device [] sample_unique) as Hl.
  cbv zeta in Hl |- *.
  destruct (@load_spoof sample_json "com.bank" sample_device []) as [c h'].
  destruct Hl as (j & Hj & He & Hk).
  assert (j = Some sample_profile) as -> by exact (proj2 Hj).
  split.
  - apply He. eexists. split; reflexivity.
  - exact (Hk "ro.product.model").
Defined.

Lemma shield_on_by_default_witness :
  exists p', (@preAppSpecialize sample_json None (Some "com.bank")
                process_init sample_device []).1 = Some p' /\ orig_openat_set (p_shield p') = true.
Proof.
  destruct (@shield_on_by_default sample_json None "com.bank" sample_device []) as (p' & E & Hs & _).
  - reflexivity.
  - reflexivity.
  - intros h. discriminate.
  - intros h. reflexivity.
  - exists p'. split; [exact E|exact Hs].
Defined.

(** The GL hooks: a profile's renderer and vendor are reported if they are
    not empty, everything else by the driver; a lookup of [glGetString]
    yields the hook once it is placed. *)
Lemma gl_answers st driver hooked orig :
  (forall name, hooked_glGetString st driver name <> driver name ->
     (name = GL_RENDERER /\ g_renderer st <> EmptyString)
     \/ (name = GL_VENDOR /\ g_vendor st <> EmptyString))
  /\ (forall s, hooked_dlsym st hooked orig s <> orig s ->
      s = Some "glGetString" /\ orig_glGetString_set st = true).
Proof.
  split.
  - intros name. unfold hooked_glGetString.
    destruct (Z.eqb_spec name GL_RENDERER), (is_empty (g_renderer st)) eqn:E1;
      destruct (Z.eqb_spec name GL_VENDOR), (is_empty (g_vendor st)) eqn:E2; cbn; try done;
      rewrite ?is_empty_false in *; auto.
  - intros [s|]; cbn; [|done]. destruct (str_eqb s "glGetString") eqn:E; [|done].
    apply str_eqb_true in E as ->. by destruct (orig_glGetString_set st).
Qed.
