(* ===== verification/SpoofJson.v ===== *)
(** * SpoofJson: the spoofing configuration with its own parser

    The zygisk module reads its configuration with the JSON library it
    includes: this file puts the library of ModuleJson where Spoof has a
    parameter, and follows a configuration from the text of the file, through
    the module's entry point, to what an application reads as the value of a
    system property. *)

From Stdlib Require Import ZArith Ascii String Lia.
From stdpp Require Import base numbers list strings.
From S2P Require Import Prelude Json JsonLex JsonParse JsonGrammar Strtod FloatText ModuleJson.
From S2P Require Import Zygisk Shield Spoof.

Open Scope Z_scope.

Section module_json.
Context `{StrtodLaws} (truncate : Z -> Z).
#[local] Instance library : JsonLib := module_json truncate.

(** What Spoof assumes of the parser holds of this one. *)
Lemma module_json_unique text j : json_parse text = Some j -> unique_props j.
Proof.
  intros Hj%json_parse_text_wf items. unfold member_object.
  destruct Hj as [| | | | | |kvs Hk Hkvs]; try done.
  destruct (obj_find "props" kvs) as [v|] eqn:E; [|done].
  assert (wf_json (fun _ => True) v) as Hv.
  { clear -E Hkvs. induction Hkvs as [|[k u] kvs [_ Hu] _ IH]; [done|]. cbn in E.
    destruct (str_eqb "props" k); [by injection E as <-|by apply IH]. }
  destruct Hv as [| | | | | |kvs' Hk' _]; try done. intros [= <-]. by apply sorted_keys_NoDup.
Qed.

(** The profile asks for spoofing. *)
Definition profile_enabled (j : json) : bool :=
  match j with
  | JObject kvs => match obj_find "enabled" kvs with Some (JBool b) => b | _ => false end
  | _ => false
  end.

(** Loading the application's own profile. *)
Lemma own_profile pkg w h j text :
  let perApp := DIR +:+ "/" +:+ pkg +:+ ".json" in
  wf_json finite j -> dump j = Some text ->
  w_exists w h perApp = true -> w_read w (h ++ [OpExists perApp]) perApp = Some text ->
  let '(c, h') := load_spoof pkg w h in
  h' = h ++ [OpExists perApp; OpRead perApp]
  /\ enabled c = profile_enabled j
  /\ forall k, smap_find k (props c) = if well_typed j then file_value j k else None.
Proof.
  intros perApp Hj He Hex Hrd.
  pose proof (load_spoof_spec pkg w h module_json_unique) as Hl. cbv zeta in Hl.
  fold perApp in Hl. destruct (load_spoof pkg w h) as [c h'].
  destruct Hl as (oj & Hwhere & Hen & Hprops). rewrite Hex, Hrd in Hwhere.
  destruct Hwhere as [-> Hoj]. cbn in Hoj. unfold json_parse_text in Hoj.
  destruct (dump_parses truncate j Hj) as (text' & He' & Hp).
  change (dump j = Some text) in He. unfold library in He. rewrite He' in He. injection He as <-.
  rewrite Hp in Hoj. subst oj. split_and!; [by rewrite <-app_assoc| |done].
  apply eq_bool_prop_intro. rewrite !Is_true_true, Hen. unfold profile_enabled.
  destruct j as [| | | | | |kvs]; [naive_solver..|]. split.
  - by intros (? & [= <-] & ->).
  - destruct (obj_find "enabled" kvs) as [[]|] eqn:E; try done. intros ->. eauto.
Qed.

(** C30: From the file to the application: in a process that the framework
    hands to the module, with the profile of the application (the text the
    serializer writes for a well-formed value) in its place, the hook on
    [__system_property_get] is placed exactly if the process is not one of
    the excluded, the shield file does not switch spoofing off, the profile's
    [enabled] is the boolean [true], the symbol is found and the hooking
    library hooks it.  If so, and if [enabled] and [profile] have their types,
    an application that reads a property gets the string that [props] has for
    it, cut at a NUL byte; a string of 92 bytes or more overruns its buffer.
    In every other case it gets the device's own value. *)
Theorem profile_served api pkg w h j text :
  let shieldFile := "/data/adb/astraveil/shield.json" in
  let perApp := DIR +:+ "/" +:+ pkg +:+ ".json" in
  let h1 := h ++ [OpRead shieldFile] in
  let h2 := h1 ++ [OpExists perApp; OpRead perApp] in
  let get := "__system_property_get" in
  wf_json finite j -> dump j = Some text ->
  w_exists w h1 perApp = true -> w_read w (h1 ++ [OpExists perApp]) perApp = Some text ->
  let placed := negb (excluded_process pkg)
    && negb (spoofing_off (file_object (w_read w h shieldFile)))
    && profile_enabled j
    && negb (w_int w h2 (OpDlsym get) =? 0)
    && (w_int w (h2 ++ [OpDlsym get]) (OpCall "DobbyHook" [get] []) =? 0) in
  exists p', (preAppSpecialize (Some api) (Some pkg) process_init w h).1 = Some p'
  /\ orig_prop_get_set (p_props p') = placed
  /\ forall d k, app_prop_get d p' (Some k)
                 = answer d k (if placed && well_typed j then file_value j k else None).
Proof.
  intros shieldFile perApp h1 h2 get Hj He Hex Hrd placed.
  destruct (preAppSpecialize_props api pkg process_init w h) as (p' & Ep & Ehook).
  exists p'. split; [done|]. unfold app_prop_get. rewrite Ehook.
  unfold placed. clear placed Ep Ehook.
  destruct (excluded_process pkg); cbn [negb andb]; [by split|].
  pose proof (read_shield_spoof w h) as Hsf. fold shieldFile in Hsf. rewrite <-Hsf. clear Hsf.
  assert ((read_shield w h).2 = h1) as Eh by done.
  destruct (read_shield w h) as [sf h1']. cbn [fst snd] in Eh |- *. subst h1'.
  pose proof (own_profile pkg w h1 j text Hj He Hex Hrd) as Hl. fold perApp in Hl.
  destruct (load_spoof pkg w h1) as [c h2']. destruct Hl as (-> & Hen & Hprops).
  rewrite <-Hen. fold h2.
  pose proof (install_spoof_hook (spoofEnabled sf) c process_init w h2 eq_refl) as Hset.
  fold get in Hset. rewrite Hset. split; [done|]. intros d k.
  pose proof (proj1 (install_spoof_spec (spoofEnabled sf) c process_init) w h2) as Hv.
  destruct (install_spoof _ c process_init w h2) as [p1 h3]. destruct Hv as [Hv _].
  cbn [fst] in Hv |- *. destruct (spoofEnabled sf && enabled c); [|done]. cbn [andb].
  destruct (negb _ && _); [|done]. by rewrite Hv, hooked_answer, Hprops.
Qed.
End module_json.

(** ** A concrete profile *)

Definition phone : json :=
  JObject [("enabled", JBool true);
           ("props", JObject [("ro.product.model", JString "Pixel 8")])].
Definition phone_path : string := DIR +:+ "/com.bank.json".
Definition phone_text : string :=
  default EmptyString (@dump (@module_json strtod_nearest_ref (fun _ => 0)) phone).
Definition phone_device : World := {|
  w_exists := fun _ p => str_eqb p phone_path;
  w_read := fun _ p => if str_eqb p phone_path then Some phone_text else None;
  w_popen := fun _ _ => None;
  w_now := fun _ => EmptyString;
  w_int := fun _ o => match o with OpDlsym _ => 4096 | _ => 0 end |}.
Lemma phone_wf fl : wf_json fl phone.
Proof.
  apply wf_object; [repeat constructor|].
  repeat (apply Forall_cons_2; [split; cbn [fst snd]|]); [..|apply Forall_nil_2];
    try (by apply ascii7_utf8; repeat (apply Forall_cons_2; [done|]); apply Forall_nil_2).
  - apply wf_bool.
  - apply wf_object; [repeat constructor|]. apply Forall_cons_2; [split|apply Forall_nil_2];
      [|apply wf_string]; apply ascii7_utf8;
      repeat (apply Forall_cons_2; [done|]); apply Forall_nil_2.
Qed.

(** The device's own model is real; the phone's profile makes it Pixel 8. *)
Definition real_phone : device :=
  {| prop_value := fun _ => "real"; pi_name := fun _ => None; pi_value := fun _ => "real";
     pi_serial := fun _ => 0 |}.

Lemma profile_served_witness :
  exists p', (@preAppSpecialize (@module_json strtod_nearest_ref (fun _ => 0)) (Some (bare_table (fun _ => ret true)))
                (Some "com.bank") process_init phone_device []).1 = Some p'
  /\ orig_prop_get_set (p_props p') = true
  /\ app_prop_get real_phone p' (Some "ro.product.model") = Some ("Pixel 8", 7)
  /\ app_prop_get real_phone p' (Some "ro.product.brand") = Some ("real", 4).
Proof.
  destruct (@profile_served strtod_nearest_ref strtod_nearest_ref_laws (fun _ => 0) (bare_table (fun _ => ret true))
              "com.bank" phone_device [] phone phone_text (phone_wf _) ltac:(reflexivity)
              ltac:(reflexivity) ltac:(reflexivity)) as (p' & Ep & Es & Ha).
  exists p'. split_and!; [exact Ep|exact Es| |]; rewrite Ha; reflexivity.
Defined.
