(* ===== verification/SpoofEarly.v ===== *)
(** * SpoofEarly: the earlier copy of the zygisk module

    [module-spoof/jni/]{[entry.cpp], [config_reader.cpp], [property_hook.cpp],
    [gl_spoof.cpp]}: the module as it was before the environment shield.  The
    build compiles the copy under [jni/src] (file Spoof); this one is kept
    beside it.  The operations are modelled again from its own sources and
    compared with those of the current module: the same profile is loaded, the
    same property and GL answers are given, and the entry differs in the
    processes it stays in.  The last part puts both classes behind the zygisk
    interface (file Zygisk). *)

From Stdlib Require Import ZArith Ascii String Lia.
From stdpp Require Import base numbers list sets strings.
From S2P Require Import Prelude Lines Json Zygisk Shield Spoof.

Open Scope Z_scope.

Module Early.

(** ** The configuration reader *)

Definition CONFIG_DIR : string := "/data/adb/astraveil/spoof".

Definition fileExists (path : string) : Sys bool := sys_exists path.

Definition parseConfig `{JsonLib} (path : string) : Sys SpoofConfig :=
  let! file := sys_read path in
  match file with
  | None => ret default_spoof
  | Some text =>
      match json_parse text with
      | None => ret default_spoof
      | Some j =>
          ret (try_steps
            ([ assign set_enabled (json_value get_bool j "enabled" false);
               assign set_profile (json_value get_string j "profile" EmptyString);
               (fun config => Some (match member_object j "props" with
                                    | Some items => set_props (read_props items (props config)) config
                                    | None => config
                                    end)) ]
             ++ match member_object j "gl" with
                | Some gl =>
                    [ assign set_renderer (json_value get_string (JObject gl) "renderer" EmptyString);
                      assign set_vendor (json_value get_string (JObject gl) "vendor" EmptyString) ]
                | None => []
                end) default_spoof)
      end
  end.

(** [ConfigReader::load]. *)
Definition load `{JsonLib} (packageName : string) : Sys SpoofConfig :=
  let perAppPath := CONFIG_DIR +:+ "/" +:+ packageName +:+ ".json" in
  let! e := fileExists perAppPath in
  if e then parseConfig perAppPath
  else
    let globalPath := CONFIG_DIR +:+ "/global.json" in
    let! e := fileExists globalPath in
    if e then parseConfig globalPath else ret default_spoof.

(** ** The property hooks *)

(** The static variables of [property_hook.cpp]; an original function is
    known once [DobbyHook] has stored it. *)
Record prop_globals := {
  g_spoofed_props : list (string * string);
  orig_prop_get : bool;
  orig_prop_read_callback : bool;
}.

(** [hooked_prop_get]: the bytes copied to the caller and the result, [None]
    when the copy leaves the caller's buffer. *)
Definition hooked_prop_get (d : device) (g : prop_globals) (name : option string)
    : option (string * Z) :=
  match name with
  | Some n =>
      match smap_find n (g_spoofed_props g) with
      | Some v => if strcpy_overflows PROP_VALUE_MAX (c_str v) then None
                  else Some (c_str v, i32 (str_size v))
      | None => let v := prop_value d name in Some (v, str_size v)
      end
  | None => let v := prop_value d name in Some (v, str_size v)
  end.

(** [trampoline_fn]: the value passed on to the user's callback, and whether
    the callback is called inside the locked block. *)
Definition trampoline_fn (g : prop_globals) (name : option string) (value : string)
    : string * bool :=
  match name with
  | Some n =>
      match smap_find n (g_spoofed_props g) with
      | Some v => (c_str v, true)
      | None => (value, false)
      end
  | None => (value, false)
  end.

(** A thread over the two hooks; [g_props_mutex] is locked for every name
    that is not null, and locking it twice never returns. *)
Fixpoint run_hooks (d : device) (g : prop_globals) (held : bool) (t : thread)
    : reads_end :=
  match t with
  | Done => Ran []
  | PropGet name next =>
      if match name with Some _ => held | None => false end then Deadlock
      else match hooked_prop_get d g name with
           | None => Overrun
           | Some (v, len) =>
               and_then (run_hooks d g held next) (fun es => Ran (Got name v len :: es))
           end
  | ReadCb pi callback next =>
      let name := pi_name d pi in
      if match name with Some _ => held | None => false end then Deadlock
      else
        let '(v, locked) := trampoline_fn g name (pi_value d pi) in
        and_then (run_hooks d g (locked || held) callback) (fun es1 =>
        and_then (run_hooks d g held next) (fun es2 =>
        Ran (CalledBack name v (pi_serial d pi) :: es1 ++ es2)))
  end.

(** [PropertyHook::install]. *)
Definition install_prop (props : list (string * string)) (g : prop_globals) : Sys prop_globals :=
  let! get_addr := sys_int (OpDlsym "__system_property_get") in
  let! get := (if negb (get_addr =? 0) && negb (orig_prop_get g)
               then sys_ok (OpCall "DobbyHook" ["__system_property_get"] [])
               else ret (orig_prop_get g)) in
  let! read_addr := sys_int (OpDlsym "__system_property_read_callback") in
  let! read := (if negb (read_addr =? 0) && negb (orig_prop_read_callback g)
                then sys_ok (OpCall "DobbyHook" ["__system_property_read_callback"] [])
                else ret (orig_prop_read_callback g)) in
  ret {| g_spoofed_props := props; orig_prop_get := get; orig_prop_read_callback := read |}.

(** ** The GL hooks *)

Record gl_globals := {
  g_renderer : string;
  g_vendor : string;
  orig_glGetString : bool;
  orig_dlsym : bool;
}.

Definition hooked_glGetString (g : gl_globals) (driver : Z -> string) (name : Z) : string :=
  if (name =? GL_RENDERER) && negb (is_empty (g_renderer g)) then c_str (g_renderer g)
  else if (name =? GL_VENDOR) && negb (is_empty (g_vendor g)) then c_str (g_vendor g)
  else driver name.

Definition hooked_dlsym (g : gl_globals) (hooked : Z) (orig : option string -> Z)
    (symbol : option string) : Z :=
  let result := orig symbol in
  if match symbol with Some s => str_eqb s "glGetString" && orig_glGetString g | None => false end
  then hooked else result.

(** [GlSpoof::install]. *)
Definition install_gl (renderer vendor : string) (g : gl_globals) : Sys gl_globals :=
  let! gl_addr := sys_int (OpDlsym "glGetString") in
  let! gl := (if negb (gl_addr =? 0) && negb (orig_glGetString g)
              then sys_ok (OpCall "DobbyHook" ["glGetString"] [])
              else ret (orig_glGetString g)) in
  let! dlsym_addr := sys_int (OpDlsym "dlsym") in
  let! dl := (if negb (dlsym_addr =? 0) && negb (orig_dlsym g)
              then sys_ok (OpCall "DobbyHook" ["dlsym"] [])
              else ret (orig_dlsym g)) in
  ret {| g_renderer := renderer; g_vendor := vendor; orig_glGetString := gl; orig_dlsym := dl |}.

(** ** The entry point *)

Record process := { e_props : prop_globals; e_gl : gl_globals }.

Definition excluded (packageName : string) : bool :=
  str_eqb packageName "android"
  || str_eqb packageName "com.astraveil.app"
  || str_eqb packageName "com.astraveil.xposed"
  || match str_find "com.android." packageName 0 with Some 0%nat => true | _ => false end.

Definition preAppSpecialize `{JsonLib} (api : option api_table) (nice_name : option string)
    (p : process) : Run process :=
  let unloaded := run_bind (unload api) (fun _ => done p) in
  match nice_name with
  | None => unloaded
  | Some packageName =>
      if excluded packageName then unloaded
      else
        let! config := load packageName in
        if negb (enabled config) then unloaded
        else
          let! props := install_prop (props config) (e_props p) in
          let! gl := (if negb (is_empty (gl_renderer config))
                      then install_gl (gl_renderer config) (gl_vendor config) (e_gl p)
                      else ret (e_gl p)) in
          done {| e_props := props; e_gl := gl |}
  end.

End Early.

(** ** The classes behind the zygisk interface *)

(** [AstraSpoofModule]: whether [api_] holds the address of the [Api] object,
    [env_], and the static variables [G] of the module's other files. *)
Record AstraSpoofModule (G : Type) := { api_ : bool; env_ : Z; globals : G }.
Arguments Build_AstraSpoofModule {G} _ _ _.
Arguments api_ {G} _. Arguments env_ {G} _. Arguments globals {G} _.

Definition construct {G} (g : G) : AstraSpoofModule G := {| api_ := false; env_ := 0; globals := g |}.

Definition onLoad_module {G} (env : Z) (m : AstraSpoofModule G) : Run (AstraSpoofModule G) :=
  done {| api_ := true; env_ := env; globals := globals m |}.

(** The overriding method, over the body [pre] of its entry point. *)
Definition pre_module {G} (pre : option api_table -> option string -> G -> Run G)
    (tbl : option api_table) (args : AppSpecializeArgs) (m : AstraSpoofModule G)
    : Run (AstraSpoofModule G * AppSpecializeArgs) :=
  run_bind (pre (if api_ m then tbl else None) (nice_name args) (globals m)) (fun g =>
  done ({| api_ := api_ m; env_ := env_ m; globals := g |}, args)).

Definition spoof_module `{JsonLib} : ModuleBase (AstraSpoofModule process) := {|
  onLoad := onLoad_module;
  preApp := pre_module preAppSpecialize;
  postApp := fun _ _ m => done m;
  preServer := preServer (module_base _);
  postServer := postServer (module_base _) |}.

Definition early_module `{JsonLib} : ModuleBase (AstraSpoofModule Early.process) := {|
  onLoad := onLoad_module;
  preApp := pre_module Early.preAppSpecialize;
  postApp := fun _ _ m => done m;
  preServer := preServer (module_base _);
  postServer := postServer (module_base _) |}.

(** ** The two copies compared *)

(** The state of the early module as a state of the current one. *)
Definition current_props (g : Early.prop_globals) : prop_state :=
  {| g_props := Early.g_spoofed_props g; orig_prop_get_set := Early.orig_prop_get g;
     orig_prop_read_cb_set := Early.orig_prop_read_callback g |}.
Definition current_gl (g : Early.gl_globals) : gl_state :=
  {| Spoof.g_renderer := Early.g_renderer g; Spoof.g_vendor := Early.g_vendor g;
     orig_glGetString_set := Early.orig_glGetString g; orig_dlsym_set := Early.orig_dlsym g |}.
Definition current (sh : shield_state) (p : Early.process) : process :=
  {| p_props := current_props (Early.e_props p); p_gl := current_gl (Early.e_gl p);
     p_shield := sh |}.

Lemma install_prop_current m g w h :
  install_props m (current_props g) w h
  = let '(g', h') := Early.install_prop m g w h in (current_props g', h').
Proof.
  unfold install_props, install_hook, Early.install_prop, bind, sys_int, ret. cbn.
  destruct (negb _ && negb _); cbn; by destruct (negb _ && negb _).
Qed.
Lemma install_gl_current r v g w h :
  Spoof.install_gl r v (current_gl g) w h
  = let '(g', h') := Early.install_gl r v g w h in (current_gl g', h').
Proof.
  unfold Spoof.install_gl, install_hook, Early.install_gl, bind, sys_int, ret. cbn.
  destruct (negb _ && negb _); cbn; by destruct (negb _ && negb _).
Qed.

Lemma early_prop_get d g name :
  Early.hooked_prop_get d g name = hooked_prop_get d (Early.g_spoofed_props g) name.
Proof. unfold hooked_prop_get, spoofed. by destruct name as [n|]; cbn; [destruct (smap_find _ _)|]. Qed.

Lemma run_hooks_current d g held t :
  Early.run_hooks d g held t = run_thread d (Early.g_spoofed_props g) held t.
Proof.
  revert held. induction t as [|n next IH|pi cb IHc next IHn]; intros held; cbn; [done| |].
  - by rewrite early_prop_get, IH; destruct n, held.
  - rewrite IHn. unfold Early.trampoline_fn, spoofed.
    destruct (pi_name d pi) as [n|]; cbn; [|by rewrite IHc]. destruct held; [done|].
    destruct (smap_find _ _); cbn; by rewrite IHc.
Qed.

Section copies.
Context `{JsonLib}.

Lemma early_load pkg w h : Early.load pkg w h = load_spoof pkg w h.
Proof.
  assert (Hp : forall path h, Early.parseConfig path w h = parse_spoof path w h).
  { intros path h0. unfold Early.parseConfig, parse_spoof, bind, sys_read, ret.
    destruct (w_read w h0 path) as [text|]; [|done]. by destruct (json_parse text). }
  unfold Early.load, load_spoof, Early.fileExists, bind, sys_exists. cbv zeta.
  unfold Early.CONFIG_DIR, DIR.
  destruct (w_exists w h _); [apply Hp|]. destruct (w_exists w _ _); [apply Hp|done].
Qed.

Lemma early_excluded pkg : Early.excluded pkg = excluded_process pkg.
Proof. unfold Early.excluded, excluded_process. by destruct (str_find _ _ _) as [[]|]. Qed.

(** What the early entry does in a process it does not exclude. *)
Lemma early_pre_loaded api pkg p w h :
  excluded_process pkg = false ->
  Early.preAppSpecialize api (Some pkg) p w h
  = let '(c, h1) := load_spoof pkg w h in
    if enabled c then
      let '(ps, h2) := Early.install_prop (props c) (Early.e_props p) w h1 in
      let '(gs, h3) := (if negb (is_empty (gl_renderer c))
                        then Early.install_gl (gl_renderer c) (gl_vendor c) (Early.e_gl p)
                        else ret (Early.e_gl p)) w h2 in
      (Some {| Early.e_props := ps; Early.e_gl := gs |}, h3)
    else let '(r, h2) := unload api w h1 in (option_map (fun _ => p) r, h2).
Proof.
  intros Hx. unfold Early.preAppSpecialize. cbv zeta. rewrite early_excluded, Hx.
  unfold bind at 1. rewrite early_load. destruct (load_spoof pkg w h) as [c h1].
  destruct (enabled c); cbn [negb].
  - unfold bind. destruct (Early.install_prop _ _ w h1) as [ps h2].
    destruct (negb _); [|done]. by destruct (Early.install_gl _ _ _ w h2).
  - unfold run_bind, bind, done, ret. destruct (unload api w h1) as [[] h2]; done.
Qed.

(** C34: The current module with its shield switched off is the earlier one:
    once [shield.json] has said so, it loads the same profile, places the same
    hooks in the same order and leaves the same state in every process with
    an enabled profile; processes without a name and excluded ones are treated
    alike.  In a process whose profile is not enabled the early module asks to
    be unloaded, where the current one stays. *)
Theorem early_module_refined api nice_name p sh w h :
  let '(c, hc) := preAppSpecialize api nice_name (current sh p) w h in
  match nice_name with
  | Some pkg =>
      if excluded_process pkg
      then (c, hc) = let '(e, he) := Early.preAppSpecialize api nice_name p w h in
                     (option_map (current sh) e, he)
      else
        let '(sf, h1) := read_shield w h in
        if shieldEnabled sf || negb (spoofEnabled sf) then True
        else
          let '(e, he) := Early.preAppSpecialize api nice_name p w h1 in
          if enabled (load_spoof pkg w h1).1
          then c = option_map (current sh) e /\ hc = he
          else c = Some (current sh p) /\ hc = (load_spoof pkg w h1).2
               /\ (e, he) = let '(r, hu) := unload api w hc in (option_map (fun _ => p) r, hu)
  | None => (c, hc) = let '(e, he) := Early.preAppSpecialize api nice_name p w h in
                      (option_map (current sh) e, he)
  end.
Proof.
  assert (Hu : forall h,
    run_bind (unload api) (fun _ => done (current sh p)) w h
    = let '(e, he) := run_bind (unload api) (fun _ => done p) w h in
      (option_map (current sh) e, he)).
  { intros h0. unfold run_bind, bind, done, ret. by destruct (unload api w h0) as [[] h']. }
  unfold preAppSpecialize. cbv zeta. destruct nice_name as [pkg|]; 
    [|rewrite Hu; unfold Early.preAppSpecialize; cbv zeta; by destruct (run_bind _ _ _ _)].
  destruct (excluded_process pkg) eqn:Hx.
  { rewrite Hu. unfold Early.preAppSpecialize. cbv zeta. rewrite early_excluded, Hx.
    by destruct (run_bind _ _ _ _). }
  unfold bind at 1. destruct (read_shield w h) as [sf h1].
  destruct (shieldEnabled sf) eqn:Es; cbn [orb negb andb].
  { match goal with |- context [ bind ?c ?k w h1 ] => by destruct (bind c k w h1) end. }
  destruct (spoofEnabled sf) eqn:Ep; cbn [negb]; [|by destruct (run_bind _ _ _ _)].
  rewrite early_pre_loaded by done. unfold bind at 1.
  destruct (load_spoof pkg w h1) as [config h2]. cbn [fst snd].
  unfold install_spoof, install_shield. rewrite Es. cbn [andb].
  destruct (enabled config).
  - change (p_props (current sh p)) with (current_props (Early.e_props p)).
    change (p_gl (current sh p)) with (current_gl (Early.e_gl p)).
    unfold bind. rewrite install_prop_current.
    destruct (Early.install_prop _ _ w h2) as [ps h3].
    destruct (negb (is_empty _)); [rewrite install_gl_current|done].
    by destruct (Early.install_gl _ _ _ w h3).
  - unfold bind, ret, done. cbn. destruct (unload api w h2). done.
Qed.

(** The hooks of both copies answer alike: with the same profile in place
    every thread of the application gets the same property values, stops at
    the same lock or overruns the same buffer, and the GL queries and symbol lookups have the same
    results. *)
Theorem early_hooks_alike d g gl :
  (forall t, Early.run_hooks d g false t = run_thread d (Early.g_spoofed_props g) false t)
  /\ (forall driver name, Early.hooked_glGetString gl driver name
                         = Spoof.hooked_glGetString (current_gl gl) driver name)
  /\ (forall hooked orig symbol, Early.hooked_dlsym gl hooked orig symbol
                                = Spoof.hooked_dlsym (current_gl gl) hooked orig symbol).
Proof.
  split; [intros t; apply run_hooks_current|]. split; [done|].
  by intros hooked orig [s|].
Qed.
End copies.

(** ** A hooked process is never unloaded *)

(** Reading the configuration files, and placing hooks. *)
Definition config_op (o : sysop) : Prop :=
  match o with
  | OpExists p | OpRead p => starts_with "/data/adb/astraveil/" p = true
  | _ => False
  end.
Definition hook_op (o : sysop) : Prop :=
  match o with OpDlsym _ => True | OpCall name [_] [] => name = "DobbyHook" | _ => False end.

(** The header's rule for [DLCLOSE_MODULE_LIBRARY]: after the configuration
    has been read ([hr]), a module either hands the option to the framework
    and has changed nothing, or places hooks and never sets the option. *)
Definition unloads_or_hooks {G} (table : api_table) (w : World) (h : trace) (g : G)
    (r : option G) (h' : trace) : Prop :=
  exists g' hr, r = Some g' /\ (exists reads, hr = h ++ reads /\ Forall config_op reads)
    /\ ((g' = g /\ h' = (setOption table DLCLOSE_MODULE_LIBRARY w hr).2)
        \/ exists t, h' = hr ++ t /\ Forall hook_op t).

Definition disciplined {G} (pre : option api_table -> option string -> G -> Run G) : Prop :=
  forall table name g w h,
    let '(r, h') := pre (Some table) name g w h in unloads_or_hooks table w h g r h'.

Lemma unload_disciplined {G} table w h reads (g : G) :
  Forall config_op reads ->
  let '(r, h') := unload (Some table) w (h ++ reads) in
  unloads_or_hooks table w h g (option_map (fun _ => g) r) h'.
Proof.
  intros Hr. unfold unload, bind, done, ret.
  destruct (setOption table DLCLOSE_MODULE_LIBRARY w (h ++ reads)) as [u h'] eqn:E.
  exists g, (h ++ reads). split; [done|]. split; [by exists reads|]. left. by rewrite E.
Qed.

Lemma run_unload {G} api (g : G) w h :
  run_bind (unload api) (fun _ => done g) w h
  = let '(r, h') := unload api w h in (option_map (fun _ => g) r, h').
Proof. unfold run_bind, bind, done, ret. by destruct (unload api w h) as [[] h']. Qed.

Lemma install_hook_ops s b : emits hook_op (install_hook s b).
Proof. unfold install_hook. emits_tac. Qed.
Lemma hook_op_of_hook symbols o : hook_op_of symbols o -> hook_op o.
Proof.
  destruct o; try done. cbn. destruct sargs as [|s []], zargs; try done. by intros [? _].
Qed.

Section discipline.
Context `{JsonLib}.

Lemma starts_with_app pre s : starts_with pre (pre +:+ s) = true.
Proof. apply starts_with_spec. by exists s. Qed.

Lemma load_spoof_reads pkg : emits config_op (load_spoof pkg).
Proof.
  assert (Hp : forall s, starts_with "/data/adb/astraveil/" (DIR +:+ s) = true).
  { intros s. apply (starts_with_app "/data/adb/astraveil/" ("spoof" +:+ s)). }
  assert (Hparse : forall s, emits config_op (parse_spoof (DIR +:+ s))).
  { intros s w h. rewrite parse_spoof_eq. exists [OpRead (DIR +:+ s)]. split; [done|].
    apply Forall_singleton. by apply Hp. }
  unfold load_spoof. cbv zeta.
  apply emits_bind; [intros w h; eexists; split; [done|]; apply Forall_singleton, Hp|intros e].
  destruct e; [apply Hparse|].
  apply emits_bind; [intros w h; eexists; split; [done|]; apply Forall_singleton, Hp|intros e].
  destruct e; [apply Hparse|apply emits_ret].
Qed.

Lemma read_shield_reads : emits config_op read_shield.
Proof.
  intros w h. exists [OpRead "/data/adb/astraveil/shield.json"]. split; [done|].
  by apply Forall_singleton.
Qed.

Lemma current_disciplined : disciplined preAppSpecialize.
Proof.
  intros table name g w h. unfold preAppSpecialize. cbv zeta.
  assert (Hu : forall reads, Forall config_op reads ->
    let '(r, h') := run_bind (unload (Some table)) (fun _ => done g) w (h ++ reads) in
    unloads_or_hooks table w h g r h').
  { intros reads Hr. rewrite run_unload. pose proof (unload_disciplined table w h reads g Hr) as Hd.
    by destruct (unload (Some table) w (h ++ reads)). }
  pose proof (Hu [] (Forall_nil_2 _)) as H0. rewrite app_nil_r in H0.
  destruct name as [pkg|]; [|done]. destruct (excluded_process pkg); [done|]. unfold bind at 1.
  destruct (read_shield_reads w h) as (t1 & E1 & H1).
  destruct (read_shield w h) as [sf h1]. cbn in E1. subst h1.
  destruct (negb _ && negb _); [by apply Hu|]. unfold bind at 1.
  destruct (load_spoof_reads pkg w (h ++ t1)) as (t2 & E2 & H2).
  destruct (load_spoof pkg w (h ++ t1)) as [c h2]. cbn in E2. subst h2.
  assert (Hi : emits hook_op (let! p := install_spoof (spoofEnabled sf) c g in install_shield sf p)).
  { apply emits_bind; [|intros p]; eapply emits_weaken, install_spoof_spec || eapply emits_weaken, install_shield_spec;
      apply hook_op_of_hook. }
  destruct (Hi w ((h ++ t1) ++ t2)) as (t & E & Ht). unfold bind in E |- *.
  destruct (install_spoof _ c g w _) as [p h3]. destruct (install_shield sf p w h3) as [p' h4].
  cbn in E. subst h4. exists p', ((h ++ t1) ++ t2). split; [done|]. split; [|right; by exists t].
  exists (t1 ++ t2). split; [by rewrite (assoc_L (++))|]. by apply Forall_app.
Qed.

Lemma early_disciplined : disciplined Early.preAppSpecialize.
Proof.
  intros table name g w h.
  assert (Hu : forall reads, Forall config_op reads ->
    let '(r, h') := unload (Some table) w (h ++ reads) in
    unloads_or_hooks table w h g (option_map (fun _ => g) r) h')
    by (intros reads; apply unload_disciplined).
  pose proof (Hu [] (Forall_nil_2 _)) as H0. rewrite app_nil_r in H0.
  destruct name as [pkg|]; [destruct (excluded_process pkg) eqn:Hx|].
  1, 3: unfold Early.preAppSpecialize; cbv zeta; rewrite ?early_excluded, ?Hx, run_unload;
    by destruct (unload (Some table) w h).
  rewrite early_pre_loaded by done. destruct (load_spoof_reads pkg w h) as (t1 & E1 & H1).
  destruct (load_spoof pkg w h) as [c h1]. cbn in E1. subst h1.
  destruct (enabled c).
  - assert (Hp : emits hook_op (Early.install_prop (props c) (Early.e_props g)))
      by (unfold Early.install_prop; emits_tac).
    assert (Hg : emits hook_op (if negb (is_empty (gl_renderer c))
      then Early.install_gl (gl_renderer c) (gl_vendor c) (Early.e_gl g) else ret (Early.e_gl g)))
      by (unfold Early.install_gl; emits_tac).
    destruct (Hp w (h ++ t1)) as (t2 & E2 & H2).
    destruct (Early.install_prop _ _ w (h ++ t1)) as [ps h2]. cbn in E2. subst h2.
    revert Hg. set (gl := if negb (is_empty _) then _ else _). intros Hg.
    destruct (Hg w ((h ++ t1) ++ t2)) as (t3 & E3 & H3).
    destruct (gl w ((h ++ t1) ++ t2)) as [gs h3]. cbn in E3. subst h3.
    eexists _, (h ++ t1). split; [done|]. split; [by exists t1|]. right. exists (t2 ++ t3).
    split; [by rewrite (assoc_L (++))|]. by apply Forall_app.
  - pose proof (Hu t1 H1) as Hd. by destruct (unload (Some table) w (h ++ t1)).
Qed.

(** Loading a module whose entry is disciplined into an application's
    process. *)
Lemma app_process_disciplined {G} (pre : option api_table -> option string -> G -> Run G)
    (T : ModuleBase (AstraSpoofModule G)) (g : G) table env args w h :
  onLoad T = onLoad_module -> preApp T = pre_module pre ->
  (forall api args m, postApp T api args m = done m) -> disciplined pre ->
  let '(r, h') := app_process T (construct g) table env args w h in
  let '(ok, h0) := registerModule table ZYGISK_API_VERSION w h in
  if ok then exists g', r = Some (Some {| api_ := true; env_ := env; globals := g' |})
                        /\ unloads_or_hooks table w h0 g (Some g') h'
  else r = Some None /\ h' = h0.
Proof.
  intros Hl Hp Ho Hd. unfold app_process, entry_impl, run_bind, bind. cbn.
  destruct (registerModule _ _ w h) as [[] h0]; cbn; [|done].
  rewrite Hl. cbn. rewrite Hp. unfold pre_module, run_bind, bind. cbn.
  specialize (Hd table (nice_name args) g w h0).
  destruct (pre (Some table) (nice_name args) g w h0) as [r h1].
  destruct Hd as (g' & hr & -> & Hr & Hc). cbn. rewrite Ho. cbn.
  exists g'. split; [done|]. exists g', hr. done.
Qed.

(** C33: Loaded into the process of an application, neither copy of the module
    ever follows a null [api_], and neither breaks the interface's rule that
    a module must not ask to be unloaded after hooking a function: after
    reading its configuration files it either sets the option once, having
    changed nothing, or hooks functions and makes no call to the framework at
    all.  A module that the framework refuses does nothing. *)
Theorem never_unloaded_after_hooking table env args w h :
  let good {G} (T : ModuleBase (AstraSpoofModule G)) (g : G) :=
    let '(r, h') := app_process T (construct g) table env args w h in
    let '(ok, h0) := registerModule table ZYGISK_API_VERSION w h in
    if ok then exists g', r = Some (Some {| api_ := true; env_ := env; globals := g' |})
                          /\ unloads_or_hooks table w h0 g (Some g') h'
    else r = Some None /\ h' = h0 in
  good spoof_module process_init
  /\ good early_module {| Early.e_props := {| Early.g_spoofed_props := [];
                            Early.orig_prop_get := false; Early.orig_prop_read_callback := false |};
                          Early.e_gl := {| Early.g_renderer := EmptyString;
                            Early.g_vendor := EmptyString; Early.orig_glGetString := false;
                            Early.orig_dlsym := false |} |}.
Proof.
  cbv zeta. split.
  - by apply (app_process_disciplined preAppSpecialize), current_disciplined.
  - by apply (app_process_disciplined Early.preAppSpecialize), early_disciplined.
Qed.
End discipline.
