(* ===== verification/DaemonJson.v ===== *)
(** * DaemonJson: the daemon's answers and requests as JSON

    The handlers of [main.cpp] composed with the writers of JsonWrite and with
    a JSON library that keeps its contract [JsonLibLaws]: what the daemon
    answers can be read by every JSON parser, and the Execute requests that
    are written as JSON arrive as they are; a module id that is not UTF-8 is
    written to the audit log and ends the daemon when the log is asked for. *)

From Stdlib Require Import ZArith Ascii String Lia.
From stdpp Require Import base numbers list strings gmap.
From S2P Require Import Prelude Lines Json JsonLex JsonParse JsonGrammar JsonText JsonRfc JsonWrite Strtod ModuleJson.
From S2P Require Import Capability Security RootRuntime Provider Services Policy Daemon.

Open Scope Z_scope.

(** ** Answers *)

Definition module_text (m : Module_) : Prop :=
  utf8 (mm_id (mod_manifest m)) /\ utf8 (mm_name (mod_manifest m))
  /\ utf8 (mm_version (mod_manifest m)) /\ utf8 (mod_path m).
Definition modules_text (d : Daemon) : Prop := Forall module_text (d_modules d).

Lemma member_intro `{Strtod} k v : forallb verbatim (String.list_ascii_of_string k) = true ->
  json_text v -> member_text («k» +:+ ":" +:+ v).
Proof. intros Hk Hv. exists k, k, v. split_and!; [by apply chars_verbatim|done|done]. Qed.

Lemma escaped_text `{Strtod} s : utf8 s -> json_text «json_escape s».
Proof. intros Hs. eapply string_text. by apply chars_json_escape. Qed.

Lemma module_entry_text `{Strtod} m : module_text m -> json_text (module_entry m).
Proof.
  intros (Hi & Hn & Hv & Hp).
  assert (module_entry m = "{" +:+ join ","
    [ «"id"» +:+ ":" +:+ «json_escape (mm_id (mod_manifest m))»;
      «"name"» +:+ ":" +:+ «json_escape (mm_name (mod_manifest m))»;
      «"version"» +:+ ":" +:+ «json_escape (mm_version (mod_manifest m))»;
      «"path"» +:+ ":" +:+ «json_escape (mod_path m)» ] +:+ "}") as ->.
  { unfold module_entry. cbn [join]. by rewrite !app_str_assoc. }
  apply object_text. repeat apply Forall_cons_2; [..|apply Forall_nil_2];
    (apply member_intro; [done|]; by apply escaped_text).
Qed.

Lemma risk_range m : - 2 ^ 63 <= risk_calculate m < 2 ^ 64.
Proof.
  unfold risk_calculate. assert (forall ps acc, - 2 ^ 31 <= acc < 2 ^ 31 ->
    - 2 ^ 31 <= fold_left (fun s perm => i32 (s + permission_score (mp_name perm))) ps acc < 2 ^ 31)
    as Hf.
  { induction ps as [|p ps IH]; intros acc Ha; [done|]. cbn [fold_left]. apply IH.
    generalize (acc + permission_score (mp_name p)). intros z. unfold i32.
    pose proof (Z.mod_pos_bound (z + 2 ^ 31) (2 ^ 32)).
    repeat match goal with |- context [if ?b then _ else _] => destruct b eqn:? end; lia. }
  specialize (Hf (mm_permissions m) 0). lia.
Qed.

Lemma risk_answer_text `{Strtod} body m : utf8 body ->
  json_text ("{" +:+ «"module"» +:+ ":" +:+ «json_escape body»
        +:+ "," +:+ «"risk"» +:+ ":" +:+ show_Z (risk_calculate m)
        +:+ "," +:+ «"level"» +:+ ":" +:+ «risk_level m» +:+ "}").
Proof.
  intros Hb. assert (forall r l, "{" +:+ «"module"» +:+ ":" +:+ «json_escape body» +:+ "," +:+ «"risk"»
      +:+ ":" +:+ r +:+ "," +:+ «"level"» +:+ ":" +:+ l +:+ "}"
    = "{" +:+ join "," [«"module"» +:+ ":" +:+ «json_escape body»; «"risk"» +:+ ":" +:+ r;
                        «"level"» +:+ ":" +:+ l] +:+ "}") as ->.
  { intros. cbn [join]. by rewrite !app_str_assoc. }
  apply object_text. repeat apply Forall_cons_2; [..|apply Forall_nil_2]; apply member_intro;
    try done.
  - by apply escaped_text.
  - apply show_Z_text, risk_range.
  - eapply string_text, chars_verbatim. unfold risk_level, level_for_score.
    by repeat destruct (_ <=? _).
Qed.

Lemma smap_set_length {A} k (v : A) m : (length (smap_set k v m) <= S (length m))%nat.
Proof.
  induction m as [|[k' u] m IH]; cbn [smap_set]; [done|].
  destruct (String.compare k k'); cbn [length]; lia.
Qed.

Lemma probes_count : gives (fun m => (length m <= 9)%nat) probe_detect_all.
Proof.
  unfold probe_detect_all. gives_tac.
  repeat (etransitivity; [apply smap_set_length|]; apply le_n_S). cbn. lia.
Qed.

Lemma detects_count w h : length (provider_detect_all w h).1 = 4%nat.
Proof.
  unfold provider_detect_all, bind, ret. destruct (detect_magisk w h) as [m h1].
  destruct (detect_kernelsu w h1) as [k h2]. by destruct (detect_apatch w h2) as [a h3].
Qed.

Section answers.
Context `{JsonLib} `{Strtod} `{PolicyFFI}.

(** The answer, if there is one, is a JSON text. *)
Definition answers_json (o : option (Daemon * string)) : Prop :=
  match o with Some (_, r) => json_text r | None => True end.

Lemma reply_json d r : (forall s, r = Some s -> json_text s) -> gives answers_json (reply d r).
Proof. intros Hr w h. unfold reply, ret, answers_json. cbn. destruct r; auto. Qed.

Lemma reply_dump d j : sendable j -> gives answers_json (reply d (dump j)).
Proof. intros Hj. apply reply_json. by apply dump_text. Qed.

Lemma reply_text d s : json_text s -> gives answers_json (reply d (Some s)).
Proof. intros Hs. apply reply_json. by intros s' [= <-]. Qed.

(** A constant object, member by member. *)
Ltac sendable_tac :=
  apply obj_sendable; repeat (apply Forall_cons_2; [cbn [snd]|]); [..|apply Forall_nil_2];
  lazymatch goal with
  | |- sendable (JBool _) => constructor
  | |- sendable (JString _) => constructor
  | |- sendable (JInt _) => constructor; try lia
  | |- _ => idtac
  end.

Lemma error_answer d e r : gives answers_json (reply d (make_error_response e r)).
Proof. apply reply_dump. sendable_tac. Qed.

Lemma on_GetCapability_json d : gives answers_json (on_GetCapability d).
Proof.
  unfold on_GetCapability. eapply gives_bind_val; [apply probes_count|]. intros m Hm.
  apply reply_dump. sendable_tac.
  - apply obj_sendable, Forall_fmap, Forall_fmap, Forall_true. intros [k p]. cbn. sendable_tac.
  - cbv beta in Hm. rewrite length_fmap. lia.
Qed.

Lemma on_GetProvider_json d : gives answers_json (on_GetProvider d).
Proof.
  unfold on_GetProvider. eapply (gives_bind_val (fun l => length l = 4%nat));
    [intros w h; apply detects_count|]. intros l Hl.
  destruct (make_providers_response _) as [r|] eqn:E; [|by apply gives_ret].
  apply reply_text. eapply dump_text; [|exact E]. sendable_tac.
  - constructor. apply Forall_fmap, Forall_fmap, Forall_true. intros p. cbn. sendable_tac.
  - rewrite length_fmap, Hl. lia.
Qed.

Lemma on_Execute_json d body : gives answers_json (on_Execute d body).
Proof.
  unfold on_Execute. destruct (parse_execute_request body) as [req|]; [|apply error_answer].
  apply gives_try_bind; [done|]. intros can. destruct (negb can); [apply error_answer|].
  destruct (checkWith _ _ _ _); [|apply error_answer..].
  apply (gives_bind_val (fun r => - 1 <= ex_exit_code r <= 255)).
  - unfold execute. apply gives_bind. intros [[stream raw]|]; apply gives_ret; cbn; [|lia].
    apply exit_code_bound.
  - intros r Hr. apply reply_dump. sendable_tac.
Qed.

Lemma on_GetCapabilityMatrix_json d : gives answers_json (on_GetCapabilityMatrix d).
Proof.
  unfold on_GetCapabilityMatrix. apply gives_try_bind; [done|]. intros m. apply reply_text.
  unfold matrix_json. rewrite (proj1 (matrix_entries_join m all_capabilities)).
  eapply dump_text; [|apply dump_flags]. apply send_object, Forall_fmap, Forall_true.
  intros c. constructor.
Qed.

Lemma on_GetAuditLog_json `{!JsonLibLaws} d : gives answers_json (on_GetAuditLog d).
Proof.
  unfold on_GetAuditLog. apply gives_bind. intros af. apply reply_dump.
  constructor. apply Forall_fmap, Forall_true. intros l. cbn. unfold audit_entry.
  destruct (json_parse l) as [j|] eqn:E; [|constructor].
  apply json_parse_reads in E. by eapply read_sendable.
Qed.

Lemma on_ListModules_json d : modules_text d -> gives answers_json (on_ListModules d).
Proof.
  intros Hd. apply reply_text, array_text, Forall_fmap.
  eapply Forall_impl; [exact Hd|]. intros m Hm. by apply module_entry_text.
Qed.

Lemma find_module_id l id m : find_module l id = Some m ->
  In m l /\ mm_id (mod_manifest m) = id.
Proof. intros [Hin E]%find_some. split; [done|]. by apply str_eqb_true. Qed.

Lemma on_GetRiskScore_json d body : modules_text d -> gives answers_json (on_GetRiskScore d body).
Proof.
  intros Hd. unfold on_GetRiskScore. destruct (find_module _ _) as [m|] eqn:E.
  - apply find_module_id in E as [Hin%list_elem_of_In <-]. apply reply_text, risk_answer_text.
    unfold modules_text in Hd. rewrite Forall_forall in Hd. by apply Hd.
  - by apply reply_text, recognised_text.
Qed.

(** The answers that are literals. *)
Ltac literal_tac :=
  gives_tac; repeat case_match; apply reply_text, recognised_text; by vm_compute.

Lemma dispatch_json `{!JsonLibLaws} d b body : modules_text d ->
  request_type (byte_val b) <> Some Ping -> gives answers_json (dispatch d (byte_val b) body).
Proof.
  intros Hd Hp. unfold dispatch. destruct (request_type (byte_val b)) as [[]|].
  - apply on_GetCapability_json.
  - apply on_GetProvider_json.
  - apply on_Execute_json.
  - by destruct (Hp eq_refl).
  - apply on_GetCapabilityMatrix_json.
  - unfold on_InstallModule. literal_tac.
  - unfold on_RemoveModule. literal_tac.
  - unfold on_StartModule. literal_tac.
  - unfold on_StopModule. literal_tac.
  - by apply on_ListModules_json.
  - unfold on_QueryPermission. literal_tac.
  - unfold on_GrantPermission. literal_tac.
  - unfold on_RevokePermission. literal_tac.
  - by apply on_GetRiskScore_json.
  - apply on_GetAuditLog_json.
  - apply error_answer.
Qed.

(** [steady_clock] counts in 64 bits. *)
Definition uptime_fits (w : World) : Prop :=
  forall h, - 2 ^ 63 <= w_int w h (OpCall "uptime_ms" [] []) < 2 ^ 63.

Lemma ping_json d w h : uptime_fits w -> answers_json (on_Ping d w h).1.
Proof.
  intros Hw. unfold on_Ping, bind, sys_int. cbv beta iota zeta. apply reply_dump. sendable_tac.
  specialize (Hw h). lia.
Qed.

Lemma handler_json `{!JsonLibLaws} d b body w h d' r h' : modules_text d -> uptime_fits w ->
  handler d (String b body) w h = (Some (d', r), h') ->
  exists x, r = String b x /\ json_text x.
Proof.
  intros Hd Hw. cbn [handler]. unfold bind.
  assert (answers_json (dispatch d (byte_val b) body w h).1) as Ha.
  { destruct (decide (byte_val b = 0x04)) as [E|E].
    - unfold dispatch. rewrite E. by apply ping_json.
    - apply dispatch_json; [done|]. unfold request_type. intros Hp. repeat (case_match; simplify_eq). }
  destruct (dispatch d (byte_val b) body w h) as [[[d1 x]|] h1]; [|done].
  unfold ret. intros [= _ <- _]. eauto.
Qed.

(** *** Sessions *)

(** An InstallModule request names a path that is UTF-8. *)
Definition install_text (req : string) : Prop :=
  match req with
  | EmptyString => True
  | String b body => request_type (byte_val b) = Some InstallModule -> utf8 body
  end.

Lemma mgr_remove_text l id : Forall module_text l -> Forall module_text (mgr_remove l id).2.
Proof.
  induction 1 as [|m l Hm Hl IH]; cbn [mgr_remove]; [constructor|].
  destruct (str_eqb _ _); [done|]. destruct (mgr_remove l id). by constructor.
Qed.

Lemma dispatch_modules d b body : modules_text d -> install_text (String b body) ->
  keeps modules_text (dispatch d (byte_val b) body).
Proof.
  intros Hd Hi. cbn in Hi. unfold dispatch. destruct (request_type (byte_val b)) as [[]|];
    unfold on_GetCapability, on_GetProvider, on_Execute, on_Ping, on_GetCapabilityMatrix,
      on_InstallModule, on_RemoveModule, on_StartModule, on_StopModule, on_ListModules,
      on_QueryPermission, on_GrantPermission, on_RevokePermission, on_GetRiskScore,
      on_GetAuditLog; keeps_tac; try exact Hd.
  - unfold modules_text. cbn. unfold mgr_install in *. simplify_eq.
    apply Forall_app_2; [done|]. apply Forall_singleton. split_and!; try constructor. by apply Hi.
  - unfold modules_text. cbn. pose proof (mgr_remove_text (d_modules d) body Hd) as Hr.
    by match goal with E : mgr_remove _ _ = _ |- _ => rewrite E in Hr end.
Qed.

Lemma serve_modules reqs : forall d w h d' h', modules_text d -> Forall install_text reqs ->
  serve_requests d reqs w h = (Some d', h') -> modules_text d'.
Proof.
  induction reqs as [|req reqs IH]; intros d w h d' h' Hd Hi; cbn [serve_requests].
  - intros E. unfold ret in E. by injection E as <- _.
  - apply Forall_cons in Hi as [Hreq Hi]. unfold bind.
    assert (keeps modules_text (handler d req)) as Hk.
    { destruct req as [|b body]; cbn [handler]; [by intros ? ?|]. intros w1 h1.
      pose proof (dispatch_modules d b body Hd Hreq w1 h1) as Hk. unfold bind, ret.
      by destruct (dispatch d (byte_val b) body w1 h1) as [[[d1 x]|] h2]. }
    specialize (Hk w h). destruct (handler d req w h) as [[[d1 x]|] h1]; [|done].
    by apply IH.
Qed.
End answers.

(** C3: Every answer of the daemon is the type byte of its request followed by
    a text that RFC 8259 accepts, after any sequence of requests to a freshly
    started daemon: the serialized ones, the ones put together by hand around
    [json_escape] and the lines of the audit log alike; provided that the
    paths of the InstallModule requests were UTF-8, which the daemon does not
    check. *)
Theorem answers_are_json `{JsonLibLaws} `{PolicyFFI} d reqs w h d' h' b body d'' r h'' :
  d_modules d = [] -> uptime_fits w -> Forall install_text reqs ->
  serve_requests d reqs w h = (Some d', h') ->
  handler d' (String b body) w h' = (Some (d'', r), h'') ->
  exists x, r = String b x /\ json_text x.
Proof.
  intros Hd Hw Hi Hs Hr. eapply handler_json; [|done|exact Hr].
  eapply serve_modules; [|exact Hi|exact Hs]. unfold modules_text. by rewrite Hd.
Qed.

(** ** Execute requests *)

(** The request as a JSON object, its keys in the order of [std::map]. *)
Definition request_json (r : ExecReq) : json :=
  JObject [("approved", JBool (er_approved r)); ("caller", JString (er_caller r));
           ("capability", JString (er_capability r)); ("command", JString (er_command r));
           ("moduleId", JString (er_module_id r)); ("riskLevel", JInt (er_risk_level r))].

Definition complete (r : ExecReq) : Prop :=
  Forall (fun s => utf8 s /\ s <> EmptyString)
    [er_caller r; er_capability r; er_command r; er_module_id r]
  /\ 0 <= er_risk_level r <= 100.

Lemma request_wf fl r : complete r -> wf_json fl (request_json r).
Proof.
  intros [Hs Hr]. repeat (apply Forall_cons in Hs as [[? _] Hs]).
  apply wf_object; [repeat constructor|].
  repeat (apply Forall_cons_2; [split; cbn [fst snd]; [const_utf8|]|]); [..|apply Forall_nil_2];
    constructor; (done || lia).
Qed.

(** C4: An Execute request that is written as JSON arrives as it is: for every
    request whose four texts are UTF-8 and not empty and whose risk is at most
    100, the serializer writes a text, and from that text, and from every
    other text of RFC 8259 that denotes the same object (other white space,
    escapes, order of members, members given twice), the daemon reads exactly
    the request.  From a body that is not the text of an object it reads none. *)
Theorem execute_request_round_trip `{JsonLibLaws} r body :
  (complete r ->
     (exists text, dump (request_json r) = Some text /\ read_as (request_json r) text)
     /\ (read_as (request_json r) body -> parse_execute_request body = Some r))
  /\ ((forall kvs, ~ read_as (JObject kvs) body) -> parse_execute_request body = None).
Proof.
  split.
  - intros Hc. split.
    + destruct (wf_dump_some _ _ (request_wf float_reads r Hc)) as [text He].
      exists text. split; [done|]. apply parse_rfc_sound.
      by eapply parse_dump; [apply request_wf|].
    + intros Hb%json_parse_reads. unfold parse_execute_request. rewrite Hb.
      destruct r as [m c k a cl cmd], Hc as [Hs [Hlo Hhi]]. cbn [er_risk_level] in Hlo, Hhi.
      cbn in Hs. repeat (apply Forall_cons in Hs as [[_ ?] Hs]).
      lazy -[i32 Z.ltb is_empty].
      assert (i32 k = k) as -> by (unfold i32; rewrite Z.mod_small; lia).
      destruct (Z.ltb_spec k 0); [lia|]. destruct (Z.ltb_spec 100 k); [lia|].
      by destruct cmd, m, c, cl.
  - intros Hn. unfold parse_execute_request. destruct (json_parse body) as [j|] eqn:E; [|done].
    apply json_parse_reads in E. destruct j; try done. by apply Hn in E.
Qed.

(** ** The audit log *)

Lemma audit_line_no_nul now m p r :
  no_char (ascii_of_nat 0) now -> no_char (ascii_of_nat 0) m ->
  no_char (ascii_of_nat 0) (audit_line now m (permission_name p) r).
Proof.
  intros. unfold audit_line, quoted. rewrite !no_char_app.
  split_and!; try done; try (by destruct r); try (by destruct p); cbn; repeat split; done.
Qed.

(** C6: One request can make every later GetAuditLog fatal.  A QueryPermission
    request for a module id that is not UTF-8 (and has neither a colon, nor a
    newline, nor a NUL byte) appends the id as it is to the audit log; and
    whenever the log holds that line, a GetAuditLog request finds that it is no
    JSON, puts it into the answer as a string, and the serializer throws: no
    response is returned, and the exception terminates the process. *)
Theorem audit_log_poison `{JsonLibLaws} `{PolicyFFI} d w h m p :
  no_char ":" m -> no_char newline m -> no_char (ascii_of_nat 0) m -> ~ utf8 m ->
  ascii7 (w_now w h) -> no_char newline (w_now w h) -> no_char (ascii_of_nat 0) (w_now w h) ->
  exists ok, let line := audit_line (w_now w h) m (permission_name p) ok in
    In (OpAppend audit_path (line +:+ nl)) (handler d (query m p) w h).2 /\
    forall d' w' h' content,
      w_read w' h' "/data/astra/log/security.log" = Some content -> log_holds content line ->
      (handler d' (String (byte_of 0x0F) EmptyString) w' h').1 = None.
Proof.
  intros Hm Hmn Hm0 Hu Hnow Hnn Hn0. eexists. split; [by apply query_logged|].
  intros d' w' h' content Hr Hl. set (line := audit_line _ _ _ _) in *.
  assert (~ utf8 line) as Hline by by apply audit_line_not_utf8.
  apply log_holds_line in Hl; [|apply audit_line_no_newline; try done; by destruct p].
  assert ((on_GetAuditLog d' w' h').1 = None) as E.
  { eapply on_GetAuditLog_throws; [exact Hr|exact Hl| |done].
    destruct (json_parse line) as [j|] eqn:Ej; [|done]. apply json_parse_reads in Ej.
    destruct Hline. eapply read_as_utf8; [|exact Ej]. by apply audit_line_no_nul. }
  cbn [handler]. unfold dispatch.
  change (request_type (byte_val (byte_of 0x0F))) with (Some GetAuditLog). cbn iota.
  unfold bind. destruct (on_GetAuditLog d' w' h') as [o h'']. cbn in E. by subst o.
Qed.

(** ** Concrete sessions *)

(** The library of the zygisk module in the daemon's place. *)
Definition nearest_lib : JsonLib := @module_json strtod_nearest_ref (fun _ => 0).
Lemma nearest_laws : @JsonLibLaws nearest_lib strtod_nearest_ref.
Proof. apply (@module_json_laws strtod_nearest_ref strtod_nearest_ref_laws). Qed.

Definition install_request (path : string) : string := String (byte_of 6) path.
Definition list_request : string := String (byte_of 10) EmptyString.

Definition session (path : string) : option Daemon * trace :=
  @serve_requests nearest_lib rust_engine ksu_daemon [install_request path] (ksu_shell EmptyString) [].
Definition listed (path : string) : option (Daemon * string) :=
  match session path with
  | (Some d, h) => (@handler nearest_lib rust_engine d list_request (ksu_shell EmptyString) h).1
  | _ => None
  end.

Lemma answers_are_json_witness :
  exists d x, listed "/data/m" = Some (d, String (byte_of 10) x) /\ @json_text strtod_nearest_ref x.
Proof.
  destruct (session "/data/m") as [[d'|] h'] eqn:Es; [|by vm_compute in Es].
  destruct (@handler nearest_lib rust_engine d' list_request (ksu_shell EmptyString) h')
    as [[[d'' r]|] h''] eqn:Er; [|vm_compute in Es; simplify_eq; by vm_compute in Er].
  unfold listed. rewrite Es. cbn iota beta. rewrite Er.
  destruct (@answers_are_json nearest_lib strtod_nearest_ref nearest_laws rust_engine ksu_daemon
    [install_request "/data/m"] (ksu_shell EmptyString) [] d' h' (byte_of 10) EmptyString d'' r h'')
    as (x & -> & Hx); [done|by vm_compute| |exact Es|exact Er|by exists d'', x].
  apply Forall_singleton. intros _. by const_utf8.
Defined.

(** A path that is not UTF-8 spoils the list of modules. *)
Example listed_not_json :
  exists d x, listed bad_id = Some (d, String (byte_of 10) x) /\ ~ @json_text strtod_nearest_ref x.
Proof.
  destruct (listed bad_id) as [[d r]|] eqn:E; [|by vm_compute in E].
  assert (exists x, r = String (byte_of 10) x /\ (forall j, @parse strtod_nearest_ref x <> Some (Parsed j)))
    as (x & -> & Hx).
  { vm_compute in E. simplify_eq. eexists. split; [reflexivity|]. intros j Hj. by vm_compute in Hj. }
  exists d, x. split; [done|]. intros [j Hj]. apply (Hx j), parse_rfc_complete.
  exists x, EmptyString. rewrite app_str_nil_r. split_and!; [by left|by left|done].
Qed.

Definition sample_request : ExecReq :=
  {| er_module_id := "m"; er_capability := "c"; er_risk_level := 10; er_approved := true;
     er_caller := "app"; er_command := "id" |}.

Lemma execute_request_round_trip_witness :
  exists text, @dump nearest_lib (request_json sample_request) = Some text
    /\ @parse_execute_request nearest_lib text = Some sample_request.
Proof.
  assert (complete sample_request) as Hc.
  { split; [|done]. repeat (apply Forall_cons_2; [split; [const_utf8|done]|]). apply Forall_nil_2. }
  destruct (proj1 (@execute_request_round_trip nearest_lib strtod_nearest_ref nearest_laws sample_request
    EmptyString) Hc) as [(text & Ht & Hr) _].
  exists text. split; [done|].
  by apply (proj1 (@execute_request_round_trip nearest_lib strtod_nearest_ref nearest_laws sample_request text)).
Defined.

(** A device whose audit log has the given content. *)
Definition log_world (content : string) : World :=
  {| w_exists _ _ := true; w_read _ _ := Some content; w_popen _ _ := None;
     w_now _ := "12:00"; w_int _ _ := 0 |}.
Definition audit_request : string := String (byte_of 0x0F) EmptyString.

Lemma audit_log_poison_witness :
  ~ utf8 bad_id /\
  exists ok, let line := audit_line "12:00" bad_id "ROOT_ACCESS" ok in
    In (OpAppend audit_path (line +:+ nl))
       (@handler nearest_lib rust_engine ksu_daemon (query bad_id Perm_ROOT_ACCESS)
          (log_world EmptyString) []).2 /\
    (@handler nearest_lib rust_engine ksu_daemon audit_request (log_world (line +:+ nl)) []).1 = None.
Proof.
  assert (~ utf8 bad_id) as Hu by (intros Hu; apply utf8_accepts in Hu; vm_compute in Hu; discriminate).
  split; [exact Hu|].
  destruct (@audit_log_poison nearest_lib strtod_nearest_ref nearest_laws rust_engine ksu_daemon
    (log_world EmptyString) [] bad_id Perm_ROOT_ACCESS) as (ok & Hok & Hlog).
  - split; [discriminate|exact I].
  - split; [discriminate|exact I].
  - split; [discriminate|exact I].
  - exact Hu.
  - const_ascii.
  - repeat split; discriminate.
  - repeat split; discriminate.
  - exists ok. split; [exact Hok|]. cbv zeta. eapply Hlog; [reflexivity|].
    exists EmptyString, EmptyString. split; [by rewrite app_str_nil_r|by left].
Defined.

(** The NUL byte is excluded for a reason: the parser ends its input there, so
    that the line of this id, which is no UTF-8 either, is read as an object. *)
Example nul_id_harmless :
  let m := "x" +:+ dq +:+ "}" +:+ String (byte_of 0) bad_id in
  ~ utf8 m /\
  exists r, (@handler nearest_lib rust_engine ksu_daemon audit_request
     (log_world (audit_line "12:00" m "ROOT_ACCESS" true +:+ nl)) []).1 = Some (ksu_daemon, r).
Proof.
  split; [intros Hu; apply utf8_accepts in Hu; vm_compute in Hu; discriminate|].
  vm_compute. by eexists.
Qed.
