(* ===== verification/Su.v ===== *)
(** * Su: the root tool and the privilege test of the native directory

    [native/astra_su.c] obtains root from the kernel module (file Kernel),
    prepares an environment, optionally drops to another uid and runs a
    shell; [native/test_root.c] checks that the module grants root.  Both are
    modelled over the kernel module's own [astra_ioctl].  Linux's [setuid]
    and [setgid] are the class [SetIds], with their documented effect in
    [SetIdsLaws]; supplementary groups are not part of the modelled
    credentials, so [setgroups] is a call whose result is ignored. *)

From Stdlib Require Import ZArith Ascii String Lia.
From stdpp Require Import base numbers list strings gmap.
From S2P Require Import Prelude Kernel.

Open Scope Z_scope.

(** The process credentials calls; [None] is a refusal, which leaves the
    credentials as they are. *)
Class SetIds `{KernelApi} := {
  sys_setuid : Z -> Cred -> option Cred;
  sys_setgid : Z -> Cred -> option Cred;
}.
(** An accepted call sets the ids of its kind and leaves the others. *)
Class SetIdsLaws `{SetIds} : Prop := {
  setuid_sets u c c' : sys_setuid u c = Some c' ->
    from_kuid (c_user_ns c') (c_uid c') = u /\ c_gid c' = c_gid c;
  setgid_sets g c c' : sys_setgid g c = Some c' ->
    c_uid c' = c_uid c /\ c_user_ns c' = c_user_ns c;
}.

(** A process with the module it talks to. *)
Record proc `{KernelApi} := {
  p_module : AstraModule;
  p_cred : Cred;
  p_env : list (string * string);
}.

Definition ASTRA_DEV : string := "/dev/astra_root".
Definition SHELL_PATH : string := "/system/bin/sh".
Definition O_RDWR : Z := 2.

Section su.
Context `{SetIds}.

Definition with_kernel (m : AstraModule) (c : Cred) (p : proc) : proc :=
  {| p_module := m; p_cred := c; p_env := p_env p |}.
Definition with_cred (c : Cred) (p : proc) : proc := with_kernel (p_module p) c p.

Definition getuid_of (c : Cred) : Z := from_kuid (c_user_ns c) (c_uid c).

(** [ioctl(fd, cmd)] without an argument: 0 or an error. *)
Definition su_ioctl (env : KEnv) (cmd : Z) (p : proc) : Z * proc :=
  let '(r, m, cur, _) :=
    astra_ioctl env cmd (p_module p) (p_cred p) {| up_bytes := []; up_writable := true |} in
  (if r <? 0 then -1 else r, with_kernel m cur p).

Definition su_open : Sys Z := sys_int (OpCall "open" [ASTRA_DEV] [O_RDWR]).
Definition su_close (fd : Z) : Sys unit := sys_do (OpCall "close" [] [fd]).

Definition escalate (env : KEnv) (p : proc) : Sys (Z * proc) :=
  let! fd := su_open in
  if fd <? 0 then ret (-1, p)
  else
    let '(r, p) := su_ioctl env ASTRA_GET_ROOT p in
    su_close fd ;;;
    if negb (r =? 0) then ret (-1, p)
    else if negb (getuid_of (p_cred p) =? 0) then ret (-1, p)
    else ret (0, p).

(** The results of these calls are not looked at. *)
Definition do_setuid (u : Z) (p : proc) : proc :=
  with_cred (default (p_cred p) (sys_setuid u (p_cred p))) p.
Definition do_setgid (g : Z) (p : proc) : proc :=
  with_cred (default (p_cred p) (sys_setgid g (p_cred p))) p.
Definition setenv (k v : string) (p : proc) : proc :=
  {| p_module := p_module p; p_cred := p_cred p;
     p_env := smap_set k v (p_env p) |}.

Definition SU_PATH : string :=
  "/sbin:/system/bin:/system/xbin:/vendor/bin:/system/sbin:/product/bin:/apex/com.android.runtime/bin".
Definition SU_GROUPS : list Z :=
  [0; 1003; 1004; 1007; 1011; 1015; 1028; 1078; 3001; 3002; 3003; 3006; 9997].

Definition setup_env (uid : Z) (p : proc) : Sys proc :=
  let p := setenv "PATH" SU_PATH p in
  let p := setenv "HOME" (if uid =? 0 then "/data" else "/data") p in
  let p := setenv "USER" (if uid =? 0 then "root" else "shell") p in
  let p := setenv "SHELL" SHELL_PATH p in
  let p := setenv "TERM" "xterm-256color" p in
  if uid =? 0 then
    let p := do_setuid 0 (do_setgid 0 p) in
    sys_do (OpCall "setgroups" [] SU_GROUPS) ;;;
    ret p
  else ret p.

(** How the process ends: with an exit code, or replaced by a program with
    its arguments, running as the given process. *)
Inductive su_end :=
| Exit (code : Z)
| Exec (path : string) (args : list string) (p : proc).

(** The command line: [None] is an early exit with the code. *)
Definition su_args (argv : list string) : Z + option string * Z :=
  let argc := length argv in
  let arg i := nth i argv EmptyString in
  if (1 <? argc)%nat && str_eqb (arg 1%nat) "-h" then inl 0
  else
    let c := (1 <? argc)%nat && str_eqb (arg 1%nat) "-c" in
    if c && (argc <? 3)%nat then inl 1
    else
      let command := if c then Some (arg 2%nat) else None in
      let arg_offset := if c then 3%nat else 1%nat in
      (* (uid_t)atoi *)
      let target_uid := if (arg_offset <? argc)%nat then u32 (scan_int (arg arg_offset)) else 0 in
      inr (command, target_uid).

Definition su_main (env : KEnv) (argv : list string) (p : proc) : Sys su_end :=
  match su_args argv with
  | inl code => ret (Exit code)
  | inr (command, target_uid) =>
      let! r := escalate env p in
      let '(rc, p) := r in
      if negb (rc =? 0) then ret (Exit 1)
      else
        let! p := setup_env target_uid p in
        let p := if negb (target_uid =? 0) then do_setuid target_uid (do_setgid target_uid p)
                 else p in
        let args := match command with
                    | Some c => [SHELL_PATH; "-c"; c]
                    | None => [SHELL_PATH]
                    end in
        let! ok := sys_ok (OpCall "execv" (SHELL_PATH :: args) []) in
        if ok then ret (Exec SHELL_PATH args p) else ret (Exit 1)
  end.

(** ** test_root.c *)

Definition check_device : Sys bool := sys_exists ASTRA_DEV.

Definition check_version (env : KEnv) (p : proc) : option Z :=
  let '(r, _, _, arg) := astra_ioctl env ASTRA_GET_VERSION (p_module p) (p_cred p)
                           {| up_bytes := le_bytes 4 0; up_writable := true |} in
  if r =? 0 then Some (i32 (field 0 4 (up_bytes arg))) else None.

Definition check_root (env : KEnv) (p : proc) : Z * proc :=
  let '(r, p) := su_ioctl env ASTRA_GET_ROOT p in
  if negb (r =? 0) then (-1, p)
  else if getuid_of (p_cred p) =? 0 then (0, p) else (-1, p).

(** [check_capabilities]: [fopen] of three files, and a shell command. *)
Definition check_capabilities : Sys unit :=
  let! f := sys_read "/data/adb/magisk/config" in
  match f with
  | Some _ => ret tt
  | None => let! _ := sys_read "/data/misc/keystore/user_0" in ret tt
  end ;;;
  let! ok := sys_ok (OpWrite "/dev/astra_test_write" ("test" +:+ nl)) in
  (if ok then sys_do (OpRemove "/dev/astra_test_write") else ret tt) ;;;
  sys_do (OpCall "system" ["mount -o bind /system /system 2>/dev/null; echo $?"] []).

(** The exit status: [return ret] with [ret] 0 or -1. *)
Definition test_main (env : KEnv) (verbose : bool) (p : proc) : Sys (Z * proc) :=
  let! dev := check_device in
  if negb dev then ret (1, p)
  else
    let! fd := su_open in
    if fd <? 0 then ret (1, p)
    else
      let '(r, p) := check_root env p in
      (if (r =? 0) && verbose then check_capabilities else ret tt) ;;;
      su_close fd ;;;
      ret (Z.land r 255, p).
End su.

(** ** What the tool does *)

Definition op_name (o : sysop) : string :=
  match o with OpCall name _ _ => name | _ => EmptyString end.

Section su_spec.
Context `{SetIds}.

(** The credentials GET_ROOT gives, if it does. *)
Definition root_granted (env : KEnv) (m : AstraModule) (c : Cred) : option Cred :=
  if check_policy m (getuid_of c) 0 true =? 0 then prepare_kernel_cred env else None.

Definition su_environment (uid : Z) (p : proc) : proc :=
  setenv "TERM" "xterm-256color" (setenv "SHELL" SHELL_PATH
    (setenv "USER" (if uid =? 0 then "root" else "shell")
      (setenv "HOME" "/data" (setenv "PATH" SU_PATH p)))).
(** The process that runs the shell: the fresh credentials, with the target's
    ids as far as the kernel accepts them. *)
Definition su_process (target : Z) (new : Cred) (p : proc) : proc :=
  do_setuid target (do_setgid target (su_environment target (with_cred new p))).
Definition su_command (command : option string) : list string :=
  match command with Some c => [SHELL_PATH; "-c"; c] | None => [SHELL_PATH] end.

Definition op_open : sysop := OpCall "open" [ASTRA_DEV] [O_RDWR].
Definition op_exec (command : option string) : sysop :=
  OpCall "execv" (SHELL_PATH :: su_command command) [].
Definition setgroups_ops (target : Z) : trace :=
  if target =? 0 then [OpCall "setgroups" [] SU_GROUPS] else [].

Lemma check_policy_values m uid req full :
  check_policy m uid req full = 0 \/ check_policy m uid req full = - EPERM.
Proof.
  unfold check_policy. destruct (enforce m =? 0); [auto|]. destruct (policy_table m); [auto|].
  cbv zeta. destruct (negb _); auto.
Qed.

Lemma su_ioctl_root env p :
  su_ioctl env ASTRA_GET_ROOT p
  = match root_granted env (p_module p) (p_cred p) with
    | Some new => (0, with_cred new p)
    | None => (-1, p)
    end.
Proof.
  unfold su_ioctl, astra_ioctl, root_granted, with_cred, getuid_of. rewrite Z.eqb_refl.
  destruct (check_policy_values (p_module p) (from_kuid (c_user_ns (p_cred p)) (c_uid (p_cred p)))
    0 true) as [-> | ->]; cbn; [|by destruct p].
  destruct (prepare_kernel_cred env); cbn; [done|by destruct p].
Qed.

(** One run of [su_main] with arguments it accepts. *)
Lemma su_main_run env argv command target p w h :
  su_args argv = inr (command, target) ->
  let fd := w_int w h op_open in
  let h1 := h ++ [op_open] in
  let h2 := h1 ++ [OpCall "close" [] [fd]] in
  su_main env argv p w h
  = if fd <? 0 then (Exit 1, h1)
    else match root_granted env (p_module p) (p_cred p) with
         | Some new =>
             if getuid_of new =? 0 then
               let h3 := h2 ++ setgroups_ops target in
               (if w_int w h3 (op_exec command) =? 0
                then Exec SHELL_PATH (su_command command) (su_process target new p)
                else Exit 1, h3 ++ [op_exec command])
             else (Exit 1, h2)
         | None => (Exit 1, h2)
         end.
Proof.
  intros Ha. cbv zeta. unfold su_main. rewrite Ha. unfold escalate, bind, su_open, sys_int.
  fold op_open. destruct (w_int w h op_open <? 0); [done|]. rewrite su_ioctl_root.
  destruct (root_granted _ _ _) as [new|]; [|done]. unfold su_close, sys_do. cbn [Z.eqb negb].
  change (p_cred (with_cred new p)) with new. destruct (getuid_of new =? 0); [|done].
  unfold ret, setup_env, bind, sys_ok, bind, sys_int, ret, sys_do, setgroups_ops, su_process,
    su_environment, op_exec, su_command.
  destruct (Z.eqb_spec target 0) as [->|Ht]; cbn [negb Z.eqb]; rewrite ?app_nil_r;
    destruct command; by destruct (w_int w _ _ =? 0).
Qed.

(** C35: On a module that enforces, after any calls of any processes, the
    tool runs a program only if the first policy entry for its caller, loaded
    by root, allows full root; otherwise it exits with an error without ever
    trying to execute anything.  Whatever it runs is the shell, with the
    command given after [-c] as one argument. *)
Theorem su_only_granted enforce_param m calls env argv p w h :
  astra_root_init enforce_param 0 = Some m -> enforce_param <> 0 ->
  p_module p = fold_left kstep calls m ->
  let caller := getuid_of (p_cred p) in
  let entry e := set_by_root calls e /\ policy_for caller (policy_table (p_module p)) = Some e
                 /\ i32 (pe_allow_full_root e) <> 0 in
  let '(r, h') := su_main env argv p w h in
  (forall path args p', r = Exec path args p' ->
     (exists e, entry e) /\ path = SHELL_PATH
     /\ exists command, su_args argv = inr command /\ args = su_command command.1)
  /\ ((forall e, ~ entry e) ->
      (exists code, r = Exit code)
      /\ exists t, h' = h ++ t /\ Forall (fun o => op_name o <> "execv") t).
Proof.
  intros [= <-] He Hm. cbv zeta.
  set (m0 := {| policy_table := []; enforce := enforce_param |}) in *.
  destruct (run_table m0 calls eq_refl) as (Hen & _ & Hset). rewrite <-Hm in Hen, Hset.
  assert (Hg : forall new, root_granted env (p_module p) (p_cred p) = Some new ->
    exists e, set_by_root calls e /\
      policy_for (getuid_of (p_cred p)) (policy_table (p_module p)) = Some e
      /\ i32 (pe_allow_full_root e) <> 0).
  { intros new. unfold root_granted. destruct (Z.eqb_spec (check_policy (p_module p)
      (getuid_of (p_cred p)) 0 true) 0) as [Hc|]; [|done]. intros _.
    apply check_policy_enforced in Hc as (e & Hf & Ha); [|by rewrite Hen].
    exists e. split; [|done]. apply policy_for_elem in Hf as [Hin _].
    by rewrite Forall_forall in Hset; apply Hset. }
  destruct (su_args argv) as [code|[command target]] eqn:Ea.
  { unfold su_main. rewrite Ea. cbn. split; [done|]. intros _. split; [by eexists|].
    exists []. by rewrite app_nil_r. }
  rewrite (su_main_run env argv command target p w h Ea).
  destruct (_ <? 0).
  { split; [done|]. intros _. split; [by eexists|]. eexists. split; [done|]. by repeat constructor. }
  destruct (root_granted env (p_module p) (p_cred p)) as [new|] eqn:Er.
  - destruct (Hg new eq_refl) as [e Hent].
    destruct (getuid_of new =? 0); (split; [|intros Hno; exfalso; exact (Hno e Hent)]); [|done].
    destruct (_ =? 0); [|done].
    intros path args p' [= <- <- <-]. split; [by exists e|]. split; [done|]. by exists (command, target).
  - split; [done|]. intros _. split; [by eexists|]. eexists. split; [by rewrite <-(assoc_L (++))|].
    by repeat constructor.
Qed.
End su_spec.

Section su_identity.
Context `{SetIdsLaws}.

(** The uid of the shell.  The credentials GET_ROOT gives are uid 0; for
    another target the shell runs as that uid if the kernel accepts [setuid],
    and otherwise goes on as uid 0: the result of the call is not looked at.
    For target 0 the shell is uid 0 in any case. *)
Theorem su_shell_identity target new p :
  getuid_of new = 0 ->
  let p' := su_process target new p in
  let after_setgid := default new (sys_setgid target new) in
  getuid_of (p_cred p') =
    match sys_setuid target after_setgid with Some _ => target | None => 0 end
  /\ p_module p' = p_module p
  /\ smap_find "USER" (p_env p') = Some (if target =? 0 then "root" else "shell")
  /\ smap_find "PATH" (p_env p') = Some SU_PATH.
Proof.
  intros Hn. cbv zeta. unfold su_process, do_setuid, do_setgid.
  assert (Hc : p_cred (su_environment target (with_cred new p)) = new) by done. rewrite Hc.
  cbn [with_cred with_kernel p_cred p_module p_env].
  split_and!.
  - assert (Hg : getuid_of (default new (sys_setgid target new)) = 0).
    { destruct (sys_setgid target new) as [c|] eqn:E; [|done]. cbn.
      apply setgid_sets in E as [Eu En]. unfold getuid_of in *. by rewrite Eu, En. }
    destruct (sys_setuid target _) as [c|] eqn:E; [|done]. cbn.
    by apply setuid_sets in E as [? _].
  - done.
  - unfold su_environment. cbn. by rewrite !smap_find_set.
  - unfold su_environment. cbn. by rewrite !smap_find_set.
Qed.
End su_identity.

(** ** With the daemon's start-up sync *)

Section su_sync.
Context `{SetIds}.

(** C36: Once the daemon has synced its policies into an enforcing module, the
    tool always comes to an end for everybody, and for the two uids of the
    sync, 0 and 2000, that end is the shell they asked for, provided the
    device opens, the kernel has credentials of uid 0 to give and the shell
    can be executed; every other caller is turned away with exit code 1. *)
Theorem su_after_sync env open_ret kb k env' new argv command target p w h :
  0 <= open_ret -> kb_fd kb = -1 -> c_uid (kb_self kb) = 0 ->
  policy_table (kb_module kb) = [] -> enforce (kb_module kb) <> 0 -> (1 <= k <= 64)%nat ->
  p_module p = kb_module (Nat.iter k (sync_policies_to_kernel true env open_ret) kb) ->
  prepare_kernel_cred env' = Some new -> getuid_of new = 0 ->
  (forall h, 0 <= w_int w h op_open) -> (forall h, w_int w h (op_exec command) = 0) ->
  su_args argv = inr (command, target) ->
  (su_main env' argv p w h).1
  = if (getuid_of (p_cred p) =? 0) || (getuid_of (p_cred p) =? 2000)
    then Exec SHELL_PATH (su_command command) (su_process target new p)
    else Exit 1.
Proof.
  intros Ho Hfd Hroot Ht He Hk Hm Hp Hn Hopen Hexec Ha.
  rewrite (su_main_run env' argv command target p w h Ha). cbv zeta.
  rewrite (proj2 (Z.ltb_ge _ _) (Hopen h)).
  assert (root_granted env' (p_module p) (p_cred p)
    = if (getuid_of (p_cred p) =? 0) || (getuid_of (p_cred p) =? 2000) then Some new else None) as ->.
  { unfold root_granted. rewrite Hm, sync_many by done. cbn [synced kb_module].
    unfold check_policy. cbn [policy_table enforce]. rewrite (proj2 (Z.eqb_neq _ _) He).
    rewrite policy_for_synced by lia. destruct k as [|k]; [lia|].
    by destruct ((getuid_of (p_cred p) =? 0) || (getuid_of (p_cred p) =? 2000)). }
  destruct ((getuid_of (p_cred p) =? 0) || (getuid_of (p_cred p) =? 2000)); [|done].
  cbv zeta. by rewrite Hn, Hexec.
Qed.
End su_sync.

(** ** The privilege test *)

Section test_spec.
Context `{SetIds}.

Definition op_mount_check : sysop :=
  OpCall "system" ["mount -o bind /system /system 2>/dev/null; echo $?"] [].

(** [test_root] exits with 0 exactly when it became root, and the command
    that bind-mounts /system runs only then and with [-v]. *)
Lemma test_main_spec env verbose p w h :
  let '((code, p'), h') := test_main env verbose p w h in
  (code = 0 <->
     w_exists w h ASTRA_DEV = true /\ 0 <= w_int w (h ++ [OpExists ASTRA_DEV]) op_open
     /\ exists new, root_granted env (p_module p) (p_cred p) = Some new /\ getuid_of new = 0)
  /\ (op_mount_check ∈ h' -> op_mount_check ∈ h \/ (code = 0 /\ verbose = true)).
Proof.
  unfold test_main, check_device, sys_exists, bind. destruct (w_exists w h ASTRA_DEV) eqn:Ed.
  2:{ split; [naive_solver|]. set_solver. }
  cbn [negb]. unfold su_open, sys_int. fold op_open.
  destruct (Z.ltb_spec (w_int w (h ++ [OpExists ASTRA_DEV]) op_open) 0) as [Hf|Hf].
  { split; [split; [done|intros (_ & ? & _); lia]|set_solver]. }
  unfold check_root. rewrite su_ioctl_root. destruct (root_granted _ _ _) as [new|] eqn:Er.
  2:{ split; [naive_solver|]. cbn. set_solver. }
  change (p_cred (with_cred new p)) with new. cbn [Z.eqb negb].
  destruct (Z.eqb_spec (getuid_of new) 0) as [Hu|Hu]; cbn [Z.eqb andb].
  2:{ split; [split; [done|intros (_ & _ & new' & [= <-] & ?); lia]|]. cbn. set_solver. }
  destruct verbose.
  - destruct (check_capabilities _ _). cbn. split; [|auto]. split; eauto.
  - cbn. split; [split; eauto|]. set_solver.
Qed.
End test_spec.

(** ** Concrete runs *)

(** On the sample kernel: setting ids is accepted for a caller of uid 0. *)
Definition sample_setids : @SetIds sample_api := {|
  sys_setuid := fun u c => if c_uid c =? 0 then
    Some {| c_user_ns := c_user_ns c; c_uid := u; c_euid := u; c_suid := u;
            c_gid := c_gid c; c_egid := c_egid c; c_sgid := c_sgid c;
            cap_effective := if u =? 0 then cap_effective c else 0;
            cap_permitted := if u =? 0 then cap_permitted c else 0;
            cap_inheritable := cap_inheritable c; cap_bset := cap_bset c |} else None;
  sys_setgid := fun g c => if c_uid c =? 0 then
    Some {| c_user_ns := c_user_ns c; c_uid := c_uid c; c_euid := c_euid c; c_suid := c_suid c;
            c_gid := g; c_egid := g; c_sgid := g; cap_effective := cap_effective c;
            cap_permitted := cap_permitted c; cap_inheritable := cap_inheritable c;
            cap_bset := cap_bset c |} else None |}.
#[global] Instance sample_setids_laws : @SetIdsLaws sample_api sample_setids.
Proof.
  split; cbn; intros u c c'; destruct (c_uid c =? 0); intros [= <-]; done.
Qed.

Definition sample_proc (uid : Z) (m : AstraModule) : @proc sample_api :=
  {| p_module := m; p_cred := app_cred uid; p_env := [] |}.
(** Every call answers 0: descriptors, and programs that start. *)
Definition zero_world : World := {|
  w_exists := fun _ _ => true; w_read := fun _ _ => None; w_popen := fun _ _ => None;
  w_now := fun _ => EmptyString; w_int := fun _ _ => 0 |}.

Lemma su_only_granted_witness :
  exists code, (@su_main sample_api sample_setids sample_env ["su"; "-c"; "id"]
    (sample_proc 10123 (kstep enforcing (policy_call 10123 0))) zero_world []).1 = Exit code.
Proof.
  pose proof (@su_only_granted sample_api sample_setids 1 enforcing [policy_call 10123 0] sample_env
    ["su"; "-c"; "id"] (sample_proc 10123 (kstep enforcing (policy_call 10123 0))) zero_world []
    eq_refl ltac:(lia) eq_refl) as Hs.
  cbv zeta in Hs. destruct (su_main _ _ _ _ _) as [r h']. destruct Hs as [_ Hs].
  apply Hs. intros e (_ & Hf & Ha). apply Ha.
  assert (Some e = Some (entry_of 10123 0 false)) as [= ->] by (rewrite <-Hf; reflexivity).
  reflexivity.
Defined.

Lemma su_shell_identity_witness :
  getuid_of (p_cred (@su_process sample_api sample_setids 10123 (app_cred 0)
                       (sample_proc 2000 enforcing))) = 10123.
Proof.
  exact (proj1 (@su_shell_identity sample_api sample_setids sample_setids_laws 10123 (app_cred 0)
    (sample_proc 2000 enforcing) eq_refl)).
Defined.

Lemma su_after_sync_witness :
  let kb := {| kb_fd := -1; kb_rooted := false; kb_module := enforcing; kb_self := app_cred 0 |} in
  let p := sample_proc 2000
             (kb_module (Nat.iter 1 (sync_policies_to_kernel true sample_env 5) kb)) in
  (@su_main sample_api sample_setids sample_env ["su"; "-c"; "id"] p zero_world []).1
  = Exec SHELL_PATH [SHELL_PATH; "-c"; "id"]
      (@su_process sample_api sample_setids 0 (app_cred 0) p).
Proof.
  intros kb p.
  refine (@su_after_sync sample_api sample_setids sample_env 5 kb 1 sample_env (app_cred 0)
    ["su"; "-c"; "id"] (Some "id") 0 p zero_world [] _ _ _ _ _ _ _ _ _ _ _ _);
    try reflexivity; try (cbn; lia); try discriminate.
Defined.
