(* ===== verification/Client.v ===== *)
(** * Client: the frame codec and the client of the IPC socket

    [native/p4_ipc_client.c] as a whole: connection, request, response and
    output; [daemon/tests/test_frame_codec.cpp] and
    [daemon/fuzz/fuzz_frame_codec.cpp]: the codec the tests use as a
    reference for the server's framing (file Frame). *)

From Stdlib Require Import ZArith Ascii String Lia.
From stdpp Require Import base numbers list strings.
From S2P Require Import Prelude Lines Json Frame Policy Daemon.

Open Scope Z_scope.

(** ** The reference codec *)

(** [encodeFrame] is [Frame.frame]; the fuzz target has the same
    [decodeFrame] as the test. *)
Definition encodeFrame (payload : string) : string := be32 (u32 (str_size payload)) +:+ payload.

Definition decodeFrame (wire : string) : option string :=
  if str_size wire <? 4 then None
  else
    let len := be32_val (take_str 4 wire) in
    if (len =? 0) || (MAX_FRAME <? len) then None
    else if str_size wire <? 4 + len then None
    else Some (String.substring 4 (Z.to_nat len) wire).

(** [LLVMFuzzerTestOneInput]: does it reach [__builtin_trap]. *)
Definition fuzz_traps (data : string) : bool :=
  match decodeFrame data with
  | None => false
  | Some payload =>
      if is_empty payload then false
      else
        let roundtrip := default EmptyString (decodeFrame (encodeFrame payload)) in
        negb (str_eqb roundtrip payload)
  end.

(** ** The client *)

(** What one [read] of the client meets: bytes that have arrived, the end of
    the stream, or an error; what it does not take stays. *)
Inductive cread := CBytes (bs : string) | CEof | CErr.

Definition read_once (evs : list cread) (n : nat) : option string * list cread :=
  match evs with
  | [] => (Some EmptyString, [])
  | CEof :: evs' => (Some EmptyString, evs')
  | CErr :: evs' => (None, evs')
  | CBytes bs :: evs' =>
      if (String.length bs <=? n)%nat then (Some bs, evs')
      else (Some (take_str n bs), CBytes (drop_str n bs) :: evs')
  end.

Definition MAX_RESPONSE : Z := 16 * 1024 * 1024.

(** The loop of [recv_frame]: [buf] holds the [total] bytes read so far. *)
Fixpoint recv_loop (fuel : nat) (evs : list cread) (len : nat) (buf : string) : option string :=
  match fuel with
  | O => None
  | S fuel' =>
      if (String.length buf <? len)%nat then
        match read_once evs (len - String.length buf) with
        | (Some bs, evs') => if is_empty bs then None else recv_loop fuel' evs' len (buf +:+ bs)
        | (None, _) => None
        end
      else Some buf
  end.

(** [recv_frame]; an empty response is [Some] of the empty string.  Each
    round of the loop reads a byte, so [S len] rounds are enough. *)
Definition recv_frame (evs : list cread) : option string :=
  match read_once evs 4 with
  | (Some net_len, evs') =>
      if negb (str_size net_len =? 4) then None
      else
        let len := be32_val net_len in
        if len =? 0 then Some EmptyString
        else if MAX_RESPONSE <? len then None
        else recv_loop (S (Z.to_nat len)) evs' (Z.to_nat len) EmptyString
  | (None, _) => None
  end.

(** What one [write] of the client does when it returns; while it does not,
    the client waits. *)
Inductive send_ev := SendFails | SendTakes (k : nat).

(** One [write] of all of [data]: how much of it was sent, and whether it
    was taken in full.  Once [evs] is exhausted the kernel takes everything. *)
Definition write_once (evs : list send_ev) (data : string) : bool * list send_ev * string :=
  match evs with
  | [] => (true, [], data)
  | SendTakes k :: evs' => ((String.length data <=? k)%nat, evs', take_str k data)
  | SendFails :: evs' => (false, evs', EmptyString)
  end.

(** [send_frame]: success and what was sent. *)
Definition client_send (evs : list send_ev) (type : ascii) (body : string) : bool * string :=
  let body_len := str_size body in
  let payload_len := 1 + body_len in
  let '(ok, evs, s1) := write_once evs (be32 (u32 payload_len)) in
  if negb ok then (false, s1)
  else
    let '(ok, evs, s2) := write_once evs (String type EmptyString) in
    if negb ok then (false, s1 +:+ s2)
    else if 0 <? body_len then
      let '(ok, evs, s3) := write_once evs body in
      (ok, s1 +:+ s2 +:+ s3)
    else (true, s1 +:+ s2).

(** [sscanf(s, "%x", &v)]: white space, a sign, an optional 0x, then at least
    one hexadecimal digit. *)
Definition hex_val (c : ascii) : option Z :=
  let n := byte_val c in
  if (48 <=? n) && (n <=? 57) then Some (n - 48)
  else if (65 <=? n) && (n <=? 70) then Some (n - 55)
  else if (97 <=? n) && (n <=? 102) then Some (n - 87)
  else None.
Fixpoint scan_hex_digits (acc : option Z) (s : string) : option Z :=
  match s with
  | String c s' => match hex_val c with
                   | Some d => scan_hex_digits (Some (16 * default 0 acc + d)) s'
                   | None => acc
                   end
  | EmptyString => acc
  end.
Definition skip_0x (s : string) : string :=
  if starts_with "0x" s || starts_with "0X" s then drop_str 2 s else s.
Fixpoint scan_hex (s : string) : option Z :=
  match s with
  | String c s' =>
      if is_space c then scan_hex s'
      else if Ascii.eqb c (ascii_of_nat 45)
           then (fun z => u32 (- z)) <$> scan_hex_digits None (skip_0x s')
      else if Ascii.eqb c (ascii_of_nat 43) then u32 <$> scan_hex_digits None (skip_0x s')
      else u32 <$> scan_hex_digits None (skip_0x s)
  | EmptyString => None
  end.

(** [connect_socket]: a path longer than [sun_path] is cut. *)
Definition connect_socket (path : string) : Sys Z :=
  let! fd := sys_int (OpCall "socket" [] []) in
  if fd <? 0 then ret (-1)
  else
    let! r := sys_int (OpCall "connect" [take_str (SUN_PATH_SIZE - 1) path] [fd]) in
    if r <? 0 then (sys_do (OpCall "close" [] [fd]) ;;; ret (-1))
    else ret fd.

(** How a run of the client ends: exit code, the bytes sent to the server and
    the standard output. *)
Record client_result := { cr_code : Z; cr_sent : string; cr_stdout : string }.

(** [main] with its arguments; the server's side of the connection is what
    its reads and writes meet. *)
Definition client_main (argv : list string) (wevs : list send_ev) (revs : list cread)
    : Sys client_result :=
  let fail sent := {| cr_code := 1; cr_sent := sent; cr_stdout := EmptyString |} in
  match argv with
  | _ :: socket_path :: type_hex :: rest =>
      match scan_hex type_hex with
      | None => ret (fail EmptyString)
      | Some type_val =>
          if 255 <? type_val then ret (fail EmptyString)
          else
            let type := byte_of type_val in
            let body := match rest with b :: _ => b | [] => EmptyString end in
            let! fd := connect_socket socket_path in
            if fd <? 0 then ret (fail EmptyString)
            else
              let '(ok, sent) := client_send wevs type body in
              let resp := if ok then recv_frame revs else None in
              sys_do (OpCall "close" [] [fd]) ;;;
              ret match resp with
                  | None => fail sent
                  | Some resp =>
                      {| cr_code := 0; cr_sent := sent;
                         cr_stdout := if 0 <? str_size resp then drop_str 1 resp +:+ nl
                                      else "(empty response)" +:+ nl |}
                  end
      end
  | _ => ret (fail EmptyString)
  end.

(** ** The codec and the server's loop *)

Lemma length_take_4 s : 4 <= str_size s -> String.length (take_str 4 s) = 4%nat.
Proof. intros Hs. apply length_take_str. unfold str_size in Hs. lia. Qed.

Lemma substring_from n k s :
  (n <= String.length s)%nat -> String.substring n k s = take_str k (drop_str n s).
Proof.
  intros Hn. pose proof (substring_at (take_str n s) (drop_str n s) k) as E.
  by rewrite take_drop_str, length_take_str in E.
Qed.

Lemma be32_val_bound s : 0 <= be32_val s < 2 ^ 32.
Proof.
  unfold be32_val. destruct s as [|a [|b [|c [|d s]]]]; try lia.
  pose proof (byte_val_bound a). pose proof (byte_val_bound b). pose proof (byte_val_bound c).
  pose proof (byte_val_bound d). lia.
Qed.

Lemma decode_encode p rest :
  request_ok p -> decodeFrame (encodeFrame p +:+ rest) = Some p.
Proof.
  intros [Hp1 Hp2]. unfold MAX_FRAME in Hp2. unfold decodeFrame, encodeFrame.
  assert (Hu : u32 (str_size p) = str_size p) by (apply Z.mod_small; lia). rewrite Hu.
  rewrite app_str_assoc. unfold str_size at 1. rewrite length_app_str, length_be32.
  rewrite (proj2 (Z.ltb_ge _ _)) by lia.
  change (take_str 4 ?s) with (take_str (String.length (be32 (str_size p))) s).
  assert (be32_val (be32 (str_size p)) = str_size p) as Hb
    by (rewrite <-(app_str_nil_r (be32 _)); apply be32_val_be32; lia).
  rewrite take_str_app, Hb.
  rewrite (proj2 (Z.eqb_neq _ _)), (proj2 (Z.ltb_ge MAX_FRAME _)) by (unfold MAX_FRAME; lia).
  cbn [orb]. unfold str_size at 1. rewrite !length_app_str, length_be32.
  rewrite (proj2 (Z.ltb_ge _ _)) by (unfold str_size; lia). f_equal.
  unfold str_size. rewrite Nat2Z.id. exact (take_str_app p rest).
Qed.

Lemma decode_request_ok s p : decodeFrame s = Some p -> request_ok p.
Proof.
  unfold decodeFrame. destruct (Z.ltb_spec (str_size s) 4); [done|]. cbv zeta.
  destruct (_ || _) eqn:E; [done|]. apply orb_false_iff in E as [E1%Z.eqb_neq E2%Z.ltb_ge].
  set (len := be32_val _) in *. pose proof (be32_val_bound (take_str 4 s)).
  destruct (Z.ltb_spec (str_size s) (4 + len)); [done|]. intros [= <-].
  rewrite substring_from by (unfold str_size in *; lia).
  assert (Hl : String.length (take_str (Z.to_nat len) (drop_str 4 s)) = Z.to_nat len).
  { apply length_take_str. rewrite length_drop_str; unfold str_size in *; lia. }
  unfold request_ok, str_size. rewrite Hl. unfold len in *. lia.
Qed.

(** The codec's round trip: a payload of 1 byte to 8 MiB is decoded from
    its frame whatever follows it; a payload outside these bounds is not
    decoded; and the fuzz target never traps, on any input. *)
Theorem frame_codec_round_trip :
  (forall p rest, request_ok p -> decodeFrame (encodeFrame p +:+ rest) = Some p)
  /\ (forall p, str_size p < 2 ^ 32 -> ~ request_ok p -> decodeFrame (encodeFrame p) = None)
  /\ (forall data, fuzz_traps data = false).
Proof.
  split; [apply decode_encode|]. split.
  - intros p Hp Hno. unfold decodeFrame. destruct (_ <? 4); [done|]. cbv zeta.
    assert (be32_val (take_str 4 (encodeFrame p)) = str_size p) as ->.
    { unfold encodeFrame. change (take_str 4 ?s) with
        (take_str (String.length (be32 (u32 (str_size p)))) s).
      rewrite take_str_app, <-(app_str_nil_r (be32 _)). unfold u32.
      rewrite Z.mod_small by (unfold str_size in *; lia).
      apply be32_val_be32. unfold str_size in *. lia. }
    destruct (Z.eqb_spec (str_size p) 0); [done|].
    destruct (Z.ltb_spec MAX_FRAME (str_size p)); [done|]. exfalso. apply Hno.
    unfold request_ok, str_size in *. lia.
  - intros data. unfold fuzz_traps. destruct (decodeFrame data) as [p|] eqn:E; [|done].
    destruct (is_empty p); [done|]. apply decode_request_ok in E.
    pose proof (decode_encode p EmptyString E) as Hd. rewrite app_str_nil_r in Hd. rewrite Hd.
    cbn. by rewrite str_eqb_refl.
Qed.

Lemma readExact_short evs n acc s :
  delivers evs s -> (String.length acc + String.length s < n)%nat ->
  exists evs', readExactWithTimeout evs n acc = (None, evs').
Proof.
  revert acc s. induction evs as [|e evs IH]; intros acc s [Hb Hd] Hn; cbn [readExactWithTimeout];
    rewrite (proj2 (Nat.ltb_lt _ _)) by lia; [by eexists|].
  destruct e as [| | | | | |bs]; cbn in Hb, Hd; try done; try by (eapply IH; [split|]).
  destruct Hb as [Hne Hb]. subst s. rewrite length_app_str in Hn.
  rewrite (proj2 (is_empty_false bs) Hne), (proj2 (Nat.leb_le _ _)) by lia.
  eapply IH; [by split|]. rewrite length_app_str. lia.
Qed.

(** The server with a handler that notes the payloads it is given and
    answers nothing, which ends the connection. *)
Definition noting : option (list string -> string -> option (list string * string)) :=
  Some (fun seen p => Some (seen ++ [p], EmptyString)).

(** The reference codec decides what the server reads: however the bytes
    of a connection arrive, the first payload the loop of [handle_client]
    hands to its handler is the one [decodeFrame] finds, and there is none
    when [decodeFrame] refuses. *)
Theorem server_reads_as_codec c s live :
  delivers (rd c) s -> live 0%nat = true -> ~ In WriteBlocks (wr c) ->
  exists c', handle_client noting (client_fuel c) live 0 [] c
             = Ended (match decodeFrame s with Some p => [p] | None => [] end) c'.
Proof.
  intros Hd Hl Hw. unfold client_fuel. cbn [handle_client]. rewrite Hl. unfold decodeFrame.
  destruct (Z.ltb_spec (str_size s) 4) as [H4|H4].
  { destruct (readExact_short (rd c) 4 EmptyString s Hd) as (e & E);
      [unfold str_size in H4; cbn; lia|].
    unfold read_exact. rewrite E. by eexists. }
  pose proof (take_drop_str 4 s) as Hs. rewrite <-Hs in Hd by (unfold str_size in H4; lia).
  pose proof (length_take_4 s H4) as Hl4.
  destruct (readExact_delivers (rd c) 4 EmptyString _ _ Hd) as (e1 & E1 & D1); [by rewrite Hl4|].
  unfold read_exact at 1. rewrite E1. cbn [String.append].
  pose proof (be32_val_bound (take_str 4 s)) as Hb. set (len := be32_val _) in *.
  destruct ((len =? 0) || (MAX_FRAME <? len)) eqn:Eb; [by eexists|].
  unfold read_exact. cbn [rd wr out].
  assert (Hdl : String.length (drop_str 4 s) = (String.length s - 4)%nat)
    by (apply length_drop_str; unfold str_size in H4; lia).
  destruct (Z.ltb_spec (str_size s) (4 + len)) as [Hc|Hc].
  { destruct (readExact_short e1 (Z.to_nat len) EmptyString _ D1) as (e2 & ->);
      [rewrite Hdl; unfold str_size in *; cbn; lia|]. by eexists. }
  assert (Hlen : (Z.to_nat len <= String.length (drop_str 4 s))%nat)
    by (rewrite Hdl; unfold str_size in *; lia).
  rewrite <-(take_drop_str (Z.to_nat len) (drop_str 4 s) Hlen) in D1.
  destruct (readExact_delivers e1 (Z.to_nat len) EmptyString _ _ D1) as (e2 & E2 & _);
    [cbn; by apply length_take_str|].
  rewrite E2. cbn [String.append noting call_handler is_empty app].
  destruct (write_exact _ (be32 0)) as [ok c3] eqn:E3.
  apply write_exact_stuck in E3 as [_ E3]. cbn in E3.
  destruct ok; [..|by destruct (Hw (E3 eq_refl))]; exists c3; do 2 f_equal;
  by rewrite substring_from by (unfold str_size in H4; lia).
Qed.

(** ** The client and the server together *)

Fixpoint cdata (evs : list cread) : string :=
  match evs with
  | CBytes bs :: evs' => bs +:+ cdata evs'
  | _ :: evs' => cdata evs'
  | [] => EmptyString
  end.
(** The bytes of [s] arrive, in pieces of any size. *)
Definition arrives (evs : list cread) (s : string) : Prop :=
  Forall (fun e => exists bs, e = CBytes bs /\ bs <> EmptyString) evs /\ cdata evs = s.
(** The first piece holds at least the length prefix. *)
Definition header_whole (evs : list cread) : bool :=
  match evs with CBytes bs :: _ => (4 <=? String.length bs)%nat | _ => false end.

Lemma recv_loop_arrives fuel : forall evs len buf a b,
  arrives evs (a +:+ b) -> (String.length buf + String.length a = len)%nat ->
  (String.length a < fuel)%nat -> recv_loop fuel evs len buf = Some (buf +:+ a).
Proof.
  induction fuel as [|fuel IH]; intros evs len buf a b [Hev Hd] Hl Hf; [lia|]. cbn [recv_loop].
  destruct (Nat.ltb_spec (String.length buf) len) as [Hlt|Hge].
  2:{ destruct a; cbn in Hl; [by rewrite app_str_nil_r|lia]. }
  destruct Hev as [|e evs (bs & -> & Hne) Hev]; cbn [cdata] in Hd.
  { destruct a; cbn in *; [lia|done]. }
  cbn [read_once]. destruct (Nat.leb_spec (String.length bs) (len - String.length buf)) as [Hle|Hgt].
  - rewrite (proj2 (is_empty_false bs) Hne).
    destruct (app_str_split bs (cdata evs) a b Hd) as (a' & -> & Ed); [lia|].
    rewrite length_app_str in Hl, Hf. destruct bs as [|c bs]; [done|].
    rewrite (IH evs len (buf +:+ String c bs) a' b).
    + by rewrite app_str_assoc.
    + by split.
    + rewrite length_app_str. lia.
    + cbn in Hf. lia.
  - symmetry in Hd. destruct (app_str_split a b bs (cdata evs) Hd) as (r & -> & Eb); [lia|].
    replace (len - String.length buf)%nat with (String.length a) by lia.
    rewrite take_str_app. destruct a as [|c a]; [cbn in Hl; lia|]. cbn [is_empty].
    destruct fuel as [|fuel]; [cbn in Hf; lia|]. cbn [recv_loop].
    rewrite (proj2 (Nat.ltb_ge _ _)) by (rewrite length_app_str; lia). done.
Qed.

Lemma recv_frame_arrives evs p :
  arrives evs (frame p) -> 1 <= str_size p <= MAX_RESPONSE ->
  recv_frame evs = if header_whole evs then Some p else None.
Proof.
  intros [Hev Hd] [Hp1 Hp2]. unfold MAX_RESPONSE in Hp2. unfold frame in Hd.
  assert (Hu : u32 (str_size p) = str_size p) by (apply Z.mod_small; lia). rewrite Hu in Hd.
  assert (Hb : be32_val (be32 (str_size p)) = str_size p)
    by (rewrite <-(app_str_nil_r (be32 _)); apply be32_val_be32; lia).
  destruct Hev as [|e evs (bs & -> & Hne) Hev]; [done|]. cbn [cdata] in Hd.
  unfold recv_frame. cbn [read_once header_whole].
  destruct (Nat.leb_spec (String.length bs) 4) as [Hle|Hgt].
  - unfold str_size at 1.
    destruct (Nat.leb_spec 4 (String.length bs)) as [H4|H4].
    2:{ by rewrite (proj2 (Z.eqb_neq _ _)) by lia. }
    rewrite (proj2 (Z.eqb_eq _ _)) by lia. cbn [negb].
    apply app_str_inj_length in Hd as [-> Hd]; [|rewrite length_be32; lia]. rewrite Hb.
    rewrite (proj2 (Z.eqb_neq _ _)), (proj2 (Z.ltb_ge _ _)) by (unfold MAX_RESPONSE; lia).
    apply (recv_loop_arrives _ evs _ EmptyString p EmptyString).
    + split; [done|]. by rewrite app_str_nil_r.
    + unfold str_size. cbn. lia.
    + unfold str_size. lia.
  - symmetry in Hd. destruct (app_str_split _ _ _ _ Hd) as (r & -> & Er); [rewrite length_be32; lia|].
    rewrite (proj2 (Nat.leb_le _ _)) by (rewrite length_app_str, length_be32; lia).
    change (take_str 4 ?s) with (take_str (String.length (be32 (str_size p))) s).
    change (drop_str 4 ?s) with (drop_str (String.length (be32 (str_size p))) s).
    rewrite take_str_app, drop_str_app. cbn [str_size]. unfold str_size at 1. rewrite length_be32.
    cbn [Z.of_nat Z.eqb negb]. rewrite Hb.
    change (Z.of_nat 4 =? 4) with true. cbn [negb].
    rewrite (proj2 (Z.eqb_neq _ _)), (proj2 (Z.ltb_ge _ _)) by (unfold MAX_RESPONSE; lia).
    apply (recv_loop_arrives _ _ _ EmptyString p EmptyString).
    + split; [|by rewrite app_str_nil_r]. constructor; [|done].
      exists r. split; [done|]. rewrite length_app_str, length_be32 in Hgt. intros ->. cbn in Hgt. lia.
    + unfold str_size. cbn. lia.
    + unfold str_size. lia.
Qed.

Lemma write_once_full evs data evs' sent :
  write_once evs data = (true, evs', sent) -> sent = data.
Proof.
  destruct evs as [|[|k] evs]; cbn; intros [=]; try done.
  subst. unfold take_str. apply substring_over. by apply Nat.leb_le.
Qed.

Lemma client_send_frame wevs type body sent :
  client_send wevs type body = (true, sent) -> sent = frame (String type body).
Proof.
  rewrite <-send_frame_is_frame. unfold client_send, send_frame.
  destruct (write_once wevs _) as [[[] e1] s1] eqn:E1; [|done]. apply write_once_full in E1 as ->.
  cbn [negb]. destruct (write_once e1 _) as [[[] e2] s2] eqn:E2; [|done].
  apply write_once_full in E2 as ->. cbn [negb]. destruct (0 <? str_size body).
  - destruct (write_once e2 body) as [[ok e3] s3] eqn:E3. intros [= -> <-].
    by apply write_once_full in E3 as ->.
  - intros [= <-]. cbn. done.
Qed.

(** C37: Client and server: for a request the client managed to send over an
    accepted connection, the server's loop hands exactly its type and body to
    the daemon's dispatcher and the client prints exactly the JSON text that
    dispatcher returned, followed by a newline, and exits with 0, provided
    the four bytes of the response's length arrive together; if they arrive
    split, the client gives up with exit code 1 and prints nothing.  The
    request with its type byte has at most the server's 8 MiB, the response at
    most the client's 16 MiB. *)
Theorem client_daemon_round_trip `{JsonLib} `{PolicyFFI} w st type_hex type body path d' json h'
    (c : conn) live wevs revs cw ch :
  scan_hex type_hex = Some (byte_val type) ->
  dispatch st.1 (byte_val type) body w st.2 = (Some (d', json), h') ->
  request_ok (String type body) -> 1 + str_size json <= MAX_RESPONSE ->
  0 <= w_int cw ch (OpCall "socket" [] []) ->
  (forall h o, 0 <= w_int cw h (OpCall "connect" [take_str (SUN_PATH_SIZE - 1) path] o)) ->
  (client_send wevs type body).1 = true ->
  delivers (rd c) (client_send wevs type body).2 -> wr_benign (wr c) -> out c = EmptyString ->
  (forall j, live j = true) ->
  exists c', handle_client (Some (server_handler w)) (client_fuel c) live 0 st c = Ended (d', h') c'
    /\ (arrives revs (out c') ->
        (client_main ["p4_ipc_client"; path; type_hex; body] wevs revs cw ch).1
        = if header_whole revs
          then {| cr_code := 0; cr_sent := frame (String type body); cr_stdout := json +:+ nl |}
          else {| cr_code := 1; cr_sent := frame (String type body); cr_stdout := EmptyString |}).
Proof.
  intros Hhex Hdis Hreq Hmax Hsock Hconn Hok Hdel Hwr Hout Hlive.
  destruct (client_send wevs type body) as [ok sent] eqn:Es. cbn in Hok, Hdel. subst ok.
  pose proof (client_send_frame _ _ _ _ Es) as ->.
  pose proof (handle_client_serves (Some (server_handler w)) [String type body] (client_fuel c) live
    0%nat st c) as Hs. cbn [serve call_handler] in Hs.
  assert (Hh : server_handler w st (String type body) = Some ((d', h'), String type json)).
  { unfold server_handler, handler, bind. by rewrite Hdis. }
  rewrite Hh in Hs. cbn [is_empty] in Hs.
  destruct Hs as (c' & Hc' & Ho); [by constructor|cbn; by rewrite app_str_nil_r|done|done|
    unfold client_fuel; lia|].
  exists c'. split; [done|]. intros Harr. rewrite Ho, Hout, app_str_nil_r in Harr. cbn in Harr.
  pose proof (recv_frame_arrives revs (String type json) Harr) as Hr.
  unfold client_main. rewrite Hhex. rewrite (proj2 (Z.ltb_ge _ _)) by (pose proof (byte_val_bound type); lia).
  unfold bind at 1, connect_socket, bind at 1, sys_int.
  rewrite (proj2 (Z.ltb_ge _ 0) Hsock). unfold bind at 1. rewrite (proj2 (Z.ltb_ge _ 0) (Hconn _ _)).
  unfold ret at 1. rewrite (proj2 (Z.ltb_ge _ 0) Hsock), byte_of_val, Es.
  unfold bind, sys_do, ret. cbn [fst]. rewrite Hr by (unfold str_size in *; cbn [String.length]; lia).
  destruct (header_whole revs); [|done].
  rewrite (proj2 (Z.ltb_lt _ _)) by (unfold str_size; cbn [String.length]; lia).
  change (drop_str 1 (String type json)) with (drop_str (String.length (String type EmptyString))
    (String type EmptyString +:+ json)). by rewrite drop_str_app.
Qed.

(** ** Concrete runs *)

Lemma server_reads_as_codec_witness :
  exists c', handle_client noting 6 (fun _ => true) 0 []
    (Conn (byte_chunks (be32 1 +:+ "a")) [] EmptyString) = Ended ["a"] c'.
Proof.
  apply (server_reads_as_codec (Conn (byte_chunks (be32 1 +:+ "a")) [] EmptyString)
           (be32 1 +:+ "a") (fun _ => true)).
  - split; [vm_compute; repeat split; discriminate|reflexivity].
  - reflexivity.
  - intros [].
Defined.

Definition accepting_world : World := {|
  w_exists := fun _ _ => true; w_read := fun _ _ => None; w_popen := fun _ _ => None;
  w_now := fun _ => EmptyString; w_int := fun _ _ => 3 |}.
Definition ping_json : string := default EmptyString (@make_ping_response sample_lib "0.1.0" (-1)).
Definition ping : ascii := byte_of 4.

Lemma client_daemon_round_trip_witness :
  (client_main ["p4_ipc_client"; "/dev/astra/astrad.sock"; "04"; EmptyString] []
     [CBytes (be32 (str_size (String ping ping_json))); CBytes (String ping ping_json)]
     accepting_world []).1
  = {| cr_code := 0; cr_sent := frame (String ping EmptyString); cr_stdout := ping_json +:+ nl |}.
Proof.
  set (revs := [CBytes _; CBytes _]).
  destruct (@client_daemon_round_trip sample_lib rust_engine (ksu_shell EmptyString) (ksu_daemon, [])
    "04" ping EmptyString "/dev/astra/astrad.sock" ksu_daemon ping_json
    [OpCall "uptime_ms" [] []] (Conn (byte_chunks (frame (String ping EmptyString))) [] EmptyString)
    (fun _ => true) [] revs accepting_world []) as (c' & Hc & Hr).
  - reflexivity.
  - vm_compute. reflexivity.
  - vm_compute. split; discriminate.
  - vm_compute. discriminate.
  - vm_compute. discriminate.
  - intros h o. vm_compute. discriminate.
  - reflexivity.
  - split; [vm_compute; repeat split; discriminate|reflexivity].
  - constructor.
  - reflexivity.
  - reflexivity.
  - apply Hr. vm_compute in Hc. injection Hc as <-. split; [|reflexivity].
    repeat constructor; eexists; (split; [reflexivity|discriminate]).
Defined.
