(* ===== verification/Native.v ===== *)
(** * Native: the probes of the application's native library

    [native/src/main/cpp/]: the JNI functions of [astra_native.cpp], which the
    application calls directly, and the probes of [capability_probe.cpp] and
    [su_scanner.cpp].  JNI conversions of strings are left out; a [jboolean]
    is a [bool].  [None] is the exception of [std::filesystem::exists], which
    nothing catches before it reaches the virtual machine. *)

From Stdlib Require Import ZArith Ascii String Lia.
From stdpp Require Import base numbers list strings gmap.
From S2P Require Import Prelude Lines Capability.

Open Scope Z_scope.

(** ** astra_native.cpp *)

Definition read_sysfs (path : string) : Sys string :=
  let! f := sys_read path in
  ret match f with Some content => first_getline content | None => EmptyString end.

(** [std::filesystem::perms::owner_exec]. *)
Definition OWNER_EXEC : Z := 64.
Definition is_executable (path : string) : Sys (option bool) :=
  let? e := sys_fs_exists path in
  if e then
    let! perms := sys_int (OpCall "status.permissions" [path] []) in
    if perms <? 0 then ret None
    else ret (Some (negb (Z.land perms OWNER_EXEC =? 0)))
  else ret (Some false).

Definition su_paths : list string :=
  ["/system/bin/su"; "/system/xbin/su"; "/sbin/su"; "/vendor/bin/su"; "/system/sd/xbin/su";
   "/system/bin/failsafe/su"; "/data/adb/magisk/magisk"; "/data/adb/ksu/bin/ksud";
   "/data/adb/ap/bin/apd"].
Fixpoint scan_paths (paths found : list string) : Sys (option (list string)) :=
  match paths with
  | [] => ret (Some found)
  | p :: paths' =>
      let? e := sys_fs_exists p in
      scan_paths paths' (if e then found ++ [p] else found)
  end.
Definition scan_su_paths : Sys (option (list string)) := scan_paths su_paths [].

Definition nativeGetKernelVersion : Sys string :=
  let! content := read_sysfs "/proc/version" in
  ret match str_find "Linux version " content 0 with
      | Some pos =>
          let start := (pos + 14)%nat in
          match str_find " " content start with
          | Some end_ => String.substring start (end_ - start) content
          | None => drop_str start content
          end
      | None => content
      end.

Definition nativeGetSelinuxStatus : Sys Z :=
  let! val := read_sysfs "/sys/fs/selinux/enforce" in
  ret (if is_empty val then -1 else if str_eqb val "1" then 1 else 0).

(** The loop [while (std::getline(f, line))]. *)
Fixpoint any_overlay (lines : list string) : bool :=
  match lines with
  | [] => false
  | line :: lines' => if contains line "overlay" then true else any_overlay lines'
  end.

Definition nativeHasOverlayFs : Sys bool :=
  let! f := sys_read "/proc/filesystems" in
  ret match f with Some content => any_overlay (getlines content) | None => false end.

Definition nativeScanSuPaths : Sys (option (list string)) := scan_su_paths.

Definition nativeHasNamespace (nsType : string) : Sys (option bool) :=
  sys_fs_exists ("/proc/self/ns/" +:+ nsType).

Definition nativeHasKernelConfig : Sys (option bool) := sys_fs_exists "/proc/config.gz".

Definition RTLD_LOCAL : Z := 0.
Definition RTLD_LAZY : Z := 1.
Definition RTLD_NOLOAD : Z := 4.
Definition dlopen_flags (path : string) (flags : Z) : Sys Z :=
  sys_int (OpCall "dlopen" [path] [flags]).

Definition nativeInvokeModuleEntry (soPath symbol : string) : Sys bool :=
  let! handle := dlopen_flags soPath (Z.lor RTLD_NOLOAD RTLD_LAZY) in
  let! handle := (if handle =? 0 then dlopen_flags soPath (Z.lor RTLD_LAZY RTLD_LOCAL)
                  else ret handle) in
  if handle =? 0 then ret false
  else
    let! entry := sys_int (OpCall "dlsym" [symbol] [handle]) in
    if entry =? 0 then ret false
    else
      let! _ := sys_int (OpCall "entry" [] [entry]) in
      ret true.

(** ** capability_probe.cpp *)

(** [release] is what [uname] reports. *)
Definition read_kernel_version (release : string) : Sys string :=
  let! ok := sys_ok (OpCall "uname" [] []) in
  ret (if ok then release else "unknown").

Definition check_overlayfs : Sys bool :=
  let! f := sys_read "/proc/filesystems" in
  ret (any_overlay (getlines (default EmptyString f))).

Definition check_namespace : Sys bool :=
  let! f := sys_read "/proc/self/ns/mnt" in
  ret (match f with Some _ => true | None => false end).

(** ** su_scanner.cpp *)

Definition scanner_paths : list string :=
  ["/system/bin/su"; "/system/xbin/su"; "/sbin/su"; "/vendor/bin/su"; "/system/sd/xbin/su"].
Fixpoint first_existing (paths : list string) : Sys bool :=
  match paths with
  | [] => ret false
  | p :: paths' => let! e := sys_exists p in if e then ret true else first_existing paths'
  end.
Definition su_path_exists : Sys bool := first_existing scanner_paths.

(** ** What the probes report *)

Lemma any_overlay_existsb ls : any_overlay ls = existsb (fun l => contains l "overlay") ls.
Proof. induction ls as [|l ls IH]; [done|]. cbn. by destruct (contains l "overlay"). Qed.

(** A device whose files do not change while it is probed. *)
Definition steady (w : World) : Prop :=
  forall h h' p, w_exists w h p = w_exists w h' p /\ stat_error w h p = stat_error w h' p.

Lemma scan_paths_steady w h paths : forall found h',
  steady w ->
  (scan_paths paths found w h').1 =
    if existsb (fun p => stat_error w h p) paths then None
    else Some (found ++ List.filter (fun p => w_exists w h p) paths).
Proof.
  induction paths as [|p paths IH]; intros found h' Hs; cbn; [by rewrite app_nil_r|].
  unfold try_bind, bind, sys_fs_exists. destruct (Hs h' h p) as [-> ->].
  destruct (stat_error w h p); [done|]. cbn [orb]. rewrite IH by done.
  destruct (existsb _ paths); [done|].
  destruct (w_exists w h p); [|done]. by rewrite <-(assoc_L (++)).
Qed.

Lemma first_existing_steady w h paths : forall h',
  steady w -> (first_existing paths w h').1 = existsb (fun p => w_exists w h p) paths.
Proof.
  induction paths as [|p paths IH]; intros h' Hs; cbn; [done|].
  unfold bind, sys_exists. destruct (Hs h' h p) as [-> _]. destruct (w_exists w h p); [done|]. by apply IH.
Qed.

(** The probes of the application agree with one another and with the
    daemon's: overlayfs is reported by the JNI probe, by the native one and
    by the daemon's [probe_overlayfs] alike, in every state of the system;
    and on a device that does not change meanwhile the scan for su binaries
    throws exactly when one of the known paths cannot be looked at, and
    otherwise lists those that exist, in order, which is not empty when
    [su_path_exists] says so. *)
Theorem native_probes_agree w h :
  (nativeHasOverlayFs w h).1 = (check_overlayfs w h).1
  /\ (nativeHasOverlayFs w h).1 = probe_available (probe_overlayfs w h).1
  /\ (steady w ->
      ((nativeScanSuPaths w h).1 = None <-> exists p, In p su_paths /\ stat_error w h p = true)
      /\ (forall found, (nativeScanSuPaths w h).1 = Some found ->
            found = List.filter (fun p => w_exists w h p) su_paths
            /\ ((su_path_exists w h).1 = true -> found <> []))).
Proof.
  split_and!.
  - unfold nativeHasOverlayFs, check_overlayfs, bind, sys_read, ret.
    by destruct (w_read w h "/proc/filesystems").
  - unfold nativeHasOverlayFs, probe_overlayfs, read_file_contains, bind, sys_read, ret.
    destruct (w_read w h "/proc/filesystems"); [|done]. cbn. apply any_overlay_existsb.
  - intros Hs. pose proof (scan_paths_steady w h su_paths [] h Hs) as E.
    change (scan_paths su_paths []) with nativeScanSuPaths in E. rewrite E.
    rewrite <-(existsb_exists (fun p => stat_error w h p) su_paths).
    destruct (existsb (fun p => stat_error w h p) su_paths); (split; [done|]); [done|].
    intros found Ef. assert (found = List.filter (fun p => w_exists w h p) su_paths) as ->
      by (change ([] ++ ?l) with l in Ef; congruence).
    split; [done|]. clear Ef E. unfold su_path_exists.
    rewrite (first_existing_steady w h) by done.
    rewrite existsb_exists. intros (p & Hin & Hp) En.
    assert (In p (List.filter (fun p => w_exists w h p) su_paths)) as Hf.
    { apply filter_In. split; [|done]. unfold su_paths. cbn in *. tauto. }
    by rewrite En in Hf.
Qed.

(** An application without root may not search [/data/adb]: its scan throws. *)
Definition app_sandbox : World :=
  {| w_exists _ _ := false; w_read _ _ := None; w_popen _ _ := None; w_now _ := EmptyString;
     w_int _ o := match o with OpExists p => if starts_with "/data/adb/" p then 13 else 0 | _ => 0 end |}.
Example scan_throws_without_root : (nativeScanSuPaths app_sandbox []).1 = None.
Proof. reflexivity. Qed.

(** The kernel version is the word after the first [Linux version ] of the
    first line, and the whole line when there is none. *)
Lemma kernel_version_word w h content pre version rest :
  w_read w h "/proc/version" = Some content ->
  first_getline content = pre +:+ "Linux version " +:+ version +:+ " " +:+ rest ->
  str_find "Linux version " (first_getline content) 0 = Some (String.length pre) ->
  no_char " " version ->
  (nativeGetKernelVersion w h).1 = version.
Proof.
  intros Hr Hf Hpos Hv. unfold nativeGetKernelVersion, read_sysfs, bind, sys_read, ret.
  rewrite Hr. cbn [fst]. rewrite Hpos, Hf. rewrite <-(app_str_assoc pre).
  replace (String.length pre + 14)%nat with (String.length (pre +:+ "Linux version "))
    by by rewrite length_app_str.
  rewrite str_find_at.
  change (version +:+ " " +:+ rest) with (version +:+ String " " rest).
  rewrite (str_find_char " " version rest Hv : str_find " " _ 0 = _). cbn [option_map].
  rewrite substring_at, Nat.add_sub_swap, Nat.sub_diag by lia. apply take_str_app.
Qed.

(** Invoking a module's entry: the entry runs at most once, only through
    a symbol that was resolved in a library that was opened, and the result
    says whether it ran; a library is opened a second time only when it was
    not loaded yet, and no handle is closed. *)
Theorem invoke_entry_spec soPath symbol w h :
  let '(r, h') := nativeInvokeModuleEntry soPath symbol w h in
  let first := OpCall "dlopen" [soPath] [5] in
  let second := OpCall "dlopen" [soPath] [1] in
  let loaded := w_int w h first in
  let '(handle, h1) := if loaded =? 0
    then (w_int w (h ++ [first]) second, (h ++ [first]) ++ [second]) else (loaded, h ++ [first]) in
  let lookup := OpCall "dlsym" [symbol] [handle] in
  let entry := w_int w h1 lookup in
  (r = true <-> handle <> 0 /\ entry <> 0)
  /\ h' = (if handle =? 0 then h1
           else if entry =? 0 then h1 ++ [lookup]
           else (h1 ++ [lookup]) ++ [OpCall "entry" [] [entry]]).
Proof.
  unfold nativeInvokeModuleEntry, dlopen_flags, bind, sys_int, ret.
  change (Z.lor RTLD_NOLOAD RTLD_LAZY) with 5. change (Z.lor RTLD_LAZY RTLD_LOCAL) with 1.
  destruct (Z.eqb_spec (w_int w h (OpCall "dlopen" [soPath] [5])) 0) as [E|E]; cbv zeta beta iota;
    repeat (match goal with |- context [if ?x =? 0 then _ else _] => destruct (Z.eqb_spec x 0) end;
            cbv beta iota); try done;
    (split; [|done]); (split; [done|by intros [? ?]]).
Qed.
